(* ===== verification/_CoqProject ===== *)
-Q . S2P
Prelude.v
Machine.v
Objects.v
Memory.v
HeapLogic.v
Status.v
StatusTheorems.v
Strides.v
Tensor.v
TensorSpec.v
ForceTypes.v
Potential.v
Utf8.v
RpcEnv.v
RpcClient.v
RpcServer.v
RpcSpec.v
Environment.v
TensorTheorems.v
UnitTests.v
ApiTheorems.v
Callbacks.v
RpcTheorems.v
RpcPeers.v
ServerLoop.v
HandleSpec.v
HandleTable.v
HandleSim.v
HandleSimCalls.v
HandleEval.v
HandleTheorems.v
BuildScript.v
BuildTheorems.v
SharedServers.v
SharedTheorems.v
CxxEffects.v
CxxWrappers.v
CxxSpec.v
CxxTrampoline.v
CxxTheorems.v
CxxPrograms.v
CxxRegistry.v
CxxCore.v
CxxCoreTheorems.v
CxxServer.v
CxxServerTheorems.v
CxxEquivalence.v
FloatArith.v
LennardJones.v
LennardJonesTheorems.v
LennardJonesReals.v
Cuh2Utils.v
Cuh2UtilsTheorems.v
CxxMain.v
CxxMainTheorems.v
CxxSession.v
CxxOwnership.v
CxxAdapters.v
CxxUnitTests.v
