(* ===== verification/Prelude.v ===== *)
(** * rgpot: a verification library

    [rgpot] evaluates potential energy surfaces, locally and over Cap'n Proto RPC.  This
    library models its Rust core, src/rgpot-core, the C++ classes around it, src/include, and
    the C++ core, src/CppCore, and proves what makes them correct: which memory every C entry
    point and every C++ object owns and releases, what each one answers on every branch, and
    that a remote evaluation equals a local one, in either language.

    ** The program

    - src/status.rs: the status codes, the thread-local message of the last error and the
      panic guard [catch_unwind].
    - src/tensor.rs: DLPack tensors on the CPU.  A tensor is a heap-allocated header with a
      manager context that owns the shape, the strides and, for an owned tensor, the data;
      a deleter stored in the header releases both.
    - src/types.rs, src/c_api/types.rs: the input struct of three tensors and the output
      struct of a forces tensor, an energy and a variance, with their C constructors.
    - src/potential.rs, src/c_api/potential.rs: a handle for a callback of the C side with
      its user data and destructor.
    - src/rpc/client.rs, src/c_api/rpc.rs: the client reads the input's arrays, sends them,
      and turns the reply into an owned forces tensor.
    - src/rpc/server.rs: each request is copied into vectors, wrapped in borrowed tensors and
      handed to the callback; the forces are copied out and everything is freed.
    - build.rs, src/lib.rs: the build script writes the C header and provides the generated
      schema module, which lib.rs includes.
    - src/include/rgpot: the C++ classes that own inputs, results, handles and clients and
      release them in their destructors; a status becomes an exception; a template trampoline
      makes a legacy C++ potential the callback of a handle.
    - src/CppCore/rgpot: the potentials with their registry and matrices, the Lennard-Jones
      potential, the copper-hydrogen potential and its numeric utilities, the cache over
      RocksDB, the C++ server with its executable, the C bridge to it, and conversions to the
      matrices of other libraries.

    ** The files

    - [Machine]: 64-bit integers over [Z] with explicit truncation, the two overflow regimes
      of a Cargo build (class [Target]), [Result], panic payloads.  An [f64] is its bit
      pattern: the crate stores and moves floating point numbers and computes none (the
      C++ core does, see [FloatArith]).
    - [Objects]: the structs, enums and contexts, and the kinds of memory object.
    - [Memory]: the store and the effect monad [M].  A computation knows its thread, threads
      the store, and ends normally ([Done]), in a panic, in an abort of the process, or in
      undefined behaviour with its kind of hazard.  [extern_C] turns a panic that reaches an
      [extern "C"] boundary into an abort.  Addresses are never reused, so a use after free
      and a double free are always seen.
    - [HeapLogic]: a linear separation logic for that store, an instance of Iris's [bi], with
      total-correctness weakest preconditions [wp] (a specified run neither panics nor
      aborts nor has undefined behaviour; with [emp] on both sides it leaves the store as it
      was) and certain hazards [stuck].
    - [Status], [Strides], [Tensor], [ForceTypes], [Potential], [RpcClient], [RpcServer]: the
      definitions, one per function of the sources and under its name, followed by the
      component's specifications; [TensorSpec] holds those of the tensors.  [Utf8] is the
      check of [CStr::to_str].
    - [RpcEnv]: the interfaces of the dependencies: the list builders, readers and errors of
      Cap'n Proto, and the network and runtime of tokio.
    - [RpcSpec]: the contract [evaluates] of anything that evaluates a potential (a callback,
      the local entry point, the remote entry point), the ownership of inputs and forces,
      and the specifications of client and server.  [RpcPeers]: the client among peers that
      may answer anything.
    - [Environment], [Callbacks]: concrete instances of all interfaces and a small C side, on
      which the theorems are instantiated.
    - [HandleSpec]: the C interface as a C programmer sees it: a table from handles to
      abstract objects, one message per thread, the precondition and the effect of every
      call.  [HandleTable] interprets a table as a separation-logic assertion, [HandleSim]
      and [HandleSimCalls] simulate the calls one by one, [HandleEval] those that evaluate a
      potential.
    - [SharedServers]: servers on several threads with one potential, interleaved between
      the three parts of [calculate] ([work_is_calculate] puts the parts together again).
    - [BuildScript]: the build script in a monad of its own, which threads a disk and ends or
      panics, with cbindgen and capnpc as interfaces.
    - [StatusTheorems], [TensorTheorems], [ApiTheorems], [RpcTheorems], [ServerLoop],
      [HandleTheorems], [SharedTheorems], [BuildTheorems], [UnitTests]: the properties.
    - [CxxEffects], [CxxWrappers]: exceptions, scopes and vectors over the monad [M], and the
      classes of src/include (errors.hpp, types.hpp, potential.hpp, rpc_client.hpp), an object
      being the addresses of its members.  [CxxSpec], [CxxTrampoline]: their specifications.
      [CxxTheorems], [CxxPrograms]: the properties, the latter over a small language of C++
      programs with its type check.
    - [CxxRegistry]: the registry of PotHelpers.hpp and its properties.
    - [CxxCore]: AtomMatrix.hpp, Potential.hpp, PotentialCache.cc, PotHelpers.cc and
      CuH2Pot.cc on values and bytes, with RocksDB as a class and the hash as a parameter;
      [CxxServer]: capnp_adapter.hpp, server.cpp and pot_bridge.cc.  [CxxCoreTheorems],
      [CxxServerTheorems], [CxxEquivalence]: the properties.
    - [FloatArith]: the arithmetic that numeric code uses, as a class [Arithmetic], and its
      instance of IEEE doubles over bit patterns.  [LennardJones]: LJPot.hpp and LJPot.cc over
      any arithmetic.  [LennardJonesTheorems]: the same potential as pairwise sums, and that
      the loops compute them; [LennardJonesReals]: the instance of real numbers and what holds
      in it.
    - [Cuh2Utils], [Cuh2UtilsTheorems]: cuh2Utils.hpp and cuh2Utils.cc over any arithmetic.
    - [CxxMain], [CxxMainTheorems]: the [main] function of server.cpp.  [CxxSession]: C
      programs that use the bridge to a running server.
    - [CxxOwnership]: users of caches and databases.  [CxxAdapters]: eigen.hpp and
      xtensor.hpp, with the matrices of these libraries as a class.  [CxxUnitTests]: tests of
      the C++ core.

    ** How the parts interact

    [TensorRepr] is the interface between tensors and their users: any tensor can be read
    through its header and shape array and can be freed by [rgpot_tensor_free]; the borrowed
    and the two owned representations implement it, and the validators, [n_atoms], the
    destructor of the input and the client's device test are proved against it.  A forces
    tensor of a callback may even have a deleter of the C side ([forces_tensor]).  Callbacks,
    destructors and foreign deleters are a parameter of the model (class [CCode]); they do
    not unwind.  The server's specification holds for every callback that meets a
    specification of its answers, and the client's for every transport that is [Faithful],
    that is, that delivers the lists it is given to the server's [calculate] and its results
    to the client; an error that [calculate] returns reaches the client as the exception
    that the RPC library makes of it ([remote_exception], a parameter).  The table of
    handles is the interface of the whole crate to its C clients: the classes [CLibrary] and
    [RemoteSide] say what the clients' callbacks, destructors and network promise in turn.
    The C++ classes call the crate's definitions directly, through the specifications of the
    Rust parts; a legacy potential is known by what its [forceImpl] computes
    ([legacy_computes]), and the trampoline turns that into the contract [callback_answers]
    that handle and server ask for.  The C++ core calls potentials on values;
    [CxxEquivalence] connects the two views of one potential.

    ** What is shown

    - [StatusTheorems]: the thread-local slot refines a map from threads to strings under
      every interleaving; the pointer given to C expires with the next error; the guard
      handles every outcome of its body.
    - [TensorTheorems]: the strides equal the closed form on every shape and in both overflow
      regimes, and number the cells; tensors are released without a leak, dangle
      afterwards, and owned tensors are copies; the validators' exact verdicts; the overflow
      of the owned constructor.
    - [ApiTheorems]: the life cycles of inputs and potential handles, the argument checks and
      the forwarding of the callback's answer.
    - [RpcTheorems]: remote and local evaluation meet the same contract; how failures of the
      callback and of every step of the network travel, and which of them come after the
      output's energy has been replaced; the server leaves no trace; two places where sizes
      are trusted and an out-of-bounds read follows; the errors of every RPC entry point.
    - [ServerLoop]: the running server as a transition system: its invariant under every
      interleaving of connections and requests, and that every request can be answered.
    - [HandleTheorems]: every permitted call of the C interface refines its step on the
      table of handles; programs that respect the preconditions of the table, on any threads
      and whatever they do with the answers, never go wrong and leak nothing.
    - [SharedTheorems]: servers that share a potential answer every request correctly and in
      order under every interleaving inside the requests (invariant), come to rest when no
      request arrives (termination), and under a fair schedule answer everything (liveness).
    - [BuildTheorems]: the schema module is provided, from the right schema, or the build
      fails for a stated reason; the version macros read back; the header's normal form.
    - [UnitTests]: the crate's unit tests, translated and evaluated.
    - [CxxTheorems]: an evaluation from C++ gives the same locally and remotely, exceptions
      included, and leaves nothing behind; a request without atoms is undefined behaviour
      with a standard library whose empty vectors have a null [data()] (a choice of the class
      [CxxRuntime]; with any other one such a request is evaluated like the rest).
    - [CxxPrograms]: every well-typed program over the wrapper classes, with moves,
      assignments, exceptions and nested blocks, is free of undefined behaviour and of leaks,
      whatever the servers of its RPC clients answer.
    - [CxxRegistry]: the linked list is the sequence of living objects after any
      constructions and destructions, and is corrupted by the implicit copy assignment.
    - [CxxCoreTheorems]: entries of the cache read back; without colliding configurations the
      cache is transparent, whatever reads and writes fail; for every hash function some
      configurations collide; the verdict of the copper-hydrogen potential on every system.
    - [CxxServerTheorems]: the server's verdict on every request; a C caller of the bridge
      gets the potential's own result through a network that delivers, the server and a
      cache without colliding configurations.
    - [CxxEquivalence]: the C++ server and the Rust server reply alike.
    - [LennardJonesTheorems]: on doubles, rounding included, the Lennard-Jones potential is
      the pairwise sum, and is undefined exactly when its uninitialised shift is used.
    - [LennardJonesReals]: over the reals, the forces are minus the gradient of the energy,
      balance, and do not see translations and periodic images.
    - [Cuh2UtilsTheorems]: the exceptions of the utilities on every input, and the distance at
      which they really place the hydrogen atoms.
    - [CxxMainTheorems]: what the executable does with its arguments, and that its
      Lennard-Jones server is undefined for interacting atoms.
    - [CxxSession]: a C program that uses clients of the bridge in any order, over a network
      that may fail at any call and for any addresses, sees a table of addresses and messages
      and the force field of the server, applied to the arguments of each call alone.
    - [CxxOwnership]: every open database has one owner, under all permitted actions; a copy
      of a cache closes its database twice.
    - [CxxAdapters]: conversions to other matrices and back give the same matrix.
    - [CxxUnitTests]: tests of the C++ core, translated and evaluated; the one that evaluates
      a Lennard-Jones potential is undefined as it stands and passes with a value for the shift.

    ** Bounds

    The theorems about remote calls are for configurations of less than [2^29] coordinates,
    which is what a Cap'n Proto list can hold; those about the Lennard-Jones potential for at
    most [2^31], which is what its indices of type [int] can reach.  The loops of the sources
    run over lists or a number of steps known before, so no function of theirs needs fuel; the
    walk along the registry ([walk]) has as much as there are objects, and is shown to end with
    it.  [run_program] bounds the number of calls that a C program makes, and its theorem holds
    for every bound.  The accept loop, which has no end, is modelled over the accept results
    seen so far ([accept_loop]) and by a step relation ([ServerLoop]).

    ** Not modelled

    - The Fortran routine of the copper-hydrogen potential, [pow] of libm and the norm of
      xtensor-blas (parameters), the event loop of the C++ server, the Python and build files,
      the generated C header, and the generated Cap'n Proto code (whose readers and builders
      are interfaces).
    - In the numeric code: the theorems over the reals say what the formulas mean, those over
      doubles what the machine computes; no bound on the rounding error connects the two.
      Doubles are computed one operation at a time, as without contraction and excess
      precision.  The arrays of forces do not overlap the inputs.
    - For the clients of the bridge: other servers than the one of the session; at an address
      that is not the server's, nobody answers.
    - In the C++ parts: assertions of debug builds (an element of a list that is not there is
      read out of bounds), and which exceptions the allocator throws for what is not a
      vector.  The caches and the registry of one process are used by one thread.
    - The fields of [dlpk] structs that the sources do not mention.
    - Sockets and the async runtime beyond the calls the sources make: dropping a stream or
      a listener has no effect on the store; the network's own tasks are not run.
    - The borrow flag of the [RefCell] (no borrow overlaps another) and the order in which
      locals are dropped on unwinding (a panic aborts, or meets no live local object).
    - Data races: a slice is read when it is created, and a callback runs to completion as
      one step; the interleavings are those between the callbacks.
    - In the build script: links and [..] in paths (a path is its text), and the wording of
      the operating system's errors (an error is its kind).
    - The table of handles covers the tensors over memory of the caller, the owned [f64]
      tensors and inputs that borrow; a C program that puts owned tensors into an input it
      evaluates, or a tensor with a deleter of its own, is covered by the specifications of
      the single calls only.  [rgpot_rpc_server_start], which does not return while it
      serves, is not a call of the table; it is treated in [ServerLoop].

    ** Plan

    Callbacks that are interleaved at each of their steps, with an invariant on the shared
    user data; inputs with owned tensors in the table of handles; the schedule of the
    tasks of one connection; a bound on the rounding errors of the Lennard-Jones forces. *)
From stdpp Require Export base list strings gmap pretty.
From Stdlib Require Export ZArith Lia.

Create HintDb rgpot discriminated.
