(* ===== verification/Machine.v ===== *)
(** * Machine: what the sources use of the Rust language and its standard library

    Integers at their width (64-bit targets, so [usize] has 64 bits), the [as] casts, the
    two overflow regimes of a Cargo build, [Result], panic payloads, C strings and the
    UTF-8 check of [CStr::to_str]. *)
From S2P Require Import Prelude.
Open Scope Z_scope.

(** ** Integers *)

(** Two's complement truncation of a mathematical integer to [w] bits. *)
Definition wrap_unsigned (w z : Z) : Z := z mod 2 ^ w.
Definition wrap_signed (w z : Z) : Z :=
  let m := z mod 2 ^ w in if m <? 2 ^ (w - 1) then m else m - 2 ^ w.

(** Rust's [as] casts between integer types truncate the value. *)
Definition as_i64 (z : Z) : Z := wrap_signed 64 z.
Definition as_i32 (z : Z) : Z := wrap_signed 32 z.
Definition as_usize (z : Z) : Z := wrap_unsigned 64 z.
Definition as_u32 (z : Z) : Z := wrap_unsigned 32 z.

Definition is_i64 (z : Z) : bool := (- 2 ^ 63 <=? z) && (z <? 2 ^ 63).
Definition is_i32 (z : Z) : bool := (- 2 ^ 31 <=? z) && (z <? 2 ^ 31).
Definition is_usize (z : Z) : bool := (0 <=? z) && (z <? 2 ^ 64).
Definition is_u32 (z : Z) : bool := (0 <=? z) && (z <? 2 ^ 32).

Lemma wrap_signed_id (w z : Z) :
  0 < w -> - 2 ^ (w - 1) <= z < 2 ^ (w - 1) -> wrap_signed w z = z.
Proof.
  intros Hw Hz. unfold wrap_signed.
  assert (2 ^ w = 2 * 2 ^ (w - 1)) as E.
  { rewrite <- Z.pow_succ_r by lia. f_equal. lia. }
  destruct (decide (0 <= z)) as [Hp | Hn].
  - rewrite Z.mod_small by lia. destruct (Z.ltb_spec z (2 ^ (w - 1))); lia.
  - replace (z mod 2 ^ w) with (z + 2 ^ w).
    + destruct (Z.ltb_spec (z + 2 ^ w) (2 ^ (w - 1))); lia.
    + rewrite <- (Z_mod_plus_full z 1 (2 ^ w)), Z.mul_1_l.
      rewrite Z.mod_small; lia.
Qed.

Lemma wrap_signed_range (w z : Z) :
  0 < w -> - 2 ^ (w - 1) <= wrap_signed w z < 2 ^ (w - 1).
Proof.
  intros Hw. unfold wrap_signed.
  assert (2 ^ w = 2 * 2 ^ (w - 1)) as E.
  { rewrite <- Z.pow_succ_r by lia. f_equal. lia. }
  pose proof (Z.mod_pos_bound z (2 ^ w) ltac:(lia)).
  destruct (Z.ltb_spec (z mod 2 ^ w) (2 ^ (w - 1))); lia.
Qed.

(** Truncation only depends on the residue, so it may be applied late. *)
Lemma wrap_signed_mod (w a b : Z) :
  a mod 2 ^ w = b mod 2 ^ w -> wrap_signed w a = wrap_signed w b.
Proof. unfold wrap_signed. by intros ->. Qed.

Lemma wrap_signed_residue (w z : Z) : wrap_signed w z mod 2 ^ w = z mod 2 ^ w.
Proof.
  unfold wrap_signed. destruct (z mod 2 ^ w <? 2 ^ (w - 1)).
  - apply Zmod_mod.
  - rewrite <- (Z.mul_1_l (2 ^ w)) at 2. rewrite <- Zminus_mod_idemp_r.
    rewrite Z_mod_mult, Z.sub_0_r. apply Zmod_mod.
Qed.

Lemma as_i64_id (z : Z) : is_i64 z = true -> as_i64 z = z.
Proof. unfold is_i64. intros H. apply wrap_signed_id; lia. Qed.
Lemma as_i32_id (z : Z) : is_i32 z = true -> as_i32 z = z.
Proof. unfold is_i32. intros H. apply wrap_signed_id; lia. Qed.
Lemma as_usize_id (z : Z) : is_usize z = true -> as_usize z = z.
Proof. unfold is_usize. intros H. apply Z.mod_small. lia. Qed.
Lemma as_u32_id (z : Z) : is_u32 z = true -> as_u32 z = z.
Proof. unfold is_u32. intros H. apply Z.mod_small. lia. Qed.

Lemma as_i64_mul_l (a b : Z) : as_i64 (as_i64 a * b) = as_i64 (a * b).
Proof.
  apply wrap_signed_mod. unfold as_i64.
  rewrite Zmult_mod, wrap_signed_residue, <- Zmult_mod. done.
Qed.

Lemma as_i64_is_i64 (z : Z) : is_i64 (as_i64 z) = true.
Proof. pose proof (wrap_signed_range 64 z). unfold is_i64, as_i64. lia. Qed.

#[export] Hint Resolve as_i64_is_i64 : rgpot.

(** A round trip [usize -> i64 -> usize], which is how an atom count travels through a
    tensor's shape: the bit pattern survives. *)
Lemma as_usize_as_i64 (n : Z) : is_usize n = true -> as_usize (as_i64 n) = n.
Proof.
  unfold is_usize, as_usize, wrap_unsigned, as_i64. intros H.
  rewrite wrap_signed_residue. apply Z.mod_small. lia.
Qed.

(** ** [f64] values

    The crate stores, copies and transmits floating point numbers and never computes with
    them, so an [f64] is its 64-bit IEEE 754 pattern. *)
Definition f64 : Type := Z.
Definition f64_zero : f64 := 0.

(** ** Pointers, threads and function pointers

    A pointer is the address of an allocated object (the sources never offset a pointer);
    [0] is the null pointer. *)
Definition ptr : Type := N.
Definition null : ptr := 0%N.
Definition is_null (p : ptr) : bool := (p =? 0)%N.
Definition thread_id : Type := N.
Definition fnptr : Type := N.

Lemma is_null_spec (p : ptr) : is_null p = true <-> p = null.
Proof. unfold is_null, null. apply N.eqb_eq. Qed.
Lemma is_null_false (p : ptr) : p <> null -> is_null p = false.
Proof. unfold is_null, null. apply N.eqb_neq. Qed.

(** ** [Result] and panics *)

Inductive Result (A E : Type) : Type :=
| Ok (a : A)
| Err (e : E).
Arguments Ok {A E} a.
Arguments Err {A E} e.

Definition is_ok {A E} (r : Result A E) : bool := if r is Ok _ then true else false.
Definition is_err {A E} (r : Result A E) : bool := negb (is_ok r).

(** The three payload types [std::panic::catch_unwind] callers distinguish: a literal
    message, a formatted message, anything else. *)
Inductive PanicPayload :=
| PanicStr (s : string)
| PanicString (s : string)
| PanicAny.

(** How a [Cargo] profile compiles integer arithmetic: with overflow checks (the debug
    profile: overflow panics) or without (the release profile: it wraps around). *)
Class Target := { overflow_checks : bool }.
