(* ===== verification/Objects.v ===== *)
(** * Objects: the data types of the crate

    The [#[repr(C)]] structs, enums and manager contexts of [types.rs], [status.rs],
    [tensor.rs], [potential.rs] and [rpc/client.rs], the DLPack structs whose fields the
    sources write out, and the kinds of memory object that pointers designate. *)
From S2P Require Import Prelude Machine.
Open Scope Z_scope.

(** ** status.rs *)

Inductive rgpot_status_t :=
| RGPOT_SUCCESS
| RGPOT_INVALID_PARAMETER
| RGPOT_INTERNAL_ERROR
| RGPOT_RPC_ERROR
| RGPOT_BUFFER_SIZE_ERROR.

#[export] Instance rgpot_status_t_eq_dec : EqDecision rgpot_status_t.
Proof. solve_decision. Defined.

(** The discriminant a C caller sees. *)
Definition status_code (s : rgpot_status_t) : Z :=
  match s with
  | RGPOT_SUCCESS => 0
  | RGPOT_INVALID_PARAMETER => 1
  | RGPOT_INTERNAL_ERROR => 2
  | RGPOT_RPC_ERROR => 3
  | RGPOT_BUFFER_SIZE_ERROR => 4
  end.

(** ** DLPack, as the sources construct and read it

    [dlpk::sys] is a dependency: its structs are modelled by the fields that the struct
    literals of [tensor.rs] list; of its enumerations the sources name only the variants
    below, the others are kept apart by an arbitrary code. *)

Inductive DLDataTypeCode := kDLInt | kDLFloat | kDLOtherCode (c : Z).
Inductive DLDeviceType := kDLCPU | kDLOtherDevice (c : Z).

#[export] Instance DLDataTypeCode_eq_dec : EqDecision DLDataTypeCode.
Proof. solve_decision. Defined.
#[export] Instance DLDeviceType_eq_dec : EqDecision DLDeviceType.
Proof. solve_decision. Defined.

Record DLDataType := MkDLDataType { code : DLDataTypeCode; bits : Z; lanes : Z }.
Record DLDevice := MkDLDevice { device_type : DLDeviceType; device_id : Z }.
Record DLPackVersion := MkDLPackVersion { major : Z; minor : Z }.

#[export] Instance DLDataType_eq_dec : EqDecision DLDataType.
Proof. solve_decision. Defined.
#[export] Instance DLDevice_eq_dec : EqDecision DLDevice.
Proof. solve_decision. Defined.

Record DLTensor := MkDLTensor {
  dl_data : ptr;
  dl_device : DLDevice;
  dl_ndim : Z;
  dl_dtype : DLDataType;
  dl_shape : ptr;
  dl_strides : ptr;
  dl_byte_offset : Z;
}.

(** The value of a [deleter] field: one of the crate's own deleters, or a function of
    the code that produced the tensor. *)
Inductive Deleter :=
| borrowed_deleter_fn
| owned_f64_deleter_fn
| owned_i32_deleter_fn
| foreign_deleter_fn (f : fnptr).

Record DLManagedTensorVersioned := MkManaged {
  version : DLPackVersion;
  manager_ctx : ptr;
  deleter : option Deleter;
  flags : Z;
  dl_tensor : DLTensor;
}.

(** ** Vectors and the manager contexts of tensor.rs *)

(** An owned [Vec<T>]: its buffer and its length (capacity is not observable).  An empty
    vector has a buffer object too, of no elements; its pointer is not null either way. *)
Record Vec := MkVec { vec_ptr : ptr; vec_len : Z }.

Record BorrowedTensorContext := MkBorrowedCtx { btc_shape : Vec; btc_strides : Vec }.
Record OwnedF64TensorContext :=
  MkOwnedF64Ctx { of64_data : Vec; of64_shape : Vec; of64_strides : Vec }.
Record OwnedI32TensorContext :=
  MkOwnedI32Ctx { oi32_data : Vec; oi32_shape : Vec; oi32_strides : Vec }.

(** ** types.rs *)

Record rgpot_force_input_t := MkForceInput {
  positions : ptr;
  atomic_numbers : ptr;
  box_matrix : ptr;
}.

Record rgpot_force_out_t := MkForceOut {
  forces : ptr;
  energy : f64;
  variance : f64;
}.

(** ** potential.rs *)

Record PotentialImpl := MkPotentialImpl {
  callback : fnptr;
  user_data : ptr;
  free_fn : option fnptr;
}.

(** ** rpc/client.rs: the runtime is a handle of the async runtime library *)

Record RpcClient := MkRpcClient { runtime : N; addr : string }.

(** ** The C++ side: members of the wrapper classes of include/rgpot, and the result struct of
    CppCore/rgpot/ForceStructs.hpp that legacy potentials write *)

Inductive CxxObject :=
| CxxSize (n : Z)
| CxxPointer (p : ptr)
| CxxForceOut (F : ptr) (energy variance : f64).

(** ** Memory objects *)

Inductive Block :=
| BI64s (xs : list Z)
| BF64s (xs : list f64)
| BI32s (xs : list Z)
| BBorrowedCtx (c : BorrowedTensorContext)
| BOwnedF64Ctx (c : OwnedF64TensorContext)
| BOwnedI32Ctx (c : OwnedI32TensorContext)
| BManaged (m : DLManagedTensorVersioned)
| BForceInput (i : rgpot_force_input_t)
| BForceOut (o : rgpot_force_out_t)
| BPotential (p : PotentialImpl)
| BRpcClient (c : RpcClient)
| BCStr (s : string)
(** the thread-local [LAST_ERROR]: not yet initialised, or holding a [CString] buffer *)
| BLastError (buf : option ptr)
(** an object of the C side, for instance what [user_data] points to *)
| BForeign (v : Z)
(** a member or a local of C++ code *)
| BCxx (o : CxxObject).
