(* ===== verification/Memory.v ===== *)
(** * Memory: the store, the effect monad and its primitive operations

    The store maps locations to typed objects.  A computation reads the identity of the
    thread that runs it and threads the store; it ends normally, panics, aborts the
    process or has undefined behaviour.  Allocation never reuses an address, so a use
    after free and a double free are always seen (as undefined behaviour). *)
From S2P Require Import Prelude Machine Objects.
Open Scope Z_scope.

(** ** Locations and stores *)

Inductive loc := LHeap (p : ptr) | LTls (t : thread_id).

#[export] Instance loc_eq_dec : EqDecision loc.
Proof. solve_decision. Defined.
#[export] Instance loc_countable : Countable loc.
Proof.
  refine (inj_countable' (fun l => match l with LHeap p => inl p | LTls t => inr t end)
            (fun s => match s with inl p => LHeap p | inr t => LTls t end) _).
  by intros [].
Defined.

Record Mem := MkMem { mem_map : gmap loc Block; mem_next : ptr }.

(** Every live heap address is non-null and below the allocation frontier. *)
Definition wf_mem (m : Mem) : Prop :=
  (0 < mem_next m)%N /\
  forall p b, mem_map m !! LHeap p = Some b -> (0 < p < mem_next m)%N.

(** ** Outcomes *)

Inductive Hazard :=
| NullDereference
| DanglingPointer
| WrongObject
| SliceOutOfBounds
| NoSuchThread.

Inductive Outcome (A : Type) : Type :=
| Done (a : A) (m : Mem)
| Panicked (e : PanicPayload) (m : Mem)
| Aborted (e : PanicPayload)
| Undefined (h : Hazard).
Arguments Done {A} a m.
Arguments Panicked {A} e m.
Arguments Aborted {A} e.
Arguments Undefined {A} h.

Definition M (A : Type) : Type := thread_id -> Mem -> Outcome A.

#[export] Instance M_ret : MRet M := fun A a _ m => Done a m.
#[export] Instance M_bind : MBind M := fun A B k x t m =>
  match x t m with
  | Done a m' => k a t m'
  | Panicked e m' => Panicked e m'
  | Aborted e => Aborted e
  | Undefined h => Undefined h
  end.

Definition panic {A} (e : PanicPayload) : M A := fun _ m => Panicked e m.
Definition undefined {A} (h : Hazard) : M A := fun _ _ => Undefined h.
Definition current_thread : M thread_id := fun t m => Done t m.

(** A panic that reaches the edge of an [extern "C"] function aborts the process. *)
Definition extern_C {A} (x : M A) : M A := fun t m =>
  match x t m with Panicked e _ => Aborted e | r => r end.

(** ** Allocation and access *)

Definition alloc (b : Block) : M ptr := fun _ m =>
  Done (mem_next m)
    (MkMem (<[LHeap (mem_next m) := b]> (mem_map m)) (mem_next m + 1)%N).

Definition load_loc (l : loc) (missing : Hazard) : M Block := fun _ m =>
  match mem_map m !! l with Some b => Done b m | None => Undefined missing end.

Definition store_loc (l : loc) (b : Block) (missing : Hazard) : M unit := fun _ m =>
  match mem_map m !! l with
  | Some _ => Done tt (MkMem (<[l := b]> (mem_map m)) (mem_next m))
  | None => Undefined missing
  end.

Definition load (p : ptr) : M Block :=
  if is_null p then undefined NullDereference else load_loc (LHeap p) DanglingPointer.
Definition store (p : ptr) (b : Block) : M unit :=
  if is_null p then undefined NullDereference else store_loc (LHeap p) b DanglingPointer.

(** Returning an object's memory to the allocator. *)
Definition dealloc (p : ptr) : M unit :=
  if is_null p then undefined NullDereference else fun _ m =>
    match mem_map m !! LHeap p with
    | Some _ => Done tt (MkMem (delete (LHeap p) (mem_map m)) (mem_next m))
    | None => Undefined DanglingPointer
    end.

(** Typed views: reading an object at a type it does not have is undefined behaviour. *)
Definition view {A} (f : Block -> option A) (p : ptr) : M A :=
  b ← load p;
  match f b with Some a => mret a | None => undefined WrongObject end.

Definition as_i64s (b : Block) : option (list Z) := if b is BI64s xs then Some xs else None.
Definition as_f64s (b : Block) : option (list f64) := if b is BF64s xs then Some xs else None.
Definition as_i32s (b : Block) : option (list Z) := if b is BI32s xs then Some xs else None.
Definition as_managed (b : Block) : option DLManagedTensorVersioned :=
  if b is BManaged m then Some m else None.
Definition as_borrowed_ctx (b : Block) : option BorrowedTensorContext :=
  if b is BBorrowedCtx c then Some c else None.
Definition as_owned_f64_ctx (b : Block) : option OwnedF64TensorContext :=
  if b is BOwnedF64Ctx c then Some c else None.
Definition as_owned_i32_ctx (b : Block) : option OwnedI32TensorContext :=
  if b is BOwnedI32Ctx c then Some c else None.
Definition as_force_input (b : Block) : option rgpot_force_input_t :=
  if b is BForceInput i then Some i else None.
Definition as_force_out (b : Block) : option rgpot_force_out_t :=
  if b is BForceOut o then Some o else None.
Definition as_potential (b : Block) : option PotentialImpl :=
  if b is BPotential p then Some p else None.
Definition as_rpc_client (b : Block) : option RpcClient :=
  if b is BRpcClient c then Some c else None.
Definition as_cstr (b : Block) : option string := if b is BCStr s then Some s else None.
Definition as_last_error (b : Block) : option (option ptr) :=
  if b is BLastError o then Some o else None.

(** [std::slice::from_raw_parts(p, len)]: [p] must be non-null even for an empty slice,
    and the object must hold at least [len] elements. *)
Definition from_raw_parts {A} (f : Block -> option (list A)) (p : ptr) (len : Z) : M (list A) :=
  if is_null p then undefined NullDereference
  else if len =? 0 then mret []
  else
    xs ← view f p;
    if len <=? Z.of_nat (length xs) then mret (take (Z.to_nat len) xs)
    else undefined SliceOutOfBounds.

(** ** Vectors *)

Definition vec_new {A} (mk : list A -> Block) (xs : list A) : M Vec :=
  p ← alloc (mk xs);
  mret (MkVec p (Z.of_nat (length xs))).
Definition vec_drop (v : Vec) : M unit := dealloc (vec_ptr v).

(** ** Panicking arithmetic and indexing *)

Section arithmetic.
  Context {profile : Target}.

Definition mul_overflow : PanicPayload := PanicStr "attempt to multiply with overflow".

  (** [a * b] on [i64] and on [usize]. *)
Definition mul_i64 (a b : Z) : M Z :=
    if is_i64 (a * b) then mret (a * b)
    else if overflow_checks then panic mul_overflow else mret (as_i64 (a * b)).
Definition mul_usize (a b : Z) : M Z :=
    if is_usize (a * b) then mret (a * b)
    else if overflow_checks then panic mul_overflow else mret (as_usize (a * b)).
End arithmetic.

Definition index_panic (len : nat) (i : Z) : PanicPayload :=
  PanicString ("index out of bounds: the len is " +:+ pretty (Z.of_nat len)
    +:+ " but the index is " +:+ pretty i).

(** [xs[i]], and [xs[i] = x] on a local vector. *)
Definition index {A} (xs : list A) (i : nat) : M A :=
  match xs !! i with Some x => mret x | None => panic (index_panic (length xs) (Z.of_nat i)) end.
Definition set_index {A} (xs : list A) (i : nat) (x : A) : M (list A) :=
  if decide (i < length xs)%nat then mret (<[i := x]> xs)
  else panic (index_panic (length xs) (Z.of_nat i)).

(** ** The C side

    Callbacks, destructors and deleters registered by C or C++ code are foreign functions:
    they are named by their function pointers and may do anything to the store. *)
Class CCode := {
  c_callback : fnptr -> ptr -> ptr -> ptr -> M rgpot_status_t;
  c_free_fn : fnptr -> ptr -> M unit;
  c_deleter : fnptr -> ptr -> M unit;
}.

Section calls.
  Context {ccode : CCode}.

(** The function pointers have the [extern "C"] calling convention, which does not unwind: a
    panic (or a C++ exception) that would leave such a function aborts the process. *)
Definition call_callback (f : fnptr) (user_data input output : ptr) : M rgpot_status_t :=
  extern_C (c_callback f user_data input output).
Definition call_free_fn (f : fnptr) (user_data : ptr) : M unit := extern_C (c_free_fn f user_data).
Definition call_deleter (f : fnptr) (tensor : ptr) : M unit := extern_C (c_deleter f tensor).
End calls.
