(* ===== verification/HeapLogic.v ===== *)
(** * HeapLogic: a linear separation logic for the store

    Assertions describe a piece of the store exactly: [emp] only holds of the empty piece
    and nothing can be dropped, so a specification whose postcondition is [emp] states
    that everything allocated has been released.  [wp t x Q] says that [x], run by thread
    [t] on a store that contains the described piece and any other disjoint piece, ends
    normally (no panic, no abort, no undefined behaviour), leaves the other piece alone
    and establishes [Q].  The logic is an instance of Iris's [bi], so that its proof mode
    applies. *)
From S2P Require Import Prelude Machine Objects Memory.
From iris.proofmode Require Import proofmode.

(** ** Assertions *)

Record mProp := MProp { mholds :> gmap loc Block -> Prop }.
Bind Scope bi_scope with mProp.
Implicit Types (P Q R : mProp) (h : gmap loc Block).

Section ofe.
  (** Wrapped in inductives, so that unification does not look inside. *)
Inductive m_equiv P Q : Prop := m_equiv_intro (_ : forall h, P h <-> Q h).
#[local] Instance mProp_equiv : Equiv mProp := m_equiv.
#[local] Instance mProp_equivalence : Equivalence (≡@{mProp}).
  Proof.
    split.
    - intros P. constructor. done.
    - intros P Q [H]. constructor. intros h. by rewrite H.
    - intros P Q R [H1] [H2]. constructor. intros h. by rewrite H1 H2.
  Qed.
Canonical Structure mPropO := discreteO mProp.
End ofe.

Inductive m_entails P Q : Prop := m_entails_intro (_ : forall h, P h -> Q h).

Definition m_emp : mProp := MProp (fun h => h = ∅).
Definition m_pure (φ : Prop) : mProp := MProp (fun _ => φ).
Definition m_and P Q : mProp := MProp (fun h => P h /\ Q h).
Definition m_or P Q : mProp := MProp (fun h => P h \/ Q h).
Definition m_impl P Q : mProp := MProp (fun h => P h -> Q h).
Definition m_forall A (Φ : A -> mProp) : mProp := MProp (fun h => forall a, Φ a h).
Definition m_exist A (Φ : A -> mProp) : mProp := MProp (fun h => exists a, Φ a h).
Definition m_sep P Q : mProp := MProp (fun h =>
  exists h1 h2, h = h1 ∪ h2 /\ h1 ##ₘ h2 /\ P h1 /\ Q h2).
Definition m_wand P Q : mProp := MProp (fun h =>
  forall h', h ##ₘ h' -> P h' -> Q (h ∪ h')).
Definition m_persistently P : mProp := m_pure (m_entails m_emp P).

(** Unfold the connectives and let first-order reasoning finish. *)
Ltac m_solve :=
  repeat match goal with
         | H : m_entails _ _ |- _ => destruct H as [H]
         | H : m_equiv _ _ |- _ => destruct H as [H]
         | H : _ ≡{_}≡ _ |- _ => destruct H as [H]
         | |- m_entails _ _ => constructor
         | |- m_equiv _ _ => constructor
         end; simpl in *.

Section mixins.
  #[local] Existing Instance mProp_equiv.

Lemma m_sep_comm P Q : m_entails (m_sep P Q) (m_sep Q P).
  Proof.
    m_solve. intros h (h1 & h2 & -> & Hd & H1 & H2). exists h2, h1.
    split; [by apply map_union_comm | by split_and!].
  Qed.

Lemma m_sep_assoc P Q R : m_entails (m_sep (m_sep P Q) R) (m_sep P (m_sep Q R)).
  Proof.
    m_solve. intros h (h12 & h3 & -> & Hd & (h1 & h2 & -> & Hd' & H1 & H2) & H3).
    apply map_disjoint_union_l in Hd as [Hd1 Hd2].
    exists h1, (h2 ∪ h3). split_and!; [by rewrite assoc_L | | done |].
    - by apply map_disjoint_union_r.
    - by exists h2, h3.
  Qed.

Lemma m_wand_intro_r P Q R : m_entails (m_sep P Q) R -> m_entails P (m_wand Q R).
  Proof. intros H. m_solve. intros h HP h' Hd HQ. apply H. by exists h, h'. Qed.

Lemma m_wand_elim_l P Q R : m_entails P (m_wand Q R) -> m_entails (m_sep P Q) R.
  Proof. intros H. m_solve. intros h (h1 & h2 & -> & Hd & HP & HQ). by apply H. Qed.

Lemma m_bi_mixin :
    BiMixin m_entails m_emp m_pure m_and m_or m_impl m_forall m_exist m_sep m_wand.
  Proof.
    split.
    - split.
      + intros P. constructor. done.
      + intros P Q R [H1] [H2]. constructor. auto.
    - intros P Q. split.
      + intros [H]. split; constructor; intros h; by rewrite H.
      + intros [[H1] [H2]]. constructor. intros h. split; auto.
    - intros n φ1 φ2 H. constructor. simpl. done.
    - intros n P1 P2 [HP] Q1 Q2 [HQ]. constructor. simpl. naive_solver.
    - intros n P1 P2 [HP] Q1 Q2 [HQ]. constructor. simpl. naive_solver.
    - intros n P1 P2 [HP] Q1 Q2 [HQ]. constructor. simpl. naive_solver.
    - intros A n Φ Ψ H. constructor. simpl. intros h. split; intros Ha a;
        destruct (H a) as [HE]; by apply HE.
    - intros A n Φ Ψ H. constructor. simpl. intros h. split; intros [a Ha]; exists a;
        destruct (H a) as [HE]; by apply HE.
    - intros n P1 P2 [HP] Q1 Q2 [HQ]. constructor. simpl. naive_solver.
    - intros n P1 P2 [HP] Q1 Q2 [HQ]. constructor. simpl. naive_solver.
    - intros φ P H. by constructor.
    - intros φ P H. constructor. simpl. intros h Hφ. by apply (H Hφ).
    - intros P Q. m_solve. naive_solver.
    - intros P Q. m_solve. naive_solver.
    - intros P Q R H1 H2. m_solve. naive_solver.
    - intros P Q. m_solve. naive_solver.
    - intros P Q. m_solve. naive_solver.
    - intros P Q R H1 H2. m_solve. naive_solver.
    - intros P Q R H. m_solve. naive_solver.
    - intros P Q R H. m_solve. naive_solver.
    - intros A P Ψ H. constructor. simpl. intros h HP a. by apply (H a).
    - intros A Ψ a. m_solve. naive_solver.
    - intros A Ψ a. m_solve. naive_solver.
    - intros A Φ Q H. constructor. simpl. intros h [a Ha]. by apply (H a).
    - intros P P' Q Q' H1 H2. m_solve.
      intros h (h1 & h2 & -> & Hd & HP & HQ). exists h1, h2. naive_solver.
    - intros P. m_solve. intros h HP. exists ∅, h.
      split_and!; [by rewrite left_id_L | apply map_disjoint_empty_l | done | done].
    - intros P. m_solve. intros h (h1 & h2 & -> & Hd & -> & HP). by rewrite left_id_L.
    - apply m_sep_comm.
    - apply m_sep_assoc.
    - apply m_wand_intro_r.
    - apply m_wand_elim_l.
  Qed.

Lemma m_bi_persistently_mixin :
    BiPersistentlyMixin m_entails m_emp m_and m_exist m_sep m_persistently.
  Proof.
    eapply bi_persistently_mixin_discrete, m_bi_mixin; [done | | done].
    intros A Φ [H]. destruct (H ∅) as [a Ha]; [done|]. exists a. constructor.
    by intros h ->.
  Qed.

Lemma m_bi_later_mixin :
    BiLaterMixin m_entails m_pure m_or m_impl m_forall m_exist m_sep m_persistently id.
  Proof. by eapply bi_later_mixin_id, m_bi_mixin. Qed.
End mixins.

Canonical Structure mPropI : bi :=
  {| bi_ofe_mixin := ofe_mixin_of mProp;
     bi_bi_mixin := m_bi_mixin;
     bi_bi_persistently_mixin := m_bi_persistently_mixin;
     bi_bi_later_mixin := m_bi_later_mixin |}.

#[export] Instance mProp_pure_forall : BiPureForall mPropI.
Proof. intros A φ. m_solve. done. Qed.

(** Entailments at a given piece of the store. *)
Lemma holds_mono P Q h : (P ⊢ Q) -> P h -> Q h.
Proof. intros [H]. apply H. Qed.

(** ** Objects *)

Definition pointsto (p : ptr) (b : Block) : mProp :=
  MProp (fun h => p <> null /\ h = {[LHeap p := b]}).
Definition tls_pointsto (t : thread_id) (b : Block) : mProp :=
  MProp (fun h => h = {[LTls t := b]}).

Notation "p ↦ b" := (pointsto p b) (at level 20, format "p  ↦  b") : bi_scope.
Notation "t ↦ₜ b" := (tls_pointsto t b) (at level 20, format "t  ↦ₜ  b") : bi_scope.

(** ** Total-correctness weakest preconditions *)

Definition wp {A} (t : thread_id) (x : M A) (Φ : A -> mProp) : mProp := MProp (fun h =>
  forall σ hf, wf_mem σ -> mem_map σ = h ∪ hf -> h ##ₘ hf ->
  exists a σ' h', x t σ = Done a σ' /\ wf_mem σ' /\ mem_map σ' = h' ∪ hf /\
    h' ##ₘ hf /\ Φ a h').

Arguments wp {A} t x Φ%_I.

(** What a proved specification says of a run, without the logic. *)
Lemma wp_run {A} t (x : M A) P (Φ : A -> mProp) σ h hf :
  (P ⊢ wp t x Φ) -> P h -> wf_mem σ -> mem_map σ = h ∪ hf -> h ##ₘ hf ->
  exists a σ' h', x t σ = Done a σ' /\ wf_mem σ' /\ mem_map σ' = h' ∪ hf /\
    h' ##ₘ hf /\ Φ a h'.
Proof. intros [H] HP ???. by eapply H. Qed.

(** A computation specified with [emp] on both sides leaves the store as it found it. *)
Lemma wp_run_emp {A} t (x : M A) (φ : A -> Prop) σ :
  (emp ⊢ wp t x (fun a => <affine> ⌜φ a⌝)) -> wf_mem σ ->
  exists a σ', x t σ = Done a σ' /\ wf_mem σ' /\ mem_map σ' = mem_map σ /\ φ a.
Proof.
  intros H Hwf. destruct (wp_run t x emp _ σ ∅ (mem_map σ) H) as
    (a & σ' & h' & Hrun & Hwf' & Hm & _ & HΦ); [done | done | | |].
  - by rewrite left_id_L.
  - apply map_disjoint_empty_l.
  - destruct HΦ as [-> Hφ]. exists a, σ'. split_and!; [done.. | | done].
    by rewrite left_id_L in Hm.
Qed.

(** A computation that turns one object into another and touches nothing else. *)
Lemma wp_run_pointsto {A} t (x : M A) p b b' (φ : A -> Prop) σ :
  (p ↦ b ⊢ wp t x (fun a => <affine> ⌜φ a⌝ ∗ p ↦ b')) ->
  wf_mem σ -> mem_map σ !! LHeap p = Some b ->
  exists a σ', x t σ = Done a σ' /\ wf_mem σ' /\
    mem_map σ' = <[LHeap p := b']> (mem_map σ) /\ φ a.
Proof.
  intros Hx Hwf Hp. assert (p <> null) as Hn.
  { destruct Hwf as [_ Hwf]. apply Hwf in Hp. unfold null. lia. }
  destruct (wp_run t x _ _ σ {[LHeap p := b]} (delete (LHeap p) (mem_map σ)) Hx) as
    (a & σ' & h' & Hrun & Hwf' & Hm & Hd & HΦ); [by split | done | | |].
  - by rewrite -insert_union_singleton_l insert_delete_id.
  - apply map_disjoint_singleton_l, lookup_delete_eq.
  - destruct HΦ as (h1 & h2 & -> & _ & [-> Hφ] & [_ ->]). exists a, σ'. split_and!; try done.
    by rewrite Hm left_id_L -insert_union_singleton_l insert_delete_eq.
Qed.

Section rules.
  Context (t : thread_id).
  Implicit Types (σ : Mem) (p : ptr) (b : Block).

Lemma wp_ret {A} (a : A) (Φ : A -> mProp) : Φ a ⊢ wp t (mret a) Φ.
  Proof. constructor. intros h HΦ σ hf ???. by exists a, σ, h. Qed.

Lemma wp_bind {A B} (x : M A) (k : A -> M B) (Φ : B -> mProp) :
    wp t x (fun a => wp t (k a) Φ) ⊢ wp t (x ≫= k) Φ.
  Proof.
    constructor. intros h H σ hf Hwf Hm Hd.
    destruct (H σ hf Hwf Hm Hd) as (a & σ' & h' & Hx & Hwf' & Hm' & Hd' & Hk).
    destruct (Hk σ' hf Hwf' Hm' Hd') as (b & σ'' & h'' & Hb & ?).
    exists b, σ'', h''. split; [|done]. rewrite /mbind /M_bind Hx. done.
  Qed.

Lemma wp_wand {A} (x : M A) (Φ Ψ : A -> mProp) :
    wp t x Φ -∗ (∀ a, Φ a -∗ Ψ a) -∗ wp t x Ψ.
  Proof.
    apply bi.entails_wand, bi.wand_intro_r. constructor.
    intros h (h1 & h2 & -> & Hd & Hx & HΨ) σ hf Hwf Hm Hdf.
    apply map_disjoint_union_l in Hdf as [Hd1 Hd2].
    destruct (Hx σ (h2 ∪ hf) Hwf) as (a & σ' & h' & Hrun & Hwf' & Hm' & Hd' & HΦ).
    { by rewrite Hm assoc_L. }
    { by apply map_disjoint_union_r. }
    apply map_disjoint_union_r in Hd' as [Hd2' Hdf'].
    exists a, σ', (h2 ∪ h'). split_and!; [done | done | | |].
    - by rewrite Hm' assoc_L (map_union_comm h' h2).
    - by apply map_disjoint_union_l.
    - apply HΨ; [by apply symmetry | done].
  Qed.

Lemma wp_mono {A} (x : M A) (Φ Ψ : A -> mProp) :
    (forall a, Φ a ⊢ Ψ a) -> wp t x Φ ⊢ wp t x Ψ.
  Proof.
    intros H. iIntros "Hx". iApply (wp_wand with "Hx"). iIntros (a) "HΦ". by iApply H.
  Qed.

  (** Calls: use a specification for the first part of a sequence. *)
Lemma wp_seq {A B} P (x : M A) (k : A -> M B) (Ψ : A -> mProp) (Φ : B -> mProp) :
    (P ⊢ wp t x Ψ) -> P -∗ (∀ a, Ψ a -∗ wp t (k a) Φ) -∗ wp t (x ≫= k) Φ.
  Proof.
    iIntros (H) "HP Hk". iApply wp_bind. iApply (wp_wand with "[HP]"); [by iApply H|].
    iIntros (a) "HΨ". by iApply "Hk".
  Qed.

Lemma wp_use {A} P (x : M A) (Ψ Φ : A -> mProp) :
    (P ⊢ wp t x Ψ) -> P -∗ (∀ a, Ψ a -∗ Φ a) -∗ wp t x Φ.
  Proof. iIntros (H) "HP Hk". iApply (wp_wand with "[HP]"); [by iApply H|done]. Qed.

Lemma wp_current_thread (Φ : thread_id -> mProp) : Φ t ⊢ wp t current_thread Φ.
  Proof. constructor. intros h HΦ σ hf ???. by exists t, σ, h. Qed.

  (** A specified body cannot panic, so the FFI edge is transparent to it. *)
Lemma wp_extern_C {A} (x : M A) (Φ : A -> mProp) : wp t x Φ ⊢ wp t (extern_C x) Φ.
  Proof.
    constructor. intros h H σ hf Hwf Hm Hd.
    destruct (H σ hf Hwf Hm Hd) as (a & σ' & h' & Hx & ?).
    exists a, σ', h'. split; [|done]. by rewrite /extern_C Hx.
  Qed.

(** Computations that run alike have the same specifications. *)
Lemma wp_ext {A} (x y : M A) (Φ : A -> mProp) :
  (forall σ, x t σ = y t σ) -> wp t y Φ ⊢ wp t x Φ.
Proof.
  intros Hxy. constructor. intros h H σ hf Hwf Hm Hd. rewrite Hxy. by apply H.
Qed.

  (** Pure computations that are known to return. *)
Lemma wp_done {A} (x : M A) (a : A) (Φ : A -> mProp) :
    (forall σ, x t σ = Done a σ) -> Φ a ⊢ wp t x Φ.
  Proof. intros Hx. constructor. intros h HΦ σ hf ???. by exists a, σ, h. Qed.
End rules.

(** ** Rules of the primitive operations *)

Section primitives.
  Context (t : thread_id).
  Implicit Types (σ : Mem) (p : ptr) (b : Block).

Lemma pointsto_not_null p b : p ↦ b ⊢ ⌜p <> null⌝.
  Proof. constructor. by intros h [? _]. Qed.

Lemma pointsto_ne p b q b' : p ↦ b -∗ q ↦ b' -∗ ⌜p <> q⌝.
  Proof.
    apply bi.entails_wand, bi.wand_intro_r. constructor.
    intros h (h1 & h2 & -> & Hd & [_ ->] & [_ ->]) ->.
    apply map_disjoint_singleton_l in Hd. by rewrite lookup_singleton_eq in Hd.
  Qed.

Lemma pointsto_lookup p b h hf σ :
    (p ↦ b)%I h -> mem_map σ = h ∪ hf -> mem_map σ !! LHeap p = Some b.
  Proof.
    intros [_ ->] ->. apply lookup_union_Some_l, lookup_singleton_eq.
  Qed.

Lemma wf_mem_fresh σ : wf_mem σ -> mem_map σ !! LHeap (mem_next σ) = None.
  Proof.
    intros [_ Hwf]. destruct (mem_map σ !! LHeap (mem_next σ)) as [b|] eqn:E; [|done].
    apply Hwf in E. lia.
  Qed.

Lemma wp_alloc b (Φ : ptr -> mProp) : (∀ p, p ↦ b -∗ Φ p) ⊢ wp t (alloc b) Φ.
  Proof.
    constructor. intros h HΦ σ hf Hwf Hm Hd.
    pose proof (wf_mem_fresh σ Hwf) as Hfresh. rewrite Hm in Hfresh.
    apply lookup_union_None in Hfresh as [Hh Hhf].
    set (p := mem_next σ) in *.
    exists p, (MkMem (<[LHeap p := b]> (mem_map σ)) (p + 1)%N), (h ∪ {[LHeap p := b]}).
    destruct Hwf as [Hpos Hwf]. split_and!; [done | | | |].
    - split; simpl; [lia|]. intros q c. rewrite lookup_insert_Some.
      intros [[[= <-] _] | [_ Hq]]; [lia|]. apply Hwf in Hq. fold p in Hq. lia.
    - simpl. rewrite Hm -assoc_L -insert_union_singleton_l.
      by rewrite insert_union_r.
    - apply map_disjoint_union_l. split; [done|]. by apply map_disjoint_singleton_l.
    - apply (HΦ p); [by apply map_disjoint_singleton_r|].
      split; [unfold p, null; lia | done].
  Qed.

Lemma is_null_pointsto p b : (p ↦ b ⊢ ⌜is_null p = false⌝).
  Proof.
    iIntros "H". iDestruct (pointsto_not_null with "H") as %Hp.
    iPureIntro. by apply is_null_false.
  Qed.

Lemma wp_load p b (Φ : Block -> mProp) : p ↦ b -∗ (p ↦ b -∗ Φ b) -∗ wp t (load p) Φ.
  Proof.
    apply bi.entails_wand, bi.wand_intro_r. constructor.
    intros h (h1 & h2 & -> & Hd & Hp & HΦ) σ hf Hwf Hm Hdf.
    exists b, σ, (h1 ∪ h2). split_and!; [ | done | done | done |].
    - pose proof Hp as [Hn _]. unfold load. rewrite is_null_false //.
      unfold load_loc. erewrite (pointsto_lookup p b h1 (h2 ∪ hf)); [done | done |].
      by rewrite Hm assoc_L.
    - rewrite map_union_comm //. by apply HΦ; [apply symmetry|].
  Qed.

Lemma wp_store p b b' (Φ : unit -> mProp) :
    p ↦ b -∗ (p ↦ b' -∗ Φ tt) -∗ wp t (store p b') Φ.
  Proof.
    apply bi.entails_wand, bi.wand_intro_r. constructor.
    intros h (h1 & h2 & -> & Hd & [Hn ->] & HΦ) σ hf Hwf Hm Hdf.
    apply map_disjoint_union_l in Hdf as [Hd1 Hd2].
    apply map_disjoint_singleton_l in Hd, Hd1.
    assert (mem_map σ !! LHeap p = Some b) as Hl.
    { rewrite Hm -assoc_L. apply lookup_union_Some_l, lookup_singleton_eq. }
    exists tt, (MkMem (<[LHeap p := b']> (mem_map σ)) (mem_next σ)), (h2 ∪ {[LHeap p := b']}).
    split_and!.
    - unfold store. rewrite is_null_false //. unfold store_loc. by rewrite Hl.
    - destruct Hwf as [Hpos Hwf]. split; [done|]. simpl. intros q c.
      rewrite lookup_insert_Some. intros [[[= <-] _] | [_ Hq]]; eauto.
    - simpl. rewrite Hm -!assoc_L -!insert_union_singleton_l.
      rewrite insert_insert_eq. by rewrite insert_union_r.
    - apply map_disjoint_union_l. split; [done|]. by apply map_disjoint_singleton_l.
    - apply HΦ; [by apply map_disjoint_singleton_r | done].
  Qed.

Lemma wp_dealloc p b (Φ : unit -> mProp) : p ↦ b -∗ Φ tt -∗ wp t (dealloc p) Φ.
  Proof.
    apply bi.entails_wand, bi.wand_intro_r. constructor.
    intros h (h1 & h2 & -> & Hd & [Hn ->] & HΦ) σ hf Hwf Hm Hdf.
    apply map_disjoint_union_l in Hdf as [Hd1 Hd2].
    apply map_disjoint_singleton_l in Hd, Hd1.
    rewrite -assoc_L -insert_union_singleton_l in Hm.
    exists tt, (MkMem (delete (LHeap p) (mem_map σ)) (mem_next σ)), h2. split_and!; [| | | done..].
    - unfold dealloc. rewrite is_null_false // Hm lookup_insert_eq. done.
    - destruct Hwf as [Hpos Hwf]. split; [done|]. simpl. intros q c.
      rewrite lookup_delete_Some. intros [_ Hq]. eauto.
    - simpl. rewrite Hm delete_insert_eq delete_id //. by apply lookup_union_None.
  Qed.

Lemma wp_load_tls s b (Φ : Block -> mProp) :
    s ↦ₜ b -∗ (s ↦ₜ b -∗ Φ b) -∗ wp t (load_loc (LTls s) NoSuchThread) Φ.
  Proof.
    apply bi.entails_wand, bi.wand_intro_r. constructor.
    intros h (h1 & h2 & -> & Hd & Hs & HΦ) σ hf Hwf Hm Hdf.
    exists b, σ, (h1 ∪ h2). split_and!; [ | done | done | done |].
    - unfold load_loc. rewrite Hm. simpl in Hs. subst h1.
      rewrite -assoc_L (lookup_union_Some_l _ _ _ b) //. apply lookup_singleton_eq.
    - rewrite map_union_comm //. by apply HΦ; [apply symmetry|].
  Qed.

Lemma wp_store_tls s b b' (Φ : unit -> mProp) :
    s ↦ₜ b -∗ (s ↦ₜ b' -∗ Φ tt) -∗ wp t (store_loc (LTls s) b' NoSuchThread) Φ.
  Proof.
    apply bi.entails_wand, bi.wand_intro_r. constructor.
    intros h (h1 & h2 & -> & Hd & Hs & HΦ) σ hf Hwf Hm Hdf. simpl in Hs. subst h1.
    apply map_disjoint_union_l in Hdf as [Hd1 Hd2].
    apply map_disjoint_singleton_l in Hd, Hd1.
    rewrite -assoc_L -insert_union_singleton_l in Hm.
    exists tt, (MkMem (<[LTls s := b']> (mem_map σ)) (mem_next σ)), (h2 ∪ {[LTls s := b']}).
    split_and!.
    - unfold store_loc. by rewrite Hm lookup_insert_eq.
    - destruct Hwf as [Hpos Hwf]. split; [done|]. simpl. intros q c.
      rewrite lookup_insert_Some. intros [[[=] _] | [_ Hq]]; eauto.
    - simpl. rewrite Hm insert_insert_eq -assoc_L -insert_union_singleton_l.
      by rewrite insert_union_r.
    - apply map_disjoint_union_l. split; [done|]. by apply map_disjoint_singleton_l.
    - apply HΦ; [by apply map_disjoint_singleton_r | done].
  Qed.

Lemma wp_view {A} (f : Block -> option A) p b a (Φ : A -> mProp) :
    f b = Some a -> p ↦ b -∗ (p ↦ b -∗ Φ a) -∗ wp t (view f p) Φ.
  Proof.
    iIntros (Hf) "Hp HΦ". unfold view. iApply wp_bind. iApply (wp_load with "Hp").
    iIntros "Hp". rewrite Hf. iApply wp_ret. by iApply "HΦ".
  Qed.

Lemma wp_from_raw_parts {A} (f : Block -> option (list A)) p b xs len (Φ : list A -> mProp) :
    f b = Some xs -> (0 <= len <= Z.of_nat (length xs))%Z ->
    p ↦ b -∗ (p ↦ b -∗ Φ (take (Z.to_nat len) xs)) -∗ wp t (from_raw_parts f p len) Φ.
  Proof.
    iIntros (Hf Hlen) "Hp HΦ". unfold from_raw_parts.
    iDestruct (is_null_pointsto with "Hp") as %->.
    destruct (Z.eqb_spec len 0) as [->|Hne].
    - iApply wp_ret. by iApply "HΦ".
    - iApply wp_bind. iApply (wp_view with "Hp"); [done|]. iIntros "Hp".
      destruct (Z.leb_spec len (Z.of_nat (length xs))); [|lia].
      iApply wp_ret. by iApply "HΦ".
  Qed.
End primitives.

(** ** Undefined behaviour

    [stuck t x z]: on every store that contains the described piece, [x] reaches the hazard
    [z].  It is used to state which precondition of an unchecked access a caller breaks. *)
Definition stuck {A} (t : thread_id) (x : M A) (z : Hazard) : mProp := MProp (fun h =>
  forall σ hf, wf_mem σ -> mem_map σ = h ∪ hf -> h ##ₘ hf -> x t σ = Undefined z).

Lemma stuck_run {A} t (x : M A) z P σ h hf :
  (P ⊢ stuck t x z) -> P h -> wf_mem σ -> mem_map σ = h ∪ hf -> h ##ₘ hf -> x t σ = Undefined z.
Proof. intros [H] HP ???. by eapply H. Qed.

Section stuck_rules.
  Context (t : thread_id) (z : Hazard).

Lemma stuck_bind {A B} (x : M A) (k : A -> M B) : stuck t x z ⊢ stuck t (x ≫= k) z.
Proof.
  constructor. intros h H σ hf Hwf Hm Hd. by rewrite /mbind /M_bind (H σ hf).
Qed.

Lemma stuck_after {A B} (x : M A) (k : A -> M B) :
  wp t x (fun a => stuck t (k a) z) ⊢ stuck t (x ≫= k) z.
Proof.
  constructor. intros h H σ hf Hwf Hm Hd.
  destruct (H σ hf Hwf Hm Hd) as (a & σ' & h' & Hx & Hwf' & Hm' & Hd' & Hk).
  rewrite /mbind /M_bind Hx. by eapply Hk.
Qed.

Lemma stuck_seq {A B} P (x : M A) (k : A -> M B) (Ψ : A -> mProp) :
  (P ⊢ wp t x Ψ) -> P -∗ (∀ a, Ψ a -∗ stuck t (k a) z) -∗ stuck t (x ≫= k) z.
Proof.
  iIntros (H) "HP Hk". iApply stuck_after. iApply (wp_wand with "[HP]"); [by iApply H|done].
Qed.

(** The rest of the store does not matter once the hazard is certain. *)
Lemma stuck_frame {A} (x : M A) R : stuck t x z ∗ R ⊢ stuck t x z.
Proof.
  constructor. intros h (h1 & h2 & -> & Hd & H & _) σ hf Hwf Hm Hdf.
  apply map_disjoint_union_l in Hdf as [Hd1 Hd2].
  apply (H σ (h2 ∪ hf)); [done | by rewrite Hm assoc_L | by apply map_disjoint_union_r].
Qed.

Lemma stuck_extern_C {A} (x : M A) : stuck t x z ⊢ stuck t (extern_C x) z.
Proof. constructor. intros h H σ hf Hwf Hm Hd. by rewrite /extern_C (H σ hf). Qed.
End stuck_rules.

(** A computation that meets the hazard on every store. *)
Lemma stuck_always {A} t (x : M A) z P : (forall σ, x t σ = Undefined z) -> P ⊢ stuck t x z.
Proof. intros Hx. constructor. intros h _ σ hf _ _ _. apply Hx. Qed.

Lemma stuck_ext {A} t (x y : M A) z :
  (forall σ, x t σ = y t σ) -> stuck t y z ⊢ stuck t x z.
Proof. intros Hxy. constructor. intros h H σ hf Hwf Hm Hd. rewrite Hxy. by eapply H. Qed.

(** A slice longer than the object. *)
Lemma stuck_from_raw_parts {A} t (f : Block -> option (list A)) p b xs len :
  f b = Some xs -> (Z.of_nat (length xs) < len)%Z ->
  p ↦ b ⊢ stuck t (from_raw_parts f p len) SliceOutOfBounds.
Proof.
  intros Hf Hlen. constructor. intros h Hp σ hf Hwf Hm Hd.
  pose proof (pointsto_lookup p b h hf σ Hp Hm) as Hl. destruct Hp as [Hn _].
  unfold from_raw_parts, view, load, load_loc, mbind, M_bind.
  rewrite is_null_false //. destruct (Z.eqb_spec len 0); [lia|]. rewrite Hl Hf.
  simpl. rewrite (proj2 (Z.leb_gt _ _) Hlen). done.
Qed.

(** ** Symbolic execution

    [wp_look "H"]: the next step of the program reads the object that ["H"] owns.
    [wp_call L "H"]: the next step is a call specified by [L], from the resources ["H"]. *)
Tactic Notation "wp_look" constr(H) :=
  iApply wp_bind; iApply (wp_view with H); [done|]; iIntros H.
Tactic Notation "wp_call" open_constr(L) constr(H) :=
  iApply (wp_seq with H); [apply L|].
