(* ===== verification/Status.v ===== *)
(** * Status: src/status.rs

    The thread-local error message and the panic guard of the C entry points. *)
From S2P Require Import Prelude Machine Objects Memory HeapLogic.
From iris.proofmode Require Import proofmode.

(** ** C strings *)

Fixpoint contains_nul (s : string) : bool :=
  match s with
  | EmptyString => false
  | String c rest => Ascii.eqb c Ascii.zero || contains_nul rest
  end.

(** [CString::new]: an owned NUL-terminated copy, refused when the text holds a NUL. *)
Definition cstring_new (s : string) : M (Result ptr unit) :=
  if contains_nul s then mret (Err tt) else p ← alloc (BCStr s); mret (Ok p).

(** [CStr::from_ptr]: the text a C string pointer designates. *)
Definition cstr_from_ptr (p : ptr) : M string := view as_cstr p.

(** ** The thread-local message *)

(** [LAST_ERROR.with]: the buffer in the slot, which starts as [CString::default()]. *)
Definition last_error_cell : M ptr :=
  t ← current_thread;
  b ← load_loc (LTls t) NoSuchThread;
  match as_last_error b with
  | Some (Some p) => mret p
  | Some None =>
      p ← alloc (BCStr "");
      store_loc (LTls t) (BLastError (Some p)) NoSuchThread;;
      mret p
  | None => undefined WrongObject
  end.

Definition nul_fallback : string := "(error message contained interior NUL)".

Definition set_last_error (msg : string) : M unit :=
  old ← last_error_cell;
  r ← cstring_new msg;
  c ← match r with
      | Ok c => mret c
      | Err _ =>
          r' ← cstring_new nul_fallback;
          match r' with
          | Ok c => mret c
          | Err _ => panic (PanicString "called `Result::unwrap()` on an `Err` value")
          end
      end;
  dealloc old;;
  t ← current_thread;
  store_loc (LTls t) (BLastError (Some c)) NoSuchThread.

Definition rgpot_last_error : M ptr := extern_C last_error_cell.

(** ** The panic guard *)

Definition panic_message (e : PanicPayload) : string :=
  match e with
  | PanicStr s => s
  | PanicString s => s
  | PanicAny => "unknown panic"
  end.

Definition catch_unwind (f : M rgpot_status_t) : M rgpot_status_t := fun t m =>
  match f t m with
  | Panicked e m' =>
      (set_last_error (panic_message e);; mret RGPOT_INTERNAL_ERROR) t m'
  | r => r
  end.

(** ** Specifications *)

(** What a C caller reads back after [set_last_error msg]. *)
Definition stored_message (msg : string) : string :=
  if contains_nul msg then nul_fallback else msg.

(** The slot of thread [t] holds [msg]; [None] when it has not been used yet. *)
Definition last_error_slot (t : thread_id) (msg : option string) : mProp :=
  match msg with
  | None => t ↦ₜ BLastError None
  | Some s => ∃ p, t ↦ₜ BLastError (Some p) ∗ p ↦ BCStr s
  end.

(** The slot of [t] holds [msg] in the buffer at [p]. *)
Definition last_error_at (t : thread_id) (p : ptr) (msg : string) : mProp :=
  t ↦ₜ BLastError (Some p) ∗ p ↦ BCStr msg.

Section specs.
  Context (t : thread_id).

Lemma stored_message_id s : contains_nul s = false -> stored_message s = s.
  Proof. unfold stored_message. by intros ->. Qed.

Lemma last_error_at_slot p s : last_error_at t p s ⊢ last_error_slot t (Some s).
  Proof. iIntros "[Ht Hp]". iExists p. iFrame. Qed.

Lemma last_error_cell_spec msg :
    last_error_slot t msg ⊢
    wp t last_error_cell (fun p => last_error_at t p (default ""%string msg)).
  Proof.
    iIntros "H". iApply wp_bind. iApply wp_current_thread.
    destruct msg as [s|]; simpl.
    - iDestruct "H" as (p) "[Ht Hp]". iApply wp_bind. iApply (wp_load_tls with "Ht").
      iIntros "Ht". iApply wp_ret. iFrame.
    - iApply wp_bind. iApply (wp_load_tls with "H"). iIntros "Ht /=".
      iApply wp_bind. iApply wp_alloc. iIntros (p) "Hp".
      iApply wp_bind. iApply (wp_store_tls with "Ht"). iIntros "Ht".
      iApply wp_ret. iFrame.
  Qed.

Lemma cstring_new_spec s :
    emp ⊢ wp t (cstring_new s) (fun r =>
      match r with
      | Ok p => <affine> ⌜contains_nul s = false⌝ ∗ p ↦ BCStr s
      | Err _ => <affine> ⌜contains_nul s = true⌝
      end).
  Proof.
    iIntros "_". unfold cstring_new. destruct (contains_nul s) eqn:E.
    - iApply wp_ret. done.
    - iApply wp_bind. iApply wp_alloc. iIntros (p) "Hp". iApply wp_ret. by iFrame.
  Qed.

  (** The fallback text has no NUL, so the inner [unwrap] never panics. *)
Lemma set_last_error_spec msg s :
    last_error_slot t msg ⊢
    wp t (set_last_error s) (fun _ => last_error_slot t (Some (stored_message s))).
  Proof.
    iIntros "H". unfold set_last_error.
    wp_call last_error_cell_spec "H".
    iIntros (old) "[Ht Hold]".
    iApply (wp_seq with "[]"); [apply (cstring_new_spec s) | done |].
    iIntros (r) "Hr". iApply wp_bind.
    iAssert (wp t _ (fun c => c ↦ BCStr (stored_message s)))%I with "[Hr]" as "Hc".
    2:{ iApply (wp_wand with "Hc"). iIntros (c) "Hc".
        iApply wp_bind. iApply (wp_dealloc with "Hold").
        iApply wp_bind. iApply wp_current_thread.
        iApply (wp_store_tls with "Ht"). iIntros "Ht". iExists c. iFrame. }
    unfold stored_message. destruct r as [c|[]].
    - iDestruct "Hr" as "[-> Hc]". by iApply wp_ret.
    - iDestruct "Hr" as %->.
      iApply (wp_seq with "[]"); [apply (cstring_new_spec nul_fallback) | done |].
      iIntros ([c|[]]) "Hr"; [|by iDestruct "Hr" as %?].
      iDestruct "Hr" as "[_ Hc]". by iApply wp_ret.
  Qed.

Lemma rgpot_last_error_spec msg :
    last_error_slot t msg ⊢
    wp t rgpot_last_error (fun p => last_error_at t p (default ""%string msg)).
  Proof.
    iIntros "H". iApply wp_extern_C. by iApply last_error_cell_spec.
  Qed.

Lemma cstr_from_ptr_spec p s : p ↦ BCStr s ⊢ wp t (cstr_from_ptr p) (fun r => p ↦ BCStr s ∗ <affine> ⌜r = s⌝).
  Proof. iIntros "Hp". iApply (wp_view with "Hp"); [done|]. iIntros "$". done. Qed.

  (** A body that does not panic is unaffected by the guard. *)
Lemma wp_catch_unwind x (Φ : rgpot_status_t -> mProp) :
    wp t x Φ ⊢ wp t (catch_unwind x) Φ.
  Proof.
    constructor. intros h H σ hf Hwf Hm Hd.
    destruct (H σ hf Hwf Hm Hd) as (a & σ' & h' & Hx & ?).
    exists a, σ', h'. split; [|done]. by rewrite /catch_unwind Hx.
  Qed.

  (** The tail shared by every guarded entry point's early return. *)
Lemma fail_spec msg s st :
    last_error_slot t msg ⊢
    wp t (set_last_error s;; mret st : M rgpot_status_t)
      (fun r => <affine> ⌜r = st⌝ ∗ last_error_slot t (Some (stored_message s))).
  Proof.
    iIntros "H". wp_call set_last_error_spec "H".
    iIntros (_) "H". iApply wp_ret. by iFrame.
  Qed.
End specs.

(** ** Reading the message off a store *)

(** What [rgpot_last_error] would show thread [t]. *)
Definition last_message (t : thread_id) (σ : Mem) : option string :=
  match mem_map σ !! LTls t with
  | Some (BLastError None) => Some ""%string
  | Some (BLastError (Some p)) => mem_map σ !! LHeap p ≫= as_cstr
  | _ => None
  end.

Section message.
  Context (t : thread_id).
  Implicit Types (σ : Mem) (h hf : gmap loc Block).

Lemma message_of_slot msg h hf σ :
  last_error_slot t msg h -> mem_map σ = h ∪ hf -> h ##ₘ hf ->
  last_message t σ = Some (default ""%string msg).
Proof.
  unfold last_message. intros Hs -> Hd. destruct msg as [s|].
  - destruct Hs as (p & h1 & h2 & -> & Hd' & Ht & Hp). simpl in Ht, Hp. subst h1.
    destruct Hp as [_ ->].
    rewrite -assoc_L (lookup_union_Some_l _ _ _ (BLastError (Some p))).
    2:{ apply lookup_singleton_eq. }
    rewrite lookup_union_r. 2:{ by apply lookup_singleton_ne. }
    rewrite (lookup_union_Some_l _ _ _ (BCStr s)); [done | apply lookup_singleton_eq].
  - simpl in Hs. subst h. rewrite (lookup_union_Some_l _ _ _ (BLastError None)); [done|].
    apply lookup_singleton_eq.
Qed.

Lemma slot_of_message s σ :
  wf_mem σ -> last_message t σ = Some s ->
  exists msg h, last_error_slot t msg h /\ default ""%string msg = s /\
    mem_map σ = h ∪ (mem_map σ ∖ h) /\ h ##ₘ mem_map σ ∖ h.
Proof.
  intros [_ Hwf]. unfold last_message.
  assert (forall h, h ⊆ mem_map σ -> mem_map σ = h ∪ (mem_map σ ∖ h) /\ h ##ₘ mem_map σ ∖ h)
    as Hsub.
  { intros h Hh. rewrite map_difference_union //. split; [done|]. by apply map_disjoint_difference_r1. }
  destruct (mem_map σ !! LTls t) as [[| | | | | | | | | | | |[p|]| |]|] eqn:Ht;
    try done; simpl.
  - destruct (mem_map σ !! LHeap p) as [b|] eqn:Hp; [|done].
    destruct b; intros [= <-]. exists (Some s0).
    exists ({[LTls t := BLastError (Some p)]} ∪ {[LHeap p := BCStr s0]}).
    split; [|split; [done | apply Hsub]].
    + exists p, {[LTls t := BLastError (Some p)]}, {[LHeap p := BCStr s0]}.
      split_and!; [done | by apply map_disjoint_singleton_l, lookup_singleton_ne | done |].
      split; [|done]. apply Hwf in Hp. unfold null. lia.
    + apply map_union_least; by apply map_singleton_subseteq_l.
  - intros [= <-]. exists None, {[LTls t := BLastError None]}.
    split; [done|]. split; [done|]. apply Hsub. by apply map_singleton_subseteq_l.
Qed.

(** A specification that only needs the slot, as a statement about runs. *)
Lemma slot_run {A} (x : M A) (φ : A -> Prop) s s' σ :
  (forall msg, last_error_slot t msg ⊢
     wp t x (fun a => <affine> ⌜φ a⌝ ∗ last_error_slot t (Some s'))) ->
  wf_mem σ -> last_message t σ = Some s ->
  exists a σ', x t σ = Done a σ' /\ wf_mem σ' /\ φ a /\ last_message t σ' = Some s'.
Proof.
  intros Hx Hwf Hs. destruct (slot_of_message s σ Hwf Hs) as (msg & h & Hh & _ & Hm & Hd).
  destruct (wp_run t x _ _ σ h _ (Hx msg) Hh Hwf Hm Hd) as
    (a & σ' & h' & Hrun & Hwf' & Hm' & Hd' & HΦ).
  exists a, σ'. split_and!; [done.. | |].
  - destruct HΦ as (h1 & h2 & -> & _ & [-> Hφ] & _). done.
  - destruct HΦ as (h1 & h2 & -> & _ & [-> _] & Hs'). rewrite left_id_L in Hm', Hd'.
    by eapply (message_of_slot (Some s')).
Qed.
End message.

(** The guard does not stop undefined behaviour. *)
Lemma stuck_catch_unwind t z (x : M rgpot_status_t) : stuck t x z ⊢ stuck t (catch_unwind x) z.
Proof. constructor. intros h H σ hf Hwf Hm Hd. by rewrite /catch_unwind (H σ hf). Qed.
