(* ===== verification/StatusTheorems.v ===== *)
(** * StatusTheorems: what src/status.rs promises its callers

    The thread-local message refines a map from threads to strings under every
    interleaving, the pointer handed to C dies with the next error, and the panic guard
    turns a panic into a status and a message. *)
From S2P Require Import Prelude Machine Objects Memory HeapLogic Status.
From iris.proofmode Require Import proofmode.

(** ** The abstract specification: one message per thread *)

Inductive ErrorOp := OpSet (msg : string) | OpGet.

(** One step of thread [t] on the abstract state, with what it returns. *)
Definition spec_step (abs : thread_id -> string) (t : thread_id) (op : ErrorOp) :
    option string * (thread_id -> string) :=
  match op with
  | OpSet msg => (None, fun t' => if decide (t' = t) then stored_message msg else abs t')
  | OpGet => (Some (abs t), abs)
  end.

Fixpoint spec_steps (abs : thread_id -> string) (schedule : list (thread_id * ErrorOp)) :
    list (option string) :=
  match schedule with
  | [] => []
  | (t, op) :: schedule =>
      let '(r, abs) := spec_step abs t op in r :: spec_steps abs schedule
  end.

(** ** The implementation under a schedule of threads *)

Definition on_thread {A} (t : thread_id) (x : M A) : M A := fun _ σ => x t σ.

Definition run_op (op : ErrorOp) : M (option string) :=
  match op with
  | OpSet msg => set_last_error msg;; mret None
  | OpGet => p ← rgpot_last_error; s ← cstr_from_ptr p; mret (Some s)
  end.

Fixpoint run_schedule (schedule : list (thread_id * ErrorOp)) : M (list (option string)) :=
  match schedule with
  | [] => mret []
  | (t, op) :: schedule =>
      r ← on_thread t (run_op op);
      rs ← run_schedule schedule;
      mret (r :: rs)
  end.

(** The slots of the threads in [ts] hold the abstract messages. *)
Definition slot_is (t : thread_id) (s : string) : mProp :=
  ∃ msg, <affine> ⌜default ""%string msg = s⌝ ∗ last_error_slot t msg.
Definition slots (ts : gset thread_id) (abs : thread_id -> string) : mProp :=
  [∗ set] t ∈ ts, slot_is t (abs t).

Lemma run_op_spec t op abs :
  slot_is t (abs t) ⊢
  wp t (run_op op) (fun r =>
    <affine> ⌜r = (spec_step abs t op).1⌝ ∗ slot_is t ((spec_step abs t op).2 t)).
Proof.
  iIntros "(%msg & %Hm & H)". destruct op as [s|]; simpl.
  - wp_call set_last_error_spec "H". iIntros (_) "H".
    iApply wp_ret. iSplitR; [done|]. iExists _. iFrame. by rewrite decide_True.
  - wp_call rgpot_last_error_spec "H". iIntros (p) "[Ht Hp]".
    wp_call cstr_from_ptr_spec "Hp". iIntros (s) "[Hp ->]".
    iApply wp_ret. rewrite Hm. iSplitR; [done|]. iExists (Some (abs t)).
    iSplitR; [done|]. iExists p. iFrame.
Qed.

Lemma slots_access ts abs t op :
  t ∈ ts ->
  slots ts abs ⊢ slot_is t (abs t) ∗
    (slot_is t ((spec_step abs t op).2 t) -∗ slots ts (spec_step abs t op).2).
Proof.
  iIntros (Ht) "H". unfold slots. rewrite !(big_sepS_delete _ ts t) //.
  iDestruct "H" as "[$ Hrest]". iIntros "$".
  iApply (big_sepS_mono with "Hrest"). intros t' [_ Hne]%elem_of_difference.
  rewrite elem_of_singleton in Hne. destruct op; simpl; [by rewrite decide_False | done].
Qed.

Lemma run_schedule_spec t0 ts schedule abs :
  Forall (fun s => s.1 ∈ ts) schedule ->
  slots ts abs ⊢ wp t0 (run_schedule schedule) (fun rs =>
    <affine> ⌜rs = spec_steps abs schedule⌝ ∗ ∃ abs', slots ts abs').
Proof.
  intros Hts. revert abs. induction Hts as [|[t op] schedule Ht _ IH]; intros abs; simpl.
  - iIntros "H". iApply wp_ret. iSplitR; [done|]. by iExists abs.
  - iIntros "H". iDestruct (slots_access _ _ t op with "H") as "[Ht Hclose]"; [done|].
    destruct (spec_step abs t op) as [r abs'] eqn:E.
    iApply (wp_seq t0 _ (on_thread t (run_op op)) _ (fun r' => <affine> ⌜r' = r⌝ ∗
              slot_is t (abs' t))%I with "Ht").
    { pose proof (run_op_spec t op abs) as Hop. rewrite E in Hop.
      constructor. intros h Hh σ hf ???. by destruct Hop as [Hop]; eapply Hop. }
    iIntros (r') "[-> Ht]". iDestruct ("Hclose" with "Ht") as "H".
    wp_call IH "H". iIntros (rs) "[-> H]".
    iApply wp_ret. iSplitR; [done|]. done.
Qed.

(** Threads that have not reported an error yet start with the empty message. *)
Definition fresh_slot (σ : Mem) (t : thread_id) : Prop :=
  mem_map σ !! LTls t = Some (BLastError None).

Lemma fresh_slots (ts : gset thread_id) σ :
  set_Forall (fresh_slot σ) ts ->
  exists h, h ⊆ mem_map σ /\ slots ts (fun _ => ""%string) h /\
    forall t, t ∉ ts -> h !! LTls t = None.
Proof.
  unfold slots. induction ts as [|t ts Ht IH] using set_ind_L; intros Hf.
  - exists ∅. split_and!; [apply map_empty_subseteq | by eapply holds_mono; [rewrite big_sepS_empty|] | done].
  - apply set_Forall_union_inv_1 in Hf as Hft. apply set_Forall_union_inv_2 in Hf.
    apply set_Forall_singleton in Hft. destruct (IH Hf) as (h & Hsub & Hh & Hout).
    exists ({[LTls t := BLastError None]} ∪ h). split_and!.
    + apply map_union_least; [by apply map_singleton_subseteq_l | done].
    + eapply holds_mono; [by rewrite big_sepS_insert|]. exists {[LTls t := BLastError None]}, h.
      split_and!; [done | by apply map_disjoint_singleton_l, Hout | | done].
      exists None. exists ∅, {[LTls t := BLastError None]}. split_and!; [by rewrite left_id_L | | |].
      * apply map_disjoint_empty_l.
      * by split.
      * done.
    + intros t' [Hne Ht']%not_elem_of_union. rewrite not_elem_of_singleton in Hne.
      rewrite lookup_union_r; [by apply Hout | apply lookup_singleton_ne; congruence].
Qed.

(** C28: Refinement of the thread-local error slot.  For every set of threads whose slots are
    fresh and every schedule of [set_last_error] and [rgpot_last_error] calls by those
    threads, in any interleaving, the texts a C caller reads are those of the abstract
    machine that keeps one string per thread: a thread reads its own last message (or the
    empty string), and an error of one thread never shows up in another. *)
Theorem last_error_refines_thread_map (ts : gset thread_id)
    (schedule : list (thread_id * ErrorOp)) (t0 : thread_id) (σ : Mem)
    (Hwf : wf_mem σ) (Hfresh : set_Forall (fresh_slot σ) ts)
    (Hthreads : Forall (fun s => s.1 ∈ ts) schedule) :
  exists σ', run_schedule schedule t0 σ = Done (spec_steps (fun _ => ""%string) schedule) σ'.
Proof.
  destruct (fresh_slots ts σ Hfresh) as (h & Hsub & Hh & _).
  destruct (wp_run t0 _ _ _ σ h (mem_map σ ∖ h) (run_schedule_spec t0 ts schedule _ Hthreads) Hh
    Hwf) as (rs & σ' & h' & Hrun & _ & _ & _ & HΦ).
  - by rewrite map_difference_union.
  - by apply map_disjoint_difference_r1.
  - destruct HΦ as (? & ? & _ & _ & [_ ->] & _). by exists σ'.
Qed.

(** Two threads with fresh slots. *)
Definition two_threads : Mem :=
  MkMem {[LTls 1%N := BLastError None; LTls 2%N := BLastError None]} 1%N.

Lemma two_threads_wf : wf_mem two_threads.
Proof.
  split; [done|]. intros p b. simpl. rewrite lookup_insert_Some lookup_singleton_Some.
  by intros [[? _] | [_ [? _]]].
Qed.

Lemma last_error_refines_thread_map_witness :
  exists σ', run_schedule [(1%N, OpSet "a"); (2%N, OpGet); (1%N, OpGet)] 1%N two_threads
    = Done [None; Some ""%string; Some "a"%string] σ'.
Proof.
  apply (last_error_refines_thread_map {[1%N; 2%N]}
    [(1%N, OpSet "a"); (2%N, OpGet); (1%N, OpGet)] 1%N two_threads two_threads_wf).
  - intros t Ht. set_unfold in Ht. by destruct Ht as [-> | ->].
  - apply (bool_decide_unpack _). vm_compute. done.
Defined.

(** ** The lifetime of the pointer given to C *)

Lemma last_error_cell_run t σ s :
  last_message t σ = Some s ->
  exists p σ', last_error_cell t σ = Done p σ' /\
    mem_map σ' !! LTls t = Some (BLastError (Some p)) /\
    mem_map σ' !! LHeap p = Some (BCStr s) /\ (wf_mem σ -> wf_mem σ').
Proof.
  unfold last_message, last_error_cell, mbind, M_bind, current_thread, load_loc.
  destruct (mem_map σ !! LTls t) as [b|] eqn:Ht; [|done].
  destruct b as [| | | | | | | | | | | |[p|]| |]; try done; simpl.
  - destruct (mem_map σ !! LHeap p) as [b|] eqn:Hp; [|done].
    destruct b; intros [= <-]. by exists p, σ.
  - intros [= <-]. unfold store_loc. simpl. rewrite lookup_insert_ne // Ht.
    eexists _, _. split; [done|]. simpl. split_and!.
    + by rewrite lookup_insert_eq.
    + rewrite lookup_insert_ne // lookup_insert_eq //.
    + intros [Hpos Hwf]. split; simpl; [lia|]. intros q b.
      rewrite lookup_insert_ne // lookup_insert_Some.
      intros [[[= <-] _] | [_ Hq]]; [lia | apply Hwf in Hq; lia].
Qed.

Lemma set_last_error_run t σ p s msg :
  wf_mem σ -> mem_map σ !! LTls t = Some (BLastError (Some p)) ->
  mem_map σ !! LHeap p = Some (BCStr s) ->
  set_last_error msg t σ = Done tt (MkMem
    (<[LTls t := BLastError (Some (mem_next σ))]>
       (delete (LHeap p) (<[LHeap (mem_next σ) := BCStr (stored_message msg)]> (mem_map σ))))
    (mem_next σ + 1)%N).
Proof.
  intros [_ Hwf] Ht Hp. apply Hwf in Hp as Hlt.
  assert (last_error_cell t σ = Done p σ) as Hcell.
  { unfold last_error_cell, mbind, M_bind, current_thread, load_loc. by rewrite Ht. }
  unfold set_last_error. rewrite /mbind /M_bind Hcell.
  unfold stored_message, cstring_new. destruct (contains_nul msg); simpl;
    unfold mbind, M_bind; simpl; unfold dealloc;
    rewrite (is_null_false p); try (unfold null; lia); simpl;
    rewrite lookup_insert_ne; try (intros [=]; lia); rewrite Hp; simpl;
    unfold store_loc; simpl; by rewrite lookup_delete_ne // lookup_insert_ne // Ht.
Qed.

(** The pointer that [rgpot_last_error] returns is readable and shows the thread's current
    message, and the next reported error of that thread invalidates it: reading it then is
    a use after free, whatever the new message is.  This is the validity rule that the
    documentation of [rgpot_last_error] states. *)
Theorem last_error_pointer_expires (t : thread_id) (σ : Mem) (s msg : string)
    (Hwf : wf_mem σ) (Hs : last_message t σ = Some s) :
  exists p σ1 σ2, rgpot_last_error t σ = Done p σ1 /\ cstr_from_ptr p t σ1 = Done s σ1 /\
    set_last_error msg t σ1 = Done tt σ2 /\
    last_message t σ2 = Some (stored_message msg) /\
    cstr_from_ptr p t σ2 = Undefined DanglingPointer.
Proof.
  destruct (last_error_cell_run t σ s Hs) as (p & σ1 & Hrun & Ht & Hp & Hwf1).
  specialize (Hwf1 Hwf). pose proof Hwf1 as [_ Hlt]. apply Hlt in Hp as Hr.
  assert (is_null p = false) as Hn by (apply is_null_false; unfold null; lia).
  exists p, σ1. eexists. split_and!.
  - unfold rgpot_last_error, extern_C. by rewrite Hrun.
  - unfold cstr_from_ptr, view, load, mbind, M_bind. rewrite Hn. unfold load_loc. by rewrite Hp.
  - by eapply set_last_error_run.
  - unfold last_message. simpl. rewrite lookup_insert_eq lookup_insert_ne //.
    rewrite lookup_delete_ne; [|intros [=]; lia]. by rewrite lookup_insert_eq.
  - unfold cstr_from_ptr, view, load, mbind, M_bind. rewrite Hn. unfold load_loc. simpl.
    by rewrite lookup_insert_ne // lookup_delete_eq.
Qed.

Lemma last_error_pointer_expires_witness :
  exists p σ1 σ2, rgpot_last_error 1%N two_threads = Done p σ1 /\
    cstr_from_ptr p 1%N σ1 = Done ""%string σ1 /\
    set_last_error "x" 1%N σ1 = Done tt σ2 /\ last_message 1%N σ2 = Some "x"%string /\
    cstr_from_ptr p 1%N σ2 = Undefined DanglingPointer.
Proof. exact (last_error_pointer_expires 1%N two_threads "" "x" two_threads_wf eq_refl). Defined.

(** The panic guard.  A body that ends in any other way is returned unchanged; a panic of
    the body becomes [RGPOT_INTERNAL_ERROR] with the panic's text as the thread's message
    ("unknown panic" for a payload that is not text, the fallback text when it holds a NUL),
    and no panic ever leaves the guard. *)
Theorem catch_unwind_total (f : M rgpot_status_t) (t : thread_id) (σ : Mem)
    (Hslot : forall e σ', f t σ = Panicked e σ' -> wf_mem σ' /\ is_Some (last_message t σ')) :
  match f t σ with
  | Panicked e _ => exists σ'', catch_unwind f t σ = Done RGPOT_INTERNAL_ERROR σ'' /\
      last_message t σ'' = Some (stored_message (panic_message e))
  | r => catch_unwind f t σ = r
  end.
Proof.
  unfold catch_unwind. destruct (f t σ) as [a σ'|e σ'|e|h] eqn:E; try done.
  destruct (Hslot e σ' eq_refl) as [Hwf [s Hs]].
  destruct (slot_run t (set_last_error (panic_message e);; mret RGPOT_INTERNAL_ERROR)
    (fun r => r = RGPOT_INTERNAL_ERROR) s (stored_message (panic_message e)) σ')
    as (a & σ'' & Hrun & _ & -> & Hm); [|done..|by exists σ''].
  intros msg. apply fail_spec.
Qed.

(** A body that panics with a formatted message. *)
Lemma catch_unwind_total_witness :
  exists σ'', catch_unwind (panic (PanicString "boom")) 1%N two_threads
    = Done RGPOT_INTERNAL_ERROR σ'' /\ last_message 1%N σ'' = Some "boom"%string.
Proof.
  apply (catch_unwind_total (panic (PanicString "boom")) 1%N two_threads).
  intros e σ' [= <- <-]. split; [exact two_threads_wf | by eexists].
Defined.
