(* ===== verification/Strides.v ===== *)
(** * Strides: the row-major stride computation of src/tensor.rs

    The loop as it is written, its equality with the closed form on every input and in
    both overflow regimes, and what the closed form means: the strides number the cells of
    a shape without gaps or collisions. *)
From S2P Require Import Prelude Machine Objects Memory.
Open Scope Z_scope.

Section strides.
  Context {profile : Target}.

(** ** Row-major strides *)

(** [for i in (0..ndim - 1).rev() { strides[i] = strides[i + 1] * shape[i + 1]; }] *)
Fixpoint strides_loop (shape : list Z) (range : list nat) (strides : list Z) : M (list Z) :=
  match range with
  | [] => mret strides
  | i :: range =>
      s ← index strides (i + 1);
      d ← index shape (i + 1);
      x ← mul_i64 s d;
      strides ← set_index strides i x;
      strides_loop shape range strides
  end.

Definition compute_row_major_strides (shape : list Z) : M Vec :=
  let ndim := length shape in
  if (ndim =? 0)%nat then vec_new BI64s []
  else
    strides ← strides_loop shape (reverse (seq 0 (ndim - 1))) (replicate ndim 1);
    vec_new BI64s strides.

End strides.

(** ** Reference definition: stride [k] is the product of the dimensions after [k] *)

Definition cells (shape : list Z) : Z := foldr Z.mul 1 shape.

Fixpoint row_major (shape : list Z) : list Z :=
  match shape with
  | [] => []
  | _ :: rest => cells rest :: row_major rest
  end.

(** No stride leaves the [i64] range. *)
Definition strides_fit (shape : list Z) : bool := forallb is_i64 (row_major shape).

(** What the code computes when arithmetic wraps; the exact strides when they fit. *)
Definition wrapped_strides (shape : list Z) : list Z := as_i64 <$> row_major shape.

Lemma length_row_major (shape : list Z) : length (row_major shape) = length shape.
Proof. induction shape; simpl; congruence. Qed.

Lemma row_major_lookup (shape : list Z) (k : nat) :
  (k < length shape)%nat -> row_major shape !! k = Some (cells (drop (S k) shape)).
Proof.
  revert k. induction shape as [|d rest IH]; intros k Hk; simpl in *; [lia|].
  destruct k as [|k]; [done|]. simpl. apply IH. lia.
Qed.

Lemma wrapped_strides_fit (shape : list Z) :
  strides_fit shape = true -> wrapped_strides shape = row_major shape.
Proof.
  unfold strides_fit, wrapped_strides. induction (row_major shape) as [|x xs IH]; [done|].
  cbn [forallb]. intros [Hx Hxs]%andb_prop. by rewrite fmap_cons, as_i64_id, IH.
Qed.

Section run.
  Context {profile : Target} (t : thread_id) (σ : Mem).

Lemma mul_i64_wrapped (r d : Z) :
    overflow_checks = false -> mul_i64 (as_i64 r) d t σ = Done (as_i64 (r * d)) σ.
  Proof.
    intros E. unfold mul_i64. rewrite E. destruct (is_i64 _) eqn:Hi.
    - by rewrite <- as_i64_mul_l, (as_i64_id (as_i64 r * d)).
    - by rewrite as_i64_mul_l.
  Qed.

Lemma mul_i64_checked (r d : Z) :
    overflow_checks = true -> is_i64 r = true ->
    mul_i64 (as_i64 r) d t σ =
      if is_i64 (r * d) then Done (as_i64 (r * d)) σ else Panicked mul_overflow σ.
  Proof.
    intros E Hr. unfold mul_i64. rewrite E, (as_i64_id r) by done.
    destruct (is_i64 (r * d)) eqn:Hi; [by rewrite as_i64_id | done].
  Qed.

Lemma index_run {A} (xs : list A) (i : nat) x : xs !! i = Some x -> index xs i t σ = Done x σ.
  Proof. unfold index. by intros ->. Qed.

Lemma set_index_run {A} (xs : list A) (i : nat) x :
    (i < length xs)%nat -> set_index xs i x t σ = Done (<[i := x]> xs) σ.
  Proof. intros Hi. unfold set_index. by rewrite decide_True. Qed.

Lemma bind_run {A B} (x : M A) (k : A -> M B) a : x t σ = Done a σ -> (x ≫= k) t σ = k a t σ.
  Proof. unfold mbind, M_bind. by intros ->. Qed.

  (** The loop invariant: before iteration [k] the positions from [k] on are final. *)
Definition partial_strides (shape : list Z) (k : nat) : list Z :=
    replicate k 1 ++ drop k (wrapped_strides shape).

Lemma length_partial_strides (shape : list Z) k :
    (k <= length shape)%nat -> length (partial_strides shape k) = length shape.
  Proof.
    intros Hk. unfold partial_strides, wrapped_strides.
    rewrite length_app, length_replicate, length_drop, length_fmap, length_row_major. lia.
  Qed.

Lemma partial_strides_next (shape : list Z) k d :
    shape !! S k = Some d ->
    partial_strides shape (S k) !! S k = Some (as_i64 (cells (drop (S (S k)) shape))) /\
    cells (drop (S k) shape) = cells (drop (S (S k)) shape) * d /\
    <[k := as_i64 (cells (drop (S k) shape))]> (partial_strides shape (S k))
      = partial_strides shape k.
  Proof.
    intros Hd. pose proof (lookup_lt_Some _ _ _ Hd) as Hlt.
    assert (forall j, (j < length shape)%nat -> wrapped_strides shape !! j =
              Some (as_i64 (cells (drop (S j) shape)))) as Hw.
    { intros j Hj. unfold wrapped_strides. by rewrite list_lookup_fmap, row_major_lookup. }
    split_and!.
    - unfold partial_strides. rewrite lookup_app_r by (rewrite length_replicate; lia).
      rewrite length_replicate, Nat.sub_diag, lookup_drop, Nat.add_0_r. by apply Hw.
    - rewrite (drop_S _ _ _ Hd). unfold cells. simpl. lia.
    - unfold partial_strides. replace (S k) with (k + 1)%nat at 2 by lia.
      rewrite replicate_add, <- app_assoc, insert_app_r_alt by (rewrite length_replicate; lia).
      rewrite length_replicate, Nat.sub_diag. simpl. f_equal.
      by rewrite (drop_S (wrapped_strides shape) _ k) by (apply Hw; lia).
  Qed.

Lemma strides_loop_run (shape : list Z) (k : nat) :
    (k < length shape)%nat ->
    (overflow_checks = false \/ forallb is_i64 (drop k (row_major shape)) = true) ->
    strides_loop shape (reverse (seq 0 k)) (partial_strides shape k) t σ =
      if negb overflow_checks || forallb is_i64 (take k (row_major shape))
      then Done (wrapped_strides shape) σ else Panicked mul_overflow σ.
  Proof.
    induction k as [|k IH]; intros Hk Hdone.
    - rewrite orb_true_r. done.
    - rewrite seq_S, reverse_snoc. cbn [strides_loop]. rewrite Nat.add_1_r, Nat.add_0_l.
      destruct (lookup_lt_is_Some_2 shape (S k) Hk) as [d Hd].
      destruct (partial_strides_next shape k d Hd) as (Hs & Hc & Hu).
      rewrite (bind_run _ _ _ (index_run _ _ _ Hs)), (bind_run _ _ _ (index_run _ _ _ Hd)).
      assert (row_major shape !! k = Some (cells (drop (S k) shape))) as Hk0
        by (apply row_major_lookup; lia).
      assert (row_major shape !! S k = Some (cells (drop (S (S k)) shape))) as Hk1
        by (apply row_major_lookup; lia).
      assert (k < length (partial_strides shape (S k)))%nat as Hset
        by (rewrite length_partial_strides; lia).
      rewrite (take_S_r _ _ _ Hk0), forallb_app. simpl. rewrite andb_true_r.
      destruct overflow_checks eqn:E; cbn [negb orb] in IH, Hdone |- *.
      + destruct Hdone as [|Hdone]; [done|].
        rewrite (drop_S _ _ _ Hk1) in Hdone. simpl in Hdone.
        apply andb_prop in Hdone as [Hr Hrest].
        unfold mbind at 1, M_bind at 1. rewrite mul_i64_checked by done. rewrite <- Hc.
        destruct (is_i64 (cells (drop (S k) shape))) eqn:Hi; [|by rewrite andb_false_r].
        rewrite (bind_run _ _ _ (set_index_run _ _ _ Hset)), Hu, IH, andb_true_r; [done | lia |].
        right. rewrite (drop_S _ _ _ Hk0). simpl. rewrite Hi. simpl.
        rewrite (drop_S _ _ _ Hk1). simpl. by rewrite Hr.
      + unfold mbind at 1, M_bind at 1. rewrite mul_i64_wrapped by done. rewrite <- Hc.
        rewrite (bind_run _ _ _ (set_index_run _ _ _ Hset)), Hu, IH; [done | lia | by left].
  Qed.
End run.

(** The whole function, on every shape and in both regimes. *)
Lemma compute_row_major_strides_eq {profile : Target} (shape : list Z) (t : thread_id) (σ : Mem) :
  compute_row_major_strides shape t σ =
    if negb overflow_checks || strides_fit shape
    then vec_new BI64s (wrapped_strides shape) t σ
    else Panicked mul_overflow σ.
Proof.
  unfold compute_row_major_strides.
  destruct (Nat.eqb_spec (length shape) 0) as [Hz | Hn].
  - apply nil_length_inv in Hz as ->. by rewrite orb_true_r.
  - destruct (exists_last (l := shape)) as (init & d & ->); [by intros -> |].
    rewrite length_app. simpl. rewrite Nat.add_sub.
    assert (row_major (init ++ [d]) !! length init = Some 1) as Hl.
    { rewrite row_major_lookup by (rewrite length_app; simpl; lia).
      rewrite drop_ge by (rewrite length_app; simpl; lia). done. }
    assert (drop (length init) (row_major (init ++ [d])) = [1]) as Hd.
    { rewrite (drop_S _ _ _ Hl), drop_ge; [done|].
      rewrite length_row_major, length_app. simpl. lia. }
    replace (replicate (length init + 1) 1) with (partial_strides (init ++ [d]) (length init)).
    2:{ unfold partial_strides, wrapped_strides. by rewrite replicate_add, <- fmap_drop, Hd. }
    unfold mbind, M_bind. rewrite strides_loop_run.
    + assert (strides_fit (init ++ [d]) =
        forallb is_i64 (take (length init) (row_major (init ++ [d])))) as ->.
      { unfold strides_fit. rewrite <- (take_drop (length init) (row_major _)) at 1.
        rewrite forallb_app, Hd. simpl. by rewrite andb_true_r. }
      by destruct (negb overflow_checks || _).
    + rewrite length_app. simpl. lia.
    + right. by rewrite Hd.
Qed.

(** ** What the strides mean *)

(** A multi-index inside a shape, and the cell it designates under given strides. *)
Definition in_bounds (idx shape : list Z) : Prop := Forall2 (fun i d => 0 <= i < d) idx shape.

Fixpoint offset (idx strides : list Z) : Z :=
  match idx, strides with
  | i :: idx, s :: strides => i * s + offset idx strides
  | _, _ => 0
  end.

Lemma offset_range (idx shape : list Z) :
  in_bounds idx shape -> 0 <= offset idx (row_major shape) < cells shape.
Proof. induction 1 as [|i d idx rest Hi _ IH]; simpl; [lia|]. unfold cells in *; simpl; nia. Qed.

Lemma offset_surj (shape : list Z) (k : Z) :
  Forall (fun d => 0 <= d) shape -> 0 <= k < cells shape ->
  exists idx, in_bounds idx shape /\ offset idx (row_major shape) = k.
Proof.
  intros Hs. revert k. induction Hs as [|d rest Hd Hs IH]; intros k Hk; simpl in *.
  - exists []. split; [constructor | unfold cells in Hk; simpl in *; lia].
  - change (cells (d :: rest)) with (d * cells rest) in Hk.
    assert (0 < cells rest) as Hpos by nia.
    pose proof (Z.div_mod k (cells rest) ltac:(lia)) as Hdm.
    pose proof (Z.mod_pos_bound k (cells rest) Hpos) as Hm.
    destruct (IH (k mod cells rest) Hm) as (idx & Hb & Ho).
    exists (k / cells rest :: idx). simpl. split; [|lia].
    constructor; [|done]. split; [apply Z.div_pos; lia | apply Z.div_lt_upper_bound; nia].
Qed.

Lemma offset_inj (shape idx idx' : list Z) :
  in_bounds idx shape -> in_bounds idx' shape ->
  offset idx (row_major shape) = offset idx' (row_major shape) -> idx = idx'.
Proof.
  intros Hb. revert idx'. induction Hb as [|i d idx rest Hi Hb IH]; intros idx' Hb'.
  - by inversion Hb'.
  - inversion Hb' as [|i' ? idx'' ? Hi' Hb'']; subst. simpl. intros Ho.
    pose proof (offset_range _ _ Hb) as Hr. pose proof (offset_range _ _ Hb'') as Hr'.
    assert (i = i') as -> by nia. f_equal. apply IH; [done | lia].
Qed.

Lemma vec_new_run {A} (mk : list A -> Block) (xs : list A) t σ :
  vec_new mk xs t σ =
    Done (MkVec (mem_next σ) (Z.of_nat (length xs)))
      (MkMem (<[LHeap (mem_next σ) := mk xs]> (mem_map σ)) (mem_next σ + 1)%N).
Proof. done. Qed.
