(* ===== verification/Tensor.v ===== *)
(** * Tensor: src/tensor.rs

    DLPack tensors on the CPU: borrowed and owned tensors with their deleters, the
    validation helpers and the C accessors, as executable definitions. *)
From S2P Require Import Prelude Machine Objects Memory HeapLogic Strides.
From iris.proofmode Require Import proofmode.
Open Scope Z_scope.

(** What the sources use of the [dlpk] crate beside the struct fields: the flag constant
    (a non-zero bit mask) and the debug text of a data type. *)
Class Dlpack := {
  DLPACK_FLAG_BITMASK_IS_COPIED : Z;
  is_copied_nonzero : DLPACK_FLAG_BITMASK_IS_COPIED <> 0;
  debug_dtype : DLDataType -> string;
}.

Section tensor.
  Context {profile : Target} {dlpack : Dlpack} {ccode : CCode}.

(** ** Constants *)

Definition dtype_f64 : DLDataType := MkDLDataType kDLFloat 64 1.
Definition dtype_i32 : DLDataType := MkDLDataType kDLInt 32 1.
Definition cpu_device : DLDevice := MkDLDevice kDLCPU 0.
Definition dlpack_version : DLPackVersion := MkDLPackVersion 1 0.

(** A vector borrowed as a slice. *)
Definition i64_slice (v : Vec) : M (list Z) := from_raw_parts as_i64s (vec_ptr v) (vec_len v).

(** ** Borrowed tensors *)

Definition drop_borrowed_ctx (ctx : ptr) : M unit :=
  c ← view as_borrowed_ctx ctx;
  vec_drop (btc_shape c);;
  vec_drop (btc_strides c);;
  dealloc ctx.

Definition borrowed_deleter (p : ptr) : M unit := extern_C (
  if is_null p then mret tt
  else
    m ← view as_managed p;
    (if is_null (manager_ctx m) then mret tt else drop_borrowed_ctx (manager_ctx m));;
    dealloc p).

Definition create_borrowed_tensor (data : ptr) (dtype : DLDataType) (shape_vec : Vec) : M ptr :=
  let ndim := as_i32 (vec_len shape_vec) in
  shape ← i64_slice shape_vec;
  strides_vec ← compute_row_major_strides shape;
  ctx ← alloc (BBorrowedCtx (MkBorrowedCtx shape_vec strides_vec));
  let dl := MkDLTensor data cpu_device ndim dtype (vec_ptr shape_vec) (vec_ptr strides_vec) 0 in
  alloc (BManaged (MkManaged dlpack_version ctx (Some borrowed_deleter_fn) 0 dl)).

(** ** Owned tensors *)

Definition drop_owned_f64_ctx (ctx : ptr) : M unit :=
  c ← view as_owned_f64_ctx ctx;
  vec_drop (of64_data c);;
  vec_drop (of64_shape c);;
  vec_drop (of64_strides c);;
  dealloc ctx.

Definition owned_f64_deleter (p : ptr) : M unit := extern_C (
  if is_null p then mret tt
  else
    m ← view as_managed p;
    (if is_null (manager_ctx m) then mret tt else drop_owned_f64_ctx (manager_ctx m));;
    dealloc p).

Definition drop_owned_i32_ctx (ctx : ptr) : M unit :=
  c ← view as_owned_i32_ctx ctx;
  vec_drop (oi32_data c);;
  vec_drop (oi32_shape c);;
  vec_drop (oi32_strides c);;
  dealloc ctx.

Definition owned_i32_deleter (p : ptr) : M unit := extern_C (
  if is_null p then mret tt
  else
    m ← view as_managed p;
    (if is_null (manager_ctx m) then mret tt else drop_owned_i32_ctx (manager_ctx m));;
    dealloc p).

Definition create_owned_f64_tensor (data : Vec) (shape_vec : Vec) : M ptr :=
  let ndim := as_i32 (vec_len shape_vec) in
  shape ← i64_slice shape_vec;
  strides_vec ← compute_row_major_strides shape;
  let data_ptr := vec_ptr data in
  ctx ← alloc (BOwnedF64Ctx (MkOwnedF64Ctx data shape_vec strides_vec));
  let dl := MkDLTensor data_ptr cpu_device ndim dtype_f64
              (vec_ptr shape_vec) (vec_ptr strides_vec) 0 in
  alloc (BManaged (MkManaged dlpack_version ctx (Some owned_f64_deleter_fn)
           DLPACK_FLAG_BITMASK_IS_COPIED dl)).

Definition create_owned_i32_tensor (data : Vec) (shape_vec : Vec) : M ptr :=
  let ndim := as_i32 (vec_len shape_vec) in
  shape ← i64_slice shape_vec;
  strides_vec ← compute_row_major_strides shape;
  let data_ptr := vec_ptr data in
  ctx ← alloc (BOwnedI32Ctx (MkOwnedI32Ctx data shape_vec strides_vec));
  let dl := MkDLTensor data_ptr cpu_device ndim dtype_i32
              (vec_ptr shape_vec) (vec_ptr strides_vec) 0 in
  alloc (BManaged (MkManaged dlpack_version ctx (Some owned_i32_deleter_fn)
           DLPACK_FLAG_BITMASK_IS_COPIED dl)).

(** ** Validation *)

Definition show (z : Z) : string := pretty z.

Definition validate_positions (tensor : ptr) : M (Result Z string) :=
  if is_null tensor then mret (Err "positions tensor is NULL"%string)
  else
    m ← view as_managed tensor;
    let t := dl_tensor m in
    if bool_decide (dl_dtype t <> dtype_f64) then
      mret (Err ("positions: expected f64, got " +:+ debug_dtype (dl_dtype t)))
    else if negb (dl_ndim t =? 2) then
      mret (Err ("positions: expected ndim=2, got " +:+ show (dl_ndim t)))
    else
      shape ← from_raw_parts as_i64s (dl_shape t) (as_usize (dl_ndim t));
      s1 ← index shape 1;
      if negb (s1 =? 3) then
        mret (Err ("positions: expected shape[1]=3, got " +:+ show s1))
      else
        s0 ← index shape 0;
        mret (Ok (as_usize s0)).

Definition validate_atomic_numbers (tensor : ptr) (expected_n : Z) : M (Result unit string) :=
  if is_null tensor then mret (Err "atomic_numbers tensor is NULL"%string)
  else
    m ← view as_managed tensor;
    let t := dl_tensor m in
    if bool_decide (dl_dtype t <> dtype_i32) then
      mret (Err ("atomic_numbers: expected i32, got " +:+ debug_dtype (dl_dtype t)))
    else if negb (dl_ndim t =? 1) then
      mret (Err ("atomic_numbers: expected ndim=1, got " +:+ show (dl_ndim t)))
    else
      shape ← from_raw_parts as_i64s (dl_shape t) 1;
      s0 ← index shape 0;
      if negb (as_usize s0 =? expected_n) then
        mret (Err ("atomic_numbers: expected len=" +:+ show expected_n +:+ ", got " +:+ show s0))
      else mret (Ok tt).

Definition validate_box_matrix (tensor : ptr) : M (Result unit string) :=
  if is_null tensor then mret (Err "box_matrix tensor is NULL"%string)
  else
    m ← view as_managed tensor;
    let t := dl_tensor m in
    if bool_decide (dl_dtype t <> dtype_f64) then
      mret (Err ("box_matrix: expected f64, got " +:+ debug_dtype (dl_dtype t)))
    else if negb (dl_ndim t =? 2) then
      mret (Err ("box_matrix: expected ndim=2, got " +:+ show (dl_ndim t)))
    else
      shape ← from_raw_parts as_i64s (dl_shape t) 2;
      s0 ← index shape 0;
      s1 ← index shape 1;
      if negb (s0 =? 3) || negb (s1 =? 3) then
        mret (Err ("box_matrix: expected shape=[3,3], got [" +:+ show s0 +:+ ","
                   +:+ show s1 +:+ "]"))
      else mret (Ok tt).

(** ** C entry points *)

Definition rgpot_tensor_cpu_f64_2d (data : ptr) (rows cols : Z) : M ptr := extern_C (
  shape ← vec_new BI64s [rows; cols];
  create_borrowed_tensor data dtype_f64 shape).

Definition rgpot_tensor_cpu_i32_1d (data : ptr) (len : Z) : M ptr := extern_C (
  shape ← vec_new BI64s [len];
  create_borrowed_tensor data dtype_i32 shape).

Definition rgpot_tensor_cpu_f64_matrix3 (data : ptr) : M ptr := extern_C (
  shape ← vec_new BI64s [3; 3];
  create_borrowed_tensor data dtype_f64 shape).

Definition rgpot_tensor_owned_cpu_f64_2d (data : ptr) (rows cols : Z) : M ptr := extern_C (
  prod ← mul_i64 rows cols;
  let len := as_usize prod in
  slice ← from_raw_parts as_f64s data len;
  vec ← vec_new BF64s slice;
  shape ← vec_new BI64s [rows; cols];
  create_owned_f64_tensor vec shape).

(** Calling through a deleter pointer. *)
Definition run_deleter (d : Deleter) (p : ptr) : M unit :=
  match d with
  | borrowed_deleter_fn => borrowed_deleter p
  | owned_f64_deleter_fn => owned_f64_deleter p
  | owned_i32_deleter_fn => owned_i32_deleter p
  | foreign_deleter_fn f => call_deleter f p
  end.

Definition rgpot_tensor_free (tensor : ptr) : M unit := extern_C (
  if is_null tensor then mret tt
  else
    m ← view as_managed tensor;
    match deleter m with
    | Some d => run_deleter d tensor
    | None => mret tt
    end).

Definition rgpot_tensor_device (tensor : ptr) : M DLDevice := extern_C (
  m ← view as_managed tensor; mret (dl_device (dl_tensor m))).

Definition rgpot_tensor_data (tensor : ptr) : M ptr := extern_C (
  m ← view as_managed tensor; mret (dl_data (dl_tensor m))).

(** [ndim_out] designates an [i32] cell. *)
Definition rgpot_tensor_shape (tensor ndim_out : ptr) : M ptr := extern_C (
  m ← view as_managed tensor;
  c ← view as_i32s ndim_out;
  match c with
  | [] => undefined SliceOutOfBounds
  | _ :: rest => store ndim_out (BI32s (dl_ndim (dl_tensor m) :: rest))
  end;;
  mret (dl_shape (dl_tensor m))).
End tensor.
