(* ===== verification/TensorSpec.v ===== *)
(** * TensorSpec: ownership and specifications of the tensors

    The predicates say exactly which objects a tensor is made of; the specifications are
    total (no panic, no abort, no undefined behaviour) and linear (nothing is leaked).
    [TensorRepr] is the interface that every kind of tensor gives its readers. *)
From S2P Require Import Prelude Machine Objects Memory HeapLogic Strides Tensor.
From iris.proofmode Require Import proofmode.
Open Scope Z_scope.

(** ** Vectors *)

Definition vec_at {A} (mk : list A -> Block) (v : Vec) (xs : list A) : mProp :=
  vec_ptr v ↦ mk xs ∗ <affine> ⌜vec_len v = Z.of_nat (length xs)⌝.

Lemma vec_new_spec {A} (mk : list A -> Block) (xs : list A) t :
  emp ⊢ wp t (vec_new mk xs) (fun v => vec_at mk v xs).
Proof.
  iIntros "_". unfold vec_new. iApply wp_bind. iApply wp_alloc. iIntros (p) "Hp".
  iApply wp_ret. by iFrame.
Qed.

Lemma vec_drop_spec {A} (mk : list A -> Block) v xs t :
  vec_at mk v xs ⊢ wp t (vec_drop v) (fun _ => emp).
Proof. iIntros "[Hv _]". by iApply (wp_dealloc with "Hv"). Qed.

Lemma i64_slice_spec v xs t :
  vec_at BI64s v xs ⊢ wp t (i64_slice v) (fun r => vec_at BI64s v xs ∗ <affine> ⌜r = xs⌝).
Proof.
  iIntros "[Hv %Hlen]". unfold i64_slice. rewrite Hlen.
  iApply (wp_from_raw_parts with "Hv"); [done | lia |]. iIntros "$".
  iPureIntro. by rewrite Nat2Z.id firstn_all.
Qed.

(** ** Views *)

(** What a tensor tells its readers. *)
Record TensorView := MkView {
  tv_data : ptr;
  tv_dtype : DLDataType;
  tv_device : DLDevice;
  tv_shape : list Z;
}.

Definition shows (m : DLManagedTensorVersioned) (v : TensorView) : Prop :=
  dl_data (dl_tensor m) = tv_data v /\ dl_dtype (dl_tensor m) = tv_dtype v /\
  dl_device (dl_tensor m) = tv_device v /\
  dl_ndim (dl_tensor m) = Z.of_nat (length (tv_shape v)).

(** The number of dimensions fits DLPack's 32-bit field. *)
Definition short_shape (shape : list Z) : bool := Z.of_nat (length shape) <? 2 ^ 31.

Section specs.
  Context {profile : Target} {dlpack : Dlpack} {ccode : CCode}.

  (** Overflow of the stride products cannot happen, or does not panic. *)
Definition strides_ok (shape : list Z) : bool := negb overflow_checks || strides_fit shape.

Lemma compute_row_major_strides_spec shape t :
    strides_ok shape = true ->
    emp ⊢ wp t (compute_row_major_strides shape) (fun v => vec_at BI64s v (wrapped_strides shape)).
  Proof.
    intros Hok. constructor. intros h Hh σ hf. rewrite compute_row_major_strides_eq -/(strides_ok shape) Hok.
    destruct (vec_new_spec BI64s (wrapped_strides shape) t) as [Hv]. by apply Hv.
  Qed.

Definition managed_of (v : TensorView) (ctx : ptr) (sh st : Vec) (d : Deleter) (fl : Z) :
      DLManagedTensorVersioned :=
    MkManaged dlpack_version ctx (Some d) fl
      (MkDLTensor (tv_data v) (tv_device v) (as_i32 (Z.of_nat (length (tv_shape v))))
        (tv_dtype v) (vec_ptr sh) (vec_ptr st) 0).

  (** A tensor that borrows its data: header, context, shape and strides. *)
Definition borrowed_tensor (p : ptr) (v : TensorView) : mProp :=
    ∃ ctx sh st,
      <affine> ⌜short_shape (tv_shape v) = true⌝ ∗
      p ↦ BManaged (managed_of v ctx sh st borrowed_deleter_fn 0) ∗
      ctx ↦ BBorrowedCtx (MkBorrowedCtx sh st) ∗
      vec_at BI64s sh (tv_shape v) ∗ vec_at BI64s st (wrapped_strides (tv_shape v)).

  (** A tensor that owns the [f64] buffer [xs]. *)
Definition owned_f64_tensor (xs : list f64) (p : ptr) (v : TensorView) : mProp :=
    ∃ ctx sh st d,
      <affine> ⌜short_shape (tv_shape v) = true /\ vec_ptr d = tv_data v⌝ ∗
      p ↦ BManaged (managed_of v ctx sh st owned_f64_deleter_fn DLPACK_FLAG_BITMASK_IS_COPIED) ∗
      ctx ↦ BOwnedF64Ctx (MkOwnedF64Ctx d sh st) ∗ vec_at BF64s d xs ∗
      vec_at BI64s sh (tv_shape v) ∗ vec_at BI64s st (wrapped_strides (tv_shape v)).

Definition owned_i32_tensor (xs : list Z) (p : ptr) (v : TensorView) : mProp :=
    ∃ ctx sh st d,
      <affine> ⌜short_shape (tv_shape v) = true /\ vec_ptr d = tv_data v⌝ ∗
      p ↦ BManaged (managed_of v ctx sh st owned_i32_deleter_fn DLPACK_FLAG_BITMASK_IS_COPIED) ∗
      ctx ↦ BOwnedI32Ctx (MkOwnedI32Ctx d sh st) ∗ vec_at BI32s d xs ∗
      vec_at BI64s sh (tv_shape v) ∗ vec_at BI64s st (wrapped_strides (tv_shape v)).

  (** ** The interface of a tensor: readers may look, the last owner frees *)

Class TensorRepr (T : ptr -> TensorView -> mProp) := {
    tensor_open p v :
      T p v ⊢ ∃ m, <affine> ⌜shows m v⌝ ∗ p ↦ BManaged m ∗
        dl_shape (dl_tensor m) ↦ BI64s (tv_shape v) ∗
        (p ↦ BManaged m -∗ dl_shape (dl_tensor m) ↦ BI64s (tv_shape v) -∗ T p v);
    tensor_free t p v : T p v ⊢ wp t (rgpot_tensor_free p) (fun _ => emp);
  }.

Lemma managed_of_shows v ctx sh st d fl :
    short_shape (tv_shape v) = true -> shows (managed_of v ctx sh st d fl) v.
  Proof.
    unfold short_shape. intros Hs. split_and!; [done.. |]. simpl. apply as_i32_id.
    apply Z.ltb_lt in Hs. unfold is_i32. apply andb_true_intro. split; [apply Z.leb_le|apply Z.ltb_lt]; lia.
  Qed.

Lemma rgpot_tensor_free_dispatch t p m d Q :
    deleter m = Some d ->
    (p ↦ BManaged m -∗ wp t (run_deleter d p) Q) -∗
    p ↦ BManaged m -∗ wp t (rgpot_tensor_free p) Q.
  Proof.
    iIntros (Hd) "Hk Hp". iApply wp_extern_C.
    iDestruct (is_null_pointsto with "Hp") as %->.
    wp_look "Hp".
    rewrite Hd. by iApply "Hk".
  Qed.

  (** The crate's three deleters share one shape: drop the context, then the header. *)
Lemma deleter_spec t p m (drop_ctx : ptr -> M unit) P :
    (P ⊢ wp t (drop_ctx (manager_ctx m)) (fun _ => emp)) ->
    manager_ctx m <> null ->
    P -∗ p ↦ BManaged m -∗
    wp t (extern_C (if is_null p then mret tt else
            m ← view as_managed p;
            (if is_null (manager_ctx m) then mret tt else drop_ctx (manager_ctx m));;
            dealloc p)) (fun _ => emp).
  Proof.
    iIntros (Hdrop Hctx) "HP Hp". iApply wp_extern_C.
    iDestruct (is_null_pointsto with "Hp") as %->.
    wp_look "Hp".
    rewrite is_null_false //. iApply (wp_seq with "HP"); [done|].
    iIntros (_) "_". by iApply (wp_dealloc with "Hp").
  Qed.

Lemma drop_borrowed_ctx_spec t ctx sh st xs ys :
    ctx ↦ BBorrowedCtx (MkBorrowedCtx sh st) ∗ vec_at BI64s sh xs ∗ vec_at BI64s st ys ⊢
    wp t (drop_borrowed_ctx ctx) (fun _ => emp).
  Proof.
    iIntros "(Hctx & Hsh & Hst)". iApply wp_bind. iApply (wp_view with "Hctx"); [done|].
    iIntros "Hctx /=". wp_call vec_drop_spec "Hsh". iIntros (_) "_".
    wp_call vec_drop_spec "Hst". iIntros (_) "_".
    by iApply (wp_dealloc with "Hctx").
  Qed.

Lemma drop_owned_f64_ctx_spec t ctx d sh st zs xs ys :
    ctx ↦ BOwnedF64Ctx (MkOwnedF64Ctx d sh st) ∗ vec_at BF64s d zs ∗
      vec_at BI64s sh xs ∗ vec_at BI64s st ys ⊢
    wp t (drop_owned_f64_ctx ctx) (fun _ => emp).
  Proof.
    iIntros "(Hctx & Hd & Hsh & Hst)". iApply wp_bind. iApply (wp_view with "Hctx"); [done|].
    iIntros "Hctx /=". wp_call vec_drop_spec "Hd". iIntros (_) "_".
    wp_call vec_drop_spec "Hsh". iIntros (_) "_".
    wp_call vec_drop_spec "Hst". iIntros (_) "_".
    by iApply (wp_dealloc with "Hctx").
  Qed.

Lemma drop_owned_i32_ctx_spec t ctx d sh st zs xs ys :
    ctx ↦ BOwnedI32Ctx (MkOwnedI32Ctx d sh st) ∗ vec_at BI32s d zs ∗
      vec_at BI64s sh xs ∗ vec_at BI64s st ys ⊢
    wp t (drop_owned_i32_ctx ctx) (fun _ => emp).
  Proof.
    iIntros "(Hctx & Hd & Hsh & Hst)". iApply wp_bind. iApply (wp_view with "Hctx"); [done|].
    iIntros "Hctx /=". wp_call vec_drop_spec "Hd". iIntros (_) "_".
    wp_call vec_drop_spec "Hsh". iIntros (_) "_".
    wp_call vec_drop_spec "Hst". iIntros (_) "_".
    by iApply (wp_dealloc with "Hctx").
  Qed.

  (** ** Creation *)

  (** The three constructors share their first half: measure the shape, compute strides. *)
Lemma shape_and_strides_spec t sv shape {A} (k : list Z -> Vec -> M A) Q :
    strides_ok shape = true ->
    vec_at BI64s sv shape -∗
    (∀ st, vec_at BI64s sv shape -∗ vec_at BI64s st (wrapped_strides shape) -∗
       wp t (k shape st) Q) -∗
    wp t (shape ← i64_slice sv; st ← compute_row_major_strides shape; k shape st) Q.
  Proof.
    iIntros (Hok) "Hsv Hk". wp_call i64_slice_spec "Hsv".
    iIntros (r) "[Hsv ->]".
    iApply (wp_seq with "[]"); [by apply compute_row_major_strides_spec | done |].
    iIntros (st) "Hst". iApply ("Hk" with "Hsv Hst").
  Qed.

Lemma create_borrowed_tensor_spec t data dt sv shape :
    strides_ok shape = true -> short_shape shape = true ->
    vec_at BI64s sv shape ⊢
    wp t (create_borrowed_tensor data dt sv)
      (fun p => borrowed_tensor p (MkView data dt cpu_device shape)).
  Proof.
    iIntros (Hok Hs) "Hsv". unfold create_borrowed_tensor.
    iDestruct "Hsv" as "[Hsv %Hlen]".
    iApply (shape_and_strides_spec with "[$Hsv]"); [done | done |].
    iIntros (st) "Hsv Hst". iApply wp_bind. iApply wp_alloc. iIntros (ctx) "Hctx".
    iApply wp_alloc. iIntros (p) "Hp". rewrite Hlen.
    iExists ctx, sv, st. by iFrame.
  Qed.

Lemma create_owned_f64_tensor_spec t d xs sv shape :
    strides_ok shape = true -> short_shape shape = true ->
    vec_at BF64s d xs ∗ vec_at BI64s sv shape ⊢
    wp t (create_owned_f64_tensor d sv)
      (fun p => owned_f64_tensor xs p (MkView (vec_ptr d) dtype_f64 cpu_device shape)).
  Proof.
    iIntros (Hok Hs) "[Hd Hsv]". unfold create_owned_f64_tensor.
    iDestruct "Hsv" as "[Hsv %Hlen]".
    iApply (shape_and_strides_spec with "[$Hsv]"); [done | done |].
    iIntros (st) "Hsv Hst". iApply wp_bind. iApply wp_alloc. iIntros (ctx) "Hctx".
    iApply wp_alloc. iIntros (p) "Hp". rewrite Hlen.
    iExists ctx, sv, st, d. by iFrame.
  Qed.

Lemma create_owned_i32_tensor_spec t d xs sv shape :
    strides_ok shape = true -> short_shape shape = true ->
    vec_at BI32s d xs ∗ vec_at BI64s sv shape ⊢
    wp t (create_owned_i32_tensor d sv)
      (fun p => owned_i32_tensor xs p (MkView (vec_ptr d) dtype_i32 cpu_device shape)).
  Proof.
    iIntros (Hok Hs) "[Hd Hsv]". unfold create_owned_i32_tensor.
    iDestruct "Hsv" as "[Hsv %Hlen]".
    iApply (shape_and_strides_spec with "[$Hsv]"); [done | done |].
    iIntros (st) "Hsv Hst". iApply wp_bind. iApply wp_alloc. iIntros (ctx) "Hctx".
    iApply wp_alloc. iIntros (p) "Hp". rewrite Hlen.
    iExists ctx, sv, st, d. by iFrame.
  Qed.

  (** A matrix whose column count is an [i64] never overflows. *)
Lemma strides_ok_2d rows cols : is_i64 cols = true -> strides_ok [rows; cols] = true.
  Proof.
    intros Hc. unfold strides_ok, strides_fit. cbn [row_major cells foldr forallb].
    rewrite Z.mul_1_r Hc. apply orb_true_r.
  Qed.

Lemma strides_ok_1d len : strides_ok [len] = true.
  Proof. apply orb_true_r. Qed.

#[local] Hint Resolve strides_ok_1d strides_ok_2d : rgpot.

Lemma rgpot_tensor_cpu_f64_2d_spec t data rows cols :
    is_i64 cols = true ->
    emp ⊢ wp t (rgpot_tensor_cpu_f64_2d data rows cols)
      (fun p => borrowed_tensor p (MkView data dtype_f64 cpu_device [rows; cols])).
  Proof.
    iIntros (Hc) "_". iApply wp_extern_C.
    iApply (wp_seq with "[]"); [apply (vec_new_spec BI64s [rows; cols]) | done |].
    iIntros (v) "Hv". iApply (create_borrowed_tensor_spec with "Hv"); [|done].
    auto with rgpot.
  Qed.

Lemma rgpot_tensor_cpu_i32_1d_spec t data len :
    emp ⊢ wp t (rgpot_tensor_cpu_i32_1d data len)
      (fun p => borrowed_tensor p (MkView data dtype_i32 cpu_device [len])).
  Proof.
    iIntros "_". iApply wp_extern_C.
    iApply (wp_seq with "[]"); [apply (vec_new_spec BI64s [len]) | done |].
    iIntros (v) "Hv". iApply (create_borrowed_tensor_spec with "Hv"); [|done].
    auto with rgpot.
  Qed.

Lemma rgpot_tensor_cpu_f64_matrix3_spec t data :
    emp ⊢ wp t (rgpot_tensor_cpu_f64_matrix3 data)
      (fun p => borrowed_tensor p (MkView data dtype_f64 cpu_device [3; 3])).
  Proof.
    iIntros "_". iApply wp_extern_C.
    iApply (wp_seq with "[]"); [apply (vec_new_spec BI64s [3; 3]) | done |].
    iIntros (v) "Hv". iApply (create_borrowed_tensor_spec with "Hv"); [|done].
    auto with rgpot.
  Qed.

Lemma mul_i64_spec t a b Q : is_i64 (a * b) = true -> Q (a * b) ⊢ wp t (mul_i64 a b) Q.
  Proof. intros Hab. unfold mul_i64. rewrite Hab. apply wp_ret. Qed.

Lemma mul_usize_spec t a b Q : is_usize (a * b) = true -> Q (a * b) ⊢ wp t (mul_usize a b) Q.
  Proof. intros Hab. unfold mul_usize. rewrite Hab. apply wp_ret. Qed.

(** The copy, for whatever element count [prod] the multiplication gives. *)
Lemma rgpot_tensor_owned_cpu_f64_2d_count t data xs rows cols prod :
    is_i64 cols = true -> (forall σ, mul_i64 rows cols t σ = Done prod σ) ->
    as_usize prod <= Z.of_nat (length xs) ->
    data ↦ BF64s xs ⊢
    wp t (rgpot_tensor_owned_cpu_f64_2d data rows cols) (fun p =>
      data ↦ BF64s xs ∗ ∃ copy, owned_f64_tensor (take (Z.to_nat (as_usize prod)) xs) p
        (MkView copy dtype_f64 cpu_device [rows; cols])).
  Proof.
    iIntros (Hc Hp Hlen) "Hdata". iApply wp_extern_C. iApply wp_bind.
    iApply wp_done; [done|].
    assert (0 <= as_usize prod) by (by apply Z.mod_pos_bound).
    iApply wp_bind. iApply (wp_from_raw_parts with "Hdata"); [done..|]. iIntros "Hdata".
    iApply (wp_seq with "[]"); [apply (vec_new_spec BF64s) | done |]. iIntros (d) "Hd".
    iApply (wp_seq with "[]"); [apply (vec_new_spec BI64s [rows; cols]) | done |].
    iIntros (sv) "Hsv".
    iApply (wp_use t (vec_at BF64s d _ ∗ vec_at BI64s sv [rows; cols])%I with "[$Hd $Hsv]").
    - apply create_owned_f64_tensor_spec; [auto with rgpot | done].
    - iIntros (p) "Hp". iFrame "Hdata". by iExists _.
  Qed.

Lemma rgpot_tensor_owned_cpu_f64_2d_spec t data xs rows cols :
    is_i64 cols = true -> is_i64 (rows * cols) = true ->
    0 <= rows * cols <= Z.of_nat (length xs) ->
    data ↦ BF64s xs ⊢
    wp t (rgpot_tensor_owned_cpu_f64_2d data rows cols) (fun p =>
      data ↦ BF64s xs ∗ ∃ copy, owned_f64_tensor (take (Z.to_nat (rows * cols)) xs) p
        (MkView copy dtype_f64 cpu_device [rows; cols])).
  Proof.
    intros Hc Hp Hlen. assert (as_usize (rows * cols) = rows * cols) as E.
    { apply as_usize_id. unfold is_i64, is_usize in *. lia. }
    pose proof (rgpot_tensor_owned_cpu_f64_2d_count t data xs rows cols (rows * cols)) as Hs.
    rewrite E in Hs. apply Hs; [done | | lia]. intros σ. unfold mul_i64. by rewrite Hp.
  Qed.

  (** ** Every kind of tensor implements the interface *)

#[export] Instance borrowed_tensor_repr : TensorRepr borrowed_tensor.
  Proof.
    split.
    - intros p v. iIntros "(%ctx & %sh & %st & %Hs & Hp & Hctx & [Hsh %Hl] & Hst)".
      iExists _. iFrame "Hp Hsh". iSplitR; [iPureIntro; by apply managed_of_shows|].
      iIntros "Hp Hsh". iExists ctx, sh, st. by iFrame.
    - intros t p v. iIntros "(%ctx & %sh & %st & %Hs & Hp & Hctx & Hsh & Hst)".
      iDestruct (pointsto_not_null with "Hctx") as %Hctx.
      iApply (rgpot_tensor_free_dispatch with "[Hctx Hsh Hst] Hp"); [done|].
      iIntros "Hp". iApply (deleter_spec with "[Hctx Hsh Hst] Hp"); [|done|].
      + apply (drop_borrowed_ctx_spec t ctx sh st).
      + iFrame.
  Qed.

#[export] Instance owned_f64_tensor_repr xs : TensorRepr (owned_f64_tensor xs).
  Proof.
    split.
    - intros p v. iIntros "(%ctx & %sh & %st & %d & %Hs & Hp & Hctx & Hd & [Hsh %Hl] & Hst)".
      iExists _. iFrame "Hp Hsh". iSplitR; [iPureIntro; by apply managed_of_shows, Hs|].
      iIntros "Hp Hsh". iExists ctx, sh, st, d. by iFrame.
    - intros t p v. iIntros "(%ctx & %sh & %st & %d & %Hs & Hp & Hctx & Hd & Hsh & Hst)".
      iDestruct (pointsto_not_null with "Hctx") as %Hctx.
      iApply (rgpot_tensor_free_dispatch with "[Hctx Hd Hsh Hst] Hp"); [done|].
      iIntros "Hp". iApply (deleter_spec with "[Hctx Hd Hsh Hst] Hp"); [|done|].
      + apply (drop_owned_f64_ctx_spec t ctx d sh st).
      + iFrame.
  Qed.

#[export] Instance owned_i32_tensor_repr xs : TensorRepr (owned_i32_tensor xs).
  Proof.
    split.
    - intros p v. iIntros "(%ctx & %sh & %st & %d & %Hs & Hp & Hctx & Hd & [Hsh %Hl] & Hst)".
      iExists _. iFrame "Hp Hsh". iSplitR; [iPureIntro; by apply managed_of_shows, Hs|].
      iIntros "Hp Hsh". iExists ctx, sh, st, d. by iFrame.
    - intros t p v. iIntros "(%ctx & %sh & %st & %d & %Hs & Hp & Hctx & Hd & Hsh & Hst)".
      iDestruct (pointsto_not_null with "Hctx") as %Hctx.
      iApply (rgpot_tensor_free_dispatch with "[Hctx Hd Hsh Hst] Hp"); [done|].
      iIntros "Hp". iApply (deleter_spec with "[Hctx Hd Hsh Hst] Hp"); [|done|].
      + apply (drop_owned_i32_ctx_spec t ctx d sh st).
      + iFrame.
  Qed.

  (** The data of an owned tensor, through its [data] field. *)
Lemma owned_f64_tensor_data xs p v :
    owned_f64_tensor xs p v ⊢
    tv_data v ↦ BF64s xs ∗ (tv_data v ↦ BF64s xs -∗ owned_f64_tensor xs p v).
  Proof.
    iIntros "(%ctx & %sh & %st & %d & [%Hs %Hd] & Hp & Hctx & [Hd %Hl] & Hsh & Hst)".
    rewrite -Hd. iFrame "Hd". iIntros "Hd". iExists ctx, sh, st, d.
    iFrame "Hp Hctx Hsh Hst". rewrite /vec_at. by iFrame.
  Qed.

Lemma tensor_not_null `{!TensorRepr T} p v : T p v ⊢ ⌜p <> null⌝.
  Proof.
    rewrite tensor_open. iIntros "(%m & %Hm & Hp & Hsh & Hk)".
    iDestruct (pointsto_not_null with "Hp") as %Hp. by iPureIntro.
  Qed.

Lemma rgpot_tensor_free_null t : emp ⊢ wp t (rgpot_tensor_free null) (fun _ => emp).
  Proof. iIntros "_". iApply wp_extern_C. by iApply wp_ret. Qed.
End specs.

#[export] Hint Resolve strides_ok_1d strides_ok_2d : rgpot.
#[export] Typeclasses Opaque borrowed_tensor owned_f64_tensor owned_i32_tensor.
