(* ===== verification/ForceTypes.v ===== *)
(** * ForceTypes: src/types.rs and src/c_api/types.rs

    The accessor of the force input and its C constructors and destructor, with their
    ownership predicate [force_input]. *)
From S2P Require Import Prelude Machine Objects Memory HeapLogic Strides Tensor TensorSpec.
From iris.proofmode Require Import proofmode.
Open Scope Z_scope.

Section force_types.
  Context {profile : Target} {dlpack : Dlpack} {ccode : CCode}.

(** ** types.rs *)

(** [rgpot_force_input_t::n_atoms]. *)
Definition n_atoms (self : rgpot_force_input_t) : M (option Z) :=
  if is_null (positions self) then mret None
  else
    m ← view as_managed (positions self);
    let t := dl_tensor m in
    if (dl_ndim t <? 1) || is_null (dl_shape t) then mret None
    else
      shape ← view as_i64s (dl_shape t);
      match shape with
      | s0 :: _ => mret (Some (as_usize s0))
      | [] => undefined SliceOutOfBounds
      end.

(** ** c_api/types.rs *)

Definition rgpot_force_input_create (n_atoms : Z) (pos atmnrs box_ : ptr) :
    M rgpot_force_input_t := extern_C (
  positions ← rgpot_tensor_cpu_f64_2d pos (as_i64 n_atoms) 3;
  atomic_numbers ← rgpot_tensor_cpu_i32_1d atmnrs (as_i64 n_atoms);
  box_matrix ← rgpot_tensor_cpu_f64_matrix3 box_;
  mret (MkForceInput positions atomic_numbers box_matrix)).

(** Assignments to the fields of [*input]. *)
Definition update_input (input : ptr) (f : rgpot_force_input_t -> rgpot_force_input_t) : M unit :=
  i ← view as_force_input input;
  store input (BForceInput (f i)).

Definition rgpot_force_input_free (input : ptr) : M unit := extern_C (
  if is_null input then mret tt
  else
    i ← view as_force_input input;
    rgpot_tensor_free (positions i);;
    i ← view as_force_input input;
    rgpot_tensor_free (atomic_numbers i);;
    i ← view as_force_input input;
    rgpot_tensor_free (box_matrix i);;
    update_input input (fun i => MkForceInput null (atomic_numbers i) (box_matrix i));;
    update_input input (fun i => MkForceInput (positions i) null (box_matrix i));;
    update_input input (fun i => MkForceInput (positions i) (atomic_numbers i) null)).

Definition rgpot_force_out_create : M rgpot_force_out_t := extern_C (
  mret (MkForceOut null f64_zero f64_zero)).

(** ** Ownership of an input configuration *)

(** The views of the three tensors that [rgpot_force_input_create] makes. *)
Definition positions_view (pos : ptr) (n : Z) : TensorView :=
  MkView pos dtype_f64 cpu_device [as_i64 n; 3].
Definition atmnrs_view (atmnrs : ptr) (n : Z) : TensorView :=
  MkView atmnrs dtype_i32 cpu_device [as_i64 n].
Definition box_view (box_ : ptr) : TensorView :=
  MkView box_ dtype_f64 cpu_device [3; 3].

(** The tensor metadata of an input (the arrays themselves stay with the caller). *)
Definition force_input (i : rgpot_force_input_t) (n : Z) (pos atmnrs box_ : ptr) : mProp :=
  borrowed_tensor (positions i) (positions_view pos n) ∗
  borrowed_tensor (atomic_numbers i) (atmnrs_view atmnrs n) ∗
  borrowed_tensor (box_matrix i) (box_view box_).

Lemma rgpot_force_input_create_spec t n pos atmnrs box_ :
    emp ⊢ wp t (rgpot_force_input_create n pos atmnrs box_)
      (fun i => force_input i n pos atmnrs box_).
  Proof.
    iIntros "_". iApply wp_extern_C.
    iApply (wp_seq with "[]"); [by apply (rgpot_tensor_cpu_f64_2d_spec _ pos) | done |].
    iIntros (p) "Hp".
    iApply (wp_seq with "[]"); [apply (rgpot_tensor_cpu_i32_1d_spec _ atmnrs) | done |].
    iIntros (a) "Ha".
    iApply (wp_seq with "[]"); [apply (rgpot_tensor_cpu_f64_matrix3_spec _ box_) | done |].
    iIntros (b) "Hb". iApply wp_ret. iFrame.
  Qed.

Lemma update_input_spec t p i f :
    p ↦ BForceInput i ⊢ wp t (update_input p f) (fun _ => p ↦ BForceInput (f i)).
  Proof.
    iIntros "Hp". wp_look "Hp".
    iApply (wp_store with "Hp"). by iIntros "$".
  Qed.

  (** The destructor frees the three handles in turn, whatever they are. *)
Lemma rgpot_force_input_free_with t p i R0 R1 R2 R3 :
    (R0 ⊢ wp t (rgpot_tensor_free (positions i)) (fun _ => R1)) ->
    (R1 ⊢ wp t (rgpot_tensor_free (atomic_numbers i)) (fun _ => R2)) ->
    (R2 ⊢ wp t (rgpot_tensor_free (box_matrix i)) (fun _ => R3)) ->
    p ↦ BForceInput i ∗ R0 ⊢
    wp t (rgpot_force_input_free p)
      (fun _ => p ↦ BForceInput (MkForceInput null null null) ∗ R3).
  Proof.
    iIntros (H1 H2 H3) "[Hp HR]". iApply wp_extern_C.
    iDestruct (is_null_pointsto with "Hp") as %->.
    wp_look "Hp". wp_call H1 "HR". iIntros (_) "HR".
    wp_look "Hp". wp_call H2 "HR". iIntros (_) "HR".
    wp_look "Hp". wp_call H3 "HR". iIntros (_) "HR".
    wp_call update_input_spec "Hp". iIntros (_) "Hp".
    wp_call update_input_spec "Hp". iIntros (_) "Hp".
    iApply (wp_use with "Hp"); [apply update_input_spec|]. iIntros (_) "$". done.
  Qed.

  (** Any three tensors that implement the interface can be freed through the struct. *)
Lemma rgpot_force_input_free_spec t `{!TensorRepr T1, !TensorRepr T2, !TensorRepr T3}
      p i v1 v2 v3 :
    p ↦ BForceInput i ∗ T1 (positions i) v1 ∗ T2 (atomic_numbers i) v2 ∗ T3 (box_matrix i) v3 ⊢
    wp t (rgpot_force_input_free p) (fun _ => p ↦ BForceInput (MkForceInput null null null)).
  Proof.
    iIntros "(Hp & H1 & H2 & H3)".
    iApply (wp_use with "[Hp H1 H2 H3]");
      [apply (rgpot_force_input_free_with t p i
         (T1 (positions i) v1 ∗ T2 (atomic_numbers i) v2 ∗ T3 (box_matrix i) v3)
         (T2 (atomic_numbers i) v2 ∗ T3 (box_matrix i) v3) (T3 (box_matrix i) v3) emp)
      | iFrame | by iIntros (_) "[$ _]"].
    - iIntros "[H Hr]". iApply (wp_use with "H"); [apply tensor_free | by iIntros (_) "_"].
    - iIntros "[H Hr]". iApply (wp_use with "H"); [apply tensor_free | by iIntros (_) "_"].
    - apply tensor_free.
  Qed.

  (** [n_atoms] reads the first dimension of whatever tensor stands in [positions]. *)
Lemma n_atoms_spec t `{!TensorRepr T} i v s0 rest :
    tv_shape v = s0 :: rest ->
    T (positions i) v ⊢
    wp t (n_atoms i) (fun r => T (positions i) v ∗ <affine> ⌜r = Some (as_usize s0)⌝).
  Proof.
    iIntros (Hs) "HT". iDestruct (tensor_not_null with "HT") as %Hn.
    iDestruct (tensor_open with "HT") as (m) "(%Hm & Hp & Hsh & Hclose)".
    unfold n_atoms. rewrite is_null_false //.
    wp_look "Hp".
    iDestruct (is_null_pointsto with "Hsh") as %->.
    destruct Hm as (_ & _ & _ & ->). rewrite Hs. cbn [length].
    assert (Z.of_nat (S (length rest)) <? 1 = false) as -> by (apply Z.ltb_ge; lia).
    cbn [orb]. wp_look "Hsh".
    iApply wp_ret. iSplitL; [|done]. iApply ("Hclose" with "Hp Hsh").
  Qed.
End force_types.
