(* ===== verification/Potential.v ===== *)
(** * Potential: src/potential.rs and src/c_api/potential.rs

    The opaque potential handle: a callback, its user data and an optional destructor,
    with the C entry points that create, evaluate and free it. *)
From S2P Require Import Prelude Machine Objects Memory HeapLogic Status Tensor TensorSpec.
From iris.proofmode Require Import proofmode.
Open Scope Z_scope.

Section potential.
  Context {ccode : CCode}.

(** ** potential.rs *)

Definition PotentialImpl_new (callback : fnptr) (user_data : ptr) (free_fn : option fnptr) :
    PotentialImpl := MkPotentialImpl callback user_data free_fn.

(** [PotentialImpl::calculate]. *)
Definition PotentialImpl_calculate (self : PotentialImpl) (input output : ptr) :
    M rgpot_status_t :=
  call_callback (callback self) (user_data self) input output.

(** [Drop::drop]. *)
Definition PotentialImpl_drop (self : PotentialImpl) : M unit :=
  match free_fn self with
  | Some free =>
      if negb (is_null (user_data self)) then call_free_fn free (user_data self) else mret tt
  | None => mret tt
  end.

(** ** c_api/potential.rs *)

Definition rgpot_potential_new (callback : fnptr) (user_data : ptr) (free_fn : option fnptr) :
    M ptr := extern_C (
  let pot := PotentialImpl_new callback user_data free_fn in
  alloc (BPotential pot)).

Definition rgpot_potential_calculate (pot input output : ptr) : M rgpot_status_t :=
  extern_C (catch_unwind (
    if is_null pot then
      set_last_error "rgpot_potential_calculate: pot is NULL";;
      mret RGPOT_INVALID_PARAMETER
    else if is_null input then
      set_last_error "rgpot_potential_calculate: input is NULL";;
      mret RGPOT_INVALID_PARAMETER
    else if is_null output then
      set_last_error "rgpot_potential_calculate: output is NULL";;
      mret RGPOT_INVALID_PARAMETER
    else
      pot_ref ← view as_potential pot;
      PotentialImpl_calculate pot_ref input output)).

(** [drop(Box::from_raw(pot))] runs the destructor, then returns the box. *)
Definition rgpot_potential_free (pot : ptr) : M unit := extern_C (
  if negb (is_null pot) then
    pot_ref ← view as_potential pot;
    PotentialImpl_drop pot_ref;;
    dealloc pot
  else mret tt).

(** ** Specifications *)

(** The message of the first argument that is NULL, if any. *)
Definition null_argument (who : string) (args : list (string * ptr)) : option string :=
  match filter (fun a => is_null a.2 = true) args with
  | (name, _) :: _ => Some (who +:+ ": " +:+ name +:+ " is NULL")
  | [] => None
  end.

Lemma rgpot_potential_new_spec t cb ud fr :
    emp ⊢ wp t (rgpot_potential_new cb ud fr) (fun p => p ↦ BPotential (MkPotentialImpl cb ud fr)).
  Proof. iIntros "_". iApply wp_extern_C. iApply wp_alloc. by iIntros (p) "$". Qed.

  (** On non-null arguments the entry point is exactly the callback. *)
Lemma rgpot_potential_calculate_spec t p pot input output Q :
    input <> null -> output <> null ->
    p ↦ BPotential pot -∗
    (p ↦ BPotential pot -∗ wp t (call_callback (callback pot) (user_data pot) input output) Q) -∗
    wp t (rgpot_potential_calculate p input output) Q.
  Proof.
    iIntros (Hi Ho) "Hp Hcb". iApply wp_extern_C. iApply wp_catch_unwind.
    iDestruct (is_null_pointsto with "Hp") as %->. rewrite !is_null_false //.
    wp_look "Hp". by iApply "Hcb".
  Qed.

  (** A NULL argument is reported, and nothing else is touched. *)
Lemma rgpot_potential_calculate_null_spec t p input output msg err :
    null_argument "rgpot_potential_calculate"
      [("pot", p); ("input", input); ("output", output)] = Some err ->
    last_error_slot t msg ⊢
    wp t (rgpot_potential_calculate p input output)
      (fun s => <affine> ⌜s = RGPOT_INVALID_PARAMETER⌝ ∗ last_error_slot t (Some err)).
  Proof.
    iIntros (Herr) "H". iApply wp_extern_C. iApply wp_catch_unwind. revert Herr.
    unfold null_argument. cbn.
    destruct (is_null p) eqn:Hp; [|destruct (is_null input) eqn:Hi;
      [|destruct (is_null output) eqn:Ho]]; cbn; try done; intros [= <-];
      iApply (wp_use with "H"); try apply fail_spec; by iIntros (a) "$".
  Qed.

  (** Freeing runs the destructor on non-null user data only, then returns the handle. *)
Lemma rgpot_potential_free_spec t p pot P :
    (forall free, free_fn pot = Some free -> user_data pot <> null ->
       P ⊢ wp t (call_free_fn free (user_data pot)) (fun _ => emp)) ->
    p ↦ BPotential pot -∗
    (if bool_decide (is_Some (free_fn pot) /\ user_data pot <> null) then P else emp) -∗
    wp t (rgpot_potential_free p) (fun _ => emp).
  Proof.
    iIntros (Hfree) "Hp HP". iApply wp_extern_C.
    iDestruct (is_null_pointsto with "Hp") as %->. cbn [negb].
    wp_look "Hp". unfold PotentialImpl_drop.
    iApply wp_bind. iAssert (wp t _ (fun _ => emp)%I) with "[HP]" as "Hd".
    2:{ iApply (wp_wand with "Hd"). iIntros (_) "_". by iApply (wp_dealloc with "Hp"). }
    destruct (free_fn pot) as [free|] eqn:E; [destruct (is_null (user_data pot)) eqn:Hn|].
    - apply is_null_spec in Hn. rewrite bool_decide_false; [|naive_solver]. by iApply wp_ret.
    - assert (user_data pot <> null) as Hu by (intros ?%is_null_spec; congruence).
      rewrite bool_decide_true; [|done]. by iApply Hfree.
    - rewrite bool_decide_false; [|intros [[? ?] ?]; done]. by iApply wp_ret.
  Qed.
End potential.
