(* ===== verification/Utf8.v ===== *)
(** * Utf8: the check behind [CStr::to_str]

    The standard library's validation of UTF-8 and the text of its error, which the RPC
    entry points report for a malformed host name. *)
From S2P Require Import Prelude Machine.
Open Scope Z_scope.

Definition bytes_of (s : string) : list Z :=
  (fun c => Z.of_N (Ascii.N_of_ascii c)) <$> String.list_ascii_of_string s.

(** [error_len] is [None] when the text ends inside a character. *)
Record Utf8Error := MkUtf8Error { valid_up_to : Z; error_len : option Z }.

Definition within (lo x hi : Z) : bool := (lo <=? x) && (x <=? hi).
Definition continuation (b : Z) : bool := within 128 b 191.

(** Whether [b1] may follow the leading byte [b0] of a three- or four-byte character. *)
Definition second_of_3 (b0 b1 : Z) : bool :=
  ((b0 =? 224) && within 160 b1 191) || (within 225 b0 236 && within 128 b1 191) ||
  ((b0 =? 237) && within 128 b1 159) || (within 238 b0 239 && within 128 b1 191).
Definition second_of_4 (b0 b1 : Z) : bool :=
  ((b0 =? 240) && within 144 b1 191) || (within 241 b0 243 && within 128 b1 191) ||
  ((b0 =? 244) && within 128 b1 143).

Fixpoint utf8_check (index : Z) (bs : list Z) : option Utf8Error :=
  let fail n := Some (MkUtf8Error index n) in
  match bs with
  | [] => None
  | b0 :: bs =>
      if b0 <? 128 then utf8_check (index + 1) bs
      else if within 194 b0 223 then
        match bs with
        | [] => fail None
        | b1 :: bs => if continuation b1 then utf8_check (index + 2) bs else fail (Some 1)
        end
      else if within 224 b0 239 then
        match bs with
        | [] => fail None
        | b1 :: bs =>
            if second_of_3 b0 b1 then
              match bs with
              | [] => fail None
              | b2 :: bs => if continuation b2 then utf8_check (index + 3) bs else fail (Some 2)
              end
            else fail (Some 1)
        end
      else if within 240 b0 244 then
        match bs with
        | [] => fail None
        | b1 :: bs =>
            if second_of_4 b0 b1 then
              match bs with
              | [] => fail None
              | b2 :: bs =>
                  if continuation b2 then
                    match bs with
                    | [] => fail None
                    | b3 :: bs =>
                        if continuation b3 then utf8_check (index + 4) bs else fail (Some 3)
                    end
                  else fail (Some 2)
              end
            else fail (Some 1)
        end
      else fail (Some 1)
  end.

Definition to_str (s : string) : Result string Utf8Error :=
  match utf8_check 0 (bytes_of s) with None => Ok s | Some e => Err e end.

(** [Display for Utf8Error]. *)
Definition show_utf8_error (e : Utf8Error) : string :=
  match error_len e with
  | Some n => "invalid utf-8 sequence of " +:+ pretty n +:+ " bytes from index "
                +:+ pretty (valid_up_to e)
  | None => "incomplete utf-8 byte sequence from index " +:+ pretty (valid_up_to e)
  end.

Lemma utf8_check_ascii (bs : list Z) (i : Z) :
  forallb (fun b => b <? 128) bs = true -> utf8_check i bs = None.
Proof.
  revert i. induction bs as [|b bs IH]; intros i; [done|].
  cbn [forallb]. intros [Hb Hbs]%andb_prop. cbn [utf8_check]. rewrite Hb. by apply IH.
Qed.

(** A plain ASCII host name always passes. *)
Lemma to_str_ascii (s : string) :
  forallb (fun b => b <? 128) (bytes_of s) = true -> to_str s = Ok s.
Proof. intros H. unfold to_str. by rewrite utf8_check_ascii. Qed.
