(* ===== verification/RpcEnv.v ===== *)
(** * RpcEnv: what the RPC modules use of their dependencies

    The types generated from [Potentials.capnp], the Cap'n Proto list builders, the
    errors of [capnp] and the network of [tokio] are not part of the sources.  They are
    interfaces here: records and classes of operations, with the documented laws that the
    theorems use. *)
From S2P Require Import Prelude Machine Objects Memory.
Open Scope Z_scope.

(** ** [Result] inside the effect monad *)

(** The [?] operator. *)
Definition try_bind {A B E} (x : M (Result A E)) (k : A -> M (Result B E)) : M (Result B E) :=
  r ← x; match r with Ok a => k a | Err e => mret (Err e) end.
Definition map_err {A E F} (f : E -> F) (x : M (Result A E)) : M (Result A F) :=
  r ← x; mret (match r with Ok a => Ok a | Err e => Err (f e) end).

Notation "x ?← y ; z" := (try_bind y (fun x => z))
  (at level 20, y at level 100, z at level 200, only parsing).

(** ** Errors *)

Class CapnpErrors := {
  CapnpError : Type;
  (** [CapnpError::failed(message)] and [Display] *)
  CapnpError_failed : string -> CapnpError;
  show_capnp_error : CapnpError -> string;
  (** What the caller of a remote method is told when the method returned an error: an
      error of its own, whose text the RPC library composes from the original one *)
  remote_exception : CapnpError -> CapnpError;
}.

(** ** List builders

    A builder of [n] elements; writing outside of it panics.  Cap'n Proto encodes the
    length of a list in 29 bits, so shorter lists can always be initialised. *)
Class CapnpLists := {
  list_builder : Type;
  init_list : Z -> Result list_builder PanicPayload;
  set_list : list_builder -> Z -> Z -> Result list_builder PanicPayload;
  list_values : list_builder -> list Z;
  init_list_ok n : 0 <= n < 2 ^ 29 ->
    exists b, init_list n = Ok b /\ Z.of_nat (length (list_values b)) = n;
  set_list_ok b i x : 0 <= i < Z.of_nat (length (list_values b)) ->
    exists b', set_list b i x = Ok b' /\ list_values b' = <[Z.to_nat i := x]> (list_values b);
}.

Definition or_panic {A} (r : Result A PanicPayload) : M A :=
  match r with Ok a => mret a | Err e => panic e end.

Section lists.
  Context {lists : CapnpLists}.

  (** [for (i, &val) in xs.iter().enumerate() { builder.set(i as u32, val); }] *)
Fixpoint fill_list (b : list_builder) (i : Z) (xs : list Z) : M list_builder :=
    match xs with
    | [] => mret b
    | x :: xs =>
        b ← or_panic (set_list b (as_u32 i) x);
        fill_list b (i + 1) xs
    end.

  (** The values already written, then the ones still to come. *)
Lemma fill_list_run t σ (xs : list Z) (b : list_builder) (done_ : list Z) :
    Z.of_nat (length done_ + length xs) < 2 ^ 32 ->
    length (list_values b) = (length done_ + length xs)%nat ->
    take (length done_) (list_values b) = done_ ->
    exists b', fill_list b (Z.of_nat (length done_)) xs t σ = Done b' σ /\
      list_values b' = done_ ++ xs.
  Proof.
    revert b done_. induction xs as [|x xs IH]; intros b done_ Hlt Hlen Htake; simpl in *.
    - exists b. split; [done|]. rewrite <- Htake at 1.
      rewrite app_nil_r. symmetry. apply take_ge. lia.
    - rewrite as_u32_id by (unfold is_u32; lia).
      destruct (set_list_ok b (Z.of_nat (length done_)) x) as (b' & Hset & Hv); [lia|].
      rewrite Nat2Z.id in Hv.
      destruct (IH b' (done_ ++ [x])) as (b'' & Hrun & Hv'').
      + rewrite length_app. simpl. lia.
      + rewrite Hv, length_insert, length_app. simpl. lia.
      + rewrite Hv, length_app. simpl. rewrite Nat.add_1_r.
        rewrite (take_S_r _ _ x) by (rewrite list_lookup_insert_eq; [done|lia]).
        by rewrite take_insert_ge, Htake.
      + exists b''. split; [|by rewrite Hv'', <- app_assoc].
        rewrite length_app in Hrun. simpl in Hrun.
        replace (Z.of_nat (length done_ + 1)) with (Z.of_nat (length done_) + 1) in Hrun by lia.
        unfold mbind, M_bind. rewrite Hset. cbn. exact Hrun.
  Qed.

  (** A list of a documented length is transmitted unchanged. *)
Lemma build_list_run t σ (n : Z) (xs : list Z) :
    Z.of_nat (length xs) = n -> n < 2 ^ 29 ->
    exists b, (b ← or_panic (init_list n); fill_list b 0 xs) t σ = Done b σ /\
      list_values b = xs.
  Proof.
    intros Hn Hlt. destruct (init_list_ok n) as (b & Hb & Hlen); [lia|].
    destruct (fill_list_run t σ xs b []) as (b' & Hrun & Hv).
    - simpl. lia.
    - simpl. lia.
    - done.
    - exists b'. split; [|done]. rewrite Hb. cbn. exact Hrun.
  Qed.
End lists.

(** ** The schema's readers and the messages *)

Section messages.
  Context {errors : CapnpErrors} {lists : CapnpLists}.

Record ForceInputReader := MkForceInputReader {
    get_pos : Result (list f64) CapnpError;
    get_atmnrs : Result (list Z) CapnpError;
    get_box : Result (list f64) CapnpError;
  }.

  (** [params.get()?.get_fip()?] *)
Record CalculateParams := MkCalculateParams {
    params_get : Result (Result ForceInputReader CapnpError) CapnpError;
  }.

Record PotentialResultReader := MkPotentialResultReader {
    get_energy : f64;
    get_forces : Result (list f64) CapnpError;
  }.

  (** [response.get()?.get_result()?] *)
Record Response := MkResponse {
    response_get : Result (Result PotentialResultReader CapnpError) CapnpError;
  }.

  (** What the two sides write. *)
Record CalculateRequest := MkCalculateRequest {
    req_pos : list_builder;
    req_atmnrs : list_builder;
    req_box : list_builder;
  }.

Record CalculateResults := MkCalculateResults {
    res_energy : f64;
    res_forces : list_builder;
  }.

  (** ** The network and the asynchronous runtime; errors are given by their text *)
Class Network := {
    runtime_new : M (Result N string);
    runtime_drop : N -> M unit;
    tcp_connect : N -> string -> M (Result N string);
    set_nodelay : N -> bool -> M (Result unit string);
    send_request : N -> CalculateRequest -> M (Result Response CapnpError);
    tcp_bind : N -> string -> M (Result N string);
  }.
End messages.
