(* ===== verification/RpcClient.v ===== *)
(** * RpcClient: src/rpc/client.rs and src/c_api/rpc.rs

    The synchronous RPC client and its C entry points. *)
From S2P Require Import Prelude Machine Objects Memory HeapLogic Status Tensor TensorSpec.
From S2P Require Import ForceTypes Utf8 RpcEnv.
From iris.proofmode Require Import proofmode.
Open Scope Z_scope.

Section client.
  Context {profile : Target} {dlpack : Dlpack} {ccode : CCode}
    {errors : CapnpErrors} {lists : CapnpLists} {network : Network}.

(** ** rpc/client.rs *)

Definition host_port (host : string) (port : Z) : string := host +:+ ":" +:+ show port.

Definition RpcClient_new (host : string) (port : Z) : M (Result RpcClient string) :=
  runtime ?← map_err (fun e => "failed to create tokio runtime: " +:+ e) runtime_new;
  mret (Ok (MkRpcClient runtime (host_port host port))).

Definition not_on_cpu (m : DLManagedTensorVersioned) : bool :=
  bool_decide (device_type (dl_device (dl_tensor m)) <> kDLCPU).

Definition extract_cpu_input (input : rgpot_force_input_t) (n : Z) :
    M (Result (list f64 * list Z * list f64) string) :=
  if is_null (positions input) then mret (Err "positions tensor is NULL"%string)
  else
  pos_t ← view as_managed (positions input);
  if not_on_cpu pos_t then
    mret (Err "RPC requires CPU tensors; positions is not on CPU"%string)
  else
  n3 ← mul_usize n 3;
  pos ← from_raw_parts as_f64s (dl_data (dl_tensor pos_t)) n3;
  if is_null (atomic_numbers input) then mret (Err "atomic_numbers tensor is NULL"%string)
  else
  atm_t ← view as_managed (atomic_numbers input);
  if not_on_cpu atm_t then
    mret (Err "RPC requires CPU tensors; atomic_numbers is not on CPU"%string)
  else
  atmnrs ← from_raw_parts as_i32s (dl_data (dl_tensor atm_t)) n;
  if is_null (box_matrix input) then mret (Err "box_matrix tensor is NULL"%string)
  else
  box_t ← view as_managed (box_matrix input);
  if not_on_cpu box_t then
    mret (Err "RPC requires CPU tensors; box_matrix is not on CPU"%string)
  else
  box_data ← from_raw_parts as_f64s (dl_data (dl_tensor box_t)) 9;
  mret (Ok (pos, atmnrs, box_data)).

(** The request that [init_fip], [init_pos], [init_atmnrs] and [init_box] fill. *)
Definition build_request (pos : list f64) (atmnrs : list Z) (box_data : list f64) :
    M CalculateRequest :=
  pos_builder ← (b ← or_panic (init_list (as_u32 (Z.of_nat (length pos)))); fill_list b 0 pos);
  atm_builder ← (b ← or_panic (init_list (as_u32 (Z.of_nat (length atmnrs))));
                 fill_list b 0 atmnrs);
  box_builder ← (b ← or_panic (init_list 9); fill_list b 0 box_data);
  mret (MkCalculateRequest pos_builder atm_builder box_builder).

Definition update_output (output : ptr) (f : rgpot_force_out_t -> rgpot_force_out_t) : M unit :=
  o ← view as_force_out output;
  store output (BForceOut (f o)).

Definition set_energy (e : f64) (o : rgpot_force_out_t) : rgpot_force_out_t :=
  MkForceOut (forces o) e (variance o).
Definition set_forces (f : ptr) (o : rgpot_force_out_t) : rgpot_force_out_t :=
  MkForceOut f (energy o) (variance o).

(** Reading the response into [*output]. *)
Definition receive_result (n : Z) (output : ptr) (response : Response) : M (Result unit string) :=
  reader ?← mret (match response_get response with
                  | Ok r => Ok r
                  | Err e => Err ("failed to read response: " +:+ show_capnp_error e) end);
  result ?← mret (match reader with
                  | Ok r => Ok r
                  | Err e => Err ("failed to get result: " +:+ show_capnp_error e) end);
  update_output output (set_energy (get_energy result));;
  forces ?← mret (match get_forces result with
                  | Ok f => Ok f
                  | Err e => Err ("failed to read forces: " +:+ show_capnp_error e) end);
  n3 ← mul_usize n 3;
  if negb (Z.of_nat (length forces) =? n3) then
    mret (Err ("force array size mismatch: expected " +:+ show n3 +:+ ", got "
               +:+ show (Z.of_nat (length forces))))
  else
    forces_vec ← vec_new BF64s forces;
    shape ← vec_new BI64s [as_i64 n; 3];
    tensor ← create_owned_f64_tensor forces_vec shape;
    update_output output (set_forces tensor);;
    mret (Ok tt).

(** [RpcClient::calculate], which blocks on [calculate_async]. *)
Definition RpcClient_calculate (self : RpcClient) (input : rgpot_force_input_t) (output : ptr) :
    M (Result unit string) :=
  on ← n_atoms input;
  n ?← mret (match on with
             | Some n => Ok n
             | None => Err "cannot determine n_atoms from input tensors"%string end);
  slices ?← extract_cpu_input input n;
  stream ?← map_err (fun e => "connection failed: " +:+ e)
              (tcp_connect (runtime self) (addr self));
  _ ?← map_err (fun e => "set_nodelay failed: " +:+ e) (set_nodelay stream true);
  request ← build_request slices.1.1 slices.1.2 slices.2;
  response ?← map_err (fun e => "RPC call failed: " +:+ show_capnp_error e)
                (send_request stream request);
  receive_result n output response.

(** ** c_api/rpc.rs *)

Definition rgpot_rpc_client_new (host : ptr) (port : Z) : M ptr := extern_C (
  if is_null host then
    set_last_error "rgpot_rpc_client_new: host is NULL";;
    mret null
  else
    text ← cstr_from_ptr host;
    match to_str text with
    | Err e =>
        set_last_error ("rgpot_rpc_client_new: invalid host string: " +:+ show_utf8_error e);;
        mret null
    | Ok host_str =>
        r ← RpcClient_new host_str port;
        match r with
        | Ok client => alloc (BRpcClient client)
        | Err e => set_last_error ("rgpot_rpc_client_new: " +:+ e);; mret null
        end
    end).

Definition rgpot_rpc_calculate (client input output : ptr) : M rgpot_status_t :=
  extern_C (catch_unwind (
    if is_null client then
      set_last_error "rgpot_rpc_calculate: client is NULL";;
      mret RGPOT_INVALID_PARAMETER
    else if is_null input then
      set_last_error "rgpot_rpc_calculate: input is NULL";;
      mret RGPOT_INVALID_PARAMETER
    else if is_null output then
      set_last_error "rgpot_rpc_calculate: output is NULL";;
      mret RGPOT_INVALID_PARAMETER
    else
      client_ref ← view as_rpc_client client;
      inp ← view as_force_input input;
      r ← RpcClient_calculate client_ref inp output;
      match r with
      | Ok _ => mret RGPOT_SUCCESS
      | Err e =>
          set_last_error ("rgpot_rpc_calculate: " +:+ e);;
          mret RGPOT_RPC_ERROR
      end)).

Definition rgpot_rpc_client_free (client : ptr) : M unit := extern_C (
  if negb (is_null client) then
    c ← view as_rpc_client client;
    runtime_drop (runtime c);;
    dealloc client
  else mret tt).
End client.
