(* ===== verification/RpcServer.v ===== *)
(** * RpcServer: src/rpc/server.rs

    The RPC server: one [calculate] call dispatched to the potential's callback, and the
    start-up and accept loop of [rgpot_rpc_server_start]. *)
From S2P Require Import Prelude Machine Objects Memory HeapLogic Status Tensor TensorSpec.
From S2P Require Import ForceTypes Potential Utf8 RpcEnv RpcClient.
From iris.proofmode Require Import proofmode.
Open Scope Z_scope.

Record PotentialServer := MkPotentialServer { srv_callback : fnptr; srv_user_data : ptr }.

(** What the server does with the accept results it has seen so far: it has returned, or
    it still serves these connections. *)
Inductive ServerState :=
| Serving (connections : list (N * PotentialServer))
| Stopped (status : rgpot_status_t).

Section server.
  Context {profile : Target} {dlpack : Dlpack} {ccode : CCode}
    {errors : CapnpErrors} {lists : CapnpLists} {network : Network}.

(** The [pry!] macro: return the error in the promise. *)
Definition pry {A B} (r : Result A CapnpError) (k : A -> M (Result B CapnpError)) :
    M (Result B CapnpError) :=
  match r with Ok a => k a | Err e => mret (Err e) end.

(** The callback's results: the forces are copied out, then every tensor is freed. *)
Definition collect_forces (n_atoms : Z) (input output : ptr) : M (list f64) :=
  out ← view as_force_out output;
  forces_copy ← (if negb (is_null (forces out)) then
                   ft ← view as_managed (forces out);
                   len ← mul_usize n_atoms 3;
                   from_raw_parts as_f64s (dl_data (dl_tensor ft)) len
                 else mret []);
  rgpot_tensor_free (forces out);;
  inp ← view as_force_input input;
  rgpot_tensor_free (positions inp);;
  rgpot_tensor_free (atomic_numbers inp);;
  rgpot_tensor_free (box_matrix inp);;
  mret forces_copy.

(** The answer: an error promise, or the energy and the forces. *)
Definition build_results (status : rgpot_status_t) (energy : f64) (forces_copy : list f64) :
    M (Result CalculateResults CapnpError) :=
  if bool_decide (status <> RGPOT_SUCCESS) then
    mret (Err (CapnpError_failed "potential callback returned an error"))
  else
    forces_builder ← (b ← or_panic (init_list (as_u32 (Z.of_nat (length forces_copy))));
                      fill_list b 0 forces_copy);
    mret (Ok (MkCalculateResults energy forces_builder)).

(** One request in progress: the atom count, the buffers in vectors and the two structs on the
    stack. *)
Record Flight := MkFlight {
  fl_atoms : Z;
  fl_pos : Vec;
  fl_atm : Vec;
  fl_box : Vec;
  fl_input : ptr;
  fl_output : ptr;
}.

(** The first part of [calculate]: the data of the request, as the callback will see it. *)
Definition server_prepare (positions : list f64) (atmnrs : list Z) (box_data : list f64) :
    M Flight :=
  let n_atoms := Z.of_nat (length atmnrs) in
  pos_vec ← vec_new BF64s positions;
  atm_vec ← vec_new BI32s atmnrs;
  box_vec ← vec_new BF64s box_data;
  pos_tensor ← rgpot_tensor_cpu_f64_2d (vec_ptr pos_vec) (as_i64 n_atoms) 3;
  atm_tensor ← rgpot_tensor_cpu_i32_1d (vec_ptr atm_vec) (as_i64 n_atoms);
  box_tensor ← rgpot_tensor_cpu_f64_matrix3 (vec_ptr box_vec);
  input ← alloc (BForceInput (MkForceInput pos_tensor atm_tensor box_tensor));
  output ← alloc (BForceOut (MkForceOut null f64_zero f64_zero));
  mret (MkFlight n_atoms pos_vec atm_vec box_vec input output).

(** The last part: the forces are taken, and the structs and the vectors are released when
    the function returns. *)
Definition server_finish (fl : Flight) (status : rgpot_status_t) :
    M (Result CalculateResults CapnpError) :=
  forces_copy ← collect_forces (fl_atoms fl) (fl_input fl) (fl_output fl);
  out ← view as_force_out (fl_output fl);
  r ← build_results status (energy out) forces_copy;
  dealloc (fl_output fl);;
  dealloc (fl_input fl);;
  vec_drop (fl_box fl);;
  vec_drop (fl_atm fl);;
  vec_drop (fl_pos fl);;
  mret r.

(** [PotentialServer::calculate]. *)
Definition PotentialServer_calculate (self : PotentialServer) (params : CalculateParams) :
    M (Result CalculateResults CapnpError) :=
  pry (params_get params) (fun p =>
  pry p (fun fip =>
  pry (get_pos fip) (fun positions =>
  pry (get_atmnrs fip) (fun atmnrs =>
  pry (get_box fip) (fun box_data =>
    fl ← server_prepare positions atmnrs box_data;
    status ← call_callback (srv_callback self) (srv_user_data self) (fl_input fl) (fl_output fl);
    server_finish fl status))))).

(** ** The accept loop, over the accept results seen so far

    [pot_ref] is a shared reference for the whole loop, so its fields do not change. *)
Fixpoint accept_loop (pot_ref : PotentialImpl) (events : list (Result N string))
    (connections : list (N * PotentialServer)) : M ServerState :=
  match events with
  | [] => mret (Serving connections)
  | Err e :: _ =>
      set_last_error ("accept failed: " +:+ e);;
      mret (Stopped RGPOT_RPC_ERROR)
  | Ok stream :: events =>
      _ ← set_nodelay stream true;
      let server_impl := MkPotentialServer (callback pot_ref) (user_data pot_ref) in
      accept_loop pot_ref events (connections ++ [(stream, server_impl)])
  end.

(** The body of [rgpot_rpc_server_start]. *)
Definition server_body (pot host : ptr) (port : Z) (events : list (Result N string)) :
    M ServerState :=
  if is_null pot then
    set_last_error "rgpot_rpc_server_start: pot is NULL";;
    mret (Stopped RGPOT_INVALID_PARAMETER)
  else if is_null host then
    set_last_error "rgpot_rpc_server_start: host is NULL";;
    mret (Stopped RGPOT_INVALID_PARAMETER)
  else
    pot_ref ← view as_potential pot;
    text ← cstr_from_ptr host;
    match to_str text with
    | Err e =>
        set_last_error ("invalid host string: " +:+ show_utf8_error e);;
        mret (Stopped RGPOT_INVALID_PARAMETER)
    | Ok host_str =>
        let addr := host_port host_str port in
        rt ← runtime_new;
        match rt with
        | Err e =>
            set_last_error ("failed to create runtime: " +:+ e);;
            mret (Stopped RGPOT_INTERNAL_ERROR)
        | Ok runtime =>
            l ← tcp_bind runtime addr;
            s ← match l with
                | Err e =>
                    set_last_error ("failed to bind " +:+ addr +:+ ": " +:+ e);;
                    mret (Stopped RGPOT_RPC_ERROR)
                | Ok _ => accept_loop pot_ref events []
                end;
            (* the runtime is dropped when the function returns *)
            match s with
            | Stopped status => runtime_drop runtime;; mret (Stopped status)
            | Serving connections => mret (Serving connections)
            end
        end
    end.

(** The panic guard around a body that may also keep serving. *)
Definition rgpot_rpc_server_start (pot host : ptr) (port : Z)
    (events : list (Result N string)) : M ServerState := extern_C (fun t m =>
  match server_body pot host port events t m with
  | Panicked e m' =>
      (set_last_error (panic_message e);; mret (Stopped RGPOT_INTERNAL_ERROR)) t m'
  | r => r
  end).
End server.
