(* ===== verification/RpcSpec.v ===== *)
(** * RpcSpec: contracts of evaluators, and the specifications of the RPC modules

    An evaluator takes an input and an output struct, like a callback, the local entry
    point and the remote entry point do.  [evaluates] is the contract they share. *)
From S2P Require Import Prelude Machine Objects Memory HeapLogic Status Strides Tensor TensorSpec.
From S2P Require Import ForceTypes Potential Utf8 RpcEnv RpcClient RpcServer.
From iris.proofmode Require Import proofmode.
Open Scope Z_scope.

(** ** Configurations *)

Record Config := MkConfig {
  cf_positions : list f64;
  cf_atomic_numbers : list Z;
  cf_box : list f64;
}.

Definition cf_n (c : Config) : Z := Z.of_nat (length (cf_atomic_numbers c)).

(** Three coordinates per atom, nine box entries, and lists that Cap'n Proto can encode. *)
Definition config_ok (c : Config) : bool :=
  (Z.of_nat (length (cf_positions c)) =? 3 * cf_n c) &&
  (Z.of_nat (length (cf_box c)) =? 9) && (3 * cf_n c <? 2 ^ 29).

Lemma config_ok_spec c : config_ok c = true ->
  Z.of_nat (length (cf_positions c)) = 3 * cf_n c /\ length (cf_box c) = 9%nat /\
  0 <= cf_n c /\ 3 * cf_n c < 2 ^ 29.
Proof. unfold config_ok, cf_n. lia. Qed.

Section contracts.
  Context {profile : Target} {dlpack : Dlpack} {ccode : CCode}.

(** The caller's three arrays. *)
Definition arrays (pp pa pb : ptr) (c : Config) : mProp :=
  pp ↦ BF64s (cf_positions c) ∗ pa ↦ BI32s (cf_atomic_numbers c) ∗ pb ↦ BF64s (cf_box c).

(** An input struct with its tensors and the arrays they view. *)
Definition input_at (input : ptr) (i : rgpot_force_input_t) (pp pa pb : ptr) (c : Config) : mProp :=
  input ↦ BForceInput i ∗ force_input i (cf_n c) pp pa pb ∗ arrays pp pa pb c.

(** A tensor of [n] force vectors that its holder may read and must free. *)
Definition forces_tensor (p : ptr) (n : Z) (F : list f64) : mProp :=
  ∃ m, <affine> ⌜shows m (MkView (dl_data (dl_tensor m)) dtype_f64 cpu_device [as_i64 n; 3]) /\
                 Z.of_nat (length F) = (3 * n)%Z⌝ ∗
    p ↦ BManaged m ∗ dl_shape (dl_tensor m) ↦ BI64s [as_i64 n; 3] ∗
    dl_data (dl_tensor m) ↦ BF64s F ∗
    (p ↦ BManaged m -∗ dl_shape (dl_tensor m) ↦ BI64s [as_i64 n; 3] -∗
     dl_data (dl_tensor m) ↦ BF64s F -∗ ∀ t, wp t (rgpot_tensor_free p) (fun _ => emp)).

(** The [forces] field of an output: NULL, or a tensor. *)
Definition maybe_forces (p : ptr) (n : Z) (F : list f64) : mProp :=
  (if is_null p then <affine> ⌜F = []⌝ else forces_tensor p n F)%I.

(** The contract: from an empty output, with any initial energy and variance, [E] succeeds
    with the energy and the forces of [f], keeps the input and the resources [R], leaks
    nothing, and relates the old and the new variance by [V]. *)
Definition evaluates (R : mProp) (E : ptr -> ptr -> M rgpot_status_t)
    (f : Config -> f64 * list f64) (V : f64 -> f64 -> Prop) : Prop :=
  forall t c i pp pa pb input output e v,
    config_ok c = true ->
    R ∗ input_at input i pp pa pb c ∗ output ↦ BForceOut (MkForceOut null e v) ⊢
    wp t (E input output) (fun st => <affine> ⌜st = RGPOT_SUCCESS⌝ ∗
      R ∗ input_at input i pp pa pb c ∗
      ∃ fp v', <affine> ⌜V v v'⌝ ∗ output ↦ BForceOut (MkForceOut fp (f c).1 v') ∗
        forces_tensor fp (cf_n c) (f c).2).

(** What a callback may answer to one configuration: any status, energy and forces that [φ]
    allows. *)
Definition callback_answers (R : mProp) (cb : fnptr) (ud : ptr) (c : Config)
    (φ : rgpot_status_t -> f64 -> list f64 -> Prop) : Prop :=
  forall t i pp pa pb input output,
    R ∗ input_at input i pp pa pb c ∗ output ↦ BForceOut (MkForceOut null f64_zero f64_zero) ⊢
    wp t (call_callback cb ud input output) (fun st => R ∗ input_at input i pp pa pb c ∗
      ∃ o F, output ↦ BForceOut o ∗ maybe_forces (forces o) (cf_n c) F ∗
        <affine> ⌜φ st (energy o) F⌝).

Lemma forces_tensor_not_null p n F : forces_tensor p n F ⊢ ⌜p <> null⌝.
Proof. iIntros "(%m & _ & Hp & _)". iDestruct (pointsto_not_null with "Hp") as %?. done. Qed.

(** An owned tensor of the right shape is a forces tensor. *)
Lemma owned_forces_tensor p d n F :
  Z.of_nat (length F) = 3 * n ->
  owned_f64_tensor F p (MkView d dtype_f64 cpu_device [as_i64 n; 3]) ⊢ forces_tensor p n F.
Proof.
  unfold owned_f64_tensor at 1. iIntros (HF) "(%ctx & %sh & %st & %dv & [%Hs %Hd] & Hp & Hctx & [Hdv %Hl] & [Hsh %Hsl] & Hst)".
  iExists _. iFrame "Hp". cbn in Hd |- *. rewrite -Hd. iFrame "Hsh Hdv".
  iSplitR; [iPureIntro; split; [by apply managed_of_shows | done]|].
  iIntros "Hp Hsh Hd" (t). iApply (tensor_free (T:=owned_f64_tensor F)).
  iExists ctx, sh, st, dv. iFrame. iSplitR; [done|]. iFrame. done.
Qed.
End contracts.

(** ** The server *)

Section server.
  Context {profile : Target} {dlpack : Dlpack} {ccode : CCode}
    {errors : CapnpErrors} {lists : CapnpLists}.

Lemma mul_by_3 t n Q :
  0 <= n -> 3 * n < 2 ^ 29 -> Q (3 * n) ⊢ wp t (mul_usize n 3) Q.
Proof. intros H0 H3. rewrite Z.mul_comm. apply mul_usize_spec. unfold is_usize. lia. Qed.

(** Reading the forces out of the callback's tensor. *)
Lemma copy_forces_spec t p n F :
  0 <= n -> 3 * n < 2 ^ 29 ->
  maybe_forces p n F ⊢
  wp t (if negb (is_null p) then
          ft ← view as_managed p;
          len ← mul_usize n 3;
          from_raw_parts as_f64s (dl_data (dl_tensor ft)) len
        else mret [])
    (fun r => <affine> ⌜r = F⌝ ∗ maybe_forces p n F).
Proof.
  intros H0 H3. unfold maybe_forces. destruct (is_null p) eqn:E; cbn [negb].
  { iIntros (->). by iApply wp_ret. }
  iIntros "(%m & [%Hm %HF] & Hp & Hsh & Hd & Hfree)".
  wp_look "Hp".
  iApply wp_bind. iApply mul_by_3; [done..|].
  iApply (wp_from_raw_parts with "Hd"); [done | lia |]. iIntros "Hd".
  iSplitR; [iPureIntro; apply take_ge; lia|]. iExists m. by iFrame.
Qed.

Lemma free_forces_spec t p n F :
  maybe_forces p n F ⊢ wp t (rgpot_tensor_free p) (fun _ => emp).
Proof.
  unfold maybe_forces. destruct (is_null p) eqn:E.
  - apply is_null_spec in E as ->. iIntros (_). by iApply rgpot_tensor_free_null.
  - iIntros "(%m & _ & Hp & Hsh & Hd & Hfree)". iApply ("Hfree" with "Hp Hsh Hd").
Qed.

Lemma collect_forces_spec t input output i pp pa pb c o F :
  config_ok c = true ->
  input_at input i pp pa pb c ∗ output ↦ BForceOut o ∗ maybe_forces (forces o) (cf_n c) F ⊢
  wp t (collect_forces (cf_n c) input output) (fun r => <affine> ⌜r = F⌝ ∗
    input ↦ BForceInput i ∗ arrays pp pa pb c ∗ output ↦ BForceOut o).
Proof.
  intros (_ & _ & H0 & H3)%config_ok_spec.
  iIntros "((Hi & (Hp & Ha & Hb) & Harr) & Ho & HF)". unfold collect_forces.
  wp_look "Ho".
  iApply (wp_seq with "HF"); [by apply copy_forces_spec|]. iIntros (r) "[-> HF]".
  wp_call free_forces_spec "HF". iIntros (_) "_".
  wp_look "Hi".
  wp_call (tensor_free (T:=borrowed_tensor)) "Hp". iIntros (_) "_".
  wp_call (tensor_free (T:=borrowed_tensor)) "Ha". iIntros (_) "_".
  wp_call (tensor_free (T:=borrowed_tensor)) "Hb". iIntros (_) "_".
  iApply wp_ret. by iFrame.
Qed.

(** A list short enough for Cap'n Proto is transmitted as it is. *)
Lemma encode_list_spec t (n : Z) (xs : list Z) (Q : list_builder -> mProp) :
  Z.of_nat (length xs) = n -> n < 2 ^ 29 ->
  (∀ b, <affine> ⌜list_values b = xs⌝ -∗ Q b) ⊢
  wp t (b ← or_panic (init_list n); fill_list b 0 xs) Q.
Proof.
  intros Hn Hlt. constructor. intros h HQ σ hf Hwf Hm Hd.
  destruct (build_list_run t σ n xs Hn Hlt) as (b & Hrun & Hb).
  exists b, σ, h. split_and!; [done..|].
  rewrite -(right_id_L ∅ (∪) h). apply (HQ b); [apply map_disjoint_empty_r | by split].
Qed.

(** What the client is told, as a function of the callback's answer. *)
Definition reply_is (st : rgpot_status_t) (e : f64) (F : list f64)
    (r : Result CalculateResults CapnpError) : Prop :=
  if decide (st = RGPOT_SUCCESS) then
    exists res, r = Ok res /\ res_energy res = e /\ list_values (res_forces res) = F
  else r = Err (CapnpError_failed "potential callback returned an error").

Lemma build_results_spec t st e F :
  Z.of_nat (length F) < 2 ^ 29 ->
  emp ⊢ wp t (build_results st e F) (fun r => <affine> ⌜reply_is st e F r⌝).
Proof.
  iIntros (HF) "_". unfold build_results, reply_is. case_bool_decide as Hst.
  - iApply wp_ret. by rewrite decide_False.
  - rewrite as_u32_id; [|unfold is_u32; lia].
    iApply wp_bind. iApply encode_list_spec; [done | done |]. iIntros (b Hb).
    iApply wp_ret. iPureIntro. rewrite decide_True //. by eexists.
Qed.

(** The parameters that carry a configuration. *)
Definition params_of (c : Config) : CalculateParams :=
  MkCalculateParams (Ok (Ok (MkForceInputReader (Ok (cf_positions c))
    (Ok (cf_atomic_numbers c)) (Ok (cf_box c))))).

(** A request whose data is in place. *)
Definition flight_input (fl : Flight) (i : rgpot_force_input_t) (c : Config) : mProp :=
  <affine> ⌜fl_atoms fl = cf_n c⌝ ∗
  <affine> ⌜vec_len (fl_pos fl) = Z.of_nat (length (cf_positions c)) /\
            vec_len (fl_atm fl) = Z.of_nat (length (cf_atomic_numbers c)) /\
            vec_len (fl_box fl) = Z.of_nat (length (cf_box c))⌝ ∗
  input_at (fl_input fl) i (vec_ptr (fl_pos fl)) (vec_ptr (fl_atm fl)) (vec_ptr (fl_box fl)) c.

Definition flight_ready (c : Config) (fl : Flight) : mProp :=
  ∃ i, flight_input fl i c ∗ fl_output fl ↦ BForceOut (MkForceOut null f64_zero f64_zero).

(** A request that the callback has answered with [st], within [φ]. *)
Definition flight_answered (φ : rgpot_status_t -> f64 -> list f64 -> Prop) (c : Config)
    (fl : Flight) (st : rgpot_status_t) : mProp :=
  ∃ i o F, flight_input fl i c ∗ fl_output fl ↦ BForceOut o ∗
    maybe_forces (forces o) (cf_n c) F ∗ <affine> ⌜φ st (energy o) F⌝.

Lemma server_prepare_spec t c :
  emp ⊢ wp t (server_prepare (cf_positions c) (cf_atomic_numbers c) (cf_box c)) (flight_ready c).
Proof.
  iIntros "_". unfold server_prepare.
  iApply (wp_seq with "[]"); [apply (vec_new_spec BF64s (cf_positions c))|done|].
  iIntros (vp) "[Hpp %Hlp]".
  iApply (wp_seq with "[]"); [apply (vec_new_spec BI32s (cf_atomic_numbers c))|done|].
  iIntros (va) "[Hpa %Hla]".
  iApply (wp_seq with "[]"); [apply (vec_new_spec BF64s (cf_box c))|done|].
  iIntros (vb) "[Hpb %Hlb]".
  iApply (wp_seq with "[]"); [by apply rgpot_tensor_cpu_f64_2d_spec|done|]. iIntros (tp) "Htp".
  iApply (wp_seq with "[]"); [apply rgpot_tensor_cpu_i32_1d_spec|done|]. iIntros (ta) "Hta".
  iApply (wp_seq with "[]"); [apply rgpot_tensor_cpu_f64_matrix3_spec|done|]. iIntros (tb) "Htb".
  iApply wp_bind. iApply wp_alloc. iIntros (input) "Hi".
  iApply wp_bind. iApply wp_alloc. iIntros (output) "Ho". iApply wp_ret.
  iExists (MkForceInput tp ta tb). iFrame "Ho". do 2 (iSplitR; [done|]).
  iFrame "Hi". unfold force_input. iFrame.
Qed.

Lemma server_call_spec t R srv c φ fl :
  callback_answers R (srv_callback srv) (srv_user_data srv) c φ ->
  R ∗ flight_ready c fl ⊢
  wp t (call_callback (srv_callback srv) (srv_user_data srv) (fl_input fl) (fl_output fl))
    (fun st => R ∗ flight_answered φ c fl st).
Proof.
  iIntros (Hcb) "(HR & %i & (%Hn & %Hl & Hin) & Ho)".
  iApply (wp_use with "[HR Hin Ho]"); [apply Hcb | iFrame |].
  iIntros (st) "($ & Hin & %o & %F & Ho & HF & %Hφ)". iExists i, o, F. by iFrame.
Qed.

Lemma maybe_forces_length p n F :
  0 <= n -> maybe_forces p n F ⊢ ⌜Z.of_nat (length F) <= 3 * n⌝.
Proof.
  intros Hn. unfold maybe_forces. destruct (is_null p).
  - iIntros (->). iPureIntro. simpl. lia.
  - iIntros "(%m & [_ %HF] & _)". iPureIntro. lia.
Qed.

Lemma server_finish_spec t φ c fl st :
  config_ok c = true ->
  flight_answered φ c fl st ⊢ wp t (server_finish fl st)
    (fun r => <affine> ⌜exists e F, φ st e F /\ reply_is st e F r⌝).
Proof.
  intros Hc. pose proof (config_ok_spec c Hc) as (_ & _ & H0 & H3).
  iIntros "(%i & %o & %F & (%Hn & (%Hlp & %Hla & %Hlb) & Hin) & Ho & HF & %Hφ)".
  iDestruct (maybe_forces_length with "HF") as %HF; [done|]. unfold server_finish. rewrite Hn.
  iApply (wp_seq with "[Hin Ho HF]"); [by apply (collect_forces_spec t (fl_input fl) (fl_output fl))|iFrame|].
  iIntros (r) "(-> & Hi & (Hpp & Hpa & Hpb) & Ho)".
  wp_look "Ho".
  iApply (wp_seq with "[]"); [apply build_results_spec; lia|done|]. iIntros (r) "%Hr".
  iApply wp_bind. iApply (wp_dealloc with "Ho"). iApply wp_bind. iApply (wp_dealloc with "Hi").
  iApply (wp_seq with "[Hpb]"); [apply (vec_drop_spec BF64s (fl_box fl))|by iFrame|]. iIntros (_) "_".
  iApply (wp_seq with "[Hpa]"); [apply (vec_drop_spec BI32s (fl_atm fl))|by iFrame|]. iIntros (_) "_".
  iApply (wp_seq with "[Hpp]"); [apply (vec_drop_spec BF64s (fl_pos fl))|by iFrame|]. iIntros (_) "_".
  iApply wp_ret. iPureIntro. by exists (energy o), F.
Qed.

(** One call of the server, for any answer of the callback: the reply is determined by that
    answer, and everything the server allocated is released. *)
Lemma PotentialServer_calculate_spec t R srv c φ :
  config_ok c = true -> callback_answers R (srv_callback srv) (srv_user_data srv) c φ ->
  R ⊢ wp t (PotentialServer_calculate srv (params_of c)) (fun r => R ∗
    ∃ st e F, <affine> ⌜φ st e F /\ reply_is st e F r⌝).
Proof.
  intros Hc Hcb. iIntros "HR". unfold PotentialServer_calculate.
  cbn [pry params_get params_of get_pos get_atmnrs get_box].
  iApply (wp_seq with "[]"); [apply server_prepare_spec|done|]. iIntros (fl) "Hfl".
  iApply (wp_seq with "[HR Hfl]"); [by apply (server_call_spec t R srv c φ)|iFrame|].
  iIntros (st) "[HR Hfl]".
  iApply (wp_use with "Hfl"); [by apply server_finish_spec|].
  iIntros (r) "(%e & %F & %Hr)". iFrame "HR". by iExists st, e, F.
Qed.

(** The same, as a statement about the store. *)
Lemma server_calculate_run t srv c φ σ :
  config_ok c = true -> wf_mem σ ->
  callback_answers emp (srv_callback srv) (srv_user_data srv) c φ ->
  exists r σ', PotentialServer_calculate srv (params_of c) t σ = Done r σ' /\ wf_mem σ' /\
    mem_map σ' = mem_map σ /\ exists st e F, φ st e F /\ reply_is st e F r.
Proof.
  intros Hc Hwf Hcb. destruct (wp_run_emp t (PotentialServer_calculate srv (params_of c))
    (fun r => exists st e F, φ st e F /\ reply_is st e F r) σ) as (r & σ' & Hrun & Hwf' & Hm & Hr);
    [|done|by exists r, σ'].
  iIntros "H". iApply (wp_use with "H"); [by apply (PotentialServer_calculate_spec t emp srv c φ)|].
  iIntros (r) "(_ & %st & %e & %F & %Hφ)". iPureIntro. by exists st, e, F.
Qed.
End server.

(** ** The client *)

Section client.
  Context {profile : Target} {dlpack : Dlpack} {ccode : CCode}
    {errors : CapnpErrors} {lists : CapnpLists} {network : Network}.

(** One tensor of the input: on the CPU, so its array is read through the data pointer. *)
Lemma read_input_tensor t p v b Q
    (k : DLManagedTensorVersioned -> M (Result _ string)) :
  tv_device v = cpu_device ->
  borrowed_tensor p v -∗ tv_data v ↦ b -∗
  (∀ m, <affine> ⌜not_on_cpu m = false /\ dl_data (dl_tensor m) = tv_data v⌝ -∗
     borrowed_tensor p v -∗ tv_data v ↦ b -∗ wp t (k m) Q) -∗
  wp t (m ← view as_managed p; k m) (Q : Result (list f64 * list Z * list f64) string -> mProp).
Proof.
  iIntros (Hdev) "HT Hb Hk".
  iDestruct (tensor_open (T:=borrowed_tensor) with "HT") as (m) "(%Hm & Hp & Hsh & Hclose)".
  destruct Hm as (Hd & _ & Hv & _).
  wp_look "Hp".
  iApply ("Hk" with "[] [Hp Hsh Hclose] Hb").
  - iPureIntro. split; [|done]. unfold not_on_cpu. by rewrite Hv Hdev.
  - iApply ("Hclose" with "Hp Hsh").
Qed.

Lemma extract_cpu_input_spec t i pp pa pb c :
  config_ok c = true ->
  force_input i (cf_n c) pp pa pb ∗ arrays pp pa pb c ⊢
  wp t (extract_cpu_input i (cf_n c)) (fun r =>
    <affine> ⌜r = Ok (cf_positions c, cf_atomic_numbers c, cf_box c)⌝ ∗
    force_input i (cf_n c) pp pa pb ∗ arrays pp pa pb c).
Proof.
  intros (Hp3 & Hb9 & H0 & H3)%config_ok_spec.
  iIntros "((Hp & Ha & Hb) & Hpp & Hpa & Hpb)". unfold extract_cpu_input.
  iDestruct (tensor_not_null (T:=borrowed_tensor) with "Hp") as %Hpn.
  iDestruct (tensor_not_null (T:=borrowed_tensor) with "Ha") as %Han.
  iDestruct (tensor_not_null (T:=borrowed_tensor) with "Hb") as %Hbn.
  rewrite !is_null_false //.
  iApply (read_input_tensor with "Hp Hpp"); [done|].
  iIntros (mp [-> ->]) "Hp Hpp". cbn [tv_data positions_view].
  iApply wp_bind. iApply mul_by_3; [done..|].
  iApply wp_bind. iApply (wp_from_raw_parts with "Hpp"); [done | lia |]. iIntros "Hpp".
  iApply (read_input_tensor with "Ha Hpa"); [done|].
  iIntros (ma [-> ->]) "Ha Hpa". cbn [tv_data atmnrs_view].
  iApply wp_bind. iApply (wp_from_raw_parts with "Hpa"); [done | unfold cf_n; lia |]. iIntros "Hpa".
  iApply (read_input_tensor with "Hb Hpb"); [done|].
  iIntros (mb [-> ->]) "Hb Hpb". cbn [tv_data box_view].
  iApply wp_bind. iApply (wp_from_raw_parts with "Hpb"); [done | lia |]. iIntros "Hpb".
  iApply wp_ret. iFrame. iPureIntro. unfold cf_n in *. rewrite !take_ge //; lia.
Qed.

Lemma update_output_spec t output o f :
  output ↦ BForceOut o ⊢ wp t (update_output output f) (fun _ => output ↦ BForceOut (f o)).
Proof.
  iIntros "Ho". wp_look "Ho".
  iApply (wp_store with "Ho"). by iIntros "$".
Qed.

(** A complete reply is stored: the energy, and an owned copy of the forces. *)
Lemma receive_result_spec t n output o e F :
  0 <= n -> 3 * n < 2 ^ 29 -> Z.of_nat (length F) = 3 * n ->
  output ↦ BForceOut o ⊢
  wp t (receive_result n output (MkResponse (Ok (Ok (MkPotentialResultReader e (Ok F))))))
    (fun r => <affine> ⌜r = Ok tt⌝ ∗ ∃ fp,
      output ↦ BForceOut (MkForceOut fp e (variance o)) ∗ forces_tensor fp n F).
Proof.
  iIntros (H0 H3 HF) "Ho". unfold receive_result, try_bind. cbn.
  iApply wp_bind. iApply wp_ret. iApply wp_bind. iApply wp_ret.
  wp_call update_output_spec "Ho". iIntros (_) "Ho".
  iApply wp_bind. iApply wp_ret. iApply wp_bind. iApply mul_by_3; [done..|].
  rewrite (proj2 (Z.eqb_eq _ _) HF). cbn [negb].
  iApply (wp_seq with "[]"); [apply (vec_new_spec BF64s F)|done|]. iIntros (d) "Hd".
  iApply (wp_seq with "[]"); [apply (vec_new_spec BI64s [as_i64 n; 3])|done|]. iIntros (sh) "Hsh".
  iApply (wp_seq with "[Hd Hsh]");
    [apply (create_owned_f64_tensor_spec t d F sh [as_i64 n; 3]); [auto with rgpot | done]
    | iFrame |].
  iIntros (fp) "HT". wp_call update_output_spec "Ho". iIntros (_) "Ho".
  iApply wp_ret. iSplitR; [done|]. iExists fp. iFrame "Ho". by iApply owned_forces_tensor.
Qed.

Lemma build_request_spec t c :
  config_ok c = true ->
  emp ⊢ wp t (build_request (cf_positions c) (cf_atomic_numbers c) (cf_box c)) (fun r =>
    <affine> ⌜list_values (req_pos r) = cf_positions c /\
      list_values (req_atmnrs r) = cf_atomic_numbers c /\ list_values (req_box r) = cf_box c⌝).
Proof.
  intros (Hp3 & Hb9 & H0 & H3)%config_ok_spec. unfold cf_n in *.
  iIntros "_". unfold build_request.
  rewrite !as_u32_id; try (unfold is_u32; lia).
  iApply wp_bind. iApply encode_list_spec; [done | lia |]. iIntros (bp Hbp).
  iApply wp_bind. iApply encode_list_spec; [done | lia |]. iIntros (ba Hba).
  iApply wp_bind. iApply encode_list_spec; [by rewrite Hb9 | done |]. iIntros (bb Hbb).
  by iApply wp_ret.
Qed.

(** ** A faithful transport

    The connection is established, and a request is answered by the server's [calculate]
    on the very lists that were written, run by some thread of the server.  Results arrive
    as they were sent; an error that the method returned arrives as the exception that the
    RPC library makes of it ([remote_exception]). *)
Definition received (req : CalculateRequest) : CalculateParams :=
  MkCalculateParams (Ok (Ok (MkForceInputReader (Ok (list_values (req_pos req)))
    (Ok (list_values (req_atmnrs req))) (Ok (list_values (req_box req)))))).

Definition delivered (res : CalculateResults) : Response :=
  MkResponse (Ok (Ok (MkPotentialResultReader (res_energy res)
    (Ok (list_values (res_forces res)))))).

Definition served (srv : PotentialServer) (req : CalculateRequest) :
    M (Result Response CapnpError) :=
  r ← PotentialServer_calculate srv (received req);
  mret (match r with Ok res => Ok (delivered res) | Err e => Err (remote_exception e) end).

Record Faithful (srv : PotentialServer) : Prop := {
  faithful_connect rt a : exists stream, forall t σ, tcp_connect rt a t σ = Done (Ok stream) σ;
  faithful_nodelay stream b t σ : set_nodelay stream b t σ = Done (Ok tt) σ;
  faithful_send stream req : exists ts, forall t σ,
    send_request stream req t σ = served srv req ts σ;
}.

(** What the client sees of a reply. *)
Definition reply_seen (st : rgpot_status_t) (e : f64) (F : list f64)
    (r : Result Response CapnpError) : Prop :=
  if decide (st = RGPOT_SUCCESS) then
    r = Ok (MkResponse (Ok (Ok (MkPotentialResultReader e (Ok F)))))
  else r = Err (remote_exception (CapnpError_failed "potential callback returned an error")).

Lemma send_request_spec t R srv c φ stream req :
  Faithful srv -> config_ok c = true ->
  callback_answers R (srv_callback srv) (srv_user_data srv) c φ ->
  list_values (req_pos req) = cf_positions c ->
  list_values (req_atmnrs req) = cf_atomic_numbers c ->
  list_values (req_box req) = cf_box c ->
  R ⊢ wp t (send_request stream req) (fun r => R ∗
    ∃ st e F, <affine> ⌜φ st e F /\ reply_seen st e F r⌝).
Proof.
  intros Hnet Hc Hcb Hp Ha Hb. destruct (faithful_send srv Hnet stream req) as [ts Hsend].
  assert (R ⊢ wp ts (served srv req) (fun r => R ∗
    ∃ st e F, <affine> ⌜φ st e F /\ reply_seen st e F r⌝)) as [Hs].
  { iIntros "HR". unfold served, received. rewrite Hp Ha Hb.
    iApply (wp_seq with "HR"); [by apply (PotentialServer_calculate_spec ts R srv c φ)|].
    iIntros (r) "(HR & %st & %e & %F & %Hφ & %Hr)". iApply wp_ret. iFrame "HR".
    iExists st, e, F. iPureIntro. split; [done|]. unfold reply_is, reply_seen in *.
    case_decide; [|by subst r]. destruct Hr as (res & -> & <- & <-). done. }
  constructor. intros h HR σ hf. rewrite Hsend. by apply Hs.
Qed.

(** What the client does with the reply: on success it stores the energy, then the forces
    when there are three per atom; an incomplete force array is an error that comes after
    the energy was stored; an error of the callback leaves the output alone. *)
Definition client_outcome (n : Z) (output : ptr) (o : rgpot_force_out_t)
    (st : rgpot_status_t) (e : f64) (F : list f64) (r : Result unit string) : mProp :=
  (if decide (st = RGPOT_SUCCESS) then
     if decide (Z.of_nat (length F) = 3 * n) then
       <affine> ⌜r = Ok tt⌝ ∗ ∃ fp, output ↦ BForceOut (MkForceOut fp e (variance o)) ∗
         forces_tensor fp n F
     else
       <affine> ⌜r = Err ("force array size mismatch: expected " +:+ show (3 * n) +:+ ", got "
                          +:+ show (Z.of_nat (length F)))%string⌝ ∗
       output ↦ BForceOut (set_energy e o)
   else
     <affine> ⌜r = Err ("RPC call failed: " +:+ show_capnp_error
                 (remote_exception
                   (CapnpError_failed "potential callback returned an error")))%string⌝ ∗
     output ↦ BForceOut o)%I.

(** A force array of the wrong length is refused, after the energy was stored. *)
Lemma receive_mismatch_spec t n output o e F :
  0 <= n -> 3 * n < 2 ^ 29 -> Z.of_nat (length F) <> 3 * n ->
  output ↦ BForceOut o ⊢
  wp t (receive_result n output (MkResponse (Ok (Ok (MkPotentialResultReader e (Ok F))))))
    (fun r => <affine> ⌜r = Err ("force array size mismatch: expected " +:+ show (3 * n)
        +:+ ", got " +:+ show (Z.of_nat (length F)))%string⌝ ∗
      output ↦ BForceOut (set_energy e o)).
Proof.
  iIntros (H0 H3 HF) "Ho". unfold receive_result, try_bind. cbn.
  iApply wp_bind. iApply wp_ret. iApply wp_bind. iApply wp_ret.
  wp_call update_output_spec "Ho". iIntros (_) "Ho".
  iApply wp_bind. iApply wp_ret. iApply wp_bind. iApply mul_by_3; [done..|].
  rewrite (proj2 (Z.eqb_neq _ _) HF). iApply wp_ret. by iFrame.
Qed.

(** [RpcClient::calculate] up to the network: a well-formed input is measured and read. *)
Lemma RpcClient_calculate_reads t cl c i pp pa pb output Q :
  config_ok c = true ->
  force_input i (cf_n c) pp pa pb ∗ arrays pp pa pb c -∗
  (force_input i (cf_n c) pp pa pb ∗ arrays pp pa pb c -∗
   wp t (stream ?← map_err (fun e => "connection failed: " +:+ e)
                     (tcp_connect (runtime cl) (addr cl));
         _ ?← map_err (fun e => "set_nodelay failed: " +:+ e) (set_nodelay stream true);
         request ← build_request (cf_positions c) (cf_atomic_numbers c) (cf_box c);
         response ?← map_err (fun e => "RPC call failed: " +:+ show_capnp_error e)
                       (send_request stream request);
         receive_result (cf_n c) output response) Q) -∗
  wp t (RpcClient_calculate cl i output) Q.
Proof.
  iIntros (Hc) "((Hp & Ha & Hb) & Harr) Hk". pose proof (config_ok_spec c Hc) as (_ & _ & H0 & H3).
  unfold RpcClient_calculate, try_bind at 1 2.
  iApply (wp_seq with "Hp"); [by eapply (n_atoms_spec (T:=borrowed_tensor) t i)|].
  iIntros (r) "[Hp ->]". rewrite as_usize_as_i64; [|unfold is_usize; lia].
  iApply wp_bind. iApply wp_ret.
  iApply (wp_seq with "[Hp Ha Hb Harr]"); [by apply (extract_cpu_input_spec t i pp pa pb c)| |].
  { unfold force_input. iFrame. }
  iIntros (r) "(-> & H)". iApply ("Hk" with "H").
Qed.

(** [RpcClient::calculate] over a faithful transport, for every answer of the callback. *)
Lemma RpcClient_calculate_spec t R srv φ cl c i pp pa pb output o :
  Faithful srv -> config_ok c = true ->
  callback_answers R (srv_callback srv) (srv_user_data srv) c φ ->
  R ∗ force_input i (cf_n c) pp pa pb ∗ arrays pp pa pb c ∗ output ↦ BForceOut o ⊢
  wp t (RpcClient_calculate cl i output) (fun r =>
    R ∗ force_input i (cf_n c) pp pa pb ∗ arrays pp pa pb c ∗
    ∃ st e F, <affine> ⌜φ st e F⌝ ∗ client_outcome (cf_n c) output o st e F r).
Proof.
  intros Hnet Hc Hcb. pose proof (config_ok_spec c Hc) as (_ & _ & H0 & H3).
  iIntros "(HR & Hin & Harr & Ho)".
  iApply (RpcClient_calculate_reads with "[$Hin $Harr]"); [done|]. iIntros "[Hin Harr]".
  unfold try_bind, map_err.
  destruct (faithful_connect srv Hnet (runtime cl) (addr cl)) as [stream Hconn].
  iApply wp_bind. iApply wp_bind. iApply wp_done; [done|]. iApply wp_ret.
  iApply wp_bind. iApply wp_bind.
  iApply wp_done; [intros σ; apply (faithful_nodelay srv Hnet)|]. iApply wp_ret.
  iApply (wp_seq with "[]"); [by apply build_request_spec|done|].
  iIntros (req) "(%Hrp & %Hra & %Hrb)". iApply wp_bind.
  iApply (wp_seq with "HR"); [by eapply (send_request_spec t R srv c)|].
  iIntros (r) "(HR & %st & %e & %F & %Hφ & %Hr)". iApply wp_ret.
  iApply (wp_wand _ _ (client_outcome (cf_n c) output o st e F) with "[Ho]").
  2:{ iIntros (r') "H". iFrame "HR Hin Harr". iExists st, e, F. by iFrame. }
  unfold reply_seen, client_outcome in *. case_decide; subst r.
  - case_decide as HF.
    + by iApply receive_result_spec.
    + by iApply receive_mismatch_spec.
  - iApply wp_ret. by iFrame.
Qed.
End client.
