(* ===== verification/Environment.v ===== *)
(** * Environment: concrete instances of the interfaces

    The theorems hold for every build profile, every C side and every library that meets
    its documented behaviour.  These instances show that the interfaces can be met; the
    concrete runs use them. *)
From S2P Require Import Prelude Machine Objects Memory Tensor RpcEnv.
Open Scope Z_scope.

(** ** Build profiles *)

Definition debug_profile : Target := {| overflow_checks := true |}.
Definition release_profile : Target := {| overflow_checks := false |}.

(** ** DLPack: the flag's value in the DLPack 1.0 header is [1 << 1] *)

Definition show_code (c : DLDataTypeCode) : string :=
  match c with
  | kDLInt => "kDLInt"
  | kDLFloat => "kDLFloat"
  | kDLOtherCode c => pretty c
  end.

Program Definition dlpack_header : Dlpack := {|
  DLPACK_FLAG_BITMASK_IS_COPIED := 2;
  debug_dtype d := show_code (code d) +:+ " " +:+ pretty (bits d) +:+ " " +:+ pretty (lanes d);
|}.
Next Obligation. done. Qed.

(** ** A C side without any registered function: calling one is undefined *)

Definition no_c_code : CCode := {|
  c_callback _ _ _ _ := undefined WrongObject;
  c_free_fn _ _ := undefined WrongObject;
  c_deleter _ _ := undefined WrongObject;
|}.

(** ** Cap'n Proto *)

Definition text_errors : CapnpErrors := {|
  CapnpError := string;
  CapnpError_failed s := s;
  show_capnp_error s := s;
  remote_exception s := "remote exception: " +:+ s;
|}.

Definition out_of_bounds : PanicPayload := PanicStr "assertion failed: index < self.len()".

Program Definition plain_lists : CapnpLists := {|
  list_builder := list Z;
  init_list n := if (0 <=? n) && (n <? 2 ^ 29) then Ok (replicate (Z.to_nat n) 0)
                 else Err (PanicStr "list too long");
  set_list b i x := if (0 <=? i) && (i <? Z.of_nat (length b)) then Ok (<[Z.to_nat i := x]> b)
                    else Err out_of_bounds;
  list_values b := b;
|}.
Next Obligation.
  intros n Hn. eexists. split.
  - replace ((0 <=? n) && (n <? 2 ^ 29)) with true by lia. done.
  - rewrite length_replicate. lia.
Qed.
Next Obligation.
  intros b i x Hi. eexists. split; [|done].
  by replace ((0 <=? i) && (i <? Z.of_nat (length b))) with true by lia.
Qed.

(** ** Stores *)

(** Nothing but the error slot of thread 0, unused. *)
Definition initial_mem : Mem := MkMem {[LTls 0%N := BLastError None]} 1%N.

(** The same with the C caller's objects at the addresses 1, 2, .... *)
Fixpoint with_objects (σ : Mem) (bs : list Block) : Mem :=
  match bs with
  | [] => σ
  | b :: bs =>
      with_objects (MkMem (<[LHeap (mem_next σ) := b]> (mem_map σ)) (mem_next σ + 1)%N) bs
  end.

Lemma initial_mem_wf : wf_mem initial_mem.
Proof. split; [done|]. intros p b. simpl. by rewrite lookup_singleton_Some; intros [? _]. Qed.

Lemma wf_mem_insert σ b :
  wf_mem σ -> wf_mem (MkMem (<[LHeap (mem_next σ) := b]> (mem_map σ)) (mem_next σ + 1)%N).
Proof.
  intros [Hpos Hwf]. split; simpl; [lia|]. intros q c. rewrite lookup_insert_Some.
  intros [[[= <-] _] | [_ Hq]]; [lia | apply Hwf in Hq; lia].
Qed.

Lemma with_objects_wf σ bs : wf_mem σ -> wf_mem (with_objects σ bs).
Proof. revert σ. induction bs; intros σ Hwf; simpl; auto using wf_mem_insert. Qed.

Lemma objects_wf bs : wf_mem (with_objects initial_mem bs).
Proof. apply with_objects_wf, initial_mem_wf. Qed.
