(* ===== verification/TensorTheorems.v ===== *)
(** * TensorTheorems: what src/tensor.rs promises its callers

    Strides, life cycles without leaks, dangling handles, copies, the C accessors, the
    overflow of the owned constructor and the exact verdicts of the validators. *)
From S2P Require Import Prelude Machine Objects Memory HeapLogic Strides Tensor TensorSpec.
From S2P Require Import RpcEnv Environment.
From iris.proofmode Require Import proofmode.
Open Scope Z_scope.

Section theorems.
  Context {profile : Target} {dlpack : Dlpack} {ccode : CCode}.

(** ** Strides *)

(** C37: [compute_row_major_strides] on every shape, in both build profiles: the result is the
    list whose [k]-th entry is the product of the dimensions after [k] whenever those
    products fit in an [i64]; when one does not, a build with overflow checks panics and a
    build without them yields the products modulo [2^64]. *)
Theorem compute_row_major_strides_closed_form (shape : list Z) (t : thread_id) (σ : Mem) :
  (v ← compute_row_major_strides shape; load (vec_ptr v)) t σ =
    (if strides_fit shape then (v ← vec_new BI64s (row_major shape); load (vec_ptr v)) t σ
     else if overflow_checks then Panicked mul_overflow σ
     else (v ← vec_new BI64s (as_i64 <$> row_major shape); load (vec_ptr v)) t σ).
Proof.
  unfold mbind, M_bind. rewrite compute_row_major_strides_eq.
  destruct (strides_fit shape) eqn:Hf.
  - by rewrite orb_true_r wrapped_strides_fit.
  - by destruct overflow_checks.
Qed.

(** The strides the code computes number the cells of the tensor row by row: when no
    stride overflows, the function returns normally and every position of the buffer below
    the element count is the offset of exactly one in-bounds multi-index (and every
    in-bounds multi-index stays inside the buffer). *)
Theorem strides_number_the_cells (shape : list Z) (t : thread_id) (σ : Mem)
    (Hshape : Forall (fun d => 0 <= d) shape) (Hfit : strides_fit shape = true) :
  exists v σ' strides, compute_row_major_strides shape t σ = Done v σ' /\
    mem_map σ' !! LHeap (vec_ptr v) = Some (BI64s strides) /\
    (forall idx, in_bounds idx shape -> 0 <= offset idx strides < cells shape) /\
    (forall k, 0 <= k < cells shape ->
       exists! idx, in_bounds idx shape /\ offset idx strides = k).
Proof.
  eexists _, _, (row_major shape). rewrite compute_row_major_strides_eq Hfit orb_true_r.
  split; [apply vec_new_run|]. simpl. split_and!.
  - by rewrite lookup_insert_eq wrapped_strides_fit.
  - intros idx. apply offset_range.
  - intros k Hk. destruct (offset_surj shape k Hshape Hk) as (idx & Hb & Ho).
    exists idx. split; [done|]. intros idx' [Hb' Ho']. eapply offset_inj; [done..|].
    by rewrite Ho Ho'.
Qed.

(** ** Borrowed tensors through the C interface *)

(** The three constructors that borrow the caller's array. *)
Inductive BorrowCall :=
| Cpu_f64_2d (rows cols : Z)
| Cpu_i32_1d (len : Z)
| Cpu_f64_matrix3.

Definition borrow (data : ptr) (c : BorrowCall) : M ptr :=
  match c with
  | Cpu_f64_2d rows cols => rgpot_tensor_cpu_f64_2d data rows cols
  | Cpu_i32_1d len => rgpot_tensor_cpu_i32_1d data len
  | Cpu_f64_matrix3 => rgpot_tensor_cpu_f64_matrix3 data
  end.

Definition borrow_view (data : ptr) (c : BorrowCall) : TensorView :=
  match c with
  | Cpu_f64_2d rows cols => MkView data dtype_f64 cpu_device [rows; cols]
  | Cpu_i32_1d len => MkView data dtype_i32 cpu_device [len]
  | Cpu_f64_matrix3 => MkView data dtype_f64 cpu_device [3; 3]
  end.

(** The arguments have the types of the C signature. *)
Definition borrow_typed (c : BorrowCall) : bool :=
  match c with
  | Cpu_f64_2d rows cols => is_i64 rows && is_i64 cols
  | Cpu_i32_1d len => is_i64 len
  | Cpu_f64_matrix3 => true
  end.

Lemma borrow_spec t data c :
  borrow_typed c = true -> emp ⊢ wp t (borrow data c) (fun p => borrowed_tensor p (borrow_view data c)).
Proof.
  destruct c; simpl; intros Hc.
  - apply andb_prop in Hc as [_ Hc]. by apply rgpot_tensor_cpu_f64_2d_spec.
  - apply rgpot_tensor_cpu_i32_1d_spec.
  - apply rgpot_tensor_cpu_f64_matrix3_spec.
Qed.

(** How a C caller reads a tensor's metadata, with a cell for the dimension count. *)
Definition inspect (p cell : ptr) : M (DLDevice * ptr * list Z) :=
  d ← rgpot_tensor_device p;
  q ← rgpot_tensor_data p;
  s ← rgpot_tensor_shape p cell;
  c ← view as_i32s cell;
  xs ← from_raw_parts as_i64s s (default 0 (head c));
  mret (d, q, xs).

Lemma inspect_spec `{!TensorRepr T} t p v cell x :
  T p v ∗ cell ↦ BI32s [x] ⊢
  wp t (inspect p cell) (fun r => <affine> ⌜r = (tv_device v, tv_data v, tv_shape v)⌝ ∗
    T p v ∗ cell ↦ BI32s [Z.of_nat (length (tv_shape v))]).
Proof.
  iIntros "[HT Hc]". iDestruct (tensor_open with "HT") as (m) "(%Hm & Hp & Hsh & Hclose)".
  destruct Hm as (Hdata & _ & Hdev & Hndim). unfold inspect.
  iApply wp_bind. iApply wp_extern_C. wp_look "Hp". iApply wp_ret.
  iApply wp_bind. iApply wp_extern_C. wp_look "Hp". iApply wp_ret.
  iApply wp_bind. iApply wp_extern_C. wp_look "Hp". wp_look "Hc".
  iApply wp_bind. iApply (wp_store with "Hc"). iIntros "Hc". iApply wp_ret.
  wp_look "Hc". simpl. rewrite Hndim.
  iApply wp_bind. iApply (wp_from_raw_parts with "Hsh"); [done | lia |]. iIntros "Hsh".
  iApply wp_ret. rewrite Nat2Z.id firstn_all Hdata Hdev. iSplitR; [done|]. iFrame "Hc".
  iApply ("Hclose" with "Hp Hsh").
Qed.

(** Life cycle of a borrowed tensor.  Whatever pointer the caller passes as data (it is
    never read, it may even be NULL or dangling), creating a tensor, inspecting it through
    the three C accessors and freeing it succeeds; the accessors report the CPU, the
    caller's own pointer (no copy) and the requested shape; and the store afterwards is the
    store before, up to the dimension count written to the caller's cell: nothing leaks and
    the caller's array is untouched. *)
Theorem borrowed_tensor_life_cycle (t : thread_id) (data cell : ptr) (c : BorrowCall)
    (x : Z) (σ : Mem) (Hc : borrow_typed c = true) (Hwf : wf_mem σ)
    (Hcell : mem_map σ !! LHeap cell = Some (BI32s [x])) :
  exists σ', (p ← borrow data c; r ← inspect p cell; rgpot_tensor_free p;; mret r) t σ =
      Done (cpu_device, data, tv_shape (borrow_view data c)) σ' /\
    mem_map σ' =
      <[LHeap cell := BI32s [Z.of_nat (length (tv_shape (borrow_view data c)))]]> (mem_map σ).
Proof.
  destruct (wp_run_pointsto t (p ← borrow data c; r ← inspect p cell; rgpot_tensor_free p;; mret r)
    cell (BI32s [x]) (BI32s [Z.of_nat (length (tv_shape (borrow_view data c)))])
    (fun r => r = (cpu_device, data, tv_shape (borrow_view data c))) σ)
    as (r & σ' & Hrun & _ & Hm & ->); [|done..|by exists σ'].
  iIntros "Hcell". iApply (wp_seq with "[]"); [by apply (borrow_spec t data c) | done |].
  iIntros (p) "Hp". iApply (wp_seq with "[Hp Hcell]"); [apply (inspect_spec (T:=borrowed_tensor)) | iFrame |].
  iIntros (r) "(-> & Hp & Hcell)".
  wp_call (tensor_free (T:=borrowed_tensor)) "Hp".
  iIntros (_) "_". iApply wp_ret. iFrame. by destruct c.
Qed.

(** ** Handles dangle after the free *)

Lemma tensor_header `{!TensorRepr T} p v h :
  T p v h -> is_Some (h !! LHeap p).
Proof.
  intros HT. apply (holds_mono _ _ _ (tensor_open p v)) in HT.
  destruct HT as (m & h1 & h2 & -> & _ & [-> _] & h3 & h4 & -> & _ & [_ ->] & _).
  rewrite left_id_L. exists (BManaged m). apply lookup_union_Some_l, lookup_singleton_eq.
Qed.

Lemma view_dangling {A} (f : Block -> option A) p t σ :
  is_null p = false -> mem_map σ !! LHeap p = None -> view f p t σ = Undefined DanglingPointer.
Proof. intros Hn Hp. unfold view, load, mbind, M_bind, load_loc. by rewrite Hn Hp. Qed.

(** A tensor handle is dead after [rgpot_tensor_free]: the header is gone, so a second
    free and every accessor is a use after free.  (Freeing is not idempotent, and the
    crate does not promise it to be.) *)
Theorem freed_tensor_is_dangling (t : thread_id) (data cell : ptr) (c : BorrowCall) (σ : Mem)
    (Hc : borrow_typed c = true) (Hwf : wf_mem σ) :
  exists p σ', (p ← borrow data c; rgpot_tensor_free p;; mret p) t σ = Done p σ' /\
    rgpot_tensor_free p t σ' = Undefined DanglingPointer /\
    rgpot_tensor_device p t σ' = Undefined DanglingPointer /\
    rgpot_tensor_data p t σ' = Undefined DanglingPointer /\
    rgpot_tensor_shape p cell t σ' = Undefined DanglingPointer.
Proof.
  destruct (wp_run t (borrow data c) _ _ σ ∅ (mem_map σ) (borrow_spec t data c Hc))
    as (p & σ1 & h & Hrun & Hwf1 & Hm & Hd & Hp);
    [done | done | by rewrite left_id_L | apply map_disjoint_empty_l |].
  destruct (wp_run t (rgpot_tensor_free p) _ _ σ1 h (mem_map σ) (tensor_free t p _) Hp)
    as ([] & σ2 & h2 & Hfree & Hwf2 & Hm2 & _ & ->); [done.. |].
  destruct (tensor_header p _ h Hp) as [b Hb]. rewrite left_id_L in Hm2.
  assert (mem_map σ2 !! LHeap p = None) as Hnone.
  { rewrite Hm2. by eapply map_disjoint_Some_r. }
  assert (is_null p = false) as Hn.
  { apply is_null_false. destruct Hwf1 as [_ Hwf1].
    destruct (Hwf1 p b) as [? _]; [|unfold null; lia]. rewrite Hm.
    by apply lookup_union_Some_l. }
  exists p, σ2. split; [by rewrite /mbind /M_bind Hrun Hfree|].
  unfold rgpot_tensor_free, rgpot_tensor_device, rgpot_tensor_data, rgpot_tensor_shape,
    extern_C, mbind, M_bind. by rewrite Hn !view_dangling.
Qed.

(** ** The owned constructor *)

(** The C caller copies its array into a tensor, overwrites the array, reads the tensor. *)
Definition copy_then_overwrite (data : ptr) (rows cols : Z) (ys : list f64) : M (list f64) :=
  p ← rgpot_tensor_owned_cpu_f64_2d data rows cols;
  store data (BF64s ys);;
  q ← rgpot_tensor_data p;
  zs ← from_raw_parts as_f64s q (rows * cols);
  rgpot_tensor_free p;;
  mret zs.

(** C33: [rgpot_tensor_owned_cpu_f64_2d] makes an independent copy: after the caller
    overwrites its array, the tensor still holds the first [rows * cols] original values;
    and freeing the tensor releases the copy, so that the caller's array is the only
    change left in the store. *)
Theorem owned_tensor_is_a_copy (t : thread_id) (data : ptr) (rows cols : Z)
    (xs ys : list f64) (σ : Mem) (Hcols : is_i64 cols = true)
    (Hprod : is_i64 (rows * cols) = true) (Hlen : 0 <= rows * cols <= Z.of_nat (length xs))
    (Hwf : wf_mem σ) (Hdata : mem_map σ !! LHeap data = Some (BF64s xs)) :
  exists σ', copy_then_overwrite data rows cols ys t σ =
      Done (take (Z.to_nat (rows * cols)) xs) σ' /\
    mem_map σ' = <[LHeap data := BF64s ys]> (mem_map σ).
Proof.
  destruct (wp_run_pointsto t (copy_then_overwrite data rows cols ys) data (BF64s xs) (BF64s ys)
    (fun zs => zs = take (Z.to_nat (rows * cols)) xs) σ)
    as (r & σ' & Hrun & _ & Hm & ->); [|done..|by exists σ'].
  iIntros "Hdata".
  iApply (wp_seq with "Hdata"); [by apply (rgpot_tensor_owned_cpu_f64_2d_spec t data xs rows cols)|].
  iIntros (p) "(Hdata & %copy & HT)".
  iApply wp_bind. iApply (wp_store with "Hdata"). iIntros "Hdata".
  iDestruct (tensor_open (T:=owned_f64_tensor _) with "HT") as (m) "(%Hm & Hp & Hsh & Hclose)".
  destruct Hm as (Hd & _). iApply wp_bind. iApply wp_extern_C. wp_look "Hp". iApply wp_ret. rewrite Hd.
  iDestruct ("Hclose" with "Hp Hsh") as "HT".
  iDestruct (owned_f64_tensor_data with "HT") as "[Hc Hclose]".
  iApply wp_bind. iApply (wp_from_raw_parts with "Hc"); [done | |].
  { rewrite length_take. lia. }
  iIntros "Hc". iDestruct ("Hclose" with "Hc") as "HT".
  wp_call (tensor_free (T:=owned_f64_tensor _)) "HT".
  iIntros (_) "_". iApply wp_ret. iFrame "Hdata". iPureIntro. by rewrite take_take Nat.min_id.
Qed.

Lemma owned_f64_tensor_blocks xs p v h :
  owned_f64_tensor xs p v h ->
  exists m, h !! LHeap p = Some (BManaged m) /\ shows m v /\ h !! LHeap (tv_data v) = Some (BF64s xs).
Proof.
  intros HT. pose proof (holds_mono _ _ _ (owned_f64_tensor_data xs p v) HT) as Hd.
  destruct Hd as (h1 & h2 & -> & _ & [_ ->] & _).
  apply (holds_mono _ _ _ (tensor_open (T:=owned_f64_tensor xs) p v)) in HT.
  destruct HT as (m & h3 & h4 & Hh & _ & [-> Hm] & h5 & h6 & -> & _ & [_ ->] & _).
  exists m. rewrite Hh left_id_L. split_and!; [|done|].
  - apply lookup_union_Some_l, lookup_singleton_eq.
  - rewrite left_id_L in Hh. rewrite -Hh. apply lookup_union_Some_l, lookup_singleton_eq.
Qed.

Lemma mul_i64_unchecked t a b :
  overflow_checks = false -> is_i64 (a * b) = false ->
  forall σ, mul_i64 a b t σ = Done (as_i64 (a * b)) σ.
Proof. intros E Hab σ. unfold mul_i64. by rewrite Hab E. Qed.

(** C40: Overflow of the element count in [rgpot_tensor_owned_cpu_f64_2d].  In a build with
    overflow checks the multiplication panics, and because this entry point has no panic
    guard the process aborts.  In a build without them the count wraps around: the call
    succeeds, copies only the wrapped number of elements, and yields a tensor whose shape
    claims all of [rows * cols]. *)
Theorem owned_tensor_overflow (t : thread_id) (data : ptr) (rows cols : Z) (xs : list f64)
    (σ : Mem) (Hcols : is_i64 cols = true) (Hover : is_i64 (rows * cols) = false)
    (Hlen : as_usize (as_i64 (rows * cols)) <= Z.of_nat (length xs))
    (Hwf : wf_mem σ) (Hdata : mem_map σ !! LHeap data = Some (BF64s xs)) :
  if overflow_checks then rgpot_tensor_owned_cpu_f64_2d data rows cols t σ = Aborted mul_overflow
  else exists p q m σ', rgpot_tensor_owned_cpu_f64_2d data rows cols t σ = Done p σ' /\
    mem_map σ' !! LHeap p = Some (BManaged m) /\
    shows m (MkView q dtype_f64 cpu_device [rows; cols]) /\
    mem_map σ' !! LHeap q = Some (BF64s (take (Z.to_nat (as_usize (as_i64 (rows * cols)))) xs)).
Proof.
  destruct overflow_checks eqn:E.
  { unfold rgpot_tensor_owned_cpu_f64_2d, extern_C, mbind, M_bind, mul_i64. by rewrite Hover E. }
  destruct (wp_run t (rgpot_tensor_owned_cpu_f64_2d data rows cols) (data ↦ BF64s xs) _ σ
    {[LHeap data := BF64s xs]} (delete (LHeap data) (mem_map σ))
    (rgpot_tensor_owned_cpu_f64_2d_count t data xs rows cols (as_i64 (rows * cols)) Hcols
       (mul_i64_unchecked t rows cols E Hover) Hlen))
    as (p & σ' & h & Hrun & _ & Hm & _ & HΦ).
  - split; [|done]. destruct Hwf as [_ Hwf]. apply Hwf in Hdata. unfold null. lia.
  - done.
  - by rewrite -insert_union_singleton_l insert_delete_id.
  - apply map_disjoint_singleton_l, lookup_delete_eq.
  - destruct HΦ as (h1 & h2 & -> & Hd & _ & copy & HT).
    destruct (owned_f64_tensor_blocks _ _ _ _ HT) as (m & Hp & Hs & Hq).
    exists p, copy, m, σ'. split; [done|]. rewrite Hm.
    split_and!; [|done|]; apply lookup_union_Some_l; by rewrite lookup_union_r //;
      eapply map_disjoint_Some_r.
Qed.

(** ** Validation *)

(** A possibly NULL tensor handle, and what a reader may know about it. *)
Definition handle (T : ptr -> TensorView -> mProp) (p : ptr) (v : option TensorView) : mProp :=
  match v with Some v => T p v | None => <affine> ⌜p = null⌝ end.

Definition rank_text (shape : list Z) : string := show (Z.of_nat (length shape)).

(** The reference verdicts, by cases on the shape. *)
Definition positions_verdict (v : option TensorView) : Result Z string :=
  match v with
  | None => Err "positions tensor is NULL"
  | Some v =>
      if decide (tv_dtype v = dtype_f64) then
        match tv_shape v with
        | [n; 3] => Ok (as_usize n)
        | [_; c] => Err ("positions: expected shape[1]=3, got " +:+ show c)
        | shape => Err ("positions: expected ndim=2, got " +:+ rank_text shape)
        end
      else Err ("positions: expected f64, got " +:+ debug_dtype (tv_dtype v))
  end%string.

Definition atomic_numbers_verdict (expected_n : Z) (v : option TensorView) :
    Result unit string :=
  match v with
  | None => Err "atomic_numbers tensor is NULL"
  | Some v =>
      if decide (tv_dtype v = dtype_i32) then
        match tv_shape v with
        | [n] => if decide (as_usize n = expected_n) then Ok tt
                 else Err ("atomic_numbers: expected len=" +:+ show expected_n +:+ ", got "
                           +:+ show n)
        | shape => Err ("atomic_numbers: expected ndim=1, got " +:+ rank_text shape)
        end
      else Err ("atomic_numbers: expected i32, got " +:+ debug_dtype (tv_dtype v))
  end%string.

Definition box_matrix_verdict (v : option TensorView) : Result unit string :=
  match v with
  | None => Err "box_matrix tensor is NULL"
  | Some v =>
      if decide (tv_dtype v = dtype_f64) then
        match tv_shape v with
        | [3; 3] => Ok tt
        | [r; c] => Err ("box_matrix: expected shape=[3,3], got [" +:+ show r +:+ ","
                         +:+ show c +:+ "]")
        | shape => Err ("box_matrix: expected ndim=2, got " +:+ rank_text shape)
        end
      else Err ("box_matrix: expected f64, got " +:+ debug_dtype (tv_dtype v))
  end%string.

Lemma rank_eqb (shape : list Z) (k : nat) :
  (Z.of_nat (length shape) =? Z.of_nat k) = bool_decide (length shape = k).
Proof. case_bool_decide; [apply Z.eqb_eq | apply Z.eqb_neq]; lia. Qed.

(** A validator is specified by what it answers on a tensor's header and shape array. *)
Lemma validator_spec `{!TensorRepr T} {A} t p v (x : M A) (r : A) :
  (forall m, shows m v ->
     p ↦ BManaged m ∗ dl_shape (dl_tensor m) ↦ BI64s (tv_shape v) ⊢
     wp t x (fun r' => <affine> ⌜r' = r⌝ ∗ p ↦ BManaged m ∗
               dl_shape (dl_tensor m) ↦ BI64s (tv_shape v))) ->
  T p v ⊢ wp t x (fun r' => <affine> ⌜r' = r⌝ ∗ T p v).
Proof.
  iIntros (Hx) "HT". iDestruct (tensor_open with "HT") as (m) "(%Hm & Hp & Hsh & Hclose)".
  iApply (wp_use with "[Hp Hsh]"); [by apply Hx | iFrame |].
  iIntros (r') "(-> & Hp & Hsh)". iSplitR; [done|]. iApply ("Hclose" with "Hp Hsh").
Qed.

(** Enter a validator on an opened tensor, up to its first test. *)
Ltac enter_validator m :=
  intros m (Hdata & Hdt & Hdev & Hnd); iIntros "[Hp Hsh]";
  unfold validate_positions, validate_atomic_numbers, validate_box_matrix;
  iDestruct (is_null_pointsto with "Hp") as %->;
  iApply wp_bind; iApply (wp_view with "Hp"); [done|]; iIntros "Hp";
  rewrite Hdt Hnd.

Lemma validate_positions_spec `{!TensorRepr T} t p v :
  T p v ⊢ wp t (validate_positions p)
    (fun r => <affine> ⌜r = positions_verdict (Some v)⌝ ∗ T p v).
Proof.
  cbn [positions_verdict].
  apply validator_spec. enter_validator m. case_bool_decide as Hd.
  { iApply wp_ret. rewrite decide_False //. by iFrame. }
  rewrite decide_True // (rank_eqb _ 2).
  case_bool_decide as Hr; cbn [negb].
  2:{ iApply wp_ret. iFrame. iPureIntro. unfold rank_text. revert Hr.
      destruct (tv_shape v) as [|? [|[|[[]|[]|]|] [|]]]; intros Hr; try done; by destruct Hr. }
  revert Hr. destruct (tv_shape v) as [|n [|c [|]]]; intros Hr; try done.
  iApply wp_bind. iApply (wp_from_raw_parts with "Hsh"); [done | done |]. iIntros "Hsh".
  iApply wp_bind. iApply wp_done; [done|].
  destruct (Z.eqb_spec c 3) as [->|Hc]; cbn [negb].
  - iApply wp_bind. iApply wp_done; [done|]. iApply wp_ret. by iFrame.
  - iApply wp_ret. iFrame. iPureIntro.
    destruct c as [|[[]|[]|]|]; done.
Qed.

(** [validate_positions] on every handle: NULL is refused, and any tensor is accepted
    exactly when its type is [f64] and its shape is [[n, 3]], with [n] as the answer;
    otherwise the first failing test gives the error text.  The tensor is left alone. *)
Theorem validate_positions_verdict `{HT : !TensorRepr T} (t : thread_id) (p : ptr)
    (v : option TensorView) :
  handle T p v ⊢ wp t (validate_positions p)
    (fun r => <affine> ⌜r = positions_verdict v⌝ ∗ handle T p v).
Proof.
  destruct v as [v|]; [apply: (validate_positions_spec (T:=T)) | iIntros (->); by iApply wp_ret].
Qed.

Lemma validate_atomic_numbers_spec `{!TensorRepr T} t p v expected_n :
  T p v ⊢ wp t (validate_atomic_numbers p expected_n)
    (fun r => <affine> ⌜r = atomic_numbers_verdict expected_n (Some v)⌝ ∗ T p v).
Proof.
  cbn [atomic_numbers_verdict].
  apply validator_spec. enter_validator m. case_bool_decide as Hd.
  { iApply wp_ret. rewrite decide_False //. by iFrame. }
  rewrite decide_True // (rank_eqb _ 1).
  case_bool_decide as Hr; cbn [negb].
  2:{ iApply wp_ret. iFrame. iPureIntro. unfold rank_text. revert Hr.
      destruct (tv_shape v) as [|? [|]]; intros Hr; try done; by destruct Hr. }
  revert Hr. destruct (tv_shape v) as [|n [|]]; intros Hr; try done.
  iApply wp_bind. iApply (wp_from_raw_parts with "Hsh"); [done | done |]. iIntros "Hsh".
  iApply wp_bind. iApply wp_done; [done|].
  destruct (Z.eqb_spec (as_usize n) expected_n) as [Hn|Hn]; cbn [negb];
    iApply wp_ret; iFrame; [by rewrite decide_True | by rewrite decide_False].
Qed.

(** [validate_atomic_numbers] accepts exactly the one-dimensional [i32] tensors whose
    length, read as an unsigned number, is the expected atom count. *)
Theorem validate_atomic_numbers_verdict `{HT : !TensorRepr T} (t : thread_id) (p : ptr)
    (expected_n : Z) (v : option TensorView) :
  handle T p v ⊢ wp t (validate_atomic_numbers p expected_n)
    (fun r => <affine> ⌜r = atomic_numbers_verdict expected_n v⌝ ∗ handle T p v).
Proof.
  destruct v as [v|]; [apply: (validate_atomic_numbers_spec (T:=T)) | iIntros (->); by iApply wp_ret].
Qed.

Lemma validate_box_matrix_spec `{!TensorRepr T} t p v :
  T p v ⊢ wp t (validate_box_matrix p)
    (fun r => <affine> ⌜r = box_matrix_verdict (Some v)⌝ ∗ T p v).
Proof.
  cbn [box_matrix_verdict].
  apply validator_spec. enter_validator m. case_bool_decide as Hd.
  { iApply wp_ret. rewrite decide_False //. by iFrame. }
  rewrite decide_True // (rank_eqb _ 2).
  case_bool_decide as Hr; cbn [negb].
  2:{ iApply wp_ret. iFrame. iPureIntro. unfold rank_text. revert Hr.
      destruct (tv_shape v) as [|[|[[]|[]|]|] [|[|[[]|[]|]|] [|]]]; intros Hr; try done; by destruct Hr. }
  revert Hr. destruct (tv_shape v) as [|r [|c [|]]]; intros Hr; try done.
  iApply wp_bind. iApply (wp_from_raw_parts with "Hsh"); [done | done |]. iIntros "Hsh".
  iApply wp_bind. iApply wp_done; [done|]. iApply wp_bind. iApply wp_done; [done|].
  destruct (Z.eqb_spec r 3) as [->|Hr']; [destruct (Z.eqb_spec c 3) as [->|Hc]|];
    cbn [negb orb]; iApply wp_ret; iFrame; iPureIntro; [done | |].
  - destruct c as [|[[]|[]|]|]; done.
  - destruct r as [|[[]|[]|]|]; done.
Qed.

(** [validate_box_matrix] accepts exactly the [f64] tensors of shape [[3, 3]]. *)
Theorem validate_box_matrix_verdict `{HT : !TensorRepr T} (t : thread_id) (p : ptr)
    (v : option TensorView) :
  handle T p v ⊢ wp t (validate_box_matrix p)
    (fun r => <affine> ⌜r = box_matrix_verdict v⌝ ∗ handle T p v).
Proof.
  destruct v as [v|]; [apply: (validate_box_matrix_spec (T:=T)) | iIntros (->); by iApply wp_ret].
Qed.
End theorems.

(** ** Concrete instances of the theorems *)

Definition one_cell : Mem := with_objects initial_mem [BI32s [0]].
Definition six_values : Mem := with_objects initial_mem [BF64s [1; 2; 3; 4; 5; 6]].

Lemma strides_number_the_cells_witness :
  exists v σ' strides,
    compute_row_major_strides (profile:=debug_profile) [2; 3] 0%N initial_mem = Done v σ' /\
    mem_map σ' !! LHeap (vec_ptr v) = Some (BI64s strides) /\
    (forall idx, in_bounds idx [2; 3] -> 0 <= offset idx strides < cells [2; 3]) /\
    (forall k, 0 <= k < cells [2; 3] ->
       exists! idx, in_bounds idx [2; 3] /\ offset idx strides = k).
Proof.
  apply (strides_number_the_cells (profile:=debug_profile) [2; 3] 0%N initial_mem);
    [by repeat constructor | done].
Defined.

Lemma borrowed_tensor_life_cycle_witness :
  exists σ', (p ← borrow (profile:=debug_profile) 7%N (Cpu_f64_2d 5 3); r ← inspect p 1%N;
      rgpot_tensor_free (ccode:=no_c_code) p;; mret r) 0%N one_cell =
      Done (cpu_device, 7%N, [5; 3]) σ' /\
    mem_map σ' = <[LHeap 1%N := BI32s [2]]> (mem_map one_cell).
Proof.
  apply (borrowed_tensor_life_cycle (profile:=debug_profile) (ccode:=no_c_code)
    0%N 7%N 1%N (Cpu_f64_2d 5 3) 0 one_cell); [done | apply objects_wf | done].
Defined.

Lemma freed_tensor_is_dangling_witness :
  exists p σ', (p ← borrow (profile:=debug_profile) 7%N (Cpu_i32_1d 4);
      rgpot_tensor_free (ccode:=no_c_code) p;; mret p) 0%N one_cell = Done p σ' /\
    rgpot_tensor_free (ccode:=no_c_code) p 0%N σ' = Undefined DanglingPointer /\
    rgpot_tensor_device p 0%N σ' = Undefined DanglingPointer /\
    rgpot_tensor_data p 0%N σ' = Undefined DanglingPointer /\
    rgpot_tensor_shape p 1%N 0%N σ' = Undefined DanglingPointer.
Proof.
  apply (freed_tensor_is_dangling (profile:=debug_profile) (ccode:=no_c_code)
    0%N 7%N 1%N (Cpu_i32_1d 4) one_cell); [done | apply objects_wf].
Defined.

Lemma owned_tensor_is_a_copy_witness :
  exists σ', copy_then_overwrite (profile:=debug_profile) (dlpack:=dlpack_header)
      (ccode:=no_c_code) 1%N 2 3 [0; 0] 0%N six_values = Done [1; 2; 3; 4; 5; 6] σ' /\
    mem_map σ' = <[LHeap 1%N := BF64s [0; 0]]> (mem_map six_values).
Proof.
  apply (owned_tensor_is_a_copy (profile:=debug_profile) (dlpack:=dlpack_header)
    (ccode:=no_c_code) 0%N 1%N 2 3 [1; 2; 3; 4; 5; 6] [0; 0] six_values); [done | done | done | apply objects_wf | done].
Defined.

(** [2^32 * 2^32] elements: the release build copies none of them. *)
Lemma owned_tensor_overflow_witness :
  exists p q m σ', rgpot_tensor_owned_cpu_f64_2d (profile:=release_profile) (dlpack:=dlpack_header)
      1%N (2 ^ 32) (2 ^ 32) 0%N six_values = Done p σ' /\
    mem_map σ' !! LHeap p = Some (BManaged m) /\
    shows m (MkView q dtype_f64 cpu_device [2 ^ 32; 2 ^ 32]) /\
    mem_map σ' !! LHeap q = Some (BF64s []).
Proof.
  apply (owned_tensor_overflow (profile:=release_profile) (dlpack:=dlpack_header)
    (ccode:=no_c_code) 0%N 1%N (2 ^ 32) (2 ^ 32) [1; 2; 3; 4; 5; 6] six_values);
    [done | done | done | apply objects_wf | done].
Defined.

Lemma validate_positions_verdict_witness :
  borrowed_tensor 5%N (MkView 9%N dtype_f64 cpu_device [4; 2]) ⊢
  wp 0%N (validate_positions (dlpack:=dlpack_header) 5%N) (fun r =>
    <affine> ⌜r = Err "positions: expected shape[1]=3, got 2"%string⌝ ∗
    borrowed_tensor 5%N (MkView 9%N dtype_f64 cpu_device [4; 2])).
Proof.
  exact (validate_positions_verdict (dlpack:=dlpack_header) (ccode:=no_c_code)
    (T:=borrowed_tensor) 0%N 5%N
    (Some (MkView 9%N dtype_f64 cpu_device [4; 2]))).
Defined.

Lemma validate_atomic_numbers_verdict_witness :
  borrowed_tensor 5%N (MkView 9%N dtype_i32 cpu_device [4]) ⊢
  wp 0%N (validate_atomic_numbers (dlpack:=dlpack_header) 5%N 3) (fun r =>
    <affine> ⌜r = Err "atomic_numbers: expected len=3, got 4"%string⌝ ∗
    borrowed_tensor 5%N (MkView 9%N dtype_i32 cpu_device [4])).
Proof.
  exact (validate_atomic_numbers_verdict (dlpack:=dlpack_header) (ccode:=no_c_code)
    (T:=borrowed_tensor) 0%N 5%N 3
    (Some (MkView 9%N dtype_i32 cpu_device [4]))).
Defined.

Lemma validate_box_matrix_verdict_witness :
  borrowed_tensor 5%N (MkView 9%N dtype_f64 cpu_device [3; 3]) ⊢
  wp 0%N (validate_box_matrix (dlpack:=dlpack_header) 5%N) (fun r =>
    <affine> ⌜r = Ok tt⌝ ∗ borrowed_tensor 5%N (MkView 9%N dtype_f64 cpu_device [3; 3])).
Proof.
  exact (validate_box_matrix_verdict (dlpack:=dlpack_header) (ccode:=no_c_code)
    (T:=borrowed_tensor) 0%N 5%N
    (Some (MkView 9%N dtype_f64 cpu_device [3; 3]))).
Defined.
