(* ===== verification/UnitTests.v ===== *)
(** * UnitTests: the crate's own unit tests as programs of the model

    Every [#[test]] of src/ and the callbacks they register, translated line by line and
    evaluated: the model passes the tests that the code is tested with.  Local arrays and
    structs live in the store for the duration of the test, statics at fixed addresses. *)
From S2P Require Import Prelude Machine Objects Memory Status Strides Tensor ForceTypes.
From S2P Require Import Potential RpcEnv Environment.
Open Scope Z_scope.

(** ** Floating point literals *)

(** [n as f64] for an unsigned [n]: round to nearest, ties to even. *)
Definition usize_as_f64 (n : Z) : f64 :=
  if n =? 0 then f64_zero
  else
    let e := Z.log2 n in
    let mantissa :=
      if e <=? 52 then Z.shiftl n (52 - e)
      else
        let s := e - 52 in
        let q := Z.shiftr n s in
        let r := n - Z.shiftl q s in
        let half := Z.shiftl 1 (s - 1) in
        if (half <? r) || ((half =? r) && Z.odd q) then q + 1 else q in
    Z.shiftl (1023 + e) 52 + (mantissa - 2 ^ 52).

(** Negation and division by two (of normal numbers) on the bit pattern. *)
Definition f64_neg (x : f64) : f64 := Z.lxor x (2 ^ 63).
Definition f64_half (x : f64) : f64 := x - 2 ^ 52.

Definition f64s (xs : list Z) : list f64 := usize_as_f64 <$> xs.

Example one_point_zero : usize_as_f64 1 = 4607182418800017408. Proof. reflexivity. Qed.
Example minus_three : f64_neg (usize_as_f64 3) = 13837309855095848960. Proof. reflexivity. Qed.

(** ** Assertions and locals *)

Definition assert_that (b : bool) : M unit :=
  if b then mret tt else panic (PanicString "assertion failed").
Definition assert_eq {A} `{!EqDecision A} (x y : A) : M unit := assert_that (bool_decide (x = y)).

(** Bind a local object for the duration of [k]. *)
Definition with_local {A} (b : Block) (k : ptr -> M A) : M A :=
  p ← alloc b; r ← k p; dealloc p;; mret r.

Definition read_f64s (p : ptr) (n : Z) : M (list f64) := from_raw_parts as_f64s p n.
Definition read_i32s (p : ptr) (n : Z) : M (list Z) := from_raw_parts as_i32s p n.
Definition read_i64s (p : ptr) (n : Z) : M (list Z) := from_raw_parts as_i64s p n.
Definition as_foreign (b : Block) : option Z := if b is BForeign v then Some v else None.

(** The statics of the test modules. *)
Definition DROP_CALLED : ptr := 1%N.
Definition FREE_CALLED : ptr := 2%N.
Definition CALL_COUNT : ptr := 3%N.
Definition test_mem : Mem := with_objects initial_mem [BForeign 0; BForeign 0; BForeign 0].

Section tests.
  Context {profile : Target}.

#[local] Instance test_dlpack : Dlpack := dlpack_header.

(** ** The callbacks of the tests *)

(** [mock_callback] of potential.rs. *)
Definition mock_callback (input output : ptr) : M rgpot_status_t :=
  inp ← view as_force_input input;
  on ← n_atoms inp;
  let n := default 0 on in
  o ← view as_force_out output;
  store output (BForceOut (MkForceOut (forces o) (usize_as_f64 n) f64_zero));;
  n3 ← mul_usize n 3;
  data ← vec_new BF64s (replicate (Z.to_nat n3) f64_zero);
  shape ← vec_new BI64s [as_i64 n; 3];
  f ← create_owned_f64_tensor data shape;
  o ← view as_force_out output;
  store output (BForceOut (MkForceOut f (energy o) (variance o)));;
  mret RGPOT_SUCCESS.

(** [sum_callback] of c_api/potential.rs: the same as [mock_callback] of potential.rs. *)
Definition sum_callback (input output : ptr) : M rgpot_status_t :=
  inp ← view as_force_input input;
  on ← n_atoms inp;
  let n := default 0 on in
  o ← view as_force_out output;
  store output (BForceOut (MkForceOut (forces o) (usize_as_f64 n) f64_zero));;
  n3 ← mul_usize n 3;
  data ← vec_new BF64s (replicate (Z.to_nat n3) f64_zero);
  shape ← vec_new BI64s [as_i64 n; 3];
  f ← create_owned_f64_tensor data shape;
  o ← view as_force_out output;
  store output (BForceOut (MkForceOut f (energy o) (variance o)));;
  mret RGPOT_SUCCESS.

Definition error_callback : M rgpot_status_t := mret RGPOT_INVALID_PARAMETER.

Definition writing_callback (input output : ptr) : M rgpot_status_t :=
  inp ← view as_force_input input;
  on ← n_atoms inp;
  let n := default 0 on in
  n3 ← mul_usize n 3;
  data ← vec_new BF64s (f64s (seqZ 1 n3));
  shape ← vec_new BI64s [as_i64 n; 3];
  f ← create_owned_f64_tensor data shape;
  store output (BForceOut (MkForceOut f (f64_neg (usize_as_f64 42)) (f64_half (usize_as_f64 1))));;
  mret RGPOT_SUCCESS.

(** [count_cb] of potential.rs and [counting_callback] of c_api/potential.rs. *)
Definition counting_callback (user_data output : ptr) : M rgpot_status_t :=
  c ← view as_foreign user_data;
  store user_data (BForeign (c + 1));;
  c ← view as_foreign user_data;
  o ← view as_force_out output;
  store output (BForceOut (MkForceOut (forces o) (usize_as_f64 c) (variance o)));;
  mret RGPOT_SUCCESS.

Definition failing_callback : M rgpot_status_t :=
  set_last_error "deliberately failed";; mret RGPOT_INTERNAL_ERROR.

Definition track_drop (p : ptr) : M unit :=
  store DROP_CALLED (BForeign 1);;
  val ← view as_foreign p;
  assert_eq val 3735928559.

Definition track_free (p : ptr) : M unit := store FREE_CALLED (BForeign 1).

Definition MOCK : fnptr := 1%N.
Definition ERROR : fnptr := 2%N.
Definition WRITING : fnptr := 3%N.
Definition COUNTING : fnptr := 4%N.
Definition FAILING : fnptr := 5%N.
Definition TRACK_DROP : fnptr := 6%N.
Definition TRACK_FREE : fnptr := 7%N.
Definition SUM : fnptr := 8%N.

#[local] Instance test_c_code : CCode := {|
  c_callback f user_data input output :=
    if decide (f = MOCK) then mock_callback input output
    else if decide (f = ERROR) then error_callback
    else if decide (f = WRITING) then writing_callback input output
    else if decide (f = COUNTING) then counting_callback user_data output
    else if decide (f = FAILING) then failing_callback
    else if decide (f = SUM) then sum_callback input output
    else undefined WrongObject;
  c_free_fn f p :=
    if decide (f = TRACK_DROP) then track_drop p
    else if decide (f = TRACK_FREE) then track_free p
    else undefined WrongObject;
  c_deleter _ _ := undefined WrongObject;
|}.

(** ** tensor.rs *)

Definition borrowed_f64_2d_has_correct_metadata : M unit :=
  with_local (BF64s (f64s [1; 2; 3; 4; 5; 6])) (fun data =>
    tensor ← rgpot_tensor_cpu_f64_2d data 2 3;
    assert_that (negb (is_null tensor));;
    t ← view as_managed tensor;
    assert_eq (dl_device (dl_tensor t)) cpu_device;;
    assert_eq (dl_dtype (dl_tensor t)) dtype_f64;;
    assert_eq (dl_ndim (dl_tensor t)) 2;;
    shape ← read_i64s (dl_shape (dl_tensor t)) 2;
    assert_eq shape [2; 3];;
    strides ← read_i64s (dl_strides (dl_tensor t)) 2;
    assert_eq strides [3; 1];;
    assert_eq (dl_byte_offset (dl_tensor t)) 0;;
    assert_eq (dl_data (dl_tensor t)) data;;
    rgpot_tensor_free tensor;;
    xs ← read_f64s data 6;
    assert_eq (head xs) (Some (usize_as_f64 1))).

Definition borrowed_i32_1d_has_correct_metadata : M unit :=
  with_local (BI32s [6; 1; 8]) (fun data =>
    tensor ← rgpot_tensor_cpu_i32_1d data 3;
    assert_that (negb (is_null tensor));;
    t ← view as_managed tensor;
    assert_eq (dl_dtype (dl_tensor t)) dtype_i32;;
    assert_eq (dl_ndim (dl_tensor t)) 1;;
    shape ← read_i64s (dl_shape (dl_tensor t)) 1;
    assert_eq shape [3];;
    rgpot_tensor_free tensor;;
    xs ← read_i32s data 3;
    assert_eq (xs !! 2%nat) (Some 8)).

Definition borrowed_matrix3_is_3x3 : M unit :=
  with_local (BF64s (replicate 9 f64_zero)) (fun data =>
    tensor ← rgpot_tensor_cpu_f64_matrix3 data;
    t ← view as_managed tensor;
    assert_eq (dl_ndim (dl_tensor t)) 2;;
    shape ← read_i64s (dl_shape (dl_tensor t)) 2;
    assert_eq shape [3; 3];;
    rgpot_tensor_free tensor).

Definition owned_f64_tensor_survives_source_drop : M unit :=
  data ← vec_new BF64s (f64s [1; 2; 3; 4; 5; 6]);
  sh ← vec_new BI64s [2; 3];
  tensor ← create_owned_f64_tensor data sh;
  t ← view as_managed tensor;
  slice ← read_f64s (dl_data (dl_tensor t)) 6;
  assert_eq slice (f64s [1; 2; 3; 4; 5; 6]);;
  assert_that (negb (Z.land (flags t) DLPACK_FLAG_BITMASK_IS_COPIED =? 0));;
  rgpot_tensor_free tensor.

Definition owned_i32_tensor_survives_source_drop : M unit :=
  data ← vec_new BI32s [1; 8; 6];
  sh ← vec_new BI64s [3];
  tensor ← create_owned_i32_tensor data sh;
  t ← view as_managed tensor;
  slice ← read_i32s (dl_data (dl_tensor t)) 3;
  assert_eq slice [1; 8; 6];;
  rgpot_tensor_free tensor.

Definition owned_cpu_f64_2d_copies_data : M unit :=
  with_local (BF64s (f64s [10; 20; 30; 40; 50; 60])) (fun source =>
    tensor ← rgpot_tensor_owned_cpu_f64_2d source 2 3;
    t ← view as_managed tensor;
    assert_that (negb (bool_decide (dl_data (dl_tensor t) = source)));;
    slice ← read_f64s (dl_data (dl_tensor t)) 6;
    xs ← read_f64s source 6;
    assert_eq slice xs;;
    rgpot_tensor_free tensor).

Definition tensor_free_null_is_noop : M unit := rgpot_tensor_free null.

Definition device_accessor_returns_cpu : M unit :=
  with_local (BF64s (replicate 6 f64_zero)) (fun data =>
    tensor ← rgpot_tensor_cpu_f64_2d data 2 3;
    dev ← rgpot_tensor_device tensor;
    assert_eq (device_type dev) kDLCPU;;
    assert_eq (device_id dev) 0;;
    rgpot_tensor_free tensor).

Definition data_accessor_returns_correct_pointer : M unit :=
  with_local (BF64s (replicate 3 (usize_as_f64 42))) (fun data =>
    tensor ← rgpot_tensor_cpu_f64_2d data 1 3;
    p ← rgpot_tensor_data tensor;
    assert_eq p data;;
    rgpot_tensor_free tensor).

Definition shape_accessor_returns_correct_values : M unit :=
  with_local (BF64s (replicate 12 f64_zero)) (fun data =>
  with_local (BI32s [0]) (fun ndim_cell =>
    tensor ← rgpot_tensor_cpu_f64_2d data 4 3;
    shape_ptr ← rgpot_tensor_shape tensor ndim_cell;
    c ← read_i32s ndim_cell 1;
    let ndim := default 0 (head c) in
    assert_eq ndim 2;;
    shape ← read_i64s shape_ptr (as_usize ndim);
    assert_eq shape [4; 3];;
    rgpot_tensor_free tensor)).

Definition validate_positions_ok : M unit :=
  with_local (BF64s (replicate 6 f64_zero)) (fun data =>
    tensor ← rgpot_tensor_cpu_f64_2d data 2 3;
    r ← validate_positions tensor;
    assert_that (match r with Ok n => n =? 2 | Err _ => false end);;
    rgpot_tensor_free tensor).

Definition validate_positions_null : M unit :=
  r ← validate_positions null;
  assert_that (is_err r).

Definition validate_positions_wrong_shape : M unit :=
  with_local (BF64s (replicate 8 f64_zero)) (fun data =>
    tensor ← rgpot_tensor_cpu_f64_2d data 2 4;
    r ← validate_positions tensor;
    assert_that (is_err r);;
    rgpot_tensor_free tensor).

Definition validate_positions_wrong_dtype : M unit :=
  with_local (BI32s (replicate 6 0)) (fun data =>
    tensor ← rgpot_tensor_cpu_i32_1d data 6;
    r ← validate_positions tensor;
    assert_that (is_err r);;
    rgpot_tensor_free tensor).

Definition validate_atomic_numbers_ok : M unit :=
  with_local (BI32s [1; 8]) (fun data =>
    tensor ← rgpot_tensor_cpu_i32_1d data 2;
    r ← validate_atomic_numbers tensor 2;
    assert_that (is_ok r);;
    rgpot_tensor_free tensor).

Definition validate_atomic_numbers_wrong_count : M unit :=
  with_local (BI32s [1; 8]) (fun data =>
    tensor ← rgpot_tensor_cpu_i32_1d data 2;
    r ← validate_atomic_numbers tensor 3;
    assert_that (is_err r);;
    rgpot_tensor_free tensor).

Definition validate_box_matrix_ok : M unit :=
  with_local (BF64s (replicate 9 f64_zero)) (fun data =>
    tensor ← rgpot_tensor_cpu_f64_matrix3 data;
    r ← validate_box_matrix tensor;
    assert_that (is_ok r);;
    rgpot_tensor_free tensor).

Definition validate_box_matrix_wrong_shape : M unit :=
  with_local (BF64s (replicate 6 f64_zero)) (fun data =>
    tensor ← rgpot_tensor_cpu_f64_2d data 2 3;
    r ← validate_box_matrix tensor;
    assert_that (is_err r);;
    rgpot_tensor_free tensor).

(** [assert_eq!(compute_row_major_strides(shape), expected)]; the vector is dropped. *)
Definition assert_strides (shape expected : list Z) : M unit :=
  v ← compute_row_major_strides shape;
  xs ← i64_slice v;
  vec_drop v;;
  assert_eq xs expected.

Definition row_major_strides_1d : M unit := assert_strides [5] [1].
Definition row_major_strides_2d : M unit := assert_strides [4; 3] [3; 1].
Definition row_major_strides_3d : M unit := assert_strides [2; 3; 4] [12; 4; 1].
Definition row_major_strides_empty : M unit := assert_strides [] [].

(** ** potential.rs *)

(** [TestIO]: the arrays live while [k] runs. *)
Definition with_test_io {A} (n : Z) (k : ptr -> ptr -> ptr -> M A) : M A :=
  n3 ← mul_usize n 3;
  with_local (BF64s (replicate (Z.to_nat n3) f64_zero)) (fun pos =>
  with_local (BI32s (replicate (Z.to_nat n) 1)) (fun atmnrs =>
  with_local (BF64s (f64s [10; 0; 0; 0; 10; 0; 0; 0; 10])) (fun box_ => k pos atmnrs box_))).

(** [TestIO::make_input] and [TestIO::free_input]. *)
Definition make_input (n : Z) (pos atmnrs box_ : ptr) : M rgpot_force_input_t :=
  p ← rgpot_tensor_cpu_f64_2d pos (as_i64 n) 3;
  a ← rgpot_tensor_cpu_i32_1d atmnrs (as_i64 n);
  b ← rgpot_tensor_cpu_f64_matrix3 box_;
  mret (MkForceInput p a b).

Definition free_input (i : rgpot_force_input_t) : M unit :=
  rgpot_tensor_free (positions i);;
  rgpot_tensor_free (atomic_numbers i);;
  rgpot_tensor_free (box_matrix i).

Definition empty_output : Block := BForceOut (MkForceOut null f64_zero f64_zero).

(** A local potential, dropped at the end of its scope. *)
Definition with_potential {A} (pot : PotentialImpl) (k : PotentialImpl -> M A) : M A :=
  r ← k pot; PotentialImpl_drop pot;; mret r.

(** The common frame of three tests: one potential, [n] atoms, an empty output. *)
Definition with_calculation (cb : fnptr) (ud : ptr) (n : Z)
    (k : PotentialImpl -> rgpot_force_input_t -> ptr -> ptr -> M unit) : M unit :=
  with_potential (PotentialImpl_new cb ud None) (fun pot =>
  with_test_io n (fun pos atmnrs box_ =>
    i ← make_input n pos atmnrs box_;
    with_local (BForceInput i) (fun input =>
    with_local empty_output (fun output => k pot i input output)))).

Definition test_potential_callback : M unit :=
  with_calculation MOCK null 3 (fun pot i input output =>
    status ← PotentialImpl_calculate pot input output;
    assert_eq status RGPOT_SUCCESS;;
    o ← view as_force_out output;
    assert_eq (energy o) (usize_as_f64 3);;
    rgpot_tensor_free (forces o);;
    free_input i).

Definition callback_error_status_is_returned : M unit :=
  with_calculation ERROR null 1 (fun pot i input output =>
    status ← PotentialImpl_calculate pot input output;
    assert_eq status RGPOT_INVALID_PARAMETER;;
    free_input i).

Definition callback_writes_forces_energy_variance : M unit :=
  with_calculation WRITING null 2 (fun pot i input output =>
    status ← PotentialImpl_calculate pot input output;
    assert_eq status RGPOT_SUCCESS;;
    o ← view as_force_out output;
    assert_eq (energy o) (f64_neg (usize_as_f64 42));;
    assert_eq (variance o) (f64_half (usize_as_f64 1));;
    assert_that (negb (is_null (forces o)));;
    ft ← view as_managed (forces o);
    forces_data ← read_f64s (dl_data (dl_tensor ft)) 6;
    assert_eq forces_data (f64s [1; 2; 3; 4; 5; 6]);;
    rgpot_tensor_free (forces o);;
    free_input i).

Definition drop_calls_free_fn_with_user_data : M unit :=
  store DROP_CALLED (BForeign 0);;
  with_local (BForeign 3735928559) (fun sentinel =>
    with_potential (PotentialImpl_new MOCK sentinel (Some TRACK_DROP)) (fun _ =>
      called ← view as_foreign DROP_CALLED;
      assert_eq called 0);;
    called ← view as_foreign DROP_CALLED;
    assert_eq called 1).

Definition drop_skips_free_fn_when_user_data_is_null : M unit :=
  with_potential (PotentialImpl_new MOCK null (Some TRACK_DROP)) (fun _ => mret tt).

Definition drop_without_free_fn_is_safe : M unit :=
  with_potential (PotentialImpl_new MOCK null None) (fun _ => mret tt).

Definition user_data_is_passed_through : M unit :=
  store CALL_COUNT (BForeign 0);;
  with_calculation COUNTING CALL_COUNT 1 (fun pot i input output =>
    PotentialImpl_calculate pot input output;;
    c ← view as_foreign CALL_COUNT;
    assert_eq c 1;;
    o ← view as_force_out output;
    assert_eq (energy o) (usize_as_f64 1);;
    PotentialImpl_calculate pot input output;;
    c ← view as_foreign CALL_COUNT;
    assert_eq c 2;;
    o ← view as_force_out output;
    assert_eq (energy o) (usize_as_f64 2);;
    free_input i).

(** ** types.rs *)

Definition n_atoms_from_positions_tensor : M unit :=
  with_local (BF64s (replicate 6 f64_zero)) (fun pos =>
    tensor ← rgpot_tensor_cpu_f64_2d pos 2 3;
    r ← n_atoms (MkForceInput tensor null null);
    assert_eq r (Some 2);;
    rgpot_tensor_free tensor).

Definition n_atoms_null_positions : M unit :=
  r ← n_atoms (MkForceInput null null null);
  assert_eq r None.

Definition force_out_starts_with_null_forces : M unit :=
  let out := MkForceOut null f64_zero f64_zero in
  assert_that (is_null (forces out));;
  assert_eq (energy out) f64_zero;;
  assert_eq (variance out) f64_zero.

(** 1.5 and 2.5 are halves of 3 and 5. *)
Definition force_out_energy_and_variance_are_independent : M unit :=
  with_local (BForceOut (MkForceOut null (f64_half (usize_as_f64 3)) (f64_half (usize_as_f64 5))))
    (fun output =>
      out ← view as_force_out output;
      assert_eq (energy out) (f64_half (usize_as_f64 3));;
      assert_eq (variance out) (f64_half (usize_as_f64 5));;
      store output (BForceOut (MkForceOut (forces out) (f64_neg (usize_as_f64 3)) (variance out)));;
      out ← view as_force_out output;
      assert_eq (energy out) (f64_neg (usize_as_f64 3));;
      assert_eq (variance out) (f64_half (usize_as_f64 5))).

Definition full_input_with_tensors : M unit :=
  with_local (BF64s (f64s [0; 0; 0; 1; 0; 0])) (fun pos =>
  with_local (BI32s [1; 1]) (fun atmnrs =>
  with_local (BF64s (f64s [10; 0; 0; 0; 10; 0; 0; 0; 10])) (fun box_ =>
    pos_t ← rgpot_tensor_cpu_f64_2d pos 2 3;
    atm_t ← rgpot_tensor_cpu_i32_1d atmnrs 2;
    box_t ← rgpot_tensor_cpu_f64_matrix3 box_;
    r ← n_atoms (MkForceInput pos_t atm_t box_t);
    assert_eq r (Some 2);;
    pt ← view as_managed pos_t;
    data ← read_f64s (dl_data (dl_tensor pt)) 6;
    xs ← read_f64s pos 6;
    assert_eq data xs;;
    rgpot_tensor_free pos_t;;
    rgpot_tensor_free atm_t;;
    rgpot_tensor_free box_t))).

(** ** status.rs *)

(** The text behind [rgpot_last_error()], which must be [expected]. *)
Definition assert_last_error (expected : string) : M unit :=
  p ← rgpot_last_error;
  msg ← cstr_from_ptr p;
  assert_eq msg expected.

Definition test_set_and_get_last_error : M unit :=
  set_last_error "test error";; assert_last_error "test error".

Definition test_catch_unwind_success : M unit :=
  status ← catch_unwind (mret RGPOT_SUCCESS);
  assert_eq status RGPOT_SUCCESS.

Definition test_catch_unwind_panic : M unit :=
  status ← catch_unwind (panic (PanicStr "boom"));
  assert_eq status RGPOT_INTERNAL_ERROR;;
  assert_last_error "boom".

Definition test_error_overwrite : M unit :=
  set_last_error "first";; set_last_error "second";; assert_last_error "second".

Definition test_interior_nul_is_handled : M unit :=
  set_last_error ("has" +:+ String Ascii.zero "interior nul");;
  assert_last_error "(error message contained interior NUL)".

Definition test_catch_unwind_returns_callback_status : M unit :=
  status ← catch_unwind (mret RGPOT_RPC_ERROR);
  assert_eq status RGPOT_RPC_ERROR.

Definition test_catch_unwind_string_panic : M unit :=
  status ← catch_unwind (panic (PanicString "formatted panic"));
  assert_eq status RGPOT_INTERNAL_ERROR;;
  assert_last_error "formatted panic".

(** ** c_api/potential.rs *)

(** [make_test_input]: the tensors view the helper's own arrays, and the arrays are moved out
    when it returns, so the data pointers of the returned input dangle. *)
Definition make_test_input : M (ptr * ptr * ptr * rgpot_force_input_t) :=
  let pos_values := f64s [0; 0; 0; 1; 0; 0] in
  let box_values := f64s [10; 0; 0; 0; 10; 0; 0; 0; 10] in
  pos ← alloc (BF64s pos_values);
  atmnrs ← alloc (BI32s [1; 1]);
  box_ ← alloc (BF64s box_values);
  input ← rgpot_force_input_create 2 pos atmnrs box_;
  dealloc pos;;
  dealloc atmnrs;;
  dealloc box_;;
  pos ← alloc (BF64s pos_values);
  atmnrs ← alloc (BI32s [1; 1]);
  box_ ← alloc (BF64s box_values);
  mret (pos, atmnrs, box_, input).

Definition with_test_input {A} (k : ptr -> M A) : M A :=
  x ← make_test_input;
  r ← with_local (BForceInput x.2) k;
  dealloc x.1.1.1;;
  dealloc x.1.1.2;;
  dealloc x.1.2;;
  mret r.

(** [cleanup]. *)
Definition cleanup (input output : ptr) : M unit :=
  o ← view as_force_out output;
  rgpot_tensor_free (forces o);;
  rgpot_force_input_free input;;
  o ← view as_force_out output;
  store output (BForceOut (MkForceOut null (energy o) (variance o))).

Definition new_returns_non_null : M unit :=
  pot ← rgpot_potential_new SUM null None;
  assert_that (negb (is_null pot));;
  rgpot_potential_free pot.

Definition potential_free_null_is_noop : M unit := rgpot_potential_free null.

Definition calculate_null_pot_returns_invalid_parameter : M unit :=
  with_test_input (fun input =>
  with_local empty_output (fun output =>
    status ← rgpot_potential_calculate null input output;
    assert_eq status RGPOT_INVALID_PARAMETER;;
    rgpot_force_input_free input)).

Definition calculate_null_input_returns_invalid_parameter : M unit :=
  pot ← rgpot_potential_new SUM null None;
  with_local empty_output (fun output =>
    status ← rgpot_potential_calculate pot null output;
    assert_eq status RGPOT_INVALID_PARAMETER;;
    rgpot_potential_free pot).

Definition calculate_null_output_returns_invalid_parameter : M unit :=
  pot ← rgpot_potential_new SUM null None;
  with_test_input (fun input =>
    status ← rgpot_potential_calculate pot input null;
    assert_eq status RGPOT_INVALID_PARAMETER;;
    rgpot_force_input_free input;;
    rgpot_potential_free pot).

Definition full_lifecycle_new_calculate_free : M unit :=
  pot ← rgpot_potential_new SUM null None;
  with_test_input (fun input =>
  with_local empty_output (fun output =>
    status ← rgpot_potential_calculate pot input output;
    assert_eq status RGPOT_SUCCESS;;
    o ← view as_force_out output;
    assert_eq (energy o) (usize_as_f64 2);;
    assert_that (negb (is_null (forces o)));;
    cleanup input output;;
    rgpot_potential_free pot)).

Definition callback_error_propagates : M unit :=
  pot ← rgpot_potential_new FAILING null None;
  with_test_input (fun input =>
  with_local empty_output (fun output =>
    status ← rgpot_potential_calculate pot input output;
    assert_eq status RGPOT_INTERNAL_ERROR;;
    assert_last_error "deliberately failed";;
    rgpot_force_input_free input;;
    rgpot_potential_free pot)).

Definition user_data_is_forwarded_to_callback : M unit :=
  with_local (BForeign 0) (fun counter =>
    pot ← rgpot_potential_new COUNTING counter None;
    with_test_input (fun input =>
    with_local empty_output (fun output =>
      rgpot_potential_calculate pot input output;;
      c ← view as_foreign counter;
      assert_eq c 1;;
      o ← view as_force_out output;
      assert_eq (energy o) (usize_as_f64 1);;
      rgpot_potential_calculate pot input output;;
      c ← view as_foreign counter;
      assert_eq c 2;;
      o ← view as_force_out output;
      assert_eq (energy o) (usize_as_f64 2);;
      rgpot_force_input_free input;;
      rgpot_potential_free pot))).

Definition free_fn_is_invoked_on_drop : M unit :=
  store FREE_CALLED (BForeign 0);;
  with_local (BForeign 42) (fun dummy =>
    pot ← rgpot_potential_new SUM dummy (Some TRACK_FREE);
    called ← view as_foreign FREE_CALLED;
    assert_eq called 0;;
    rgpot_potential_free pot;;
    called ← view as_foreign FREE_CALLED;
    assert_eq called 1).

(** The body of the loop over [1..=5]. *)
Definition one_calculation (pot : ptr) (n : Z) : M unit :=
  with_test_io n (fun pos atmnrs box_ =>
    i ← rgpot_force_input_create n pos atmnrs box_;
    with_local (BForceInput i) (fun input =>
    with_local empty_output (fun output =>
      status ← rgpot_potential_calculate pot input output;
      assert_eq status RGPOT_SUCCESS;;
      o ← view as_force_out output;
      assert_eq (energy o) (usize_as_f64 n);;
      cleanup input output))).

Definition multiple_calculations_same_handle : M unit :=
  pot ← rgpot_potential_new SUM null None;
  foldr (fun n rest => one_calculation pot n;; rest) (mret tt) [1; 2; 3; 4; 5];;
  rgpot_potential_free pot.

(** ** c_api/types.rs *)

Definition force_input_create_produces_valid_tensors : M unit :=
  with_local (BF64s (f64s [1; 2; 3; 4; 5; 6])) (fun pos =>
  with_local (BI32s [6; 1]) (fun atmnrs =>
  with_local (BF64s (replicate 9 (usize_as_f64 10))) (fun box_ =>
    i ← rgpot_force_input_create 2 pos atmnrs box_;
    assert_that (negb (is_null (positions i)));;
    assert_that (negb (is_null (atomic_numbers i)));;
    assert_that (negb (is_null (box_matrix i)));;
    pt ← view as_managed (positions i);
    assert_eq (dl_ndim (dl_tensor pt)) 2;;
    assert_eq (device_type (dl_device (dl_tensor pt))) kDLCPU;;
    shape ← read_i64s (dl_shape (dl_tensor pt)) 2;
    assert_eq shape [2; 3];;
    data ← read_f64s (dl_data (dl_tensor pt)) 6;
    xs ← read_f64s pos 6;
    assert_eq data xs;;
    with_local (BForceInput i) (fun input =>
      rgpot_force_input_free input;;
      i ← view as_force_input input;
      assert_that (is_null (positions i)))))).

Definition force_input_free_null_is_noop : M unit := rgpot_force_input_free null.

Definition force_out_create_starts_null : M unit :=
  out ← rgpot_force_out_create;
  assert_that (is_null (forces out));;
  assert_eq (energy out) f64_zero;;
  assert_eq (variance out) f64_zero.

Definition force_input_n_atoms_accessor : M unit :=
  with_local (BF64s (replicate 9 f64_zero)) (fun pos =>
  with_local (BI32s (replicate 3 1)) (fun atmnrs =>
  with_local (BF64s (replicate 9 f64_zero)) (fun box_ =>
    i ← rgpot_force_input_create 3 pos atmnrs box_;
    r ← n_atoms i;
    assert_eq r (Some 3);;
    with_local (BForceInput i) rgpot_force_input_free))).

(** ** Running the tests *)

Definition all_tests : list (M unit) :=
  [borrowed_f64_2d_has_correct_metadata; borrowed_i32_1d_has_correct_metadata;
   borrowed_matrix3_is_3x3; owned_f64_tensor_survives_source_drop;
   owned_i32_tensor_survives_source_drop; owned_cpu_f64_2d_copies_data;
   tensor_free_null_is_noop; device_accessor_returns_cpu;
   data_accessor_returns_correct_pointer; shape_accessor_returns_correct_values;
   validate_positions_ok; validate_positions_null; validate_positions_wrong_shape;
   validate_positions_wrong_dtype; validate_atomic_numbers_ok;
   validate_atomic_numbers_wrong_count; validate_box_matrix_ok;
   validate_box_matrix_wrong_shape; row_major_strides_1d; row_major_strides_2d;
   row_major_strides_3d; row_major_strides_empty;
   test_potential_callback; callback_error_status_is_returned;
   callback_writes_forces_energy_variance; drop_calls_free_fn_with_user_data;
   drop_skips_free_fn_when_user_data_is_null; drop_without_free_fn_is_safe;
   user_data_is_passed_through;
   n_atoms_from_positions_tensor; n_atoms_null_positions; force_out_starts_with_null_forces;
   force_out_energy_and_variance_are_independent; full_input_with_tensors;
   test_set_and_get_last_error; test_catch_unwind_success; test_catch_unwind_panic;
   test_error_overwrite; test_interior_nul_is_handled;
   test_catch_unwind_returns_callback_status; test_catch_unwind_string_panic;
   new_returns_non_null; potential_free_null_is_noop;
   calculate_null_pot_returns_invalid_parameter;
   calculate_null_input_returns_invalid_parameter;
   calculate_null_output_returns_invalid_parameter; full_lifecycle_new_calculate_free;
   callback_error_propagates; user_data_is_forwarded_to_callback;
   free_fn_is_invoked_on_drop; multiple_calculations_same_handle;
   force_input_create_produces_valid_tensors; force_input_free_null_is_noop;
   force_out_create_starts_null; force_input_n_atoms_accessor].

(** Only the statics, the error slot and the slot's buffer are left. *)
Definition nothing_left (σ : Mem) : bool :=
  match mem_map σ !! LTls 0%N with
  | Some (BLastError None) => bool_decide (size (mem_map σ) = 4%nat)
  | Some (BLastError (Some p)) =>
      bool_decide (size (mem_map σ) = 5%nat) && bool_decide (is_Some (mem_map σ !! LHeap p))
  | _ => false
  end.

Definition passes (test : M unit) : bool :=
  match test 0%N test_mem with Done _ σ => nothing_left σ | _ => false end.
End tests.

(** The model passes the crate's own unit tests, all 55 that state something about values,
    in the debug and in the release profile: every assertion holds, no test panics, aborts
    or has undefined behaviour, and every test releases all the memory it allocated. *)
Theorem unit_tests_pass (checks : bool) :
  forallb passes
    (all_tests (profile:={| overflow_checks := checks |})) = true.
Proof. destruct checks; vm_compute; reflexivity. Qed.

(** The helper [make_test_input] of the tests of c_api/potential.rs returns an input whose
    data pointers dangle: the tensors view the helper's local arrays, and the arrays it
    returns are moved copies.  The tests pass because their callbacks only look at shapes;
    a callback that read the positions would read freed memory. *)
Theorem make_test_input_dangles (checks : bool) :
  (x ← make_test_input (profile:={| overflow_checks := checks |});
   q ← rgpot_tensor_data (positions x.2);
   read_f64s q 6) 0%N test_mem = Undefined DanglingPointer.
Proof. destruct checks; vm_compute; reflexivity. Qed.
