(* ===== verification/ApiTheorems.v ===== *)
(** * ApiTheorems: what the input structs and the potential handle promise

    The properties of src/types.rs, src/c_api/types.rs, src/potential.rs and
    src/c_api/potential.rs. *)
From S2P Require Import Prelude Machine Objects Memory HeapLogic Status StatusTheorems Strides.
From S2P Require Import Tensor TensorSpec ForceTypes Potential RpcEnv Environment TensorTheorems.
From iris.proofmode Require Import proofmode.
Open Scope Z_scope.

Section inputs.
  Context {profile : Target} {dlpack : Dlpack} {ccode : CCode}.

Lemma rgpot_force_input_free_nulls t p :
  p ↦ BForceInput (MkForceInput null null null) ⊢
  wp t (rgpot_force_input_free p) (fun _ => p ↦ BForceInput (MkForceInput null null null)).
Proof.
  iIntros "Hp". iApply wp_extern_C. iDestruct (is_null_pointsto with "Hp") as %->.
  do 3 (iApply wp_bind; iApply (wp_view with "Hp"); [done|]; iIntros "Hp";
        iApply (wp_seq with "[]"); [apply rgpot_tensor_free_null | done |]; iIntros (_) "_").
  wp_call update_input_spec "Hp". iIntros (_) "Hp".
  wp_call update_input_spec "Hp". iIntros (_) "Hp".
  iApply (wp_use with "Hp"); [apply update_input_spec|]. by iIntros (_) "$".
Qed.

(** What the struct's readers answer on an input that [rgpot_force_input_create] built. *)
Lemma n_atoms_created t i n pos atmnrs box_ :
  is_usize n = true ->
  force_input i n pos atmnrs box_ ⊢
  wp t (n_atoms i) (fun r => <affine> ⌜r = Some n⌝ ∗ force_input i n pos atmnrs box_).
Proof.
  iIntros (Hn) "(Hp & Ha & Hb)".
  iApply (wp_use with "Hp"); [by eapply (n_atoms_spec (T:=borrowed_tensor) t i)|].
  iIntros (r) "[Hp ->]". rewrite as_usize_as_i64 //. by iFrame.
Qed.

Lemma validators_created t i n pos atmnrs box_ :
  is_usize n = true ->
  force_input i n pos atmnrs box_ ⊢
  wp t (v1 ← validate_positions (positions i);
        v2 ← validate_atomic_numbers (atomic_numbers i) n;
        v3 ← validate_box_matrix (box_matrix i); mret (v1, v2, v3))
    (fun r => <affine> ⌜r = (Ok n, Ok tt, Ok tt)⌝ ∗ force_input i n pos atmnrs box_).
Proof.
  iIntros (Hn) "(Hp & Ha & Hb)".
  wp_call (validate_positions_spec (T:=borrowed_tensor)) "Hp".
  iIntros (r1) "[-> Hp]".
  wp_call (validate_atomic_numbers_spec (T:=borrowed_tensor)) "Ha".
  iIntros (r2) "[-> Ha]".
  wp_call (validate_box_matrix_spec (T:=borrowed_tensor)) "Hb".
  iIntros (r3) "[-> Hb]". iApply wp_ret. iFrame. iPureIntro.
  unfold positions_verdict, atomic_numbers_verdict, box_matrix_verdict. cbn.
  by rewrite !as_usize_as_i64 // decide_True.
Qed.

(** A C caller's session with one input struct, stored in its own object at [slot]. *)
Definition input_session (slot : ptr) (n : Z) (pos atmnrs box_ : ptr) :
    M (option Z * (Result Z string * Result unit string * Result unit string)) :=
  i ← rgpot_force_input_create n pos atmnrs box_;
  store slot (BForceInput i);;
  k ← n_atoms i;
  v ← (v1 ← validate_positions (positions i);
       v2 ← validate_atomic_numbers (atomic_numbers i) n;
       v3 ← validate_box_matrix (box_matrix i); mret (v1, v2, v3));
  rgpot_force_input_free slot;;
  rgpot_force_input_free slot;;
  mret (k, v).

(** C32: Life cycle of an input configuration.  For every [usize] atom count and whatever
    pointers the caller passes, the struct made by [rgpot_force_input_create] reports that
    atom count and passes all three validators; [rgpot_force_input_free] releases the three
    tensors and sets the fields to NULL, so that a second free is harmless; and afterwards
    the caller's struct is the only difference in the store. *)
Theorem force_input_life_cycle (t : thread_id) (slot : ptr) (i0 : rgpot_force_input_t) (n : Z)
    (pos atmnrs box_ : ptr) (σ : Mem) (Hn : is_usize n = true) (Hwf : wf_mem σ)
    (Hslot : mem_map σ !! LHeap slot = Some (BForceInput i0)) :
  exists σ', input_session slot n pos atmnrs box_ t σ =
      Done (Some n, (Ok n, Ok tt, Ok tt)) σ' /\
    mem_map σ' = <[LHeap slot := BForceInput (MkForceInput null null null)]> (mem_map σ).
Proof.
  destruct (wp_run_pointsto t (input_session slot n pos atmnrs box_) slot (BForceInput i0)
    (BForceInput (MkForceInput null null null)) (fun r => r = (Some n, (Ok n, Ok tt, Ok tt))) σ)
    as (r & σ' & Hrun & _ & Hm & ->); [|done..|by exists σ'].
  iIntros "Hslot".
  iApply (wp_seq with "[]"); [by apply (rgpot_force_input_create_spec t n pos atmnrs box_)|done|].
  iIntros (i) "Hi". iApply wp_bind. iApply (wp_store with "Hslot"). iIntros "Hslot".
  iApply (wp_seq with "Hi"); [by apply n_atoms_created|]. iIntros (k) "[-> Hi]".
  iApply (wp_seq with "Hi"); [by apply validators_created|]. iIntros (v) "(-> & Hp & Ha & Hb)".
  iApply (wp_seq with "[Hslot Hp Ha Hb]");
    [apply (rgpot_force_input_free_spec t (T1:=borrowed_tensor) (T2:=borrowed_tensor)
              (T3:=borrowed_tensor) slot i) | iFrame |].
  iIntros (_) "Hslot".
  wp_call rgpot_force_input_free_nulls "Hslot". iIntros (_) "Hslot".
  iApply wp_ret. by iFrame.
Qed.

(** [rgpot_force_input_t::n_atoms] on any positions handle: NULL and a tensor without
    dimensions give no answer, every other tensor gives its first dimension read as an
    unsigned number, whatever its type, rank and device are; the tensor is left
    alone. *)
Theorem n_atoms_reads_first_dimension `{HT : !TensorRepr T} (t : thread_id)
    (i : rgpot_force_input_t) (v : option TensorView) :
  handle T (positions i) v ⊢ wp t (n_atoms i) (fun r =>
    <affine> ⌜r = (v ← v; s0 ← head (tv_shape v); Some (as_usize s0))⌝ ∗ handle T (positions i) v).
Proof.
  destruct v as [v|]; cbn [handle mbind option_bind].
  - destruct (tv_shape v) as [|s0 rest] eqn:E; cbn.
    + iIntros "HT". iDestruct (tensor_not_null with "HT") as %Hn.
      iDestruct (tensor_open with "HT") as (m) "(%Hm & Hp & Hsh & Hclose)".
      destruct Hm as (_ & _ & _ & Hnd). unfold n_atoms. rewrite is_null_false //.
      wp_look "Hp".
      rewrite Hnd E. iApply wp_ret. iSplitR; [done|]. rewrite -E. iApply ("Hclose" with "Hp Hsh").
    + iIntros "HT". iApply (wp_use with "HT"); [by eapply (n_atoms_spec (T:=T) t i)|].
      iIntros (r) "[$ ->]". done.
  - iIntros (Hp). unfold n_atoms. rewrite Hp. by iApply wp_ret.
Qed.
End inputs.

Section handles.
  Context {ccode : CCode}.
  Implicit Types σ : Mem.

Lemma view_run {A} (f : Block -> option A) t σ p b a :
  wf_mem σ -> mem_map σ !! LHeap p = Some b -> f b = Some a -> view f p t σ = Done a σ.
Proof.
  intros [_ Hwf] Hp Hf. apply Hwf in Hp as Hr.
  unfold view, load, mbind, M_bind. rewrite is_null_false; [|unfold null; lia].
  unfold load_loc. by rewrite Hp Hf.
Qed.

(** [rgpot_potential_calculate] on non-NULL arguments is the callback: every status the
    callback returns, success or error, is returned unchanged together with the store it
    left, so the thread's message is the one the callback left (the entry point does not
    set one for an error status).  The panic guard does not reach into the callback: a panic
    there cannot unwind out of the C function and aborts the process. *)
Theorem rgpot_potential_calculate_forwards (t : thread_id) (σ : Mem) (pot input output : ptr)
    (p : PotentialImpl) (Hwf : wf_mem σ) (Hpot : mem_map σ !! LHeap pot = Some (BPotential p))
    (Hin : input <> null) (Hout : output <> null) :
  match c_callback (callback p) (user_data p) input output t σ with
  | Done st σ' => rgpot_potential_calculate pot input output t σ = Done st σ'
  | Panicked e _ => rgpot_potential_calculate pot input output t σ = Aborted e
  | Aborted e => rgpot_potential_calculate pot input output t σ = Aborted e
  | Undefined z => rgpot_potential_calculate pot input output t σ = Undefined z
  end.
Proof.
  assert (is_null pot = false) as Hn.
  { destruct Hwf as [_ Hwf]. apply Hwf in Hpot. apply is_null_false. unfold null. lia. }
  assert (rgpot_potential_calculate pot input output t σ = extern_C (catch_unwind
    (call_callback (callback p) (user_data p) input output)) t σ) as ->.
  { unfold rgpot_potential_calculate, extern_C, catch_unwind.
    rewrite Hn !is_null_false // /mbind /M_bind.
    by rewrite (view_run as_potential t σ pot (BPotential p) p). }
  unfold extern_C, catch_unwind, call_callback, extern_C.
  by destruct (c_callback _ _ _ _ t σ).
Qed.

(** The argument checks of [rgpot_potential_calculate]: when an argument is NULL the call
    returns [RGPOT_INVALID_PARAMETER] and the thread's message names the first NULL argument
    in the order [pot], [input], [output]; the callback is not called and nothing is
    dereferenced, so the other arguments may be dangling. *)
Theorem rgpot_potential_calculate_rejects_null (t : thread_id) (σ : Mem) (pot input output : ptr)
    (old err : string)
    (Hnull : null_argument "rgpot_potential_calculate"
       [("pot"%string, pot); ("input"%string, input); ("output"%string, output)] = Some err)
    (Hwf : wf_mem σ) (Hslot : last_message t σ = Some old) :
  exists σ', rgpot_potential_calculate pot input output t σ = Done RGPOT_INVALID_PARAMETER σ' /\
    last_message t σ' = Some err.
Proof.
  destruct (slot_run t (rgpot_potential_calculate pot input output)
    (fun r => r = RGPOT_INVALID_PARAMETER) old err σ)
    as (a & σ' & Hrun & _ & -> & Hm); [|done..|by exists σ'].
  intros msg. by apply rgpot_potential_calculate_null_spec.
Qed.

(** Life cycle of a potential handle.  Creating and freeing a handle calls the destructor
    exactly when one was given and the user data is not NULL: then the call releases
    exactly what the destructor releases, exactly once, and otherwise nothing of the C side
    is touched; in both cases the handle itself is returned to the allocator and nothing
    leaks. *)
Theorem potential_life_cycle (t : thread_id) (cb : fnptr) (ud : ptr) (fr : option fnptr)
    (P : mProp)
    (Hfree : forall free, fr = Some free -> ud <> null ->
       P ⊢ wp t (call_free_fn free ud) (fun _ => emp)) :
  (if bool_decide (is_Some fr /\ ud <> null) then P else emp) ⊢
  wp t (p ← rgpot_potential_new cb ud fr; rgpot_potential_free p) (fun _ => emp).
Proof.
  iIntros "HP". iApply (wp_seq with "[]"); [apply (rgpot_potential_new_spec t cb ud fr)|done|].
  iIntros (p) "Hp". by iApply (rgpot_potential_free_spec with "Hp HP").
Qed.
End handles.

(** ** Concrete instances of the theorems *)

Definition input_slot : Mem := with_objects initial_mem [BForceInput (MkForceInput null null null)].

Lemma force_input_life_cycle_witness :
  exists σ', input_session (profile:=debug_profile) (dlpack:=dlpack_header) (ccode:=no_c_code)
      1%N 5 7%N 8%N 9%N 0%N input_slot = Done (Some 5, (Ok 5, Ok tt, Ok tt)) σ' /\
    mem_map σ' = <[LHeap 1%N := BForceInput (MkForceInput null null null)]> (mem_map input_slot).
Proof.
  apply (force_input_life_cycle (profile:=debug_profile) (dlpack:=dlpack_header)
    (ccode:=no_c_code) 0%N 1%N (MkForceInput null null null) 5 7%N 8%N 9%N input_slot);
    [done | apply objects_wf | done].
Defined.

Lemma n_atoms_reads_first_dimension_witness :
  borrowed_tensor 5%N (MkView 9%N dtype_f64 cpu_device [4; 3]) ⊢
  wp 0%N (n_atoms (MkForceInput 5%N null null)) (fun r => <affine> ⌜r = Some 4⌝ ∗
    borrowed_tensor 5%N (MkView 9%N dtype_f64 cpu_device [4; 3])).
Proof.
  exact (n_atoms_reads_first_dimension (ccode:=no_c_code)
    (T:=borrowed_tensor) 0%N (MkForceInput 5%N null null)
    (Some (MkView 9%N dtype_f64 cpu_device [4; 3]))).
Defined.

(** Callback 1 fails with an error status and callback 2 panics; destructor 1 frees. *)
Definition failing_c_code : CCode := {|
  c_callback f _ _ _ := if decide (f = 1%N) then mret RGPOT_BUFFER_SIZE_ERROR
                           else panic (PanicStr "boom");
  c_free_fn _ p := dealloc p;
  c_deleter _ _ := undefined WrongObject;
|}.

Definition panicking_potential : Mem := with_objects initial_mem [BPotential (MkPotentialImpl 2%N null None)].

Lemma rgpot_potential_calculate_forwards_witness :
  rgpot_potential_calculate (ccode:=failing_c_code) 1%N 2%N 3%N 0%N panicking_potential
    = Aborted (PanicStr "boom").
Proof.
  exact (rgpot_potential_calculate_forwards (ccode:=failing_c_code) 0%N panicking_potential
    1%N 2%N 3%N (MkPotentialImpl 2%N null None) (objects_wf _) eq_refl
    ltac:(discriminate) ltac:(discriminate)).
Defined.

Lemma rgpot_potential_calculate_rejects_null_witness :
  exists σ', rgpot_potential_calculate (ccode:=failing_c_code) 1%N null null 0%N panicking_potential
      = Done RGPOT_INVALID_PARAMETER σ' /\
    last_message 0%N σ' = Some "rgpot_potential_calculate: input is NULL"%string.
Proof.
  apply (rgpot_potential_calculate_rejects_null (ccode:=failing_c_code) 0%N panicking_potential
    1%N null null ""); [done | apply objects_wf | done].
Defined.

Lemma potential_life_cycle_witness :
  (4%N ↦ BForeign 0) ⊢
  wp 0%N (p ← rgpot_potential_new 1%N 4%N (Some 1%N);
          rgpot_potential_free (ccode:=failing_c_code) p) (fun _ => emp).
Proof.
  apply (potential_life_cycle (ccode:=failing_c_code) 0%N 1%N 4%N (Some 1%N) (4%N ↦ BForeign 0)).
  iIntros (free _ _) "Hp". iApply wp_extern_C. by iApply (wp_dealloc with "Hp").
Defined.
