(* ===== verification/Callbacks.v ===== *)
(** * Callbacks: a small C side and a loopback network

    Callbacks as C code would write them against the crate's own C interface, with proofs
    that they meet (or break) the contracts of [RpcSpec], and a transport that hands a
    request directly to the server. *)
From S2P Require Import Prelude Machine Objects Memory HeapLogic Status Strides Tensor TensorSpec.
From S2P Require Import ForceTypes Potential RpcEnv RpcClient RpcServer RpcSpec Environment.
From iris.proofmode Require Import proofmode.
Open Scope Z_scope.

Section callbacks.
  Context {profile : Target} {dlpack : Dlpack}.

Definition mirror_energy : f64 := 42.
Definition mirror_variance : f64 := 7.

(** The data pointer and the row count of the positions tensor. *)
Definition positions_rows (input : ptr) : M (ptr * Z) :=
  inp ← view as_force_input input;
  m ← view as_managed (positions inp);
  s ← view as_i64s (dl_shape (dl_tensor m));
  q ← rgpot_tensor_data (positions inp);
  mret (q, default 0 (head s)).

(** Reports the positions as forces: it copies the rows that the tensor claims with the
    crate's own constructor. *)
Definition mirror_callback (input output : ptr) : M rgpot_status_t :=
  r ← positions_rows input;
  fp ← rgpot_tensor_owned_cpu_f64_2d r.1 r.2 3;
  store output (BForceOut (MkForceOut fp mirror_energy mirror_variance));;
  mret RGPOT_SUCCESS.

(** Reports an energy, but no forces. *)
Definition energy_only_callback (input output : ptr) : M rgpot_status_t :=
  store output (BForceOut (MkForceOut null mirror_energy mirror_variance));;
  mret RGPOT_SUCCESS.

(** 1 mirrors, 2 reports an energy only, 3 fails, anything else panics. *)
Definition c_code : CCode := {|
  c_callback f _ input output :=
    if decide (f = 1%N) then mirror_callback input output
    else if decide (f = 2%N) then energy_only_callback input output
    else if decide (f = 3%N) then mret RGPOT_BUFFER_SIZE_ERROR
    else panic (PanicStr "boom");
  c_free_fn _ p := dealloc p;
  c_deleter _ _ := undefined WrongObject;
|}.

Definition mirror_potential (c : Config) : f64 * list f64 := (mirror_energy, cf_positions c).

Lemma positions_rows_spec t i input n pp :
  is_i64 n = true ->
  input ↦ BForceInput i ∗ borrowed_tensor (positions i) (positions_view pp n) ⊢
  wp t (positions_rows input) (fun r => <affine> ⌜r = (pp, n)⌝ ∗
    input ↦ BForceInput i ∗ borrowed_tensor (positions i) (positions_view pp n)).
Proof.
  iIntros (Hn) "[Hi HT]".
  wp_look "Hi".
  iDestruct (tensor_open (ccode:=no_c_code) (T:=borrowed_tensor) with "HT") as (m) "(%Hm & Hp & Hsh & Hclose)".
  destruct Hm as (Hd & _).
  wp_look "Hp".
  wp_look "Hsh".
  iApply wp_bind. iApply wp_extern_C. wp_look "Hp". iApply wp_ret. iApply wp_ret. rewrite Hd. cbn. rewrite as_i64_id //.
  iFrame "Hi". iSplitR; [done|]. iApply ("Hclose" with "Hp Hsh").
Qed.

Lemma config_n_is_i64 c : config_ok c = true -> is_i64 (cf_n c) = true.
Proof. intros (_ & _ & H0 & H3)%config_ok_spec. unfold is_i64. lia. Qed.

(** The mirror meets the contract. *)
Lemma mirror_evaluates (ccode : CCode) :
  evaluates emp (fun input output => extern_C (mirror_callback input output)) mirror_potential
    (fun _ v' => v' = mirror_variance).
Proof.
  intros t c i pp pa pb input output e v Hc. rewrite -wp_extern_C.
  pose proof (config_ok_spec c Hc) as (Hp3 & _ & H0 & H3).
  iIntros "(_ & (Hi & (Hp & Ha & Hb) & Hpp & Hpa & Hpb) & Ho)". unfold mirror_callback.
  iApply (wp_seq with "[Hi Hp]");
    [apply (positions_rows_spec t i input (cf_n c) pp); by apply config_n_is_i64 | iFrame |].
  iIntros (r) "(-> & Hi & Hp)". cbn [fst snd].
  iApply (wp_seq with "Hpp"); [apply (rgpot_tensor_owned_cpu_f64_2d_spec t pp (cf_positions c));
    [done | unfold is_i64; lia | lia]|].
  iIntros (fp) "(Hpp & %d & HT)".
  iApply wp_bind. iApply (wp_store with "Ho"). iIntros "Ho". iApply wp_ret.
  iSplitR; [done|]. iSplitR; [done|]. iFrame "Hi Hp Ha Hb Hpp Hpa Hpb".
  iExists fp, mirror_variance. iSplitR; [done|]. iFrame "Ho". cbn [snd mirror_potential].
  iApply (owned_forces_tensor fp d); [done|].
  rewrite as_i64_id; [|by apply config_n_is_i64]. rewrite take_ge; [done | lia].
Qed.

(** The other two callbacks of [c_code]. *)
Lemma energy_only_answers ud c :
  callback_answers (ccode:=c_code) emp 2%N ud c
    (fun st e F => st = RGPOT_SUCCESS /\ e = mirror_energy /\ F = []).
Proof.
  intros t i pp pa pb input output. iIntros "(_ & Hi & Ho)".
  iApply wp_extern_C. cbn. iApply wp_bind. iApply (wp_store with "Ho"). iIntros "Ho". iApply wp_ret.
  iFrame "Hi". iExists _, []. by iFrame "Ho".
Qed.

Lemma failing_answers ud c :
  callback_answers (ccode:=c_code) emp 3%N ud c (fun st _ _ => st <> RGPOT_SUCCESS).
Proof.
  intros t i pp pa pb input output. iIntros "(_ & Hi & Ho)".
  iApply wp_extern_C. cbn. iApply wp_ret.
  iFrame "Hi". iExists _, []. iFrame "Ho". by iPureIntro.
Qed.

(** Asked to copy more rows than the caller's array has, the mirror reads past its end. *)
Lemma stuck_owned_cpu_f64_2d t data xs rows :
  is_i64 (rows * 3) = true -> Z.of_nat (length xs) < rows * 3 ->
  data ↦ BF64s xs ⊢ stuck t (rgpot_tensor_owned_cpu_f64_2d data rows 3) SliceOutOfBounds.
Proof.
  iIntros (Hp Hlen) "Hd". iApply stuck_extern_C. iApply stuck_after.
  iApply mul_i64_spec; [done|]. iApply stuck_bind.
  rewrite as_usize_id; [|unfold is_i64, is_usize in *; lia].
  by iApply (stuck_from_raw_parts with "Hd").
Qed.

Lemma stuck_mirror t i input output n pp xs :
  is_i64 n = true -> is_i64 (n * 3) = true -> Z.of_nat (length xs) < n * 3 ->
  input ↦ BForceInput i ∗ borrowed_tensor (positions i) (positions_view pp n) ∗
    pp ↦ BF64s xs ⊢
  stuck t (mirror_callback input output) SliceOutOfBounds.
Proof.
  iIntros (Hn Hn3 Hlen) "(Hi & Hp & Hpp)". unfold mirror_callback.
  iApply (stuck_seq with "[Hi Hp]"); [by apply (positions_rows_spec t i input n pp) | iFrame |].
  iIntros (r) "(-> & Hi & Hp)". cbn [fst snd]. iApply stuck_bind.
  iApply stuck_frame. iSplitL "Hpp"; [by iApply stuck_owned_cpu_f64_2d | by iAccu].
Qed.

(** ** The loopback transport *)

Section loopback.
  Context {ccode : CCode} {errors : CapnpErrors} {lists : CapnpLists}.

Definition loopback (srv : PotentialServer) (server_thread : thread_id) : Network := {|
  runtime_new := mret (Ok 0%N);
  runtime_drop _ := mret tt;
  tcp_connect _ _ := mret (Ok 1%N);
  set_nodelay _ _ := mret (Ok tt);
  send_request _ req := fun _ => served srv req server_thread;
  tcp_bind _ _ := mret (Ok 2%N);
|}.

Lemma loopback_faithful srv ts : Faithful (network:=loopback srv ts) srv.
Proof. split; [by exists 1%N | done | by exists ts]. Qed.
End loopback.
End callbacks.
