(* ===== verification/RpcTheorems.v ===== *)
(** * RpcTheorems: what the RPC client and server promise together

    A remote evaluation equals a local one; how failures travel; what the server does with
    a request; where the two sides trust sizes that nobody checks; and the errors of the C
    entry points of src/c_api/rpc.rs and src/rpc/server.rs. *)
From S2P Require Import Prelude Machine Objects Memory HeapLogic Status Strides Tensor TensorSpec.
From S2P Require Import ForceTypes Potential Utf8 RpcEnv RpcClient RpcServer RpcSpec Environment.
From S2P Require Import TensorTheorems Callbacks.
From iris.proofmode Require Import proofmode.
Open Scope Z_scope.

Section theorems.
  Context {profile : Target} {dlpack : Dlpack} {ccode : CCode}
    {errors : CapnpErrors} {lists : CapnpLists} {network : Network}.

(** ** Transparency *)

(** On non-NULL arguments the entry point runs the client and reports its error. *)
Lemma rgpot_rpc_calculate_spec t client cl input i output b Q :
  client ↦ BRpcClient cl -∗ input ↦ BForceInput i -∗ output ↦ b -∗
  (client ↦ BRpcClient cl -∗ input ↦ BForceInput i -∗ output ↦ b -∗
     wp t (RpcClient_calculate cl i output) (fun r =>
       match r with
       | Ok _ => Q RGPOT_SUCCESS
       | Err e => wp t (set_last_error ("rgpot_rpc_calculate: " +:+ e);;
                        mret RGPOT_RPC_ERROR) Q
       end)) -∗
  wp t (rgpot_rpc_calculate client input output) Q.
Proof.
  iIntros "Hc Hi Ho H". iApply wp_extern_C. iApply wp_catch_unwind.
  iDestruct (is_null_pointsto with "Hc") as %->. iDestruct (is_null_pointsto with "Hi") as %->.
  iDestruct (is_null_pointsto with "Ho") as %->.
  wp_look "Hc".
  wp_look "Hi".
  iApply wp_bind. iApply (wp_wand with "[Hc Hi Ho H]"); [iApply ("H" with "Hc Hi Ho")|].
  iIntros ([[]|e]) "HQ"; [by iApply wp_ret | done].
Qed.

(** An evaluator, seen as a callback's answer. *)
Lemma evaluates_answers R cb ud f V c :
  evaluates R (call_callback cb ud) f V -> config_ok c = true ->
  callback_answers R cb ud c (fun st e F =>
    st = RGPOT_SUCCESS /\ e = (f c).1 /\ F = (f c).2 /\ Z.of_nat (length F) = 3 * cf_n c).
Proof.
  intros HE Hc t i pp pa pb input output. iIntros "H".
  iApply (wp_use with "H"); [by apply HE|].
  iIntros (st) "(-> & $ & $ & %fp & %v' & _ & Ho & HF)".
  iExists _, (f c).2. iFrame "Ho". cbn [forces energy].
  iDestruct (forces_tensor_not_null with "HF") as %Hn.
  unfold maybe_forces. rewrite is_null_false //.
  iDestruct "HF" as "(%m & [%Hm %HF] & HF)". iSplitL; [iExists m; by iFrame | done].
Qed.

(** C4: Transparency of the RPC.  Whatever potential the callback computes on the
    configurations that a request can carry (three coordinates per atom, nine box entries,
    less than [2^29] coordinates), the local entry point [rgpot_potential_calculate] on a
    handle for that callback and the remote entry point [rgpot_rpc_calculate], through any
    transport that delivers the lists it is given to a server for the same callback, meet
    the same contract: they succeed with the same energy and the same forces, hand the
    input and the client's arrays back, and leak nothing.  The one difference is the
    variance, which the remote call does not transport: the caller's old value stays. *)
Theorem remote_evaluation_equals_local (R : mProp) (srv : PotentialServer)
    (f : Config -> f64 * list f64) (V : f64 -> f64 -> Prop)
    (Hcb : evaluates R (call_callback (srv_callback srv) (srv_user_data srv)) f V)
    (Hnet : Faithful srv) :
  (forall pot fr, evaluates
     (R ∗ pot ↦ BPotential (MkPotentialImpl (srv_callback srv) (srv_user_data srv) fr))
     (rgpot_potential_calculate pot) f V) /\
  (forall client cl, evaluates (R ∗ client ↦ BRpcClient cl) (rgpot_rpc_calculate client) f eq).
Proof.
  split.
  - intros pot fr t c i pp pa pb input output e v Hc.
    iIntros "((HR & Hpot) & (Hi & Hin) & Ho)".
    iDestruct (pointsto_not_null with "Hi") as %Hni.
    iDestruct (pointsto_not_null with "Ho") as %Hno.
    iApply (rgpot_potential_calculate_spec with "Hpot"); [done..|]. iIntros "Hpot".
    iApply (wp_use with "[HR Hi Hin Ho]"); [by apply Hcb | iFrame |].
    iIntros (st) "($ & $ & $ & $)". done.
  - intros client cl t c i pp pa pb input output e v Hc.
    iIntros "((HR & Hcl) & (Hi & Hin & Harr) & Ho)".
    iApply (rgpot_rpc_calculate_spec with "Hcl Hi Ho"). iIntros "Hcl Hi Ho".
    iApply (wp_use with "[HR Hin Harr Ho]");
      [eapply RpcClient_calculate_spec; [done | done | by eapply evaluates_answers] | iFrame |].
    iIntros (r) "(HR & Hin & Harr & %st & %e' & %F & %Hφ & Hout)".
    destruct Hφ as (-> & -> & -> & HF). unfold client_outcome.
    destruct (decide (RGPOT_SUCCESS = RGPOT_SUCCESS)); [|done].
    rewrite decide_True //. iDestruct "Hout" as "(-> & %fp & Ho & HF)".
    iFrame "HR Hcl Hi Hin Harr". iSplitR; [done|]. iExists fp, v. by iFrame.
Qed.

(** ** Failures *)

(** The common part of the two theorems below: how the entry point ends, for every answer of
    the remote callback. *)
Lemma rgpot_rpc_calculate_outcome t R srv φ cl client c i pp pa pb input output o msg :
  Faithful srv -> config_ok c = true ->
  callback_answers R (srv_callback srv) (srv_user_data srv) c φ ->
  last_error_slot t msg ∗ (R ∗ client ↦ BRpcClient cl) ∗ input_at input i pp pa pb c ∗
    output ↦ BForceOut o ⊢
  wp t (rgpot_rpc_calculate client input output) (fun s =>
    (R ∗ client ↦ BRpcClient cl) ∗ input_at input i pp pa pb c ∗
    ∃ st e F r, <affine> ⌜φ st e F⌝ ∗ client_outcome (cf_n c) output o st e F r ∗
      match r with
      | Ok _ => <affine> ⌜s = RGPOT_SUCCESS⌝ ∗ last_error_slot t msg
      | Err m => <affine> ⌜s = RGPOT_RPC_ERROR⌝ ∗
          last_error_slot t (Some (stored_message ("rgpot_rpc_calculate: " +:+ m)))
      end).
Proof.
  intros Hnet Hc Hcb. iIntros "(Hslot & (HR & Hcl) & (Hi & Hin & Harr) & Ho)".
  iApply (rgpot_rpc_calculate_spec with "Hcl Hi Ho"). iIntros "Hcl Hi Ho".
  iApply (wp_use with "[HR Hin Harr Ho]");
    [by eapply RpcClient_calculate_spec | iFrame |].
  iIntros (r) "(HR & Hin & Harr & %st & %e & %F & %Hφ & Hout)". destruct r as [[]|m].
  - iFrame "HR Hcl Hi Hin Harr". iExists st, e, F, (Ok tt). by iFrame.
  - iApply (wp_use with "Hslot"); [apply fail_spec|]. iIntros (s) "[-> Hslot]".
    iFrame "HR Hcl Hi Hin Harr". iExists st, e, F, (Err m). by iFrame.
Qed.

(** C36: A failing callback seen through the RPC, over a faithful transport (the connection
    stands, the request reaches the server's [calculate] as it was written, and an error
    that the method returns arrives as the exception that the RPC library makes of it).
    When the remote callback returns any error status, the client's call returns
    [RGPOT_RPC_ERROR] with the message of that exception, which is the same for every
    status and every callback: neither the callback's status nor its own message travels.  The client's output struct keeps all
    three fields, the input is handed back and nothing leaks on either side (a forces
    tensor that the failing callback left behind is freed by the server). *)
Theorem remote_callback_failure (t : thread_id) (R : mProp) (srv : PotentialServer)
    (cl : RpcClient) (client : ptr) (c : Config) (i : rgpot_force_input_t)
    (pp pa pb input output : ptr) (o : rgpot_force_out_t) (msg : option string)
    (Hnet : Faithful srv) (Hc : config_ok c = true)
    (Hcb : callback_answers R (srv_callback srv) (srv_user_data srv) c
             (fun st _ _ => st <> RGPOT_SUCCESS)) :
  last_error_slot t msg ∗ (R ∗ client ↦ BRpcClient cl) ∗ input_at input i pp pa pb c ∗
    output ↦ BForceOut o ⊢
  wp t (rgpot_rpc_calculate client input output) (fun s =>
    <affine> ⌜s = RGPOT_RPC_ERROR⌝ ∗
    last_error_slot t (Some (stored_message ("rgpot_rpc_calculate: RPC call failed: " +:+
      show_capnp_error (remote_exception
        (CapnpError_failed "potential callback returned an error"))))) ∗
    (R ∗ client ↦ BRpcClient cl) ∗ input_at input i pp pa pb c ∗ output ↦ BForceOut o).
Proof.
  iIntros "H". iApply (wp_use with "H"); [by eapply rgpot_rpc_calculate_outcome|].
  iIntros (s) "($ & $ & %st & %e & %F & %r & %Hst & Hout & Hr)".
  unfold client_outcome. destruct (decide (st = RGPOT_SUCCESS)); [done|].
  iDestruct "Hout" as "(-> & $)". iDestruct "Hr" as "(-> & Hslot)". by iFrame.
Qed.

(** A callback that reports success without a forces tensor.  The server answers with an
    empty force list, so for a configuration with at least one atom the client's call
    returns [RGPOT_RPC_ERROR] with a size mismatch, although the callback succeeded; and by
    then the output's energy has already been replaced (its forces and variance have not),
    so an error does not leave the output untouched. *)
Theorem remote_success_without_forces (t : thread_id) (R : mProp) (srv : PotentialServer)
    (cl : RpcClient) (client : ptr) (c : Config) (i : rgpot_force_input_t)
    (pp pa pb input output : ptr) (o : rgpot_force_out_t) (msg : option string) (e0 : f64)
    (Hnet : Faithful srv) (Hc : config_ok c = true) (Hn : 0 < cf_n c)
    (Hcb : callback_answers R (srv_callback srv) (srv_user_data srv) c
             (fun st e F => st = RGPOT_SUCCESS /\ e = e0 /\ F = [])) :
  last_error_slot t msg ∗ (R ∗ client ↦ BRpcClient cl) ∗ input_at input i pp pa pb c ∗
    output ↦ BForceOut o ⊢
  wp t (rgpot_rpc_calculate client input output) (fun s =>
    <affine> ⌜s = RGPOT_RPC_ERROR⌝ ∗
    last_error_slot t (Some (stored_message
      ("rgpot_rpc_calculate: force array size mismatch: expected " +:+ show (3 * cf_n c) +:+
       ", got 0"))) ∗
    (R ∗ client ↦ BRpcClient cl) ∗ input_at input i pp pa pb c ∗
    output ↦ BForceOut (MkForceOut (forces o) e0 (variance o))).
Proof.
  iIntros "H". iApply (wp_use with "H"); [by eapply rgpot_rpc_calculate_outcome|].
  iIntros (s) "($ & $ & %st & %e & %F & %r & %Hst & Hout & Hr)".
  destruct Hst as (-> & -> & ->). unfold client_outcome.
  destruct (decide (RGPOT_SUCCESS = RGPOT_SUCCESS)); [|done].
  rewrite decide_False; [|simpl; lia].
  iDestruct "Hout" as "(-> & $)". iDestruct "Hr" as "(-> & Hslot)". by iFrame.
Qed.

(** The first step of a remote call that fails, given the outcomes of the network calls and
    the reply: its message, and what the caller's output struct is by then.  The energy is
    stored before the forces are read, so the last two failures come after it. *)
Definition network_error (n : Z) (rc : Result N string) (rn : Result unit string)
    (rs : Result Response CapnpError) (o : rgpot_force_out_t) :
    option (string * rgpot_force_out_t) :=
  match rc, rn, rs with
  | Err e, _, _ => Some ("connection failed: " +:+ e, o)
  | Ok _, Err e, _ => Some ("set_nodelay failed: " +:+ e, o)
  | Ok _, Ok _, Err e => Some ("RPC call failed: " +:+ show_capnp_error e, o)
  | Ok _, Ok _, Ok resp =>
      match response_get resp with
      | Err e => Some ("failed to read response: " +:+ show_capnp_error e, o)
      | Ok (Err e) => Some ("failed to get result: " +:+ show_capnp_error e, o)
      | Ok (Ok r) =>
          match get_forces r with
          | Err e => Some ("failed to read forces: " +:+ show_capnp_error e,
                           set_energy (get_energy r) o)
          | Ok F =>
              if decide (Z.of_nat (length F) = 3 * n) then None
              else Some ("force array size mismatch: expected " +:+ show (3 * n) +:+ ", got "
                         +:+ show (Z.of_nat (length F)), set_energy (get_energy r) o)
          end
      end
  end%string.

(** The reply that the client accepts when no step fails. *)
Definition accepted_reply (n : Z) (rs : Result Response CapnpError) (e : f64) (F : list f64) :
    Prop :=
  rs = Ok (MkResponse (Ok (Ok (MkPotentialResultReader e (Ok F))))) /\
  Z.of_nat (length F) = 3 * n.

(** What the client's [calculate] leaves, by the first failing step. *)
Definition network_outcome (n : Z) rc rn rs (output : ptr) (o : rgpot_force_out_t)
    (r : Result unit string) : mProp :=
  match network_error n rc rn rs o with
  | Some (m, o') => <affine> ⌜r = Err m⌝ ∗ output ↦ BForceOut o'
  | None => <affine> ⌜r = Ok tt⌝ ∗ ∃ e F fp, <affine> ⌜accepted_reply n rs e F⌝ ∗
      output ↦ BForceOut (MkForceOut fp e (variance o)) ∗ forces_tensor fp n F
  end.

(** Reading a reply, whatever of it can be read. *)
Lemma receive_result_verdict t n output o rc rn resp :
  0 <= n -> 3 * n < 2 ^ 29 ->
  output ↦ BForceOut o ⊢ wp t (receive_result n output resp)
    (network_outcome n (Ok rc) (Ok rn) (Ok resp) output o).
Proof.
  iIntros (H0 H3) "Ho". unfold network_outcome. cbn [network_error].
  destruct resp as [[[[e [F|ef]]|er]|er]].
  - cbn [response_get get_forces get_energy]. case_decide as HF.
    + iApply (wp_use with "Ho"); [by apply receive_result_spec|].
      iIntros (r) "[-> (%fp & Ho & HF)]". iSplitR; [done|]. iExists e, F, fp. by iFrame.
    + by iApply receive_mismatch_spec.
  - unfold receive_result, try_bind. cbn. do 2 (iApply wp_bind; iApply wp_ret).
    wp_call update_output_spec "Ho". iIntros (_) "Ho".
    iApply wp_bind. do 2 iApply wp_ret. by iFrame.
  - unfold receive_result, try_bind. cbn. iApply wp_bind. iApply wp_ret.
    iApply wp_bind. do 2 iApply wp_ret. by iFrame.
  - unfold receive_result, try_bind. cbn. iApply wp_bind. do 2 iApply wp_ret. by iFrame.
Qed.

(** The whole exchange, from connecting to storing the reply. *)
Lemma RpcClient_calculate_network t cl c i pp pa pb output o rc rn rs
    (Hconnect : forall rt a t σ, tcp_connect rt a t σ = Done rc σ)
    (Hnodelay : forall s b t σ, set_nodelay s b t σ = Done rn σ)
    (Hsend : forall s req t σ, send_request s req t σ = Done rs σ) :
  config_ok c = true ->
  force_input i (cf_n c) pp pa pb ∗ arrays pp pa pb c ∗ output ↦ BForceOut o ⊢
  wp t (RpcClient_calculate cl i output) (fun r =>
    force_input i (cf_n c) pp pa pb ∗ arrays pp pa pb c ∗
    network_outcome (cf_n c) rc rn rs output o r).
Proof.
  intros Hc. pose proof (config_ok_spec c Hc) as (_ & _ & H0 & H3).
  iIntros "(Hin & Harr & Ho)".
  iApply (RpcClient_calculate_reads with "[$Hin $Harr]"); [done|]. iIntros "[Hin Harr]".
  iApply (wp_wand _ _ (network_outcome (cf_n c) rc rn rs output o) with "[Ho]").
  2:{ iIntros (r) "H". iFrame. }
  unfold try_bind, map_err, network_outcome.
  iApply wp_bind. iApply wp_bind. iApply wp_done; [done|]. iApply wp_ret.
  destruct rc as [stream|e]; [|iApply wp_ret; by iFrame].
  iApply wp_bind. iApply wp_bind. iApply wp_done; [done|]. iApply wp_ret.
  destruct rn as [[]|e]; [|iApply wp_ret; by iFrame].
  iApply (wp_seq with "[]"); [by apply build_request_spec|done|]. iIntros (req) "_".
  iApply wp_bind. iApply wp_bind. iApply wp_done; [done|]. iApply wp_ret.
  destruct rs as [resp|e]; [|iApply wp_ret; by iFrame].
  by iApply (receive_result_verdict t (cf_n c) output o stream tt resp).
Qed.

(** C9: A remote call over a network that fails, at any step.  A refused connection, a failing
    socket option, a failing RPC and a reply whose result cannot be read end in
    [RGPOT_RPC_ERROR] with the message of the first failing step and leave the whole output
    struct as it was.  When the forces of the reply cannot be read, or are not three per
    atom, the status is again [RGPOT_RPC_ERROR] with that message, but the output's energy
    has by then been replaced by the energy of the reply; its forces and its variance have
    not.  When no step fails, the call succeeds and stores the reply's energy and forces.
    The input, the arrays and the client are handed back in every case. *)
Theorem remote_network_failure (t : thread_id) (cl : RpcClient) (client : ptr) (c : Config)
    (i : rgpot_force_input_t) (pp pa pb input output : ptr) (o : rgpot_force_out_t)
    (msg : option string) (rc : Result N string) (rn : Result unit string)
    (rs : Result Response CapnpError)
    (Hconnect : forall rt a t σ, tcp_connect rt a t σ = Done rc σ)
    (Hnodelay : forall s b t σ, set_nodelay s b t σ = Done rn σ)
    (Hsend : forall s req t σ, send_request s req t σ = Done rs σ)
    (Hc : config_ok c = true) :
  last_error_slot t msg ∗ client ↦ BRpcClient cl ∗ input_at input i pp pa pb c ∗
    output ↦ BForceOut o ⊢
  wp t (rgpot_rpc_calculate client input output) (fun s =>
    client ↦ BRpcClient cl ∗ input_at input i pp pa pb c ∗
    match network_error (cf_n c) rc rn rs o with
    | Some (m, o') => <affine> ⌜s = RGPOT_RPC_ERROR⌝ ∗
        last_error_slot t (Some (stored_message ("rgpot_rpc_calculate: " +:+ m))) ∗
        output ↦ BForceOut o'
    | None => <affine> ⌜s = RGPOT_SUCCESS⌝ ∗ last_error_slot t msg ∗
        ∃ e F fp, <affine> ⌜accepted_reply (cf_n c) rs e F⌝ ∗
        output ↦ BForceOut (MkForceOut fp e (variance o)) ∗ forces_tensor fp (cf_n c) F
    end).
Proof.
  iIntros "(Hslot & Hcl & (Hi & Hin & Harr) & Ho)".
  iApply (rgpot_rpc_calculate_spec with "Hcl Hi Ho"). iIntros "Hcl Hi Ho".
  iApply (wp_use with "[Hin Harr Ho]");
    [by apply (RpcClient_calculate_network t cl c i pp pa pb output o rc rn rs)|iFrame|].
  iIntros (r) "(Hin & Harr & Hout)". unfold network_outcome.
  destruct (network_error _ _ _ _ _) as [[m o']|].
  - iDestruct "Hout" as "[-> Ho]".
    iApply (wp_use with "Hslot"); [apply fail_spec|]. iIntros (s) "[-> Hslot]". by iFrame.
  - iDestruct "Hout" as "[-> Hout]". by iFrame.
Qed.

(** ** One request at the server *)

(** A request for a well-formed configuration, at the level of the whole store: whatever
    the callback answers (within a specification [φ] of status, energy and forces), the
    server's [calculate] returns the reply that belongs to that answer, and the store
    afterwards is the store before: the copied arrays, the three borrowed tensors, both
    structs and the callback's forces tensor have all been released. *)
Theorem server_call_leaves_no_trace (t : thread_id) (srv : PotentialServer) (c : Config)
    (φ : rgpot_status_t -> f64 -> list f64 -> Prop) (σ : Mem)
    (Hc : config_ok c = true) (Hwf : wf_mem σ)
    (Hcb : callback_answers emp (srv_callback srv) (srv_user_data srv) c φ) :
  exists r σ', PotentialServer_calculate srv (params_of c) t σ = Done r σ' /\
    mem_map σ' = mem_map σ /\ exists st e F, φ st e F /\ reply_is st e F r.
Proof.
  destruct (server_calculate_run t srv c φ σ Hc Hwf Hcb) as (r & σ' & Hrun & _ & Hm & Hr).
  by exists r, σ'.
Qed.

(** The first field of a request that cannot be read. *)
Definition request_error (p : CalculateParams) : option CapnpError :=
  match params_get p with
  | Err e => Some e
  | Ok (Err e) => Some e
  | Ok (Ok fip) =>
      match get_pos fip, get_atmnrs fip, get_box fip with
      | Err e, _, _ => Some e
      | Ok _, Err e, _ => Some e
      | Ok _, Ok _, Err e => Some e
      | Ok _, Ok _, Ok _ => None
      end
  end.

(** A request whose fields cannot be read is answered with the first reader error, in the
    order [fip], [pos], [atmnrs], [box], before anything is allocated and without calling
    the callback. *)
Theorem server_rejects_unreadable_request (srv : PotentialServer) (p : CalculateParams)
    (e : CapnpError) (t : thread_id) (σ : Mem) (He : request_error p = Some e) :
  PotentialServer_calculate srv p t σ = Done (Err e) σ.
Proof.
  revert He. unfold request_error, PotentialServer_calculate, pry.
  destruct (params_get p) as [[fip|e']|e']; [|by intros [= <-]..].
  destruct (get_pos fip); [|by intros [= <-]].
  destruct (get_atmnrs fip); [|by intros [= <-]].
  destruct (get_box fip); [done | by intros [= <-]].
Qed.

(** ** Sizes that nobody checks *)

Lemma not_on_cpu_false m v : shows m v -> tv_device v = cpu_device -> not_on_cpu m = false.
Proof. intros (_ & _ & Hv & _) Hdev. unfold not_on_cpu. by rewrite Hv Hdev. Qed.

(** C38: The server does not relate the lengths of the lists in a request.  When the positions
    list is shorter than three coordinates per atomic number, the positions tensor given to
    the callback claims more rows than its buffer holds: a callback that copies the tensor
    by its own shape, with the crate's own constructor, reads past the end of the buffer.
    Any peer can send such a request. *)
Theorem server_trusts_request_sizes (srv : PotentialServer) (c : Config) (t : thread_id) (σ : Mem)
    (Hcb : c_callback (srv_callback srv) (srv_user_data srv) = mirror_callback)
    (Hsmall : 3 * cf_n c < 2 ^ 29)
    (Hshort : Z.of_nat (length (cf_positions c)) < 3 * cf_n c) (Hwf : wf_mem σ) :
  PotentialServer_calculate srv (params_of c) t σ = Undefined SliceOutOfBounds.
Proof.
  eapply (stuck_run t _ _ emp σ ∅ (mem_map σ));
    [|done | done | by rewrite left_id_L | apply map_disjoint_empty_l].
  iIntros "_". unfold PotentialServer_calculate.
  cbn [pry params_get params_of get_pos get_atmnrs get_box].
  iApply (stuck_seq with "[]"); [apply server_prepare_spec|done|].
  iIntros (fl) "(%i & (%Hn & %Hl & Hi & (Htp & Hta & Htb) & Hpp & Hpa & Hpb) & Ho)".
  iApply stuck_bind. iApply stuck_extern_C. rewrite Hcb. iApply stuck_frame.
  iSplitL "Hi Htp Hpp"; [|iAccu].
  assert (0 <= cf_n c) by (unfold cf_n; lia).
  iApply (stuck_mirror t i (fl_input fl) (fl_output fl) (cf_n c) (vec_ptr (fl_pos fl)) (cf_positions c));
    [unfold is_i64; lia | unfold is_i64; lia | lia | by iFrame].
Qed.

(** C39: The client does not validate the input tensors, although the crate has the validators.
    When the atomic-numbers array is shorter than the atom count that the positions tensor
    announces, [validate_atomic_numbers] refuses the tensor, but [rgpot_rpc_calculate] does
    not ask it and reads past the end of the array (before any network access), where an
    error status was due. *)
Theorem client_trusts_tensor_sizes (t : thread_id) (client input output : ptr) (cl : RpcClient)
    (i : rgpot_force_input_t) (n k : Z) (pp pa : ptr) (xs : list f64) (zs : list Z) (b : Block)
    (Hn : 0 <= n) (Hsmall : 3 * n < 2 ^ 29) (Hpos : Z.of_nat (length xs) = 3 * n)
    (Hk : Z.of_nat (length zs) = k) (Hshort : k < n) :
  (borrowed_tensor (atomic_numbers i) (atmnrs_view pa k) ⊢
     wp t (validate_atomic_numbers (atomic_numbers i) n) (fun r => <affine> ⌜is_err r = true⌝ ∗
       borrowed_tensor (atomic_numbers i) (atmnrs_view pa k))) /\
  (client ↦ BRpcClient cl ∗ input ↦ BForceInput i ∗ output ↦ b ∗
   borrowed_tensor (positions i) (positions_view pp n) ∗ pp ↦ BF64s xs ∗
   borrowed_tensor (atomic_numbers i) (atmnrs_view pa k) ∗ pa ↦ BI32s zs ⊢
   stuck t (rgpot_rpc_calculate client input output) SliceOutOfBounds).
Proof.
  split.
  - iIntros "H". iApply (wp_use with "H"); [apply (validate_atomic_numbers_spec (T:=borrowed_tensor))|].
    iIntros (r) "(-> & $)". iPureIntro. unfold atomic_numbers_verdict. cbn.
    rewrite as_usize_as_i64; [|unfold is_usize; lia]. by rewrite decide_False; [|lia].
  - iIntros "(Hc & Hi & Ho & Hp & Hpp & Ha & Hpa)".
    iApply stuck_extern_C. iApply stuck_catch_unwind.
    iDestruct (is_null_pointsto with "Hc") as %->. iDestruct (is_null_pointsto with "Hi") as %->.
    iDestruct (is_null_pointsto with "Ho") as %->.
    iDestruct (tensor_not_null (T:=borrowed_tensor) with "Hp") as %Hpn.
    iDestruct (tensor_not_null (T:=borrowed_tensor) with "Ha") as %Han.
    iApply stuck_after. iApply (wp_view with "Hc"); [done|]. iIntros "Hc".
    iApply stuck_after. iApply (wp_view with "Hi"); [done|]. iIntros "Hi".
    iApply stuck_bind. unfold RpcClient_calculate, try_bind.
    iApply (stuck_seq with "Hp"); [by eapply (n_atoms_spec (T:=borrowed_tensor) t i)|].
    iIntros (r) "[Hp ->]". rewrite as_usize_as_i64; [|unfold is_usize; lia].
    iApply stuck_after. iApply wp_ret. iApply stuck_bind. unfold extract_cpu_input.
    rewrite (is_null_false _ Hpn) (is_null_false _ Han).
    iDestruct (tensor_open (T:=borrowed_tensor) with "Hp") as (m) "(%Hm & Hp & Hsh & Hclose)".
    iApply stuck_after. iApply (wp_view with "Hp"); [done|]. iIntros "Hp".
    rewrite (not_on_cpu_false m _ Hm) //. destruct Hm as (-> & _).
    iApply stuck_after. iApply mul_by_3; [done..|].
    iApply stuck_after. iApply (wp_from_raw_parts with "Hpp"); [done | lia |]. iIntros "Hpp".
    iDestruct (tensor_open (T:=borrowed_tensor) with "Ha") as (ma) "(%Hma & Ha & Hash & Haclose)".
    iApply stuck_after. iApply (wp_view with "Ha"); [done|]. iIntros "Ha".
    rewrite (not_on_cpu_false ma _ Hma) //. destruct Hma as (-> & _).
    iApply stuck_bind. iApply stuck_frame. iSplitL "Hpa"; [|iAccu].
    iApply (stuck_from_raw_parts with "Hpa"); [done | lia].
Qed.

(** ** The errors of the client *)

(** What stops the extraction of the input's arrays, in the order of the tests. *)
Definition tensor_error (name : string) (v : option TensorView) : option string :=
  match v with
  | None => Some (name +:+ " tensor is NULL")
  | Some v => if decide (device_type (tv_device v) = kDLCPU) then None
              else Some ("RPC requires CPU tensors; " +:+ name +:+ " is not on CPU")
  end.

(** The client only serves host memory.  For a positions tensor of any kind, any device
    other than the CPU is refused with an error text before its data is touched, and a NULL
    handle is refused as well; the answer does not depend on the other two tensors, which
    may be anything. *)
Theorem client_rejects_positions `{HT : !TensorRepr T} (t : thread_id) (i : rgpot_force_input_t)
    (n : Z) (v : option TensorView) (e : string) (He : tensor_error "positions" v = Some e) :
  handle T (positions i) v ⊢ wp t (extract_cpu_input i n)
    (fun r => <affine> ⌜r = Err e⌝ ∗ handle T (positions i) v).
Proof.
  revert He. unfold extract_cpu_input. destruct v as [v|]; simpl.
  - case_decide as Hdev; [done|]. intros [= <-]. iIntros "HT".
    iDestruct (tensor_not_null with "HT") as %Hn. rewrite (is_null_false _ Hn).
    iDestruct (tensor_open with "HT") as (m) "(%Hm & Hp & Hsh & Hclose)".
    wp_look "Hp".
    unfold not_on_cpu. destruct Hm as (_ & _ & -> & _). rewrite bool_decide_true //.
    iApply wp_ret. iSplitR; [done|]. iApply ("Hclose" with "Hp Hsh").
  - intros [= <-]. iIntros (->). by iApply wp_ret.
Qed.

(** A NULL argument is reported, and nothing else is touched. *)
Lemma rgpot_rpc_calculate_null_spec t client input output msg err :
  null_argument "rgpot_rpc_calculate"
    [("client"%string, client); ("input"%string, input); ("output"%string, output)] = Some err ->
  last_error_slot t msg ⊢
  wp t (rgpot_rpc_calculate client input output)
    (fun r => <affine> ⌜r = RGPOT_INVALID_PARAMETER⌝ ∗ last_error_slot t (Some err)).
Proof.
  intros Hnull. iIntros "H". iApply wp_extern_C. iApply wp_catch_unwind. revert Hnull.
  unfold null_argument. cbn.
  destruct (is_null client) eqn:Hp; [|destruct (is_null input) eqn:Hi;
    [|destruct (is_null output) eqn:Ho]]; cbn; try done; intros [= <-];
    iApply (wp_use with "H"); try apply fail_spec; by iIntros (a) "$".
Qed.

(** The argument checks of [rgpot_rpc_calculate]: when an argument is NULL the call returns
    [RGPOT_INVALID_PARAMETER] and the thread's message names the first NULL argument in the
    order [client], [input], [output]; no handle is dereferenced and no connection is
    made. *)
Theorem rgpot_rpc_calculate_rejects_null (t : thread_id) (σ : Mem) (client input output : ptr)
    (old err : string)
    (Hnull : null_argument "rgpot_rpc_calculate"
       [("client"%string, client); ("input"%string, input); ("output"%string, output)] = Some err)
    (Hwf : wf_mem σ) (Hslot : last_message t σ = Some old) :
  exists σ', rgpot_rpc_calculate client input output t σ = Done RGPOT_INVALID_PARAMETER σ' /\
    last_message t σ' = Some err.
Proof.
  destruct (slot_run t (rgpot_rpc_calculate client input output)
    (fun r => r = RGPOT_INVALID_PARAMETER) old err σ)
    as (a & σ' & Hrun & _ & -> & Hm); [|done..|by exists σ'].
  intros msg. by apply rgpot_rpc_calculate_null_spec.
Qed.

(** What [rgpot_rpc_client_new] does with a host string, given the outcome of creating the
    async runtime: the client's address, or the message of the failure. *)
Definition client_new_verdict (host : string) (port : Z) (rt : Result N string) :
    Result RpcClient string :=
  match to_str host with
  | Err e => Err ("rgpot_rpc_client_new: invalid host string: " +:+ show_utf8_error e)
  | Ok h =>
      match rt with
      | Err e => Err ("rgpot_rpc_client_new: failed to create tokio runtime: " +:+ e)
      | Ok rt => Ok (MkRpcClient rt (h +:+ ":" +:+ show port))
      end
  end%string.

Lemma runtime_new_spec t rt Q : (forall t σ, runtime_new t σ = Done rt σ) -> Q rt ⊢ wp t runtime_new Q.
Proof. intros Hrt. by apply wp_done. Qed.

Lemma rgpot_rpc_client_new_spec (t : thread_id) (host : ptr) (text : string) (port : Z)
    (rt : Result N string) (msg : option string)
    (Hrt : forall t σ, runtime_new t σ = Done rt σ) :
  last_error_slot t msg ∗ host ↦ BCStr text ⊢
  wp t (rgpot_rpc_client_new host port) (fun p => host ↦ BCStr text ∗
    match client_new_verdict text port rt with
    | Ok cl => last_error_slot t msg ∗ p ↦ BRpcClient cl
    | Err e => <affine> ⌜p = null⌝ ∗ last_error_slot t (Some (stored_message e))
    end).
Proof.
  iIntros "[Hslot Hh]". iApply wp_extern_C. iDestruct (is_null_pointsto with "Hh") as %->.
  wp_call cstr_from_ptr_spec "Hh". iIntros (s) "[Hh ->]".
  unfold client_new_verdict. destruct (to_str text) as [h|e].
  2:{ wp_call set_last_error_spec "Hslot". iIntros (_) "Hslot".
      iApply wp_ret. by iFrame. }
  unfold RpcClient_new, try_bind, map_err. iApply wp_bind. iApply wp_bind. iApply wp_bind.
  iApply wp_done; [done|]. iApply wp_ret. destruct rt as [rt|e].
  - iApply wp_ret. iApply wp_alloc. iIntros (p) "Hp". iFrame.
  - iApply wp_ret. wp_call set_last_error_spec "Hslot". iIntros (_) "Hslot".
    iApply wp_ret. by iFrame.
Qed.

(** [rgpot_rpc_client_new] on a host string: a handle whose address is "host:port" when
    the text is UTF-8 and the runtime starts, and otherwise NULL with the message of the
    failing step.  No connection is attempted: the address need not resolve, so a handle is
    no evidence of a reachable server.  The caller's string is left alone. *)
Theorem rgpot_rpc_client_new_verdict (t : thread_id) (host : ptr) (text : string) (port : Z)
    (rt : Result N string) (msg : option string)
    (Hrt : forall t σ, runtime_new t σ = Done rt σ) :
  last_error_slot t msg ∗ host ↦ BCStr text ⊢
  wp t (rgpot_rpc_client_new host port) (fun p => host ↦ BCStr text ∗
    match client_new_verdict text port rt with
    | Ok cl => last_error_slot t msg ∗ p ↦ BRpcClient cl
    | Err e => <affine> ⌜p = null⌝ ∗ last_error_slot t (Some (stored_message e))
    end).
Proof. by apply rgpot_rpc_client_new_spec. Qed.

(** Freeing a client shuts its runtime down. *)
Lemma rgpot_rpc_client_free_spec t p cl P :
  (P ⊢ wp t (runtime_drop (runtime cl)) (fun _ => emp)) ->
  p ↦ BRpcClient cl ∗ P ⊢ wp t (rgpot_rpc_client_free p) (fun _ => emp).
Proof.
  iIntros (Hdrop) "[Hp HP]". iApply wp_extern_C.
  iDestruct (is_null_pointsto with "Hp") as %->. cbn [negb]. wp_look "Hp".
  iApply (wp_seq with "HP"); [done|]. iIntros (_) "_". by iApply (wp_dealloc with "Hp").
Qed.

(** Life cycle of a client handle: creating a client for an ASCII host and freeing it shuts
    the runtime down and releases everything, and the thread's message is not touched. *)
Theorem rpc_client_life_cycle (t : thread_id) (host : ptr) (text : string) (port : Z) (rt : N)
    (msg : option string) (P : mProp)
    (Htext : forallb (fun b => b <? 128) (bytes_of text) = true)
    (Hrt : forall t σ, runtime_new t σ = Done (Ok rt) σ)
    (Hdrop : P ⊢ wp t (runtime_drop rt) (fun _ => emp)) :
  last_error_slot t msg ∗ host ↦ BCStr text ∗ P ⊢
  wp t (c ← rgpot_rpc_client_new host port; rgpot_rpc_client_free c) (fun _ =>
    last_error_slot t msg ∗ host ↦ BCStr text).
Proof.
  iIntros "(Hslot & Hh & HP)". iApply (wp_seq with "[Hslot Hh]");
    [by apply (rgpot_rpc_client_new_spec t host text port (Ok rt) msg)|iFrame|].
  iIntros (p) "[Hh H]". unfold client_new_verdict. rewrite to_str_ascii //.
  iDestruct "H" as "[Hslot Hp]". iApply (wp_use with "[Hp HP]");
    [by apply (rgpot_rpc_client_free_spec t p (MkRpcClient rt (host_port text port)) P)|iFrame|]. iIntros (_) "_". iFrame.
Qed.

(** ** Starting the server *)

(** Reporting a message and stopping. *)
Lemma stop_spec t msg m st :
  last_error_slot t msg ⊢
  wp t (set_last_error m;; mret (Stopped st) : M ServerState)
    (fun r => <affine> ⌜r = Stopped st⌝ ∗ last_error_slot t (Some (stored_message m))).
Proof.
  iIntros "H". wp_call set_last_error_spec "H".
  iIntros (_) "H". iApply wp_ret. by iFrame.
Qed.

(** The server's own panic guard is transparent to a specified body. *)
Lemma wp_guard t (x : M ServerState) Q :
  wp t x Q ⊢ wp t (fun t m =>
    match x t m with
    | Panicked e m' =>
        (set_last_error (panic_message e);; mret (Stopped RGPOT_INTERNAL_ERROR)) t m'
    | r => r
    end) Q.
Proof.
  constructor. intros h H σ hf Hwf Hm Hd.
  destruct (H σ hf Hwf Hm Hd) as (a & σ' & h' & Hx & ?).
  exists a, σ', h'. split; [|done]. by rewrite Hx.
Qed.


(** The connections that accepted streams turn into. *)
Definition served_by (p : PotentialImpl) (streams : list N) : list (N * PotentialServer) :=
  (fun s => (s, MkPotentialServer (callback p) (user_data p))) <$> streams.

(** The accept loop.  After any number of accepted connections the server is still serving
    all of them, in the order of their arrival, every one with the callback and the user
    data of the same potential; a failing [set_nodelay] is ignored; and the first failing
    accept ends the server with [RGPOT_RPC_ERROR] and the accept error as the message,
    whatever would have come later. *)
Theorem accept_loop_serves (t : thread_id) (p : PotentialImpl) (streams : list N)
    (later : list (Result N string)) (e : string) (msg : option string)
    (Hnodelay : forall s b t σ, exists r, set_nodelay s b t σ = Done r σ) :
  (emp ⊢ wp t (accept_loop p (Ok <$> streams) [])
     (fun r => <affine> ⌜r = Serving (served_by p streams)⌝)) /\
  (last_error_slot t msg ⊢ wp t (accept_loop p ((Ok <$> streams) ++ Err e :: later) [])
     (fun r => <affine> ⌜r = Stopped RGPOT_RPC_ERROR⌝ ∗
        last_error_slot t (Some (stored_message ("accept failed: " +:+ e))))).
Proof.
  assert (forall s σ (k : Result unit string -> M ServerState) x,
    (forall r, k r t σ = x) -> (set_nodelay s true ≫= k) t σ = x) as Hnd.
  { intros s σ k x Hk. destruct (Hnodelay s true t σ) as [r Hr].
    unfold mbind, M_bind. by rewrite Hr. }
  assert (forall rest conns σ, accept_loop p ((Ok <$> streams) ++ rest) conns t σ
    = accept_loop p rest (conns ++ served_by p streams) t σ) as Hloop.
  { induction streams as [|s streams IH]; intros rest conns σ; simpl.
    - by rewrite app_nil_r.
    - apply Hnd. intros _. by rewrite IH -app_assoc. }
  split.
  - iIntros "_". iApply (wp_ext _ _ (mret (Serving (served_by p streams)))); [|by iApply wp_ret].
    intros σ. by rewrite -(app_nil_r (Ok <$> streams)) Hloop.
  - iIntros "Hslot". iApply (wp_ext _ _ _ _ (Hloop _ [])). cbn [accept_loop].
    wp_call set_last_error_spec "Hslot". iIntros (_) "Hslot".
    iApply wp_ret. by iFrame.
Qed.

(** The steps of [rgpot_rpc_server_start] before the accept loop: the first one that fails
    decides the status and the message. *)
Definition server_start_verdict (host : string) (port : Z) (rt bound : Result N string) :
    option (rgpot_status_t * string) :=
  match to_str host with
  | Err e => Some (RGPOT_INVALID_PARAMETER, "invalid host string: " +:+ show_utf8_error e)
  | Ok h =>
      match rt, bound with
      | Err e, _ => Some (RGPOT_INTERNAL_ERROR, "failed to create runtime: " +:+ e)
      | Ok _, Err e =>
          Some (RGPOT_RPC_ERROR, "failed to bind " +:+ host_port h port +:+ ": " +:+ e)
      | Ok _, Ok _ => None
      end
  end%string.

(** Failures of [rgpot_rpc_server_start] before it serves: a host that is not UTF-8 is an
    invalid parameter, a runtime that cannot start is an internal error and an address that
    cannot be bound is an RPC error; in each case the call returns that status with the
    message of the failing step, whatever connections would have come, and the potential
    and the host string are left alone. *)
Theorem server_start_failures (t : thread_id) (pot host : ptr) (p : PotentialImpl)
    (text : string) (port : Z) (events : list (Result N string)) (rt bound : Result N string)
    (st : rgpot_status_t) (e : string) (msg : option string)
    (Hrt : forall t σ, runtime_new t σ = Done rt σ)
    (Hbind : forall r a t σ, tcp_bind r a t σ = Done bound σ)
    (Hdrop : forall r t σ, runtime_drop r t σ = Done tt σ)
    (Hfail : server_start_verdict text port rt bound = Some (st, e)) :
  last_error_slot t msg ∗ pot ↦ BPotential p ∗ host ↦ BCStr text ⊢
  wp t (rgpot_rpc_server_start pot host port events) (fun r => <affine> ⌜r = Stopped st⌝ ∗
    last_error_slot t (Some (stored_message e)) ∗ pot ↦ BPotential p ∗ host ↦ BCStr text).
Proof.
  iIntros "(Hslot & Hp & Hh)". iApply wp_extern_C. iApply wp_guard. unfold server_body.
  iDestruct (is_null_pointsto with "Hp") as %->. iDestruct (is_null_pointsto with "Hh") as %->.
  wp_look "Hp".
  wp_call cstr_from_ptr_spec "Hh". iIntros (s) "[Hh ->]".
  revert Hfail. unfold server_start_verdict.
  destruct (to_str text) as [h|u]; [destruct rt as [rt|u]; [destruct bound as [b|u]|]|];
    intros Hfail; try done; injection Hfail as <- <-.
  - iApply wp_bind. iApply wp_done; [done|]. iApply wp_bind. iApply wp_done; [done|].
    iApply wp_bind. iApply (wp_use with "Hslot"); [apply stop_spec|].
    iIntros (r) "(-> & Hslot)". iApply wp_bind. iApply wp_done; [done|].
    iApply wp_ret. by iFrame.
  - iApply wp_bind. iApply wp_done; [done|].
    iApply (wp_use with "Hslot"); [apply stop_spec|]. iIntros (r) "($ & $)". iFrame.
  - iApply (wp_use with "Hslot"); [apply stop_spec|]. iIntros (r) "($ & $)". iFrame.
Qed.

(** The argument checks of [rgpot_rpc_server_start]: a NULL potential, or else a NULL host,
    is reported as [RGPOT_INVALID_PARAMETER] with a message that names it, before any
    network resource is created. *)
Theorem server_start_rejects_null (t : thread_id) (σ : Mem) (pot host : ptr) (port : Z)
    (events : list (Result N string)) (old err : string)
    (Hnull : null_argument "rgpot_rpc_server_start"
       [("pot"%string, pot); ("host"%string, host)] = Some err)
    (Hwf : wf_mem σ) (Hslot : last_message t σ = Some old) :
  exists σ', rgpot_rpc_server_start pot host port events t σ =
      Done (Stopped RGPOT_INVALID_PARAMETER) σ' /\ last_message t σ' = Some err.
Proof.
  destruct (slot_run t (rgpot_rpc_server_start pot host port events)
    (fun r => r = Stopped RGPOT_INVALID_PARAMETER) old err σ)
    as (a & σ' & Hrun & _ & -> & Hm); [|done..|by exists σ'].
  intros msg. iIntros "H". iApply wp_extern_C. iApply wp_guard. unfold server_body.
  revert Hnull. unfold null_argument. cbn.
  destruct (is_null pot) eqn:Hp; [|destruct (is_null host) eqn:Hh]; cbn; try done;
    intros [= <-]; (iApply (wp_seq with "H"); [apply set_last_error_spec|]);
    iIntros (_) "H"; iApply wp_ret; by iFrame.
Qed.
End theorems.

(** ** Concrete instances of the theorems

    The debug profile, the C side of [Callbacks], a loopback transport to a server thread 1. *)

Definition demo_c : CCode := c_code (profile:=debug_profile) (dlpack:=dlpack_header).
Definition demo_server (cb : fnptr) : PotentialServer := MkPotentialServer cb null.
Definition demo_network (cb : fnptr) : Network (errors:=text_errors) (lists:=plain_lists) :=
  loopback (profile:=debug_profile) (ccode:=demo_c) (demo_server cb) 1%N.

(** Two atoms in a unit cell. *)
Definition demo_config : Config :=
  MkConfig [0; 0; 0; 1; 1; 1] [1; 8] [1; 0; 0; 0; 1; 0; 0; 0; 1].
Definition demo_client : RpcClient := MkRpcClient 0%N "localhost:12345".

(** The demo network is faithful, and its callbacks answer as stated. *)
Lemma demo_faithful cb : Faithful (profile:=debug_profile)
  (ccode:=demo_c) (network:=demo_network cb) (demo_server cb).
Proof.
  exact (loopback_faithful (profile:=debug_profile) (ccode:=demo_c) (errors:=text_errors)
    (lists:=plain_lists) (demo_server cb) 1%N).
Qed.

Lemma remote_evaluation_equals_local_witness :
  (forall pot fr, evaluates (ccode:=demo_c)
     (emp ∗ pot ↦ BPotential (MkPotentialImpl 1%N null fr))
     (rgpot_potential_calculate (ccode:=demo_c) pot) mirror_potential
     (fun _ v' => v' = mirror_variance)) /\
  (forall client cl, evaluates (ccode:=demo_c)
     (emp ∗ client ↦ BRpcClient cl)
     (rgpot_rpc_calculate (profile:=debug_profile) (dlpack:=dlpack_header)
        (network:=demo_network 1%N) client) mirror_potential eq).
Proof.
  apply (remote_evaluation_equals_local (profile:=debug_profile) (dlpack:=dlpack_header)
    (ccode:=demo_c) (network:=demo_network 1%N) emp (demo_server 1%N) mirror_potential
    (fun _ v' => v' = mirror_variance)).
  - exact (mirror_evaluates (profile:=debug_profile) (dlpack:=dlpack_header) demo_c).
  - exact (demo_faithful 1%N).
Defined.

Lemma remote_callback_failure_witness :
  last_error_slot 0%N None ∗ (emp ∗ 5%N ↦ BRpcClient demo_client) ∗
    input_at 6%N (MkForceInput 1%N 2%N 3%N) 10%N 11%N 12%N demo_config ∗
    7%N ↦ BForceOut (MkForceOut null 5 6) ⊢
  wp 0%N (rgpot_rpc_calculate (profile:=debug_profile) (dlpack:=dlpack_header)
      (network:=demo_network 3%N) 5%N 6%N 7%N) (fun s =>
    <affine> ⌜s = RGPOT_RPC_ERROR⌝ ∗
    last_error_slot 0%N (Some
      ("rgpot_rpc_calculate: RPC call failed: remote exception: "
        +:+ "potential callback returned an error")%string) ∗
    (emp ∗ 5%N ↦ BRpcClient demo_client) ∗
    input_at 6%N (MkForceInput 1%N 2%N 3%N) 10%N 11%N 12%N demo_config ∗
    7%N ↦ BForceOut (MkForceOut null 5 6)).
Proof.
  apply (remote_callback_failure (profile:=debug_profile) (dlpack:=dlpack_header)
    (ccode:=demo_c) (network:=demo_network 3%N) 0%N emp (demo_server 3%N) demo_client 5%N
    demo_config (MkForceInput 1%N 2%N 3%N) 10%N 11%N 12%N 6%N 7%N (MkForceOut null 5 6) None).
  - apply demo_faithful.
  - done.
  - exact (failing_answers (profile:=debug_profile) (dlpack:=dlpack_header) null demo_config).
Defined.

Lemma remote_success_without_forces_witness :
  last_error_slot 0%N None ∗ (emp ∗ 5%N ↦ BRpcClient demo_client) ∗
    input_at 6%N (MkForceInput 1%N 2%N 3%N) 10%N 11%N 12%N demo_config ∗
    7%N ↦ BForceOut (MkForceOut null 5 6) ⊢
  wp 0%N (rgpot_rpc_calculate (profile:=debug_profile) (dlpack:=dlpack_header)
      (network:=demo_network 2%N) 5%N 6%N 7%N) (fun s =>
    <affine> ⌜s = RGPOT_RPC_ERROR⌝ ∗
    last_error_slot 0%N (Some
      "rgpot_rpc_calculate: force array size mismatch: expected 6, got 0"%string) ∗
    (emp ∗ 5%N ↦ BRpcClient demo_client) ∗
    input_at 6%N (MkForceInput 1%N 2%N 3%N) 10%N 11%N 12%N demo_config ∗
    7%N ↦ BForceOut (MkForceOut null 42 6)).
Proof.
  apply (remote_success_without_forces (profile:=debug_profile) (dlpack:=dlpack_header)
    (ccode:=demo_c) (network:=demo_network 2%N) 0%N emp (demo_server 2%N) demo_client 5%N
    demo_config (MkForceInput 1%N 2%N 3%N) 10%N 11%N 12%N 6%N 7%N (MkForceOut null 5 6) None
    mirror_energy).
  - apply demo_faithful.
  - done.
  - done.
  - exact (energy_only_answers (profile:=debug_profile) (dlpack:=dlpack_header) null demo_config).
Defined.

(** Nobody listens. *)
Definition silent_network : Network (errors:=text_errors) (lists:=plain_lists) := {|
  runtime_new := mret (Ok 0%N);
  runtime_drop _ := mret tt;
  tcp_connect _ _ := mret (Err "refused"%string);
  set_nodelay _ _ := mret (Ok tt);
  send_request _ _ := mret (Err ("closed"%string : CapnpError (CapnpErrors:=text_errors)));
  tcp_bind _ _ := mret (Ok 0%N);
|}.

(** A server whose reply has an energy and a force list that cannot be read. *)
Definition torn_reply : Response (errors:=text_errors) :=
  MkResponse (errors:=text_errors) (Ok (Ok (MkPotentialResultReader (errors:=text_errors) 9
    (Err "bad pointer"%string)))).

Definition torn_network : Network (errors:=text_errors) (lists:=plain_lists) := {|
  runtime_new := mret (Ok 0%N);
  runtime_drop _ := mret tt;
  tcp_connect _ _ := mret (Ok 0%N);
  set_nodelay _ _ := mret (Ok tt);
  send_request _ _ := mret (Ok torn_reply);
  tcp_bind _ _ := mret (Ok 0%N);
|}.

(** The refused connection leaves the output alone; the torn reply has replaced its energy. *)
Lemma remote_network_failure_witness :
  let before := (last_error_slot 0%N None ∗ 5%N ↦ BRpcClient demo_client ∗
    input_at 6%N (MkForceInput 1%N 2%N 3%N) 10%N 11%N 12%N demo_config ∗
    7%N ↦ BForceOut (MkForceOut null 5 6))%I in
  let after (m : string) (e : f64) (s : rgpot_status_t) := (
    5%N ↦ BRpcClient demo_client ∗
    input_at 6%N (MkForceInput 1%N 2%N 3%N) 10%N 11%N 12%N demo_config ∗
    <affine> ⌜s = RGPOT_RPC_ERROR⌝ ∗
    last_error_slot 0%N (Some m) ∗ 7%N ↦ BForceOut (MkForceOut null e 6))%I in
  (before ⊢ wp 0%N (rgpot_rpc_calculate (profile:=debug_profile) (dlpack:=dlpack_header)
      (network:=silent_network) 5%N 6%N 7%N)
      (after "rgpot_rpc_calculate: connection failed: refused"%string 5)) /\
  (before ⊢ wp 0%N (rgpot_rpc_calculate (profile:=debug_profile) (dlpack:=dlpack_header)
      (network:=torn_network) 5%N 6%N 7%N)
      (after "rgpot_rpc_calculate: failed to read forces: bad pointer"%string 9)).
Proof.
  split.
  - apply (remote_network_failure (profile:=debug_profile) (dlpack:=dlpack_header)
      (ccode:=no_c_code) (network:=silent_network) 0%N demo_client 5%N
      demo_config (MkForceInput 1%N 2%N 3%N) 10%N 11%N 12%N 6%N 7%N (MkForceOut null 5 6) None
      (Err "refused"%string) (Ok tt)
      (Err ("closed"%string : CapnpError (CapnpErrors:=text_errors)))); done.
  - apply (remote_network_failure (profile:=debug_profile) (dlpack:=dlpack_header)
      (ccode:=no_c_code) (network:=torn_network) 0%N demo_client 5%N
      demo_config (MkForceInput 1%N 2%N 3%N) 10%N 11%N 12%N 6%N 7%N (MkForceOut null 5 6) None
      (Ok 0%N) (Ok tt) (Ok torn_reply)); done.
Defined.

Lemma server_call_leaves_no_trace_witness :
  exists r σ', PotentialServer_calculate (profile:=debug_profile)
      (ccode:=demo_c) (errors:=text_errors) (lists:=plain_lists) (demo_server 3%N)
      (params_of demo_config) 0%N initial_mem = Done r σ' /\
    mem_map σ' = mem_map initial_mem /\ exists st e F, st <> RGPOT_SUCCESS /\
    reply_is (errors:=text_errors) (lists:=plain_lists) st e F r.
Proof.
  apply (server_call_leaves_no_trace (profile:=debug_profile)
    (ccode:=demo_c) (errors:=text_errors) (lists:=plain_lists) 0%N (demo_server 3%N)
    demo_config (fun st _ _ => st <> RGPOT_SUCCESS) initial_mem).
  - done.
  - apply initial_mem_wf.
  - exact (failing_answers (profile:=debug_profile) (dlpack:=dlpack_header) null demo_config).
Defined.

Lemma server_rejects_unreadable_request_witness :
  PotentialServer_calculate (profile:=debug_profile) (ccode:=demo_c) (errors:=text_errors)
    (lists:=plain_lists) (demo_server 1%N)
    (MkCalculateParams (errors:=text_errors) (Ok (Ok (MkForceInputReader (errors:=text_errors) (Ok []) (Err "no list"%string) (Ok [])))))
    0%N initial_mem = Done (Err "no list"%string) initial_mem.
Proof.
  by apply (server_rejects_unreadable_request (profile:=debug_profile)
    (ccode:=demo_c) (errors:=text_errors) (lists:=plain_lists)).
Defined.

(** One atom without coordinates. *)
Lemma server_trusts_request_sizes_witness :
  PotentialServer_calculate (profile:=debug_profile)
    (ccode:=demo_c) (errors:=text_errors) (lists:=plain_lists) (demo_server 1%N)
    (params_of (MkConfig [] [1] [])) 0%N initial_mem = Undefined SliceOutOfBounds.
Proof.
  apply (server_trusts_request_sizes (profile:=debug_profile) (dlpack:=dlpack_header)
    (ccode:=demo_c) (errors:=text_errors) (lists:=plain_lists) (demo_server 1%N)
    (MkConfig [] [1] [])); [done | done | done | apply initial_mem_wf].
Defined.

(** Two atoms announced, one atomic number given. *)
Lemma client_trusts_tensor_sizes_witness :
  (borrowed_tensor 2%N (atmnrs_view 11%N 1) ⊢
     wp 0%N (validate_atomic_numbers (dlpack:=dlpack_header) 2%N 2) (fun r =>
       <affine> ⌜is_err r = true⌝ ∗ borrowed_tensor 2%N (atmnrs_view 11%N 1))) /\
  (5%N ↦ BRpcClient demo_client ∗ 6%N ↦ BForceInput (MkForceInput 1%N 2%N 3%N) ∗
   7%N ↦ BForceOut (MkForceOut null 0 0) ∗
   borrowed_tensor 1%N (positions_view 10%N 2) ∗ 10%N ↦ BF64s [0; 0; 0; 1; 1; 1] ∗
   borrowed_tensor 2%N (atmnrs_view 11%N 1) ∗ 11%N ↦ BI32s [1] ⊢
   stuck 0%N (rgpot_rpc_calculate (profile:=debug_profile) (dlpack:=dlpack_header)
     (network:=demo_network 1%N) 5%N 6%N 7%N) SliceOutOfBounds).
Proof.
  apply (client_trusts_tensor_sizes (profile:=debug_profile) (dlpack:=dlpack_header)
    (ccode:=demo_c) (network:=demo_network 1%N) 0%N 5%N 6%N 7%N demo_client
    (MkForceInput 1%N 2%N 3%N) 2 1 10%N 11%N [0; 0; 0; 1; 1; 1] [1]
    (BForceOut (MkForceOut null 0 0))); done.
Defined.

Lemma client_rejects_positions_witness :
  borrowed_tensor 5%N (MkView 9%N dtype_f64 (MkDLDevice (kDLOtherDevice 2) 0) [4; 3]) ⊢
  wp 0%N (extract_cpu_input (profile:=debug_profile) (MkForceInput 5%N null null) 4) (fun r =>
    <affine> ⌜r = Err "RPC requires CPU tensors; positions is not on CPU"%string⌝ ∗
    borrowed_tensor 5%N (MkView 9%N dtype_f64 (MkDLDevice (kDLOtherDevice 2) 0) [4; 3])).
Proof.
  by apply (client_rejects_positions (profile:=debug_profile) (ccode:=demo_c)
    (T:=borrowed_tensor) 0%N (MkForceInput 5%N null null) 4
    (Some (MkView 9%N dtype_f64 (MkDLDevice (kDLOtherDevice 2) 0) [4; 3]))).
Defined.

Lemma rgpot_rpc_calculate_rejects_null_witness :
  exists σ', rgpot_rpc_calculate (profile:=debug_profile) (dlpack:=dlpack_header)
      (network:=demo_network 1%N) null 6%N null 0%N initial_mem
      = Done RGPOT_INVALID_PARAMETER σ' /\
    last_message 0%N σ' = Some "rgpot_rpc_calculate: client is NULL"%string.
Proof.
  apply (rgpot_rpc_calculate_rejects_null (profile:=debug_profile) (dlpack:=dlpack_header)
    (network:=demo_network 1%N) 0%N initial_mem null 6%N null ""); [done | apply initial_mem_wf | done].
Defined.

(** A lone continuation byte is not UTF-8. *)
Definition bad_host : string := String (Ascii.ascii_of_N 104) (String (Ascii.ascii_of_N 128) "").

Lemma rgpot_rpc_client_new_verdict_witness :
  last_error_slot 0%N None ∗ 5%N ↦ BCStr bad_host ⊢
  wp 0%N (rgpot_rpc_client_new (network:=demo_network 1%N) 5%N 80) (fun p =>
    5%N ↦ BCStr bad_host ∗ <affine> ⌜p = null⌝ ∗ last_error_slot 0%N (Some
      "rgpot_rpc_client_new: invalid host string: invalid utf-8 sequence of 1 bytes from index 1"%string)).
Proof.
  exact (rgpot_rpc_client_new_verdict (network:=demo_network 1%N) 0%N 5%N bad_host 80 (Ok 0%N)
    None (fun _ _ => eq_refl)).
Defined.

Lemma rpc_client_life_cycle_witness :
  last_error_slot 0%N None ∗ 5%N ↦ BCStr "localhost" ∗ emp ⊢
  wp 0%N (c ← rgpot_rpc_client_new (network:=demo_network 1%N) 5%N 80;
          rgpot_rpc_client_free (network:=demo_network 1%N) c) (fun _ =>
    last_error_slot 0%N None ∗ 5%N ↦ BCStr "localhost").
Proof.
  apply (rpc_client_life_cycle (network:=demo_network 1%N) 0%N 5%N "localhost" 80 0%N None emp);
    [done | done |].
  iIntros "_". by iApply wp_ret.
Defined.

Lemma accept_loop_serves_witness :
  (emp ⊢ wp 0%N (accept_loop (network:=demo_network 1%N) (MkPotentialImpl 1%N null None)
       [Ok 4%N; Ok 5%N] [])
     (fun r => <affine> ⌜r = Serving [(4%N, demo_server 1%N); (5%N, demo_server 1%N)]⌝)) /\
  (last_error_slot 0%N None ⊢ wp 0%N (accept_loop (network:=demo_network 1%N)
       (MkPotentialImpl 1%N null None) [Ok 4%N; Ok 5%N; Err "closed"%string; Ok 6%N] [])
     (fun r => <affine> ⌜r = Stopped RGPOT_RPC_ERROR⌝ ∗
        last_error_slot 0%N (Some "accept failed: closed"%string))).
Proof.
  apply (accept_loop_serves (network:=demo_network 1%N) 0%N (MkPotentialImpl 1%N null None)
    [4%N; 5%N] [Ok 6%N] "closed" None).
  intros s b t σ. by eexists.
Defined.

(** The address is in use. *)
Definition busy_network : Network (errors:=text_errors) (lists:=plain_lists) := {|
  runtime_new := mret (Ok 0%N);
  runtime_drop _ := mret tt;
  tcp_connect _ _ := mret (Err "refused"%string);
  set_nodelay _ _ := mret (Err "closed"%string);
  send_request _ _ := mret (Err ("closed"%string : CapnpError (CapnpErrors:=text_errors)));
  tcp_bind _ _ := mret (Err "address in use"%string);
|}.

Lemma server_start_failures_witness :
  last_error_slot 0%N None ∗ 5%N ↦ BPotential (MkPotentialImpl 1%N null None) ∗
    6%N ↦ BCStr "localhost" ⊢
  wp 0%N (rgpot_rpc_server_start (network:=busy_network) 5%N 6%N 80 [Ok 1%N]) (fun r =>
    <affine> ⌜r = Stopped RGPOT_RPC_ERROR⌝ ∗
    last_error_slot 0%N (Some "failed to bind localhost:80: address in use"%string) ∗
    5%N ↦ BPotential (MkPotentialImpl 1%N null None) ∗ 6%N ↦ BCStr "localhost").
Proof.
  apply (server_start_failures (network:=busy_network) 0%N 5%N 6%N (MkPotentialImpl 1%N null None)
    "localhost" 80 [Ok 1%N] (Ok 0%N) (Err "address in use"%string) RGPOT_RPC_ERROR
    "failed to bind localhost:80: address in use" None); done.
Defined.

Lemma server_start_rejects_null_witness :
  exists σ', rgpot_rpc_server_start (network:=busy_network) 5%N null 80 [] 0%N initial_mem
      = Done (Stopped RGPOT_INVALID_PARAMETER) σ' /\
    last_message 0%N σ' = Some "rgpot_rpc_server_start: host is NULL"%string.
Proof.
  apply (server_start_rejects_null (network:=busy_network) 0%N initial_mem 5%N null 80 [] "");
    [done | apply initial_mem_wf | done].
Defined.
