(* ===== verification/RpcPeers.v ===== *)
(** * RpcPeers: clients among peers that may answer anything

    A client talks to whatever listens at its address.  Here nothing is known about the
    replies: an error, an unreadable message, or any energy with any number of forces.  The
    runtime and the network leave the client's store alone ([silent]); sending a request may
    run code that works with resources [R]. *)
From S2P Require Import Prelude Machine Objects Memory HeapLogic Status Strides Tensor TensorSpec.
From S2P Require Import ForceTypes Potential Utf8 RpcEnv RpcClient RpcServer RpcSpec RpcTheorems.
From iris.proofmode Require Import proofmode.
Open Scope Z_scope.

Section peers.
  Context {profile : Target} {dlpack : Dlpack} {ccode : CCode}
    {errors : CapnpErrors} {lists : CapnpLists} {network : Network}.

(** ** Peers *)

(** A computation that ends and leaves every store as it was. *)
Definition silent {A} (x : M A) : Prop := forall t, emp ⊢ wp t x (fun _ => emp).

(** A request that carries a configuration. *)
Definition carries (c : Config) (req : CalculateRequest) : Prop :=
  list_values (req_pos req) = cf_positions c /\
  list_values (req_atmnrs req) = cf_atomic_numbers c /\ list_values (req_box req) = cf_box c.

Record Peers (R : mProp) (cs : list Config) : Prop := {
  peers_runtime : silent runtime_new;
  peers_drop rt : silent (runtime_drop rt);
  peers_connect rt a : silent (tcp_connect rt a);
  peers_nodelay s b : silent (set_nodelay s b);
  peers_send t s c req : c ∈ cs -> carries c req -> R ⊢ wp t (send_request s req) (fun _ => R);
}.

(** A server behind a faithful transport is a peer. *)
Lemma faithful_peers (R : mProp) (cs : list Config) (srv : PotentialServer) :
  Faithful srv -> silent runtime_new -> (forall rt, silent (runtime_drop rt)) ->
  (forall c, c ∈ cs -> config_ok c = true /\
     exists φ, callback_answers R (srv_callback srv) (srv_user_data srv) c φ) ->
  Peers R cs.
Proof.
  intros Hnet Hrt Hdrop Hcs. split; [done|done|..].
  - intros rt a t. destruct (faithful_connect srv Hnet rt a) as [s Hs]. iIntros "H".
    by iApply wp_done.
  - intros s b t. iIntros "H". iApply wp_done; [|done]. intros σ. apply (faithful_nodelay srv Hnet).
  - intros t s c req Hc (Hp & Ha & Hb). destruct (Hcs c Hc) as [Hok [φ Hcb]]. iIntros "HR".
    iApply (wp_use with "HR"); [by eapply send_request_spec|]. by iIntros (r) "[$ _]".
Qed.

(** ** The client's entry points *)

Context (R : mProp) (cs : list Config) (Hpeers : Peers R cs).

Definition some_message (t : thread_id) : mProp := ∃ msg, last_error_slot t msg.

(** The forces field of an output that the client may hold: NULL, or a tensor. *)
Definition some_output (output : ptr) (n : Z) : mProp :=
  ∃ o F, output ↦ BForceOut o ∗ maybe_forces (forces o) n F.

Lemma output_kept output n o :
  forces o = null -> output ↦ BForceOut o ⊢ some_output output n.
Proof. iIntros (Ho) "H". iExists o, []. rewrite Ho. by iFrame. Qed.

Lemma receive_any t n output o resp :
  0 <= n -> 3 * n < 2 ^ 29 -> forces o = null ->
  output ↦ BForceOut o ⊢ wp t (receive_result n output resp) (fun _ => some_output output n).
Proof.
  intros H0 H3 Ho. destruct resp as [[[[e [F|err]]|err]|err]].
  - iIntros "H". destruct (decide (Z.of_nat (length F) = 3 * n)) as [HF|HF].
    + iApply (wp_use with "H"); [by apply receive_result_spec|]. iIntros (r) "(_ & %fp & H & HT)".
      iDestruct (forces_tensor_not_null with "HT") as %Hn.
      iExists _, F. iFrame "H". unfold maybe_forces. cbn [forces]. by rewrite is_null_false.
    + iApply (wp_use with "H"); [by apply receive_mismatch_spec|]. iIntros (r) "[_ H]".
      by iApply (output_kept with "H").
  - iIntros "H". unfold receive_result, try_bind. cbn.
    iApply wp_bind. iApply wp_ret. iApply wp_bind. iApply wp_ret.
    wp_call update_output_spec "H". iIntros (_) "H".
    iApply wp_bind. iApply wp_ret. iApply wp_ret. by iApply (output_kept with "H").
  - iIntros "H". iApply wp_bind. iApply wp_ret. iApply wp_bind. iApply wp_ret. iApply wp_ret.
    by iApply (output_kept with "H").
  - iIntros "H". iApply wp_bind. iApply wp_ret. iApply wp_ret. by iApply (output_kept with "H").
Qed.

Lemma silent_try {A B E F} t (x : M (Result A E)) (f : E -> F) (k : A -> M (Result B F)) P Q :
  silent x -> (forall a, P ⊢ wp t (k a) Q) -> (forall e, P ⊢ Q (Err e)) ->
  P ⊢ wp t (try_bind (map_err f x) k) Q.
Proof.
  iIntros (Hx Hk He) "HP". iApply wp_bind. iApply wp_bind.
  iApply (wp_use with "[]"); [apply Hx|done|]. iIntros (r) "_". iApply wp_ret.
  destruct r; [by iApply Hk|]. iApply wp_ret. by iApply He.
Qed.

(** The call of an open client: whatever happens on the way, the input and the arrays are
    handed back and the output holds nothing, or forces for all atoms. *)
Lemma rpc_calculate_any t cl client c i pp pa pb input output o :
  c ∈ cs -> config_ok c = true -> forces o = null ->
  some_message t ∗ R ∗ client ↦ BRpcClient cl ∗ input_at input i pp pa pb c ∗
    output ↦ BForceOut o ⊢
  wp t (rgpot_rpc_calculate client input output) (fun _ =>
    some_message t ∗ R ∗ client ↦ BRpcClient cl ∗ input_at input i pp pa pb c ∗
    some_output output (cf_n c)).
Proof.
  intros Hin Hc Ho. iIntros "((%msg & Hslot) & HR & Hcl & (Hi & Hin) & Ho)".
  iApply (rgpot_rpc_calculate_spec with "Hcl Hi Ho"). iIntros "Hcl Hi Ho".
  iApply (RpcClient_calculate_reads with "Hin"); [done|]. iIntros "Hin".
  iApply (wp_use with "[HR Ho]"); [|iAccu|].
  - instantiate (1 := fun _ => (R ∗ some_output output (cf_n c))%I).
    apply silent_try; [apply (peers_connect _ _ Hpeers)| |].
    + intros s. apply silent_try; [apply (peers_nodelay _ _ Hpeers)| |].
      * intros _. iIntros "[HR Ho]". iApply (wp_seq with "[]"); [by apply build_request_spec|done|].
        iIntros (req Hreq). iApply wp_bind. iApply wp_bind.
        iApply (wp_use with "HR"); [by eapply (peers_send _ _ Hpeers)|]. iIntros (r) "HR".
        iApply wp_ret. destruct r as [resp|err].
        -- pose proof (config_ok_spec c Hc) as (_ & _ & H0 & H3).
           iApply (wp_use with "Ho"); [by apply receive_any|]. iIntros (r) "Ho". iFrame.
        -- iApply wp_ret. iFrame "HR". by iApply (output_kept with "Ho").
      * intros e. iIntros "[$ Ho]". by iApply (output_kept with "Ho").
    + intros e. iIntros "[$ Ho]". by iApply (output_kept with "Ho").
  - iIntros (r) "[HR Ho]". destruct r as [[]|e]; [iFrame|].
    iApply (wp_use with "Hslot"); [apply fail_spec|]. iIntros (s) "[_ Hslot]". iFrame.
Qed.

(** A moved-from input has no positions. *)
Lemma rpc_calculate_empty t cl client input output o :
  forces o = null ->
  some_message t ∗ client ↦ BRpcClient cl ∗ input ↦ BForceInput (MkForceInput null null null) ∗
    output ↦ BForceOut o ⊢
  wp t (rgpot_rpc_calculate client input output) (fun _ =>
    some_message t ∗ client ↦ BRpcClient cl ∗ input ↦ BForceInput (MkForceInput null null null) ∗
    some_output output 0).
Proof.
  intros Ho. iIntros "((%msg & Hslot) & Hcl & Hi & Ho)".
  iApply (rgpot_rpc_calculate_spec with "Hcl Hi Ho"). iIntros "Hcl Hi Ho".
  iApply wp_bind. iApply wp_ret. iApply wp_bind. iApply wp_ret. iApply wp_ret.
  iApply (wp_use with "Hslot"); [apply fail_spec|]. iIntros (s) "[_ Hslot]". iFrame "Hcl Hi".
  iSplitL "Hslot"; [by iExists _|]. by iApply (output_kept with "Ho").
Qed.

(** No client at all. *)
Lemma rpc_calculate_null t input output :
  some_message t ⊢ wp t (rgpot_rpc_calculate null input output) (fun _ => some_message t).
Proof.
  iIntros "(%msg & Hslot)".
  iApply (wp_use with "Hslot"); [by apply (rgpot_rpc_calculate_null_spec t null)|].
  iIntros (st) "[_ Hslot]". by iExists _.
Qed.

Lemma new_fails t msg e :
  last_error_slot t msg ⊢ wp t (set_last_error e;; mret null : M ptr) (fun p => some_message t ∗
    (<affine> ⌜p = null⌝ ∨ ∃ cl, p ↦ BRpcClient cl)).
Proof.
  iIntros "Hslot". wp_call set_last_error_spec "Hslot". iIntros (_) "Hslot". iApply wp_ret.
  iSplitL; [by iExists _ | by iLeft].
Qed.

(** A new client, for any text that C calls a host. *)
Lemma rpc_client_new_any t host text port :
  some_message t ∗ host ↦ BCStr text ⊢
  wp t (rgpot_rpc_client_new host port) (fun p => some_message t ∗ host ↦ BCStr text ∗
    (<affine> ⌜p = null⌝ ∨ ∃ cl, p ↦ BRpcClient cl)).
Proof.
  iIntros "[(%msg & Hslot) Hh]". iApply wp_extern_C. iDestruct (is_null_pointsto with "Hh") as %->.
  wp_call cstr_from_ptr_spec "Hh". iIntros (s) "[Hh ->]".
  iAssert (wp t (match to_str text with
      | Err e => set_last_error ("rgpot_rpc_client_new: invalid host string: " +:+ show_utf8_error e);; mret null
      | Ok h => r ← RpcClient_new h port;
          match r with
          | Ok client => alloc (BRpcClient client)
          | Err e => set_last_error ("rgpot_rpc_client_new: " +:+ e);; mret null
          end
      end) (fun p => some_message t ∗ (<affine> ⌜p = null⌝ ∨ ∃ cl, p ↦ BRpcClient cl)))%I
    with "[Hslot]" as "H"; [|iApply (wp_wand with "H"); iIntros (p) "[$ $]"; iFrame].
  destruct (to_str text) as [h|e]; [|by iApply (new_fails with "Hslot")].
  unfold RpcClient_new, try_bind, map_err. iApply wp_bind. iApply wp_bind. iApply wp_bind.
  iApply (wp_use with "[]"); [apply (peers_runtime _ _ Hpeers)|done|]. iIntros (r) "_".
  iApply wp_ret. destruct r as [rt|e]; iApply wp_ret; [|by iApply (new_fails with "Hslot")].
  iApply wp_alloc. iIntros (p) "Hp". iSplitL "Hslot"; [by iExists _|]. iRight. by iExists _.
Qed.

(** A client is freed without a trace. *)
Lemma rpc_client_freed t h cl :
  h ↦ BRpcClient cl ⊢ wp t (rgpot_rpc_client_free h) (fun _ => emp).
Proof.
  iIntros "H". iApply (rgpot_rpc_client_free_spec t h cl emp%I); [apply (peers_drop _ _ Hpeers)|].
  by iFrame.
Qed.
End peers.
