(* ===== verification/ServerLoop.v ===== *)
(** * ServerLoop: the running server as a transition system

    While [rgpot_rpc_server_start] is in its accept loop, one thread interleaves two kinds of
    steps in any order: accepting a connection, and serving a request that arrived on a
    connection accepted earlier (a local task; the callback runs to completion, so one
    request is one step).  A failing accept ends the server and drops the tasks. *)
From S2P Require Import Prelude Machine Objects Memory HeapLogic Status Strides Tensor TensorSpec.
From S2P Require Import ForceTypes Potential RpcEnv RpcClient RpcServer RpcSpec Environment.
From S2P Require Import Callbacks RpcTheorems.
From stdpp Require Import relations.
From iris.proofmode Require Import proofmode.
Open Scope Z_scope.

Section server_loop.
  Context {profile : Target} {dlpack : Dlpack} {ccode : CCode}
    {errors : CapnpErrors} {lists : CapnpLists} {network : Network}.

(** A served request: the connection, what was asked and what was answered. *)
Record Exchange := MkExchange {
  ex_stream : N;
  ex_config : Config;
  ex_reply : Result CalculateResults CapnpError;
}.

Record ServerRun := MkServerRun {
  sr_mem : Mem;
  sr_connections : list (N * PotentialServer);
  sr_exchanges : list Exchange;
  sr_stopped : option rgpot_status_t;
}.

Definition server_impl (p : PotentialImpl) : PotentialServer :=
  MkPotentialServer (callback p) (user_data p).

Inductive server_step (t : thread_id) (p : PotentialImpl) : ServerRun -> ServerRun -> Prop :=
| step_accept σ σ' conns exs stream r :
    set_nodelay stream true t σ = Done r σ' ->
    server_step t p (MkServerRun σ conns exs None)
      (MkServerRun σ' (conns ++ [(stream, server_impl p)]) exs None)
| step_request σ σ' conns exs i stream srv c r :
    conns !! i = Some (stream, srv) ->
    PotentialServer_calculate srv (params_of c) t σ = Done r σ' ->
    server_step t p (MkServerRun σ conns exs None)
      (MkServerRun σ' conns (exs ++ [MkExchange stream c r]) None)
| step_stop σ σ' conns exs e :
    set_last_error ("accept failed: " +:+ e) t σ = Done tt σ' ->
    server_step t p (MkServerRun σ conns exs None)
      (MkServerRun σ' [] exs (Some RGPOT_RPC_ERROR)).

(** The accept steps are those of the accept loop: as long as accepting succeeds, running the
    loop of the code on the streams is the same as taking the steps. *)
Lemma accept_loop_steps t p streams conns σ :
  (forall s b t σ, exists r, set_nodelay s b t σ = Done r σ) ->
  exists conns', accept_loop p (Ok <$> streams) conns t σ = Done (Serving conns') σ /\
    forall exs, rtc (server_step t p) (MkServerRun σ conns exs None)
      (MkServerRun σ conns' exs None).
Proof.
  intros Hnd. revert conns. induction streams as [|s streams IH]; intros conns; simpl.
  - exists conns. split; [done|]. intros exs. apply rtc_refl.
  - destruct (Hnd s true t σ) as [r Hr]. destruct (IH (conns ++ [(s, server_impl p)]))
      as (conns' & Hrun & Hsteps). exists conns'. unfold mbind, M_bind. rewrite Hr.
    split; [exact Hrun|]. intros exs. eapply rtc_l; [by eapply step_accept | apply Hsteps].
Qed.

(** ** The invariant *)

(** What is asked of the potential: it answers every well-formed configuration within [φ],
    keeping no state of its own. *)
Definition stateless (p : PotentialImpl)
    (φ : Config -> rgpot_status_t -> f64 -> list f64 -> Prop) : Prop :=
  forall c, config_ok c = true -> callback_answers emp (callback p) (user_data p) c (φ c).

Definition answered (φ : Config -> rgpot_status_t -> f64 -> list f64 -> Prop) (x : Exchange) : Prop :=
  exists st e F, φ (ex_config x) st e F /\ reply_is st e F (ex_reply x).

Record server_inv (p : PotentialImpl) (φ : Config -> rgpot_status_t -> f64 -> list f64 -> Prop)
    (t : thread_id) (σ0 : Mem) (s : ServerRun) : Prop := {
  inv_wf : wf_mem (sr_mem s);
  inv_conns : Forall (fun x => x.2 = server_impl p) (sr_connections s);
  inv_answers : Forall (answered φ) (sr_exchanges s);
  inv_serving : sr_stopped s = None -> mem_map (sr_mem s) = mem_map σ0;
  inv_stopped st : sr_stopped s = Some st -> st = RGPOT_RPC_ERROR /\
    exists e, last_message t (sr_mem s) = Some (stored_message ("accept failed: " +:+ e));
}.

(** All requests so far carried well-formed configurations. *)
Definition requests_ok (s : ServerRun) : Prop :=
  Forall (fun x => config_ok (ex_config x) = true) (sr_exchanges s).

Lemma server_inv_step t p φ σ0 m0 s s' :
  (forall s b t σ, exists r, set_nodelay s b t σ = Done r σ) -> stateless p φ ->
  last_message t σ0 = Some m0 ->
  server_step t p s s' -> requests_ok s' -> server_inv p φ t σ0 s -> server_inv p φ t σ0 s'.
Proof.
  intros Hnd Hp Hm0 Hstep Hok [Hwf Hconns Hans Hserv _].
  destruct Hstep as [σ σ' conns exs stream r Hr | σ σ' conns exs i stream srv c r Hi Hr |
                     σ σ' conns exs e Hr]; simpl in *.
  - destruct (Hnd stream true t σ) as [r' Hr']. rewrite Hr in Hr'. injection Hr' as -> ->.
    split; simpl; try done. apply Forall_app. by split; [|constructor].
  - apply Forall_app in Hok as [_ Hc]. apply Forall_inv in Hc. simpl in Hc.
    assert (srv = server_impl p) as -> by (by apply Forall_lookup_1 with (2 := Hi) in Hconns).
    destruct (server_calculate_run t (server_impl p) c (φ c) σ Hc Hwf (Hp c Hc))
      as (r' & σ'' & Hr' & Hwf' & Hm & Ha). rewrite Hr in Hr'. injection Hr' as <- <-.
    split; simpl; try done.
    + apply Forall_app. split; [done|]. by apply Forall_singleton.
    + intros _. by rewrite Hm Hserv.
  - destruct (slot_run t (set_last_error ("accept failed: " +:+ e)) (fun _ => True) m0
      (stored_message ("accept failed: " +:+ e)) σ) as ([] & σ'' & Hr' & Hwf' & _ & Hm).
    + intros msg. iIntros "H". iApply (wp_use with "H"); [apply set_last_error_spec|].
      by iIntros (_) "$".
    + done.
    + unfold last_message. by rewrite Hserv.
    + rewrite Hr in Hr'. injection Hr' as <-.
      split; simpl; [done | constructor | done | done |].
      intros st [= <-]. split; [done | by exists e].
Qed.

Lemma requests_ok_step t p s s' : server_step t p s s' -> requests_ok s' -> requests_ok s.
Proof.
  destruct 1; unfold requests_ok; simpl; [done | | done].
  rewrite Forall_app. by intros [? _].
Qed.

(** C2: The running server.  From the moment the loop starts, under every interleaving of
    accepted connections and well-formed requests on any of the open connections, with a
    potential that keeps no state of its own: every connection is served by the same
    callback and user data; every reply is the one that belongs to its own request, whatever
    was served before or in between; the store is the initial one after every step, so the
    server can run forever without leaking; a request on an open connection can always be
    answered; and when the server stops, it is with an RPC error and the message of the
    failing accept. *)
Theorem server_serves_any_interleaving (t : thread_id) (p : PotentialImpl)
    (φ : Config -> rgpot_status_t -> f64 -> list f64 -> Prop) (σ0 : Mem) (m0 : string)
    (s : ServerRun)
    (Hnodelay : forall s b t σ, exists r, set_nodelay s b t σ = Done r σ)
    (Hp : stateless p φ) (Hwf : wf_mem σ0) (Hm0 : last_message t σ0 = Some m0)
    (Hreach : rtc (server_step t p) (MkServerRun σ0 [] [] None) s) (Hok : requests_ok s) :
  server_inv p φ t σ0 s /\
  (sr_stopped s = None -> forall i stream srv c, sr_connections s !! i = Some (stream, srv) ->
     config_ok c = true -> exists r s', server_step t p s s' /\
       sr_exchanges s' = sr_exchanges s ++ [MkExchange stream c r] /\
       answered φ (MkExchange stream c r)).
Proof.
  assert (server_inv p φ t σ0 s) as Hinv.
  { revert s Hreach Hok. refine (rtc_ind_r _ _ _ _).
    - intros _. by split; simpl.
    - intros s s' _ Hstep IH Hok. eapply server_inv_step; [done..|].
      apply IH. by eapply requests_ok_step. }
  split; [done|]. destruct s as [σ conns exs st]. simpl. intros -> i stream srv c Hi Hc.
  assert (srv = server_impl p) as ->.
  { destruct Hinv as [_ Hconns _ _ _]. by apply Forall_lookup_1 with (2 := Hi) in Hconns. }
  destruct (server_calculate_run t (server_impl p) c (φ c) σ Hc (inv_wf _ _ _ _ _ Hinv) (Hp c Hc))
    as (r & σ' & Hr & _ & _ & Ha).
  eexists r, _. split; [by eapply step_request | done].
Qed.
End server_loop.

(** One connection is open; the next request on it is answered. *)
Lemma server_serves_any_interleaving_witness :
  exists r s', server_step (profile:=debug_profile) (ccode:=demo_c) (errors:=text_errors)
      (lists:=plain_lists) (network:=demo_network 3%N) 0%N (MkPotentialImpl 3%N null None)
      (MkServerRun initial_mem [(4%N, demo_server 3%N)] [] None) s' /\
    sr_exchanges s' = [MkExchange 4%N demo_config r] /\
    answered (fun _ st _ _ => st <> RGPOT_SUCCESS) (MkExchange 4%N demo_config r).
Proof.
  refine (proj2 (server_serves_any_interleaving (profile:=debug_profile)
    (ccode:=demo_c) (errors:=text_errors) (lists:=plain_lists) (network:=demo_network 3%N) 0%N
    (MkPotentialImpl 3%N null None) (fun _ st _ _ => st <> RGPOT_SUCCESS) initial_mem ""
    (MkServerRun initial_mem [(4%N, demo_server 3%N)] [] None) _ _ initial_mem_wf eq_refl _ _)
    eq_refl 0%nat 4%N (demo_server 3%N) demo_config eq_refl eq_refl).
  - intros s b t σ. by eexists.
  - intros c _.
    exact (failing_answers (profile:=debug_profile) (dlpack:=dlpack_header) null c).
  - apply rtc_once. exact (step_accept (network:=demo_network 3%N) 0%N
      (MkPotentialImpl 3%N null None) initial_mem initial_mem [] [] 4%N (Ok tt) eq_refl).
  - constructor.
Defined.
