(* ===== verification/HandleSpec.v ===== *)
(** * HandleSpec: the C interface as an abstract table of handles

    What a C program may rely on, without the store: a table says which handle stands for
    which object, each thread has one message, and every call has a precondition
    ([permitted]) and an effect on the table ([abs_step]).  [run_call] is the same call made
    to the crate. *)
From S2P Require Import Prelude Machine Objects Memory HeapLogic Status StatusTheorems Strides.
From S2P Require Import Tensor TensorSpec ForceTypes Potential Utf8 RpcEnv RpcClient RpcServer.
From S2P Require Import RpcSpec TensorTheorems RpcTheorems.
From iris.proofmode Require Import proofmode.
Open Scope Z_scope.

(** ** Objects *)

(** The caller's own memory, and the four kinds of object that the crate hands out. *)
Inductive Obj :=
| OPlain (b : Block)
| OBorrowed (v : TensorView)
| OOwned (xs : list f64) (v : TensorView)
| OPotential (p : PotentialImpl)
| OClient (c : RpcClient).

(** The memory objects that a C program declares or allocates itself. *)
Definition caller_block (b : Block) : bool :=
  match b with
  | BF64s _ | BI32s _ | BForceInput _ | BForceOut _ | BCStr _ | BForeign _ => true
  | _ => false
  end.

Definition is_tensor (o : Obj) : option TensorView :=
  match o with OBorrowed v | OOwned _ v => Some v | _ => None end.

Record Table := MkTable { tb_objs : gmap ptr Obj; tb_msgs : gmap thread_id string }.

Definition put (p : ptr) (o : Obj) (T : Table) : Table :=
  MkTable (<[p := o]> (tb_objs T)) (tb_msgs T).
Definition drop_handle (p : ptr) (T : Table) : Table :=
  MkTable (delete p (tb_objs T)) (tb_msgs T).
Definition say (t : thread_id) (s : string) (T : Table) : Table :=
  MkTable (tb_objs T) (<[t := stored_message s]> (tb_msgs T)).

Definition holds_at (T : Table) (p : ptr) (o : Obj) : Prop := tb_objs T !! p = Some o.
Definition unused (p : ptr) (T : Table) : Prop := tb_objs T !! p = None.

(** NULL, or a tensor of the table. *)
Definition tensor_or_null (T : Table) (p : ptr) : Prop :=
  p = null \/ exists o v, holds_at T p o /\ is_tensor o = Some v.

(** ** Calls *)

Inductive Call :=
(* the caller's own memory *)
| CallerAlloc (b : Block)
| CallerFree (p : ptr)
| CallerRead (p : ptr)
| CallerWrite (p : ptr) (b : Block)
(* tensors *)
| TensorBorrow (data : ptr) (k : BorrowCall)
| TensorCopy (data : ptr) (rows cols : Z)
| TensorInspect (p cell : ptr)
| TensorRead (p : ptr) (len : Z)
| TensorFree (p : ptr)
(* input structs *)
| InputCreate (slot : ptr) (n : Z) (pos atmnrs box_ : ptr)
| InputFree (slot : ptr)
(* potentials *)
| PotentialNew (cb : fnptr) (ud : ptr) (fr : option fnptr)
| PotentialFree (pot : ptr)
| Calculate (pot input output : ptr)
(* remote potentials *)
| ClientNew (host : ptr) (port : Z)
| ClientFree (client : ptr)
| RpcCalculate (client input output : ptr)
(* errors *)
| LastError.

Inductive Answer :=
| AUnit
| APtr (p : ptr)
| ABlock (b : Block)
| AInfo (d : DLDevice) (data : ptr) (shape : list Z)
| AData (xs : list f64)
| AStatus (st : rgpot_status_t)
| AText (s : string).

Section calls.
  Context {profile : Target} {dlpack : Dlpack} {ccode : CCode}
    {errors : CapnpErrors} {lists : CapnpLists} {network : Network}.

(** The call, as the C program makes it. *)
Definition run_call (c : Call) : M Answer :=
  match c with
  | CallerAlloc b => p ← alloc b; mret (APtr p)
  | CallerFree p => dealloc p;; mret AUnit
  | CallerRead p => b ← load p; mret (ABlock b)
  | CallerWrite p b => store p b;; mret AUnit
  | TensorBorrow data k => p ← borrow data k; mret (APtr p)
  | TensorCopy data rows cols =>
      p ← rgpot_tensor_owned_cpu_f64_2d data rows cols; mret (APtr p)
  | TensorInspect p cell => r ← inspect p cell; mret (AInfo r.1.1 r.1.2 r.2)
  | TensorRead p len =>
      q ← rgpot_tensor_data p; xs ← from_raw_parts as_f64s q len; mret (AData xs)
  | TensorFree p => rgpot_tensor_free p;; mret AUnit
  | InputCreate slot n pos atmnrs box_ =>
      i ← rgpot_force_input_create n pos atmnrs box_;
      store slot (BForceInput i);; mret AUnit
  | InputFree slot => rgpot_force_input_free slot;; mret AUnit
  | PotentialNew cb ud fr => p ← rgpot_potential_new cb ud fr; mret (APtr p)
  | PotentialFree pot => rgpot_potential_free pot;; mret AUnit
  | Calculate pot input output =>
      st ← rgpot_potential_calculate pot input output; mret (AStatus st)
  | ClientNew host port => p ← rgpot_rpc_client_new host port; mret (APtr p)
  | ClientFree client => rgpot_rpc_client_free client;; mret AUnit
  | RpcCalculate client input output =>
      st ← rgpot_rpc_calculate client input output; mret (AStatus st)
  | LastError => q ← rgpot_last_error; s ← cstr_from_ptr q; mret (AText s)
  end.

(** ** The environment: callbacks, destructors, the remote server *)

(** User data is NULL or an object of the C side, which callbacks may read. *)
Definition user_at (ud : ptr) (z : Z) : mProp := if is_null ud then emp%I else (ud ↦ BForeign z)%I.

(** What a C library of callbacks promises: a callback answers within [lib_rel], which may
    allow errors and any number of forces; a destructor releases its user data. *)
Class CLibrary := {
  lib_callback : fnptr -> Prop;
  lib_destructor : fnptr -> Prop;
  lib_rel : fnptr -> Z -> Config -> rgpot_status_t -> f64 -> list f64 -> Prop;
  lib_answers cb ud z c t i pp pa pb input output e v :
    lib_callback cb -> config_ok c = true ->
    user_at ud z ∗ input_at input i pp pa pb c ∗ output ↦ BForceOut (MkForceOut null e v) ⊢
    wp t (call_callback cb ud input output) (fun st =>
      user_at ud z ∗ input_at input i pp pa pb c ∗ ∃ o F, output ↦ BForceOut o ∗
        maybe_forces (forces o) (cf_n c) F ∗ <affine> ⌜lib_rel cb z c st (energy o) F⌝);
  lib_free free ud z t :
    lib_destructor free -> ud ↦ BForeign z ⊢ wp t (call_free_fn free ud) (fun _ => emp);
}.

(** The network: a faithful transport to one server, and a runtime that can be started
    (or cannot) and shut down. *)
Class RemoteSide `{!CLibrary} := {
  remote_server : PotentialServer;
  remote_faithful : Faithful remote_server;
  remote_callback : lib_callback (srv_callback remote_server);
  remote_runtime : Result N string;
  remote_runtime_new t σ : runtime_new t σ = Done remote_runtime σ;
  remote_runtime_drop rt t σ : runtime_drop rt t σ = Done tt σ;
}.

Context `{RemoteSide}.

(** ** Preconditions *)

Definition user_ok (T : Table) (ud : ptr) (z : Z) : Prop :=
  ud = null \/ holds_at T ud (OPlain (BForeign z)).

(** An input struct whose tensors borrow the arrays of a configuration. *)
Definition config_at (T : Table) (input : ptr) (i : rgpot_force_input_t) (pp pa pb : ptr)
    (c : Config) : Prop :=
  config_ok c = true /\ pp <> pb /\
  holds_at T input (OPlain (BForceInput i)) /\
  holds_at T (positions i) (OBorrowed (positions_view pp (cf_n c))) /\
  holds_at T (atomic_numbers i) (OBorrowed (atmnrs_view pa (cf_n c))) /\
  holds_at T (box_matrix i) (OBorrowed (box_view pb)) /\
  holds_at T pp (OPlain (BF64s (cf_positions c))) /\
  holds_at T pa (OPlain (BI32s (cf_atomic_numbers c))) /\
  holds_at T pb (OPlain (BF64s (cf_box c))).

Definition some_null (ps : list ptr) : Prop := null ∈ ps.

Definition permitted (t : thread_id) (T : Table) (c : Call) : Prop :=
  is_Some (tb_msgs T !! t) /\
  match c with
  | CallerAlloc b => caller_block b = true
  | CallerFree p | CallerRead p => exists b, holds_at T p (OPlain b)
  | CallerWrite p b => caller_block b = true /\ exists b', holds_at T p (OPlain b')
  | TensorBorrow data k => borrow_typed k = true
  | TensorCopy data rows cols => exists xs, holds_at T data (OPlain (BF64s xs)) /\
      is_i64 cols = true /\ is_i64 (rows * cols) = true /\
      0 <= rows * cols <= Z.of_nat (length xs)
  | TensorInspect p cell => (exists o v, holds_at T p o /\ is_tensor o = Some v) /\
      exists x, holds_at T cell (OPlain (BI32s [x]))
  | TensorRead p len => exists xs, 0 <= len <= Z.of_nat (length xs) /\
      ((exists v, holds_at T p (OOwned xs v)) \/
       (exists v, holds_at T p (OBorrowed v) /\ holds_at T (tv_data v) (OPlain (BF64s xs))))
  | TensorFree p => tensor_or_null T p
  | InputCreate slot n pos atmnrs box_ => exists i, holds_at T slot (OPlain (BForceInput i))
  | InputFree slot => slot = null \/ exists i, holds_at T slot (OPlain (BForceInput i)) /\
      tensor_or_null T (positions i) /\ tensor_or_null T (atomic_numbers i) /\
      tensor_or_null T (box_matrix i) /\
      (positions i = atomic_numbers i -> positions i = null) /\
      (positions i = box_matrix i -> positions i = null) /\
      (atomic_numbers i = box_matrix i -> atomic_numbers i = null)
  | PotentialNew cb ud fr => True
  | PotentialFree pot => pot = null \/ exists p, holds_at T pot (OPotential p) /\
      forall free, free_fn p = Some free -> user_data p <> null ->
        lib_destructor free /\ exists z, holds_at T (user_data p) (OPlain (BForeign z))
  | Calculate pot input output => some_null [pot; input; output] \/
      exists p z i pp pa pb c e v, holds_at T pot (OPotential p) /\ lib_callback (callback p) /\
        user_ok T (user_data p) z /\ config_at T input i pp pa pb c /\
        holds_at T output (OPlain (BForceOut (MkForceOut null e v)))
  | ClientNew host port => host = null \/ exists s, holds_at T host (OPlain (BCStr s))
  | ClientFree client => client = null \/ exists cl, holds_at T client (OClient cl)
  | RpcCalculate client input output => some_null [client; input; output] \/
      exists cl z i pp pa pb c o, holds_at T client (OClient cl) /\
        user_ok T (srv_user_data remote_server) z /\ config_at T input i pp pa pb c /\
        holds_at T output (OPlain (BForceOut o))
  | LastError => True
  end.

(** ** Effects *)

(** The forces field of an output: NULL without forces, or a new handle for them. *)
Inductive forces_stored (T : Table) (fp : ptr) (n : Z) : list f64 -> Table -> Prop :=
| no_forces : fp = null -> forces_stored T fp n [] T
| new_forces F d :
    unused fp T -> fp <> null -> Z.of_nat (length F) = 3 * n ->
    forces_stored T fp n F (put fp (OOwned F (MkView d dtype_f64 cpu_device [as_i64 n; 3])) T).

Definition null_fields : rgpot_force_input_t := MkForceInput null null null.

Inductive abs_step (t : thread_id) (T : Table) : Call -> Answer -> Table -> Prop :=
| abs_alloc b p : unused p T -> abs_step t T (CallerAlloc b) (APtr p) (put p (OPlain b) T)
| abs_dealloc p : abs_step t T (CallerFree p) AUnit (drop_handle p T)
| abs_read p b : holds_at T p (OPlain b) -> abs_step t T (CallerRead p) (ABlock b) T
| abs_write p b : abs_step t T (CallerWrite p b) AUnit (put p (OPlain b) T)
| abs_borrow data k p : unused p T ->
    abs_step t T (TensorBorrow data k) (APtr p) (put p (OBorrowed (borrow_view data k)) T)
| abs_copy data rows cols xs p d :
    holds_at T data (OPlain (BF64s xs)) -> unused p T ->
    abs_step t T (TensorCopy data rows cols) (APtr p)
      (put p (OOwned (take (Z.to_nat (rows * cols)) xs)
                (MkView d dtype_f64 cpu_device [rows; cols])) T)
| abs_inspect p cell o v : holds_at T p o -> is_tensor o = Some v ->
    abs_step t T (TensorInspect p cell) (AInfo (tv_device v) (tv_data v) (tv_shape v))
      (put cell (OPlain (BI32s [Z.of_nat (length (tv_shape v))])) T)
| abs_read_owned p len xs v : holds_at T p (OOwned xs v) ->
    abs_step t T (TensorRead p len) (AData (take (Z.to_nat len) xs)) T
| abs_read_borrowed p len xs v :
    holds_at T p (OBorrowed v) -> holds_at T (tv_data v) (OPlain (BF64s xs)) ->
    abs_step t T (TensorRead p len) (AData (take (Z.to_nat len) xs)) T
| abs_free p : abs_step t T (TensorFree p) AUnit (drop_handle p T)
| abs_input_create slot n pos atmnrs box_ p a b :
    unused p T -> unused a T -> unused b T -> p <> a -> p <> b -> a <> b ->
    abs_step t T (InputCreate slot n pos atmnrs box_) AUnit
      (put slot (OPlain (BForceInput (MkForceInput p a b)))
        (put p (OBorrowed (positions_view pos n))
          (put a (OBorrowed (atmnrs_view atmnrs n)) (put b (OBorrowed (box_view box_)) T))))
| abs_input_free_null : abs_step t T (InputFree null) AUnit T
| abs_input_free slot i : holds_at T slot (OPlain (BForceInput i)) ->
    abs_step t T (InputFree slot) AUnit
      (put slot (OPlain (BForceInput null_fields))
        (drop_handle (positions i) (drop_handle (atomic_numbers i)
          (drop_handle (box_matrix i) T))))
| abs_potential_new cb ud fr p : unused p T ->
    abs_step t T (PotentialNew cb ud fr) (APtr p) (put p (OPotential (MkPotentialImpl cb ud fr)) T)
| abs_potential_free_null : abs_step t T (PotentialFree null) AUnit T
| abs_potential_free pot p : holds_at T pot (OPotential p) ->
    abs_step t T (PotentialFree pot) AUnit
      (drop_handle pot (if free_fn p then drop_handle (user_data p) T else T))
| abs_calculate_null pot input output err :
    null_argument "rgpot_potential_calculate"
      [("pot"%string, pot); ("input"%string, input); ("output"%string, output)] = Some err ->
    abs_step t T (Calculate pot input output) (AStatus RGPOT_INVALID_PARAMETER) (say t err T)
| abs_calculate pot input output p z i pp pa pb c st o F T' :
    holds_at T pot (OPotential p) -> user_ok T (user_data p) z -> config_at T input i pp pa pb c ->
    lib_rel (callback p) z c st (energy o) F ->
    forces_stored (put output (OPlain (BForceOut o)) T) (forces o) (cf_n c) F T' ->
    abs_step t T (Calculate pot input output) (AStatus st) T'
| abs_client_new_null port :
    abs_step t T (ClientNew null port) (APtr null) (say t "rgpot_rpc_client_new: host is NULL" T)
| abs_client_new host port s cl p :
    holds_at T host (OPlain (BCStr s)) -> unused p T ->
    client_new_verdict s port remote_runtime = Ok cl ->
    abs_step t T (ClientNew host port) (APtr p) (put p (OClient cl) T)
| abs_client_new_fails host port s e :
    holds_at T host (OPlain (BCStr s)) ->
    client_new_verdict s port remote_runtime = Err e ->
    abs_step t T (ClientNew host port) (APtr null) (say t e T)
| abs_client_free client : abs_step t T (ClientFree client) AUnit (drop_handle client T)
| abs_rpc_null client input output err :
    null_argument "rgpot_rpc_calculate"
      [("client"%string, client); ("input"%string, input); ("output"%string, output)] = Some err ->
    abs_step t T (RpcCalculate client input output) (AStatus RGPOT_INVALID_PARAMETER) (say t err T)
| abs_rpc client input output cl z i pp pa pb c o e F fp T' :
    holds_at T client (OClient cl) -> user_ok T (srv_user_data remote_server) z ->
    config_at T input i pp pa pb c -> holds_at T output (OPlain (BForceOut o)) ->
    lib_rel (srv_callback remote_server) z c RGPOT_SUCCESS e F ->
    Z.of_nat (length F) = 3 * cf_n c -> fp <> null ->
    forces_stored (put output (OPlain (BForceOut (MkForceOut fp e (variance o)))) T)
      fp (cf_n c) F T' ->
    abs_step t T (RpcCalculate client input output) (AStatus RGPOT_SUCCESS) T'
| abs_rpc_mismatch client input output cl z i pp pa pb c o e F :
    holds_at T client (OClient cl) -> user_ok T (srv_user_data remote_server) z ->
    config_at T input i pp pa pb c -> holds_at T output (OPlain (BForceOut o)) ->
    lib_rel (srv_callback remote_server) z c RGPOT_SUCCESS e F ->
    Z.of_nat (length F) <> 3 * cf_n c ->
    abs_step t T (RpcCalculate client input output) (AStatus RGPOT_RPC_ERROR)
      (say t ("rgpot_rpc_calculate: force array size mismatch: expected " +:+ show (3 * cf_n c)
              +:+ ", got " +:+ show (Z.of_nat (length F)))
        (put output (OPlain (BForceOut (set_energy e o))) T))
| abs_rpc_error client input output cl z i pp pa pb c st o e F :
    holds_at T client (OClient cl) -> user_ok T (srv_user_data remote_server) z ->
    config_at T input i pp pa pb c -> holds_at T output (OPlain (BForceOut o)) ->
    lib_rel (srv_callback remote_server) z c st e F -> st <> RGPOT_SUCCESS ->
    abs_step t T (RpcCalculate client input output) (AStatus RGPOT_RPC_ERROR)
      (say t ("rgpot_rpc_calculate: RPC call failed: " +:+ show_capnp_error
                (remote_exception (CapnpError_failed "potential callback returned an error")))
        T)
| abs_last_error s : tb_msgs T !! t = Some s -> abs_step t T LastError (AText s) T.
End calls.
