(* ===== verification/HandleTable.v ===== *)
(** * HandleTable: the store that a table of handles describes

    [table_at T] owns exactly the objects of the table and the message slots of its
    threads.  The lemmas here take objects out of the table and put them back. *)
From S2P Require Import Prelude Machine Objects Memory HeapLogic Status StatusTheorems Strides.
From S2P Require Import Tensor TensorSpec ForceTypes Potential Utf8 RpcEnv RpcClient RpcServer.
From S2P Require Import RpcSpec TensorTheorems RpcTheorems HandleSpec.
From iris.proofmode Require Import proofmode.
Open Scope Z_scope.

Lemma pointsto_exclusive p b b' : p ↦ b ∗ p ↦ b' ⊢ False.
Proof.
  constructor. intros h (h1 & h2 & -> & Hd & [_ ->] & [_ ->]).
  apply map_disjoint_singleton_l in Hd. by rewrite lookup_singleton_eq in Hd.
Qed.

Section table.
  Context {profile : Target} {dlpack : Dlpack} {ccode : CCode}.

(** ** Objects *)

(** A tensor with its own data, whoever allocated it: its holder may read the data and must
    free it with [rgpot_tensor_free]. *)
Definition data_tensor (xs : list f64) (p : ptr) (v : TensorView) : mProp :=
  ∃ m, <affine> ⌜shows m v⌝ ∗ p ↦ BManaged m ∗ dl_shape (dl_tensor m) ↦ BI64s (tv_shape v) ∗
    tv_data v ↦ BF64s xs ∗
    (p ↦ BManaged m -∗ dl_shape (dl_tensor m) ↦ BI64s (tv_shape v) -∗ tv_data v ↦ BF64s xs -∗
     ∀ t, wp t (rgpot_tensor_free p) (fun _ => emp)).

#[export] Instance data_tensor_repr xs : TensorRepr (data_tensor xs).
Proof.
  split.
  - intros p v. iIntros "(%m & %Hm & Hp & Hsh & Hd & Hfree)". iExists m. iFrame "Hp Hsh".
    iSplitR; [done|]. iIntros "Hp Hsh". iExists m. by iFrame.
  - intros t p v. iIntros "(%m & %Hm & Hp & Hsh & Hd & Hfree)".
    iApply ("Hfree" with "Hp Hsh Hd").
Qed.

Lemma owned_data_tensor xs p v : owned_f64_tensor xs p v ⊢ data_tensor xs p v.
Proof.
  iIntros "H". unfold owned_f64_tensor at 1.
  iDestruct "H" as "(%ctx & %sh & %st & %dv & [%Hs %Hd] & Hp & Hctx & [Hdv %Hl] & [Hsh %Hsl] & Hst)".
  iExists _. iFrame "Hp". cbn in Hd |- *. rewrite -Hd. iFrame "Hsh Hdv".
  iSplitR; [iPureIntro; by apply managed_of_shows|].
  iIntros "Hp Hsh Hd" (t). iApply (tensor_free (T:=owned_f64_tensor xs)).
  iExists ctx, sh, st, dv. iFrame. iSplitR; [done|]. iFrame. done.
Qed.

Lemma forces_data_tensor p n F :
  forces_tensor p n F ⊢ ∃ d, <affine> ⌜Z.of_nat (length F) = (3 * n)%Z⌝ ∗
    data_tensor F p (MkView d dtype_f64 cpu_device [as_i64 n; 3]).
Proof.
  iIntros "(%m & [%Hm %HF] & Hp & Hsh & Hd & Hfree)". iExists _. iSplitR; [done|].
  iExists m. by iFrame.
Qed.

Definition obj_at (p : ptr) (o : Obj) : mProp :=
  match o with
  | OPlain b => p ↦ b
  | OBorrowed v => borrowed_tensor p v
  | OOwned xs v => data_tensor xs p v
  | OPotential pot => p ↦ BPotential pot
  | OClient c => p ↦ BRpcClient c
  end.

Lemma obj_open p o : obj_at p o ⊢ ∃ b, p ↦ b ∗ (p ↦ b -∗ obj_at p o).
Proof.
  destruct o as [b|v|xs v|pot|c]; simpl.
  1,4,5: iIntros "H"; iExists _; iFrame "H"; by iIntros "$".
  - rewrite {1}(tensor_open (T:=borrowed_tensor)). iIntros "(%m & %Hm & Hp & Hsh & Hk)".
    iExists _. iFrame "Hp". iIntros "Hp". iApply ("Hk" with "Hp Hsh").
  - rewrite {1}(tensor_open (T:=data_tensor xs)). iIntros "(%m & %Hm & Hp & Hsh & Hk)".
    iExists _. iFrame "Hp". iIntros "Hp". iApply ("Hk" with "Hp Hsh").
Qed.

Lemma obj_not_null p o : obj_at p o ⊢ ⌜p <> null⌝.
Proof.
  iIntros "H". iDestruct (obj_open with "H") as (b) "[Hp _]". iDestruct (pointsto_not_null with "Hp") as %?. done.
Qed.

Lemma obj_exclusive p o o' : obj_at p o ∗ obj_at p o' ⊢ False.
Proof.
  iIntros "[H H']". iDestruct (obj_open with "H") as (b) "[Hp _]".
  iDestruct (obj_open with "H'") as (b') "[Hp' _]".
  iApply (pointsto_exclusive p b b'). iFrame.
Qed.

(** Tensors of the table free themselves. *)
Lemma obj_tensor_free t p o v :
  is_tensor o = Some v -> obj_at p o ⊢ wp t (rgpot_tensor_free p) (fun _ => emp).
Proof.
  destruct o as [b|v'|xs v'|pot|c]; [done| | |done|done]; intros _.
  - apply (tensor_free (T:=borrowed_tensor)).
  - apply (tensor_free (T:=data_tensor xs)).
Qed.

(** ** Maps of objects *)

Definition objs_at (m : gmap ptr Obj) : mProp := [∗ map] p ↦ o ∈ m, obj_at p o.

Lemma objs_take m p o :
  m !! p = Some o -> objs_at m ⊢ obj_at p o ∗ objs_at (delete p m).
Proof. intros Hp. unfold objs_at. by rewrite big_sepM_delete. Qed.

Lemma objs_give m p o : obj_at p o ∗ objs_at (delete p m) ⊢ objs_at (<[p := o]> m).
Proof.
  unfold objs_at. rewrite -(insert_delete_eq m p o) big_sepM_insert //. apply lookup_delete_eq.
Qed.

Lemma objs_update m p o o' :
  m !! p = Some o -> objs_at m ⊢ obj_at p o ∗ (obj_at p o' -∗ objs_at (<[p := o']> m)).
Proof.
  iIntros (Hp) "H". iDestruct (objs_take with "H") as "[$ H]"; [done|]. iIntros "Hp".
  iApply objs_give. iFrame.
Qed.

Lemma objs_access m p o :
  m !! p = Some o -> objs_at m ⊢ obj_at p o ∗ (obj_at p o -∗ objs_at m).
Proof. intros Hp. rewrite {1}(objs_update m p o o) // insert_id //. Qed.

Lemma objs_fresh m p o : objs_at m ∗ obj_at p o ⊢ ⌜m !! p = None /\ p <> null⌝.
Proof.
  iIntros "[Hm Hp]". iDestruct (obj_not_null with "Hp") as %Hn.
  destruct (m !! p) as [o'|] eqn:E; [|by iPureIntro].
  rewrite objs_take //. iDestruct "Hm" as "[Hp' _]".
  iDestruct (obj_exclusive p o o' with "[$Hp $Hp']") as %[].
Qed.

Lemma objs_put m p o :
  objs_at m ∗ obj_at p o ⊢ <affine> ⌜m !! p = None /\ p <> null⌝ ∗ objs_at (<[p := o]> m).
Proof.
  iIntros "H". iDestruct (objs_fresh with "H") as %[Hp Hn]. iSplitR; [done|].
  unfold objs_at. rewrite big_sepM_insert //. iDestruct "H" as "[$ $]".
Qed.

Lemma objs_null m : objs_at m ⊢ ⌜m !! null = None⌝.
Proof.
  iIntros "H". destruct (m !! null) as [o|] eqn:E; [|by iPureIntro].
  rewrite objs_take //. iDestruct "H" as "[Hp _]". by iDestruct (obj_not_null with "Hp") as %?.
Qed.

(** Several objects at once: different objects are at different handles. *)
Lemma objs_list m (l : list (ptr * Obj)) :
  NoDup l -> Forall (fun x => m !! x.1 = Some x.2) l ->
  objs_at m ⊢ ([∗ list] x ∈ l, obj_at x.1 x.2) ∗
    (([∗ list] x ∈ l, obj_at x.1 x.2) -∗ objs_at m).
Proof.
  intros Hnd Hl. revert m Hl. induction Hnd as [|[p o] l Hx Hnd IH]; intros m Hl; simpl.
  - iIntros "$ _". done.
  - apply Forall_cons in Hl as [Hp Hl]. simpl in Hp.
    assert (Forall (fun x => delete p m !! x.1 = Some x.2) l) as Hl'.
    { apply Forall_forall. intros [q o'] Hq. rewrite Forall_forall in Hl. specialize (Hl _ Hq).
      simpl in *. rewrite lookup_delete_ne //. intros ->. rewrite Hl in Hp. injection Hp as ->.
      done. }
    iIntros "H". rewrite {1}(objs_take m p o) //. iDestruct "H" as "[$ H]".
    rewrite {1}(IH _ Hl'). iDestruct "H" as "[$ Hk]". iIntros "[Hp Hl]".
    iDestruct ("Hk" with "Hl") as "H". unfold objs_at.
    iApply (big_sepM_delete _ m p o); [done|]. iFrame.
Qed.

(** Freeing a handle that may be NULL. *)
Lemma objs_tensor_free t m msgs p :
  tensor_or_null (MkTable m msgs) p ->
  objs_at m ⊢ wp t (rgpot_tensor_free p) (fun _ => objs_at (delete p m)).
Proof.
  iIntros (Hp) "H". iDestruct (objs_null with "H") as %Hnull. destruct Hp as [->|(o & v & Hp & Hv)].
  - rewrite delete_id //. iApply (wp_use t emp%I with "[]"); [apply rgpot_tensor_free_null|done|].
    by iIntros (_) "_".
  - iDestruct (objs_take with "H") as "[Hp H]"; [done|].
    iApply (wp_use with "Hp"); [by eapply obj_tensor_free|]. by iIntros (_) "_".
Qed.

(** ** Tables *)

Definition msgs_at (ms : gmap thread_id string) : mProp := [∗ map] t ↦ s ∈ ms, slot_is t s.
Definition table_at (T : Table) : mProp := objs_at (tb_objs T) ∗ msgs_at (tb_msgs T).

Lemma msgs_update ms t s :
  ms !! t = Some s ->
  msgs_at ms ⊢ slot_is t s ∗ (∀ s', slot_is t s' -∗ msgs_at (<[t := s']> ms)).
Proof.
  iIntros (Ht) "H". unfold msgs_at. rewrite big_sepM_insert_acc //.
Qed.

Lemma msgs_access ms t s :
  ms !! t = Some s -> msgs_at ms ⊢ slot_is t s ∗ (slot_is t s -∗ msgs_at ms).
Proof.
  iIntros (Ht) "H". rewrite {1}(msgs_update ms t s) //. iDestruct "H" as "[$ H]".
  iIntros "Hs". iDestruct ("H" with "Hs") as "H". by rewrite insert_id.
Qed.
End table.
