(* ===== verification/HandleSim.v ===== *)
(** * HandleSim: every call of the C interface implements its abstract step

    One lemma per call: on a store described by a table, a permitted call ends normally and
    leaves a store described by a table that the abstract step allows. *)
From S2P Require Import Prelude Machine Objects Memory HeapLogic Status StatusTheorems Strides.
From S2P Require Import Tensor TensorSpec ForceTypes Potential Utf8 RpcEnv RpcClient RpcServer.
From S2P Require Import RpcSpec TensorTheorems RpcTheorems HandleSpec HandleTable.
From iris.proofmode Require Import proofmode.
Open Scope Z_scope.

Section simulation.
  Context {profile : Target} {dlpack : Dlpack} {ccode : CCode}
    {errors : CapnpErrors} {lists : CapnpLists} {network : Network}
    {clib : CLibrary} {remote : RemoteSide}.
  Implicit Types (t : thread_id) (T : Table) (m : gmap ptr Obj) (ms : gmap thread_id string).

(** The answer and the new store of a call follow the specification. *)
Definition refined t T (c : Call) (a : Answer) : mProp :=
  ∃ T', <affine> ⌜abs_step t T c a T'⌝ ∗ table_at T'.

Lemma refined_intro t T c a T' : abs_step t T c a T' -> table_at T' ⊢ refined t T c a.
Proof. iIntros (Hstep) "HT". iExists T'. by iFrame. Qed.

(** A call that produces a new object. *)
Lemma refined_new t m ms c p o :
  (m !! p = None -> abs_step t (MkTable m ms) c (APtr p) (put p o (MkTable m ms))) ->
  obj_at p o ∗ objs_at m ∗ msgs_at ms ⊢ refined t (MkTable m ms) c (APtr p).
Proof.
  iIntros (Hstep) "(Hp & Hm & Hms)".
  iDestruct (objs_put with "[$Hm $Hp]") as "[[%Hp %Hn] Hm]".
  iApply (refined_intro _ _ _ _ (MkTable _ _)); [by apply Hstep | iFrame].
Qed.

(** ** The caller's own memory *)

Lemma sim_caller_alloc t m ms b :
  table_at (MkTable m ms) ⊢
  wp t (run_call (CallerAlloc b)) (refined t (MkTable m ms) (CallerAlloc b)).
Proof.
  iIntros "[Hm Hms]". iApply wp_bind. iApply wp_alloc. iIntros (p) "Hp". iApply wp_ret.
  iApply (refined_new _ _ _ _ p (OPlain b)); [|iFrame]. by constructor.
Qed.

Lemma sim_caller_free t m ms p b :
  m !! p = Some (OPlain b) -> table_at (MkTable m ms) ⊢
  wp t (run_call (CallerFree p)) (refined t (MkTable m ms) (CallerFree p)).
Proof.
  iIntros (Hp) "[Hm Hms]". iDestruct (objs_take with "Hm") as "[Hp Hm]"; [exact Hp|].
  iApply wp_bind. iApply (wp_dealloc with "Hp"). iApply wp_ret.
  iApply (refined_intro _ _ _ _ (drop_handle p _)); [constructor | iFrame].
Qed.

Lemma sim_caller_read t m ms p b :
  m !! p = Some (OPlain b) -> table_at (MkTable m ms) ⊢
  wp t (run_call (CallerRead p)) (refined t (MkTable m ms) (CallerRead p)).
Proof.
  iIntros (Hp) "[Hm Hms]". iDestruct (objs_access with "Hm") as "[Hp Hm]"; [exact Hp|].
  iApply wp_bind. iApply (wp_load with "Hp"). iIntros "Hp". iApply wp_ret.
  iApply (refined_intro _ _ _ _ (MkTable m ms)); [by constructor | iFrame].
  by iApply "Hm".
Qed.

Lemma sim_caller_write t m ms p b b' :
  m !! p = Some (OPlain b') -> table_at (MkTable m ms) ⊢
  wp t (run_call (CallerWrite p b)) (refined t (MkTable m ms) (CallerWrite p b)).
Proof.
  iIntros (Hp) "[Hm Hms]".
  iDestruct (objs_update m p (OPlain b') (OPlain b) with "Hm") as "[Hp Hm]"; [exact Hp|].
  iApply wp_bind. iApply (wp_store with "Hp"). iIntros "Hp". iApply wp_ret.
  iApply (refined_intro _ _ _ _ (put p (OPlain b) (MkTable m ms))); [by constructor | iFrame].
  by iApply "Hm".
Qed.

(** ** Tensors *)

Lemma sim_borrow t m ms data k :
  borrow_typed k = true -> table_at (MkTable m ms) ⊢
  wp t (run_call (TensorBorrow data k)) (refined t (MkTable m ms) (TensorBorrow data k)).
Proof.
  iIntros (Hk) "[Hm Hms]". iApply (wp_seq with "[]"); [by apply borrow_spec | done |].
  iIntros (p) "Hp". iApply wp_ret.
  iApply (refined_new _ _ _ _ p (OBorrowed (borrow_view data k))); [|iFrame]. by constructor.
Qed.

Lemma sim_copy t m ms data rows cols xs :
  m !! data = Some (OPlain (BF64s xs)) -> is_i64 cols = true -> is_i64 (rows * cols) = true ->
  0 <= rows * cols <= Z.of_nat (length xs) -> table_at (MkTable m ms) ⊢
  wp t (run_call (TensorCopy data rows cols)) (refined t (MkTable m ms) (TensorCopy data rows cols)).
Proof.
  iIntros (Hd Hc Hrc Hlen) "[Hm Hms]". iDestruct (objs_access with "Hm") as "[Hd Hm]"; [exact Hd|].
  iApply (wp_seq with "Hd"); [by apply rgpot_tensor_owned_cpu_f64_2d_spec|].
  iIntros (p) "(Hd & %d & Hp)". iApply wp_ret. rewrite owned_data_tensor.
  iApply (refined_new _ _ _ _ p (OOwned _ (MkView d dtype_f64 cpu_device [rows; cols])));
    [|iFrame; by iApply "Hm"].
  intros Hp. by constructor.
Qed.

(** Reading through the interface, whatever kind of tensor it is. *)
Lemma sim_inspect_with t m ms p cell o v x `{!TensorRepr R} :
  (obj_at p o ⊢ R p v ∗ (R p v -∗ obj_at p o)) ->
  m !! p = Some o -> is_tensor o = Some v -> m !! cell = Some (OPlain (BI32s [x])) ->
  table_at (MkTable m ms) ⊢
  wp t (run_call (TensorInspect p cell)) (refined t (MkTable m ms) (TensorInspect p cell)).
Proof.
  iIntros (HR Hp Hv Hc) "[Hm Hms]".
  assert (delete cell m !! p = Some o) as Hp'.
  { rewrite lookup_delete_ne //. intros ->. rewrite Hp in Hc. by injection Hc as ->. }
  iDestruct (objs_take with "Hm") as "[Hc Hm]"; [exact Hc|].
  iDestruct (objs_access with "Hm") as "[Hp Hm]"; [exact Hp'|]. rewrite {1}HR.
  iDestruct "Hp" as "[Hp Hclose]".
  iApply (wp_seq with "[Hp Hc]"); [apply (inspect_spec (T:=R) t p v cell x) | iFrame |].
  iIntros (r) "(-> & Hp & Hc)". iApply wp_ret. simpl.
  iApply (refined_intro _ _ _ _ (put cell _ (MkTable m ms))); [by econstructor|].
  iFrame "Hms". iApply objs_give. iFrame "Hc". iApply "Hm". by iApply "Hclose".
Qed.

Lemma sim_inspect t m ms p cell o v x :
  m !! p = Some o -> is_tensor o = Some v -> m !! cell = Some (OPlain (BI32s [x])) ->
  table_at (MkTable m ms) ⊢
  wp t (run_call (TensorInspect p cell)) (refined t (MkTable m ms) (TensorInspect p cell)).
Proof.
  destruct o as [b|v'|xs v'|pot|c]; intros Hp Hv Hc; try done; injection Hv as ->.
  - eapply (sim_inspect_with t m ms p cell _ v x (R:=borrowed_tensor)); [|done..].
    iIntros "$". by iIntros "$".
  - eapply (sim_inspect_with t m ms p cell _ v x (R:=data_tensor xs)); [|done..].
    iIntros "$". by iIntros "$".
Qed.

Lemma tensor_data_spec t p v `{!TensorRepr R} :
  R p v ⊢ wp t (rgpot_tensor_data p) (fun q => <affine> ⌜q = tv_data v⌝ ∗ R p v).
Proof.
  iIntros "HR". iDestruct (tensor_open with "HR") as (mt) "(%Hm & Hp & Hsh & Hclose)".
  destruct Hm as (Hd & _). iApply wp_extern_C. wp_look "Hp". iApply wp_ret.
  rewrite Hd. iSplitR; [done|]. iApply ("Hclose" with "Hp Hsh").
Qed.

Lemma sim_read_owned t m ms p len xs v :
  m !! p = Some (OOwned xs v) -> 0 <= len <= Z.of_nat (length xs) -> table_at (MkTable m ms) ⊢
  wp t (run_call (TensorRead p len)) (refined t (MkTable m ms) (TensorRead p len)).
Proof.
  iIntros (Hp Hlen) "[Hm Hms]". iDestruct (objs_access with "Hm") as "[Hp Hm]"; [exact Hp|].
  iApply (wp_seq with "Hp"); [apply (tensor_data_spec t p v (R:=data_tensor xs))|].
  iIntros (q) "[-> (%mt & %Hm & Hp & Hsh & Hd & Hfree)]".
  iApply wp_bind. iApply (wp_from_raw_parts with "Hd"); [done | lia |]. iIntros "Hd".
  iApply wp_ret.
  iApply (refined_intro _ _ _ _ (MkTable m ms)); [by econstructor|]. iFrame "Hms".
  iApply "Hm". iExists mt. by iFrame.
Qed.

Lemma sim_read_borrowed t m ms p len xs v :
  m !! p = Some (OBorrowed v) -> m !! tv_data v = Some (OPlain (BF64s xs)) ->
  0 <= len <= Z.of_nat (length xs) -> table_at (MkTable m ms) ⊢
  wp t (run_call (TensorRead p len)) (refined t (MkTable m ms) (TensorRead p len)).
Proof.
  iIntros (Hp Hd Hlen) "[Hm Hms]". iDestruct (objs_access with "Hm") as "[Hp Hm]"; [exact Hp|].
  iApply (wp_seq with "Hp"); [apply (tensor_data_spec t p v (R:=borrowed_tensor))|].
  iIntros (q) "[-> Hp]". iDestruct ("Hm" with "Hp") as "Hm".
  iDestruct (objs_access with "Hm") as "[Hd Hm]"; [exact Hd|].
  iApply wp_bind. iApply (wp_from_raw_parts with "Hd"); [done | lia |]. iIntros "Hd".
  iApply wp_ret.
  iApply (refined_intro _ _ _ _ (MkTable m ms)); [by eapply abs_read_borrowed|]. iFrame "Hms".
  by iApply "Hm".
Qed.

Lemma sim_free t m ms p :
  tensor_or_null (MkTable m ms) p -> table_at (MkTable m ms) ⊢
  wp t (run_call (TensorFree p)) (refined t (MkTable m ms) (TensorFree p)).
Proof.
  iIntros (Hp) "[Hm Hms]". iApply (wp_seq with "Hm"); [by eapply objs_tensor_free|].
  iIntros (_) "Hm". iApply wp_ret.
  iApply (refined_intro _ _ _ _ (drop_handle p _)); [constructor | iFrame].
Qed.
End simulation.
