(* ===== verification/HandleSimCalls.v ===== *)
(** * HandleSimCalls: inputs, potentials, remote potentials and messages

    The rest of the calls of the C interface implement their abstract steps. *)
From S2P Require Import Prelude Machine Objects Memory HeapLogic Status StatusTheorems Strides.
From S2P Require Import Tensor TensorSpec ForceTypes Potential Utf8 RpcEnv RpcClient RpcServer.
From S2P Require Import RpcSpec TensorTheorems ApiTheorems RpcTheorems HandleSpec HandleTable HandleSim.
From iris.proofmode Require Import proofmode.
Open Scope Z_scope.

Lemma lookup_delete_differs (m : gmap ptr Obj) p o q o' :
  m !! p = Some o -> m !! q = Some o' -> o <> o' -> delete q m !! p = Some o.
Proof. intros Hp Hq Hne. rewrite lookup_delete_ne //. intros ->. congruence. Qed.

Lemma tensor_or_null_delete m ms q p :
  tensor_or_null (MkTable m ms) p -> (p = q -> p = null) ->
  tensor_or_null (MkTable (delete q m) ms) p.
Proof.
  intros [->|(o & v & Hp & Hv)] Hq; [by left|]. destruct (decide (p = q)) as [E|Hne].
  - left. by apply Hq.
  - right. exists o, v. split; [|done]. unfold holds_at. simpl. by rewrite lookup_delete_ne.
Qed.

(** A tensor handle is not a handle of the caller's own memory. *)
Lemma tensor_not_plain m ms p q b :
  tensor_or_null (MkTable m ms) p -> m !! q = Some (OPlain b) -> p = q -> p = null.
Proof.
  intros [->|(o & v & Hp & Hv)] Hq E; [done|]. subst q. unfold holds_at in Hp. simpl in Hp.
  rewrite Hq in Hp. by injection Hp as <-.
Qed.

Section simulation.
  Context {profile : Target} {dlpack : Dlpack} {ccode : CCode}
    {errors : CapnpErrors} {lists : CapnpLists} {network : Network}
    {clib : CLibrary} {remote : RemoteSide}.
  Implicit Types (t : thread_id) (T : Table) (m : gmap ptr Obj) (ms : gmap thread_id string).

(** ** Input structs *)

Lemma sim_input_create t m ms slot n pos atmnrs box_ i0 :
  m !! slot = Some (OPlain (BForceInput i0)) -> table_at (MkTable m ms) ⊢
  wp t (run_call (InputCreate slot n pos atmnrs box_))
    (refined t (MkTable m ms) (InputCreate slot n pos atmnrs box_)).
Proof.
  iIntros (Hs) "[Hm Hms]".
  iApply (wp_seq with "[]"); [by apply (rgpot_force_input_create_spec t n pos atmnrs box_)|done|].
  iIntros ([p a b]) "(Hp & Ha & Hb)". cbn [positions atomic_numbers box_matrix].
  iDestruct (objs_put m b (OBorrowed _) with "[$Hm $Hb]") as "[[%Fb %Nb] Hm]".
  iDestruct (objs_put _ a (OBorrowed _) with "[$Hm $Ha]") as "[[%Fa %Na] Hm]".
  iDestruct (objs_put _ p (OBorrowed _) with "[$Hm $Hp]") as "[[%Fp %Np] Hm]".
  apply lookup_insert_None in Fa as [Fa Hab].
  apply lookup_insert_None in Fp as [[Fp Hpb]%lookup_insert_None Hpa].
  iDestruct (objs_update _ slot _ (OPlain (BForceInput (MkForceInput p a b))) with "Hm")
    as "[Hs Hm]".
  { rewrite !lookup_insert_ne; [exact Hs|congruence..]. }
  iApply wp_bind. iApply (wp_store with "Hs"). iIntros "Hs". iApply wp_ret.
  iApply (refined_intro _ _ _ _ (put slot _ (put p _ (put a _ (put b _ (MkTable m ms))))));
    [apply (abs_input_create _ _ slot n pos atmnrs box_ p a b); done || congruence|].
  iFrame "Hms". by iApply "Hm".
Qed.

Lemma sim_input_free t m ms slot i :
  m !! slot = Some (OPlain (BForceInput i)) ->
  tensor_or_null (MkTable m ms) (positions i) ->
  tensor_or_null (MkTable m ms) (atomic_numbers i) ->
  tensor_or_null (MkTable m ms) (box_matrix i) ->
  (positions i = atomic_numbers i -> positions i = null) ->
  (positions i = box_matrix i -> positions i = null) ->
  (atomic_numbers i = box_matrix i -> atomic_numbers i = null) ->
  table_at (MkTable m ms) ⊢
  wp t (run_call (InputFree slot)) (refined t (MkTable m ms) (InputFree slot)).
Proof.
  iIntros (Hs Hp Ha Hb Hpa Hpb Hab) "[Hm Hms]".
  iDestruct (objs_take with "Hm") as "[Hs Hm]"; [done|].
  assert (forall q, tensor_or_null (MkTable m ms) q ->
    tensor_or_null (MkTable (delete slot m) ms) q) as Hdel.
  { intros q Hq. apply tensor_or_null_delete; [done|]. by eapply tensor_not_plain. }
  iApply (wp_seq with "[Hs Hm]");
    [apply (rgpot_force_input_free_with t slot i (objs_at (delete slot m))
      (objs_at (delete (positions i) (delete slot m)))
      (objs_at (delete (atomic_numbers i) (delete (positions i) (delete slot m))))
      (objs_at (delete (box_matrix i) (delete (atomic_numbers i)
        (delete (positions i) (delete slot m)))))) | iFrame "Hm"; iExact "Hs" |].
  - by eapply objs_tensor_free, Hdel.
  - eapply (objs_tensor_free _ _ ms), tensor_or_null_delete; [by apply Hdel | naive_solver congruence].
  - eapply (objs_tensor_free _ _ ms). apply tensor_or_null_delete; [apply tensor_or_null_delete|];
      [by apply Hdel | naive_solver congruence..].
  - iIntros (_) "[Hs Hm]". iApply wp_ret.
    iApply (refined_intro _ _ _ _ (put slot _ (drop_handle _ (drop_handle _
      (drop_handle _ (MkTable m ms)))))); [by eapply (abs_input_free _ _ slot i)|].
    iFrame "Hms". iApply objs_give. iFrame "Hs".
    rewrite !(delete_delete _ slot) !(delete_delete _ (positions i)).
    by rewrite !(delete_delete _ (box_matrix i)).
Qed.

(** ** Potentials *)

Lemma sim_potential_new t m ms cb ud fr :
  table_at (MkTable m ms) ⊢
  wp t (run_call (PotentialNew cb ud fr)) (refined t (MkTable m ms) (PotentialNew cb ud fr)).
Proof.
  iIntros "[Hm Hms]". iApply (wp_seq with "[]"); [apply (rgpot_potential_new_spec t cb ud fr)|done|].
  iIntros (p) "Hp". iApply wp_ret. iApply (refined_new _ _ _ _ p (OPotential _)); [|iFrame].
  by constructor.
Qed.

Lemma sim_potential_free t m ms pot p :
  m !! pot = Some (OPotential p) ->
  (forall free, free_fn p = Some free -> user_data p <> null ->
     lib_destructor free /\ exists z, m !! user_data p = Some (OPlain (BForeign z))) ->
  table_at (MkTable m ms) ⊢
  wp t (run_call (PotentialFree pot)) (refined t (MkTable m ms) (PotentialFree pot)).
Proof.
  iIntros (Hp Hfree) "[Hm Hms]". iDestruct (objs_null with "Hm") as %Hnull.
  iDestruct (objs_take with "Hm") as "[Hp Hm]"; [exact Hp|].
  set (m' := if free_fn p then delete (user_data p) (delete pot m) else delete pot m).
  iAssert (∃ z, objs_at m' ∗ (if bool_decide (is_Some (free_fn p) /\ user_data p <> null)
             then user_data p ↦ BForeign z else emp) ∗
             <affine> ⌜forall f, free_fn p = Some f -> user_data p <> null -> lib_destructor f⌝)%I
    with "[Hm]" as (z) "(Hm & Hud & %Hlib)".
  { subst m'. destruct (free_fn p) as [free|] eqn:E.
    2:{ iExists 0. rewrite bool_decide_false; [|intros [[? ?] _]; done]. by iFrame. }
    destruct (decide (user_data p = null)) as [Hn|Hn].
    - iExists 0. rewrite bool_decide_false; [|naive_solver]. rewrite Hn (delete_id _ null).
      2:{ apply lookup_delete_None. by right. }
      iFrame. iPureIntro. naive_solver.
    - destruct (Hfree free) as [Hl [z Hz]]; [done..|]. iExists z. rewrite bool_decide_true //.
      iDestruct (objs_take (delete pot m) (user_data p) (OPlain (BForeign z)) with "Hm")
        as "[$ $]".
      { by eapply lookup_delete_differs. }
      iPureIntro. naive_solver. }
  iApply (wp_seq t _ _ _ (fun _ => objs_at m' ∗ emp)%I with "[Hp Hm Hud]");
    [|iAccu|].
  - iIntros "(Hp & Hm & Hud)".
    iApply (wp_wand _ _ (fun _ => emp)%I with "[Hp Hud]"); [|by iIntros (_) "_"; iFrame].
    iApply (rgpot_potential_free_spec with "Hp Hud"). intros free Hf Hu.
    by apply lib_free, (Hlib free).
  - iIntros (_) "[Hm _]". iApply wp_ret.
    iApply (refined_intro _ _ _ _ (drop_handle pot (if free_fn p then
      drop_handle (user_data p) (MkTable m ms) else MkTable m ms))); [by constructor|].
    subst m'. destruct (free_fn p); iFrame "Hms"; simpl; [by rewrite delete_delete|done].
Qed.

(** The user data, as a list of handles. *)
Definition user_list (ud : ptr) (z : Z) : list (ptr * Obj) :=
  if is_null ud then [] else [(ud, OPlain (BForeign z))].

Lemma user_list_at ud z :
  ([∗ list] x ∈ user_list ud z, obj_at x.1 x.2) ⊣⊢ user_at ud z.
Proof.
  unfold user_list, user_at. destruct (is_null ud); simpl; [done|]. by rewrite right_id.
Qed.

Definition call_handles (h : ptr) (oh : Obj) (input : ptr) (i : rgpot_force_input_t)
    (pp pa pb : ptr) (c : Config) : list (ptr * Obj) :=
  [(h, oh); (input, OPlain (BForceInput i));
   (positions i, OBorrowed (positions_view pp (cf_n c)));
   (atomic_numbers i, OBorrowed (atmnrs_view pa (cf_n c)));
   (box_matrix i, OBorrowed (box_view pb));
   (pp, OPlain (BF64s (cf_positions c))); (pa, OPlain (BI32s (cf_atomic_numbers c)));
   (pb, OPlain (BF64s (cf_box c)))].

Definition is_handle_obj (o : Obj) : Prop :=
  match o with OPotential _ | OClient _ => True | _ => False end.

Lemma call_handles_nodup h oh input i pp pa pb c ud z :
  is_handle_obj oh -> pp <> pb ->
  NoDup (call_handles h oh input i pp pa pb c ++ user_list ud z).
Proof.
  intros Hoh Hpb. unfold call_handles, user_list.
  destruct oh; try done; destruct (is_null ud); simpl; repeat constructor; simpl;
    rewrite ?elem_of_cons ?elem_of_nil; naive_solver.
Qed.

(** What an evaluation borrows from the table, and how it is given back with the new output. *)
Lemma open_call m ms h oh input i pp pa pb c ud z output o :
  config_at (MkTable m ms) input i pp pa pb c -> user_ok (MkTable m ms) ud z ->
  m !! h = Some oh -> is_handle_obj oh -> m !! output = Some (OPlain (BForceOut o)) ->
  objs_at m ⊢ obj_at h oh ∗ user_at ud z ∗ input_at input i pp pa pb c ∗ output ↦ BForceOut o ∗
    (∀ o', obj_at h oh -∗ user_at ud z -∗ input_at input i pp pa pb c -∗
       output ↦ BForceOut o' -∗ objs_at (<[output := OPlain (BForceOut o')]> m)).
Proof.
  intros (Hc & Hpb & Hin & Hp & Ha & Hb & Hpp & Hpa & Hpb') Hud Hh Hoh Hout.
  unfold holds_at in *. simpl in *.
  iIntros "Hm". iDestruct (objs_take with "Hm") as "[Hout Hm]"; [exact Hout|].
  iDestruct (objs_list (delete output m) (call_handles h oh input i pp pa pb c ++ user_list ud z)
    with "Hm") as "[Hl Hk]".
  { by apply call_handles_nodup. }
  { assert (forall q oq, m !! q = Some oq -> oq <> OPlain (BForceOut o) ->
      delete output m !! q = Some oq) as Hdel by (intros; by eapply lookup_delete_differs).
    apply Forall_app. split.
    - unfold call_handles. rewrite !Forall_cons Forall_nil. simpl.
      split_and!; try done; apply Hdel; try done. by destruct oh.
    - unfold user_list. destruct (is_null ud) eqn:E; repeat constructor; simpl.
      destruct Hud as [->|Hud]; [done|]. by apply Hdel. }
  rewrite big_sepL_app user_list_at. iDestruct "Hl" as "[Hl Hud]".
  iDestruct "Hl" as "($ & Hi & Hp & Ha & Hb & Hpp & Hpa & Hpb & _)". iFrame "Hud Hout".
  iSplitL "Hi Hp Ha Hb Hpp Hpa Hpb"; [iFrame; iFrame "Hp"|].
  iIntros (o') "Hh Hud (Hi & (Hp & Ha & Hb) & Hpp & Hpa & Hpb) Ho".
  iApply objs_give. iFrame "Ho". iApply "Hk". iFrame "Hud". simpl. iFrame.
Qed.

(** The forces of an answer become a handle of the table. *)
Lemma forces_enter m ms fp n F :
  objs_at m ∗ msgs_at ms ∗ maybe_forces fp n F ⊢
  ∃ T', <affine> ⌜forces_stored (MkTable m ms) fp n F T'⌝ ∗ table_at T'.
Proof.
  iIntros "(Hm & Hms & HF)". unfold maybe_forces. destruct (is_null fp) eqn:E.
  - iDestruct "HF" as %->. apply is_null_spec in E. iExists (MkTable m ms). iFrame.
    iPureIntro. by constructor.
  - rewrite forces_data_tensor. iDestruct "HF" as (d) "[%HF HF]".
    iDestruct (objs_put m fp (OOwned F _) with "[$Hm $HF]") as "[[%Hf %Hn] Hm]".
    iExists (put fp _ (MkTable m ms)). iFrame "Hms Hm". iPureIntro. by constructor.
Qed.
End simulation.
