(* ===== verification/HandleEval.v ===== *)
(** * HandleEval: evaluations, clients and messages; all calls together

    The evaluations of a local and of a remote potential implement their abstract steps, and
    so does every permitted call of the interface ([call_refines]). *)
From S2P Require Import Prelude Machine Objects Memory HeapLogic Status StatusTheorems Strides.
From S2P Require Import Tensor TensorSpec ForceTypes Potential Utf8 RpcEnv RpcClient RpcServer.
From S2P Require Import RpcSpec TensorTheorems RpcTheorems HandleSpec HandleTable HandleSim.
From S2P Require Import HandleSimCalls.
From iris.proofmode Require Import proofmode.
Open Scope Z_scope.

Lemma null_argument_some who (args : list (string * ptr)) :
  null ∈ args.*2 -> exists err, null_argument who args = Some err.
Proof.
  intros (a & Ha & Hin)%list_elem_of_fmap. unfold null_argument.
  destruct (filter _ args) as [|[name p] l] eqn:E; [|by eexists].
  assert (a ∈ filter (fun a : string * ptr => is_null a.2 = true) args) as Hf.
  { apply list_elem_of_filter. split; [|done]. by rewrite -Ha. }
  rewrite E in Hf. by apply elem_of_nil in Hf.
Qed.

(** The messages of the argument checks are stored as they are. *)
Lemma null_argument_stored who (a b c : ptr) err n1 n2 n3 :
  contains_nul (who +:+ ": " +:+ n1 +:+ " is NULL") = false ->
  contains_nul (who +:+ ": " +:+ n2 +:+ " is NULL") = false ->
  contains_nul (who +:+ ": " +:+ n3 +:+ " is NULL") = false ->
  null_argument who [(n1, a); (n2, b); (n3, c)] = Some err -> stored_message err = err.
Proof.
  intros H1 H2 H3. unfold null_argument. cbn.
  destruct (is_null a), (is_null b), (is_null c); cbn; try done;
    intros [= <-]; by apply stored_message_id.
Qed.

Section evaluation.
  Context {profile : Target} {dlpack : Dlpack} {ccode : CCode}
    {errors : CapnpErrors} {lists : CapnpLists} {network : Network}
    {clib : CLibrary} {remote : RemoteSide}.
  Implicit Types (t : thread_id) (T : Table) (m : gmap ptr Obj) (ms : gmap thread_id string).

(** A call that only reports an error. *)
Lemma refined_say t m ms c a e s :
  ms !! t = Some s -> abs_step t (MkTable m ms) c a (say t e (MkTable m ms)) ->
  objs_at m ∗ (∀ s', slot_is t s' -∗ msgs_at (<[t := s']> ms)) ∗
    last_error_slot t (Some (stored_message e)) ⊢ refined t (MkTable m ms) c a.
Proof.
  iIntros (Hs Hstep) "(Hm & Hms & Hslot)". iApply (refined_intro _ _ _ _ _ Hstep).
  iFrame "Hm". iApply "Hms". iExists _. by iFrame.
Qed.

Lemma sim_calculate_null t m ms s pot input output :
  ms !! t = Some s -> some_null [pot; input; output] -> table_at (MkTable m ms) ⊢
  wp t (run_call (Calculate pot input output)) (refined t (MkTable m ms) (Calculate pot input output)).
Proof.
  iIntros (Hs Hnull) "[Hm Hms]".
  iDestruct (msgs_update with "Hms") as "[(%msg & %Hmsg & Hslot) Hms]"; [exact Hs|].
  destruct (null_argument_some "rgpot_potential_calculate"
    [("pot"%string, pot); ("input"%string, input); ("output"%string, output)]) as [err Herr];
    [done|].
  iApply (wp_seq with "Hslot"); [by apply rgpot_potential_calculate_null_spec|].
  iIntros (st) "[-> Hslot]". iApply wp_ret.
  iApply (refined_say _ _ _ _ _ err); [done | by constructor | iFrame].
  by rewrite (null_argument_stored _ _ _ _ _ _ _ _ _ _ _ Herr).
Qed.

Lemma sim_calculate t m ms pot input output p z i pp pa pb c e v :
  m !! pot = Some (OPotential p) -> lib_callback (callback p) ->
  user_ok (MkTable m ms) (user_data p) z -> config_at (MkTable m ms) input i pp pa pb c ->
  m !! output = Some (OPlain (BForceOut (MkForceOut null e v))) -> table_at (MkTable m ms) ⊢
  wp t (run_call (Calculate pot input output)) (refined t (MkTable m ms) (Calculate pot input output)).
Proof.
  iIntros (Hp Hcb Hud Hc Ho) "[Hm Hms]".
  iDestruct (open_call _ _ _ _ _ _ _ _ _ _ _ _ _ _ Hc Hud Hp with "Hm")
    as "(Hpot & Hud & (Hi & Hin) & Ho & Hk)"; [done | exact Ho |].
  iDestruct (pointsto_not_null with "Hi") as %Hni. iDestruct (pointsto_not_null with "Ho") as %Hno.
  iApply wp_bind. iApply (rgpot_potential_calculate_spec with "Hpot"); [done..|]. iIntros "Hpot".
  iApply (wp_use with "[Hud Hi Hin Ho]");
    [apply (lib_answers (callback p) (user_data p) z c t i pp pa pb); [done | apply Hc] | iFrame |].
  iIntros (st) "(Hud & Hin & %o & %F & Ho & HF & %Hrel)". iApply wp_ret.
  iDestruct ("Hk" with "Hpot Hud Hin Ho") as "Hm".
  iDestruct (forces_enter with "[$Hm $Hms $HF]") as (T') "[%Hst HT]".
  iApply (refined_intro with "HT"). by eapply abs_calculate.
Qed.

(** ** Clients *)

Lemma client_new_null_spec t port msg :
  last_error_slot t msg ⊢ wp t (rgpot_rpc_client_new null port) (fun p =>
    <affine> ⌜p = null⌝ ∗
    last_error_slot t (Some (stored_message "rgpot_rpc_client_new: host is NULL"))).
Proof.
  iIntros "H". iApply wp_extern_C. wp_call set_last_error_spec "H". iIntros (_) "H".
  iApply wp_ret. by iFrame.
Qed.

Lemma sim_client_new t m ms s host port :
  ms !! t = Some s -> (host = null \/ exists x, m !! host = Some (OPlain (BCStr x))) ->
  table_at (MkTable m ms) ⊢
  wp t (run_call (ClientNew host port)) (refined t (MkTable m ms) (ClientNew host port)).
Proof.
  iIntros (Hs Hh) "[Hm Hms]".
  iDestruct (msgs_update with "Hms") as "[(%msg & %Hmsg & Hslot) Hms]"; [exact Hs|].
  destruct Hh as [->|[x Hx]].
  - iApply (wp_seq with "Hslot"); [apply client_new_null_spec|]. iIntros (p) "[-> Hslot]".
    iApply wp_ret. iApply (refined_say _ _ _ _ _ _ s); [done | constructor | iFrame].
  - iDestruct (objs_access with "Hm") as "[Hh Hm]"; [exact Hx|].
    iApply (wp_seq with "[Hslot Hh]");
      [apply (rgpot_rpc_client_new_spec t host x port remote_runtime msg); apply remote_runtime_new
      | iFrame |].
    iIntros (p) "[Hh H]". iDestruct ("Hm" with "Hh") as "Hm". iApply wp_ret.
    destruct (client_new_verdict x port remote_runtime) as [cl|e] eqn:E.
    + iDestruct "H" as "[Hslot Hp]". iApply (refined_new _ _ _ _ p (OClient cl)).
      { intros Hp. by eapply abs_client_new. }
      iFrame "Hp Hm". iDestruct ("Hms" with "[Hslot]") as "Hms"; [iExists msg; by iFrame|].
      by rewrite insert_id.
    + iDestruct "H" as "[-> Hslot]".
      iApply (refined_say _ _ _ _ _ e s); [done | by eapply abs_client_new_fails | iFrame].
Qed.

Lemma sim_client_free t m ms client :
  (client = null \/ exists cl, m !! client = Some (OClient cl)) -> table_at (MkTable m ms) ⊢
  wp t (run_call (ClientFree client)) (refined t (MkTable m ms) (ClientFree client)).
Proof.
  iIntros (Hc) "[Hm Hms]". iApply (wp_seq t (objs_at m) _ _ (fun _ => objs_at (delete client m))
    with "Hm").
  - iIntros "Hm". iApply wp_extern_C. destruct Hc as [->|[cl Hcl]].
    + iDestruct (objs_null with "Hm") as %Hn. rewrite delete_id //. by iApply wp_ret.
    + iDestruct (objs_take with "Hm") as "[Hc Hm]"; [exact Hcl|].
      iDestruct (is_null_pointsto with "Hc") as %->. cbn [negb]. wp_look "Hc".
      iApply wp_bind. iApply wp_done; [intros σ; apply remote_runtime_drop|].
      by iApply (wp_dealloc with "Hc").
  - iIntros (_) "Hm". iApply wp_ret.
    iApply (refined_intro _ _ _ _ (drop_handle client (MkTable m ms))); [constructor | iFrame].
Qed.

(** ** Remote evaluations *)

Lemma sim_rpc_null t m ms s client input output :
  ms !! t = Some s -> some_null [client; input; output] -> table_at (MkTable m ms) ⊢
  wp t (run_call (RpcCalculate client input output))
    (refined t (MkTable m ms) (RpcCalculate client input output)).
Proof.
  iIntros (Hs Hnull) "[Hm Hms]".
  iDestruct (msgs_update with "Hms") as "[(%msg & %Hmsg & Hslot) Hms]"; [exact Hs|].
  destruct (null_argument_some "rgpot_rpc_calculate"
    [("client"%string, client); ("input"%string, input); ("output"%string, output)]) as [err Herr];
    [done|].
  iApply (wp_seq with "Hslot"); [by apply rgpot_rpc_calculate_null_spec|].
  iIntros (st) "[-> Hslot]". iApply wp_ret.
  iApply (refined_say _ _ _ _ _ err); [done | by constructor | iFrame].
  by rewrite (null_argument_stored _ _ _ _ _ _ _ _ _ _ _ Herr).
Qed.

Lemma remote_answers c z :
  config_ok c = true ->
  callback_answers (user_at (srv_user_data remote_server) z) (srv_callback remote_server)
    (srv_user_data remote_server) c (lib_rel (srv_callback remote_server) z c).
Proof. intros Hc t i pp pa pb input output. apply lib_answers; [apply remote_callback | done]. Qed.

Lemma sim_rpc t m ms s client input output cl z i pp pa pb c o :
  ms !! t = Some s -> m !! client = Some (OClient cl) ->
  user_ok (MkTable m ms) (srv_user_data remote_server) z ->
  config_at (MkTable m ms) input i pp pa pb c ->
  m !! output = Some (OPlain (BForceOut o)) -> table_at (MkTable m ms) ⊢
  wp t (run_call (RpcCalculate client input output))
    (refined t (MkTable m ms) (RpcCalculate client input output)).
Proof.
  iIntros (Hs Hcl Hud Hc Ho) "[Hm Hms]".
  iDestruct (msgs_update with "Hms") as "[(%msg & %Hmsg & Hslot) Hms]"; [exact Hs|].
  iDestruct (open_call _ _ _ _ _ _ _ _ _ _ _ _ _ _ Hc Hud Hcl with "Hm")
    as "(Hcl & Hud & Hin & Ho & Hk)"; [done | exact Ho |].
  iApply (wp_seq with "[Hslot Hcl Hud Hin Ho]");
    [eapply (rgpot_rpc_calculate_outcome t _ remote_server _ cl client c i);
       [apply remote_faithful | apply Hc | by apply remote_answers, Hc] | iFrame |].
  iIntros (st) "((Hud & Hcl) & Hin & %st' & %e & %F & %r & %Hrel & Hout & Hr)". iApply wp_ret.
  unfold client_outcome. case_decide as Hst; [case_decide as HF|]; subst.
  - iDestruct "Hout" as "(-> & %fp & Ho & HF)". iDestruct "Hr" as "[-> Hslot]".
    iDestruct (forces_tensor_not_null with "HF") as %Hfp.
    iDestruct ("Hk" with "Hcl Hud Hin Ho") as "Hm".
    iDestruct ("Hms" with "[Hslot]") as "Hms"; [iExists msg; by iFrame|]. rewrite (insert_id ms) //.
    iDestruct (forces_enter _ _ fp (cf_n c) F with "[$Hm $Hms HF]") as (T') "[%Hst HT]".
    { unfold maybe_forces. by rewrite is_null_false. }
    iApply (refined_intro with "HT"). by eapply abs_rpc.
  - iDestruct "Hout" as "(-> & Ho)". iDestruct "Hr" as "[-> Hslot]".
    iDestruct ("Hk" with "Hcl Hud Hin Ho") as "Hm".
    iApply (refined_intro _ _ _ _ (say t _ (put output _ (MkTable m ms))));
      [by eapply abs_rpc_mismatch|].
    iFrame "Hm". iApply "Hms". iExists _. by iFrame "Hslot".
  - iDestruct "Hout" as "(-> & Ho)". iDestruct "Hr" as "[-> Hslot]".
    iDestruct ("Hk" with "Hcl Hud Hin Ho") as "Hm". rewrite (insert_id m) //.
    iApply (refined_say _ _ _ _ _ _ (default "" msg)); [done | by eapply abs_rpc_error | iFrame].
Qed.

Lemma sim_last_error t m ms s :
  ms !! t = Some s -> table_at (MkTable m ms) ⊢
  wp t (run_call LastError) (refined t (MkTable m ms) LastError).
Proof.
  iIntros (Hs) "[Hm Hms]".
  iDestruct (msgs_access ms t s with "Hms") as "[(%msg & <- & Hslot) Hms]"; [exact Hs|].
  iApply (wp_seq with "Hslot"); [apply rgpot_last_error_spec|]. iIntros (q) "[Ht Hq]".
  iApply (wp_seq with "Hq"); [apply cstr_from_ptr_spec|]. iIntros (r) "[Hq ->]". iApply wp_ret.
  iApply (refined_intro _ _ _ _ (MkTable m ms)); [by constructor|]. iFrame "Hm". iApply "Hms".
  iExists (Some _). iSplitR; [done|]. iExists q. iFrame.
Qed.

(** ** All calls *)

Lemma call_refines t T c :
  permitted t T c -> table_at T ⊢ wp t (run_call c) (refined t T c).
Proof.
  destruct T as [m ms]. intros [[s Hs] Hc]. simpl in Hs. unfold holds_at in Hc.
  destruct c; cbn [tb_objs] in Hc.
  - apply sim_caller_alloc.
  - destruct Hc as [b Hb]. by eapply sim_caller_free.
  - destruct Hc as [b Hb]. by eapply sim_caller_read.
  - destruct Hc as [_ [b' Hb]]. by eapply sim_caller_write.
  - by apply sim_borrow.
  - destruct Hc as (xs & Hd & Hc & Hrc & Hlen). by eapply sim_copy.
  - destruct Hc as [(o & v & Hp & Hv) [x Hx]]. by eapply sim_inspect.
  - destruct Hc as (xs & Hlen & [[v Hp]|(v & Hp & Hd)]);
      [by eapply sim_read_owned | by eapply sim_read_borrowed].
  - by apply sim_free.
  - destruct Hc as [i Hi]. by eapply sim_input_create.
  - destruct Hc as [->|(i & Hi & Hp & Ha & Hb & H1 & H2 & H3)]; [|by eapply sim_input_free].
    iIntros "HT". iApply wp_bind. iApply wp_extern_C. iApply wp_ret. iApply wp_ret.
    iApply (refined_intro with "HT"). constructor.
  - apply sim_potential_new.
  - destruct Hc as [->|(p & Hp & Hfree)]; [|by eapply sim_potential_free].
    iIntros "HT". iApply wp_bind. iApply wp_extern_C. iApply wp_ret. iApply wp_ret.
    iApply (refined_intro with "HT"). constructor.
  - destruct Hc as [Hnull|(p & z & i & pp & pa & pb & c & e & v & Hp & Hcb & Hud & Hc & Ho)];
      [by eapply sim_calculate_null | by eapply sim_calculate].
  - by eapply sim_client_new.
  - by apply sim_client_free.
  - destruct Hc as [Hnull|(cl & z & i & pp & pa & pb & c & o & Hcl & Hud & Hc & Ho)];
      [by eapply sim_rpc_null | by eapply sim_rpc].
  - by eapply sim_last_error.
Qed.
End evaluation.
