(* ===== verification/HandleTheorems.v ===== *)
(** * HandleTheorems: C programs against the abstract interface

    The C interface refines the table of handles, call by call; and programs that respect
    the preconditions of the table never go wrong, whatever they do with the answers. *)
From S2P Require Import Prelude Machine Objects Memory HeapLogic Status StatusTheorems Strides.
From S2P Require Import Tensor TensorSpec ForceTypes Potential Utf8 RpcEnv RpcClient RpcServer.
From S2P Require Import RpcSpec Environment TensorTheorems Callbacks RpcTheorems.
From S2P Require Import HandleSpec HandleTable HandleSim HandleSimCalls HandleEval.
From iris.proofmode Require Import proofmode.
Open Scope Z_scope.

Section programs.
  Context {profile : Target} {dlpack : Dlpack} {ccode : CCode}
    {errors : CapnpErrors} {lists : CapnpLists} {network : Network}
    {clib : CLibrary} {remote : RemoteSide}.
  Implicit Types (t : thread_id) (T : Table) (σ : Mem) (hf : gmap loc Block).

(** The store consists of the objects of the table and a part [hf] that is never touched. *)
Definition store_of T hf σ : Prop :=
  wf_mem σ /\ exists h, table_at T h /\ mem_map σ = h ∪ hf /\ h ##ₘ hf.

Lemma call_run t T c σ hf :
  permitted t T c -> store_of T hf σ ->
  exists a σ' T', run_call c t σ = Done a σ' /\ abs_step t T c a T' /\ store_of T' hf σ'.
Proof.
  intros Hc (Hwf & h & HT & Hm & Hd).
  destruct (wp_run t (run_call c) _ _ σ h hf (call_refines t T c Hc) HT Hwf Hm Hd)
    as (a & σ' & h' & Hrun & Hwf' & Hm' & Hd' & T' & h1 & h2 & -> & Hd2 & [-> Hstep] & HT').
  exists a, σ', T'. split_and!; [done..|]. rewrite left_id_L in Hm', Hd'.
  split; [done|]. by exists h2.
Qed.

Lemma handle_not_null T hf σ p o : store_of T hf σ -> holds_at T p o -> p <> null.
Proof.
  intros (_ & h & HT & _) Hp. refine (holds_mono (table_at T) (⌜p <> null⌝) h _ HT).
  iIntros "[Hm _]". iDestruct (objs_take with "Hm") as "[Hp _]"; [exact Hp|].
  by iDestruct (obj_not_null with "Hp") as %?.
Qed.

(** C1: The C interface refines the table of handles.  Take any call of the C interface
    (tensors, inputs, potentials, remote potentials, the error message, and the caller's own
    allocations), on any thread, whose precondition holds in the abstract table, and any
    store that represents the table.  The call of the code then returns, without panic,
    abort or undefined behaviour; its answer and effect are ones that the abstract step
    allows; and the store it leaves represents the new table.  Memory outside of the table
    is not touched. *)
Theorem c_interface_refines_table t T (c : Call) σ hf
    (Hc : permitted t T c) (Hσ : store_of T hf σ) :
  exists a σ' T', run_call c t σ = Done a σ' /\ abs_step t T c a T' /\ store_of T' hf σ'.
Proof. by apply call_run. Qed.

(** ** Programs

    A program decides the next call, and the thread that makes it, from the answers so
    far. *)
Definition History : Type := list (thread_id * Call * Answer).
Definition Program : Type := History -> option (thread_id * Call).

Fixpoint run_program (calls : nat) (prog : Program) (hist : History) : M History :=
  match calls with
  | O => mret hist
  | S calls =>
      match prog hist with
      | None => mret hist
      | Some (t, c) =>
          a ← on_thread t (run_call c);
          run_program calls prog (hist ++ [(t, c, a)])
      end
  end.

(** The histories that the abstract interface allows, with the table they lead to. *)
Inductive session (prog : Program) T : History -> Table -> Prop :=
| session_start : session prog T [] T
| session_call hist T1 t c a T2 :
    session prog T hist T1 -> prog hist = Some (t, c) -> abs_step t T1 c a T2 ->
    session prog T (hist ++ [(t, c, a)]) T2.

Lemma session_nil prog T T' : session prog T [] T' -> T' = T.
Proof.
  intros H. inversion H as [|hist T1 t c a T2 _ _ _ E]; [done|]. by destruct hist.
Qed.

Lemma session_snoc prog T hist x T' :
  session prog T (hist ++ [x]) T' ->
  exists T1, session prog T hist T1 /\ prog hist = Some x.1 /\ abs_step x.1.1 T1 x.1.2 x.2 T'.
Proof.
  intros H. inversion H as [E|hist' T1 t c a T2 Hs Hp Hstep E]; [by destruct hist|].
  apply app_inj_tail in E as [-> <-]. by exists T1.
Qed.

Definition disciplined (prog : Program) T : Prop :=
  forall hist T' t c, session prog T hist T' -> prog hist = Some (t, c) -> permitted t T' c.

Lemma session_run prog T0 n hist T σ hf t0 :
  disciplined prog T0 -> session prog T0 hist T -> store_of T hf σ ->
  exists hist' T' σ', run_program n prog hist t0 σ = Done hist' σ' /\
    session prog T0 hist' T' /\ store_of T' hf σ'.
Proof.
  intros Hprog. revert hist T σ. induction n as [|n IH]; intros hist T σ Hs Hσ; simpl.
  { by exists hist, T, σ. }
  destruct (prog hist) as [[t c]|] eqn:E; [|by exists hist, T, σ].
  destruct (call_run t T c σ hf) as (a & σ1 & T1 & Hrun & Hstep & Hσ1);
    [by eapply Hprog | done |].
  destruct (IH (hist ++ [(t, c, a)]) T1 σ1) as (hist' & T' & σ' & Hrun' & Hs' & Hσ');
    [by eapply session_call | done |].
  exists hist', T', σ'. split; [|done]. unfold mbind, M_bind, on_thread. by rewrite Hrun.
Qed.

(** ** What is left in the store *)

(** No object of the crate is left: only the caller's own memory. *)
Definition only_plain T : Prop := forall p o, holds_at T p o -> exists b, o = OPlain b.

Lemma objs_heap (m : gmap ptr Obj) h p b :
  (forall p o, m !! p = Some o -> exists b, o = OPlain b) -> objs_at m h ->
  h !! LHeap p = Some b -> m !! p = Some (OPlain b).
Proof.
  revert h. induction m as [|q o m Hq IH] using map_ind; intros h Hplain Hh Hp.
  - eapply holds_mono in Hh; [|by apply bi.equiv_entails_1_1, big_sepM_empty].
    simpl in Hh. by rewrite Hh in Hp.
  - eapply holds_mono in Hh; [|by apply bi.equiv_entails_1_1, big_sepM_insert].
    destruct Hh as (h1 & h2 & -> & Hd & Ho & Hm).
    destruct (Hplain q o) as [b' ->]; [apply lookup_insert_eq|]. destruct Ho as [Hn ->].
    apply lookup_union_Some in Hp as [Hp|Hp]; [..|done].
    + apply lookup_singleton_Some in Hp as [[= ->] ->]. apply lookup_insert_eq.
    + rewrite lookup_insert_ne.
      * apply (IH h2); [|done..]. intros p' o' Hp'. apply (Hplain p').
        rewrite lookup_insert_ne //. congruence.
      * intros ->. apply map_disjoint_singleton_l in Hd. congruence.
Qed.

Lemma msgs_heap (ms : gmap thread_id string) h p b :
  msgs_at ms h -> h !! LHeap p = Some b ->
  exists t, h !! LTls t = Some (BLastError (Some p)).
Proof.
  revert h. induction ms as [|t s ms Ht IH] using map_ind; intros h Hh Hp.
  - eapply holds_mono in Hh; [|by apply bi.equiv_entails_1_1, big_sepM_empty].
    simpl in Hh. by rewrite Hh in Hp.
  - eapply holds_mono in Hh; [|by apply bi.equiv_entails_1_1, big_sepM_insert].
    destruct Hh as (h1 & h2 & -> & Hd & (msg & h3 & h4 & -> & _ & [He _] & Hs) & Hms).
    simpl in He. subst h3. rewrite left_id_L in Hd Hp |- *.
    apply lookup_union_Some in Hp as [Hp|Hp]; [..|done].
    + exists t. apply lookup_union_Some_l. destruct msg as [x|].
      * destruct Hs as (q & h5 & h6 & -> & _ & Hq & [_ ->]). simpl in Hq. subst h5.
        apply lookup_union_Some_raw in Hp as [Hp|[_ Hp]].
        -- by apply lookup_singleton_Some in Hp as [? _].
        -- apply lookup_singleton_Some in Hp as [[= ->] _].
           apply lookup_union_Some_l, lookup_singleton_eq.
      * simpl in Hs. subst h4. by apply lookup_singleton_Some in Hp as [? _].
    + destruct (IH h2 Hms Hp) as [t' Ht']. exists t'. by apply lookup_union_Some_r.
Qed.

Lemma no_leak T hf σ p b :
  only_plain T -> store_of T hf σ -> mem_map σ !! LHeap p = Some b ->
  holds_at T p (OPlain b) \/ hf !! LHeap p = Some b \/
  exists t, mem_map σ !! LTls t = Some (BLastError (Some p)).
Proof.
  intros Hplain (_ & h & (h1 & h2 & -> & Hd & Ho & Hms) & -> & Hdf) Hp.
  apply lookup_union_Some in Hp as [Hp|Hp]; [|by right; left|done].
  apply lookup_union_Some in Hp as [Hp|Hp]; [left | right; right | done].
  - by eapply objs_heap.
  - destruct (msgs_heap _ _ _ _ Hms Hp) as [t Ht]. exists t.
    apply lookup_union_Some_l. by apply lookup_union_Some_r.
Qed.

(** C3: Well-behaved C programs do not go wrong.  A program chooses its calls, and the
    threads that make them, from the answers it has seen.  When the abstract interface alone
    shows that it never breaks a precondition, every run of the code on it completes its
    calls without panic, abort or undefined behaviour (no use after free, no double free, no
    read out of bounds), the answers are ones of the abstract interface, and the table goes
    on describing the store.  A program that has freed its handles has leaked nothing: what
    is left on the heap is its own memory, memory that was there before, and the messages
    of threads. *)
Theorem disciplined_programs_are_safe (prog : Program) T0 σ hf (t0 : thread_id) (calls : nat)
    (Hprog : disciplined prog T0) (Hσ : store_of T0 hf σ) :
  exists hist T σ', run_program calls prog [] t0 σ = Done hist σ' /\
    session prog T0 hist T /\ store_of T hf σ' /\
    (only_plain T -> forall p b, mem_map σ' !! LHeap p = Some b ->
       holds_at T p (OPlain b) \/ hf !! LHeap p = Some b \/
       exists t, mem_map σ' !! LTls t = Some (BLastError (Some p))).
Proof.
  destruct (session_run prog T0 calls [] T0 σ hf t0 Hprog) as (hist & T & σ' & Hrun & Hs & Hσ');
    [constructor | done |].
  exists hist, T, σ'. split_and!; [done..|]. intros Hplain p b. by apply no_leak.
Qed.
End programs.

(** ** Concrete instances of the theorems *)

Section demo.
#[local] Existing Instances debug_profile dlpack_header demo_c text_errors plain_lists.
#[local] Instance demo_transport : Network := demo_network 1%N.

(** What the three callbacks of the demo's C side answer. *)
Definition demo_rel (cb : fnptr) (_ : Z) (c : Config) (st : rgpot_status_t) (e : f64)
    (F : list f64) : Prop :=
  if decide (cb = 3%N) then st = RGPOT_BUFFER_SIZE_ERROR /\ F = []
  else st = RGPOT_SUCCESS /\ e = mirror_energy /\
       F = (if decide (cb = 1%N) then cf_positions c else []).

Program Definition demo_library : CLibrary := {|
  lib_callback cb := cb = 1%N \/ cb = 2%N \/ cb = 3%N;
  lib_destructor _ := True;
  lib_rel := demo_rel;
|}.
Next Obligation.
  intros cb ud z c t i pp pa pb input output e v Hcb Hc. unfold demo_rel.
  iIntros "(Hud & Hin & Ho)". destruct Hcb as [-> | [-> | ->] ]; simpl.
  - iApply (wp_use with "[Hin Ho]");
      [exact (mirror_evaluates demo_c t c i pp pa pb input output e v Hc) | by iFrame |].
    iIntros (st) "(-> & _ & $ & %fp & %v' & _ & Ho & HF)". iFrame "Hud".
    iExists _, _. iFrame "Ho". simpl. iDestruct (forces_tensor_not_null with "HF") as %Hn.
    unfold maybe_forces. rewrite is_null_false //. by iFrame "HF".
  - iApply wp_extern_C. cbn. iApply wp_bind. iApply (wp_store with "Ho"). iIntros "Ho".
    iApply wp_ret. iFrame "Hud Hin". iExists _, []. by iFrame "Ho".
  - iApply wp_extern_C. cbn. iApply wp_ret. iFrame "Hud Hin". iExists _, []. by iFrame "Ho".
Qed.
Next Obligation.
  iIntros (free ud z t _) "Hp". iApply wp_extern_C. by iApply (wp_dealloc with "Hp").
Qed.
#[local] Existing Instance demo_library.

Program Definition demo_remote : RemoteSide := {|
  remote_server := demo_server 1%N;
  remote_faithful := demo_faithful 1%N;
  remote_runtime := Ok 0%N;
|}.
Next Obligation. by left. Qed.
Next Obligation. done. Qed.
Next Obligation. done. Qed.
#[local] Existing Instance demo_remote.

Definition empty_table : Table := MkTable ∅ {[0%N := ""%string]}.

Lemma slot_initial : slot_is 0%N "" (mem_map initial_mem).
Proof.
  exists None, ∅, (mem_map initial_mem). split_and!; [by rewrite left_id_L | | done | done].
  apply map_disjoint_empty_l.
Qed.

Lemma store_of_initial : store_of empty_table ∅ initial_mem.
Proof.
  split; [apply initial_mem_wf|]. exists (mem_map initial_mem). split_and!.
  - apply (holds_mono (slot_is 0%N "")); [|apply slot_initial].
    unfold table_at, objs_at, msgs_at. simpl. rewrite big_sepM_empty big_sepM_singleton.
    by iIntros "$".
  - by rewrite right_id_L.
  - apply map_disjoint_empty_r.
Qed.

(** One call after the other, from a store that a table describes: [tac] proves the call's
    precondition, and its effect is read off the abstract step. *)
Ltac next_call c tac :=
  lazymatch goal with
  | Hs : store_of ?T ?hf ?σ |- _ =>
      let Hstep := fresh "Hstep" in let Hs' := fresh "Hs" in
      destruct (call_run 0%N T c σ hf) as (? & ? & ? & _ & Hstep & Hs');
        [split; [by eexists | simpl; tac] | exact Hs |];
      inversion Hstep; clear Hstep; clear Hs; subst;
      repeat match goal with
             | H : unused _ _ |- _ => unfold unused in H; simpl in H
             | H : <[_:=_]> _ !! _ = None |- _ => apply lookup_insert_None in H as [? ?]
             end
  end.

(** The object at a handle of an explicit table. *)
Ltac find_handle :=
  unfold holds_at; simpl;
  repeat first [apply lookup_insert_eq | rewrite lookup_insert_ne; [|congruence] ].

Definition one_atom : Config := MkConfig [1; 2; 3] [8] [1; 0; 0; 0; 1; 0; 0; 0; 1].

(** A C program can reach a store in which an evaluation is permitted: it allocates its
    arrays and structs, creates the input and a handle for the mirror callback. *)
Lemma evaluation_reachable :
  exists pot input output T σ, permitted 0%N T (Calculate pot input output) /\
    ~ some_null [pot; input; output] /\ store_of T ∅ σ.
Proof.
  pose proof store_of_initial as Hs. unfold empty_table in Hs.
  next_call (CallerAlloc (BF64s (cf_positions one_atom))) ltac:(done).
  next_call (CallerAlloc (BI32s (cf_atomic_numbers one_atom))) ltac:(done).
  next_call (CallerAlloc (BF64s (cf_box one_atom))) ltac:(done).
  next_call (CallerAlloc (BForceInput null_fields)) ltac:(done).
  next_call (CallerAlloc (BForceOut (MkForceOut null 0 0))) ltac:(done).
  next_call (InputCreate p2 1 p p0 p1) ltac:(eexists; find_handle).
  next_call (PotentialNew 1%N null None) ltac:(done).
  eexists p5, p2, p3, _, x6. split; [|split; [|exact Hs0]].
  - split; [by eexists|]. right.
    exists (MkPotentialImpl 1%N null None), 0, (MkForceInput p4 a b), p, p0, p1, one_atom, 0, 0.
    split; [find_handle|]. split; [by left|]. split; [by left|].
    split; [|find_handle]. split; [done|]. split; [congruence|].
    repeat (split; [find_handle|]). find_handle.
  - intros Hn. repeat (apply elem_of_cons in Hn as [Hn|Hn]); [..|by apply elem_of_nil in Hn];
      symmetry in Hn; revert Hn; eapply handle_not_null; try exact Hs0;
      find_handle.
Qed.

Lemma c_interface_refines_table_witness :
  exists pot input output T σ, ~ some_null [pot; input; output] /\
    exists a σ' T', run_call (Calculate pot input output) 0%N σ = Done a σ' /\
      abs_step 0%N T (Calculate pot input output) a T' /\ store_of T' ∅ σ'.
Proof.
  destruct evaluation_reachable as (pot & input & output & T & σ & Hp & Hn & Hσ).
  exists pot, input, output, T, σ. split; [exact Hn|].
  exact (c_interface_refines_table 0%N T (Calculate pot input output) σ ∅ Hp Hσ).
Defined.

(** A program that copies a matrix, frees the copy and then its own array. *)
Definition copy_program : Program := fun hist =>
  match hist with
  | [] => Some (0%N, CallerAlloc (BF64s [7; 8; 9]))
  | [(_, APtr data)] => Some (0%N, TensorCopy data 1 3)
  | [(_, APtr data); (_, APtr p)] => Some (0%N, TensorRead p 3)
  | [(_, APtr data); (_, APtr p); _] => Some (0%N, TensorFree p)
  | [(_, APtr data); _; _; _] => Some (0%N, CallerFree data)
  | _ => None
  end.

Example copy_program_runs :
  match run_program 9 copy_program [] 0%N initial_mem with
  | Done hist σ => hist.*2 = [APtr 1%N; APtr 6%N; AData [7; 8; 9]; AUnit; AUnit] /\
                   mem_map σ = mem_map initial_mem
  | _ => False
  end.
Proof. vm_compute. by split. Qed.

(** The states that the program passes. *)
Definition one_array (data : ptr) : Table := put data (OPlain (BF64s [7; 8; 9])) empty_table.
Definition with_copy (data p d : ptr) : Table :=
  put p (OOwned [7; 8; 9] (MkView d dtype_f64 cpu_device [1; 3])) (one_array data).

Lemma copy_state_1 x1 T :
  session copy_program empty_table [x1] T -> exists data, x1.2 = APtr data /\ T = one_array data.
Proof.
  intros (T1 & Hs%session_nil & Hp & Hstep)%(session_snoc _ _ []). subst T1.
  destruct x1 as [[t c] a]. injection Hp as <- <-. inversion Hstep; subst. by eexists.
Qed.

Lemma copy_state_2 x1 x2 T :
  session copy_program empty_table [x1; x2] T ->
  exists data p d, x1.2 = APtr data /\ x2.2 = APtr p /\ data <> p /\ T = with_copy data p d.
Proof.
  intros (T1 & (data & Ha & ->)%copy_state_1 & Hp & Hstep)%(session_snoc _ _ [x1]).
  destruct x1 as [[t1 c1] a1], x2 as [[t c] a]. simpl in Ha, Hp, Hstep. subst a1.
  injection Hp as <- <-. inversion Hstep; subst.
  match goal with Hd : holds_at _ _ _, Hf : unused _ _ |- _ =>
    unfold holds_at, unused in *; simpl in Hd, Hf; rewrite lookup_insert_eq in Hd;
    injection Hd as <-; apply lookup_insert_None in Hf as [_ Hne] end.
  by eexists data, _, _.
Qed.

Lemma copy_state_3 x1 x2 x3 T :
  session copy_program empty_table [x1; x2; x3] T ->
  exists data p d, x1.2 = APtr data /\ x2.2 = APtr p /\ data <> p /\ T = with_copy data p d.
Proof.
  intros (T1 & (data & p & d & Ha & Hb & Hne & ->)%copy_state_2 & Hp & Hstep)
    %(session_snoc _ _ [x1; x2]).
  destruct x1 as [[t1 c1] a1], x2 as [[t2 c2] a2], x3 as [[t c] a].
  simpl in Ha, Hb, Hp, Hstep. subst a1 a2. injection Hp as <- <-.
  inversion Hstep; subst; by exists data, p, d.
Qed.

Lemma copy_state_4 x1 x2 x3 x4 T :
  session copy_program empty_table [x1; x2; x3; x4] T ->
  exists data p d, x1.2 = APtr data /\ x2.2 = APtr p /\ data <> p /\
    T = drop_handle p (with_copy data p d).
Proof.
  intros (T1 & (data & p & d & Ha & Hb & Hne & ->)%copy_state_3 & Hp & Hstep)
    %(session_snoc _ _ [x1; x2; x3]).
  destruct x1 as [[t1 c1] a1], x2 as [[t2 c2] a2], x3 as [[t3 c3] a3], x4 as [[t c] a].
  simpl in Ha, Hb, Hp, Hstep. subst a1 a2. injection Hp as <- <-.
  inversion Hstep; subst; by exists data, p, d.
Qed.

Lemma copy_program_disciplined : disciplined copy_program empty_table.
Proof.
  intros hist T t c Hs Hc.
  destruct hist as [|x1 [|x2 [|x3 [|x4 [|x5 hist]]]]].
  - apply session_nil in Hs as ->. injection Hc as <- <-. by split; [by eexists|].
  - apply copy_state_1 in Hs as (data & Ha & ->). destruct x1 as [[t1 c1] a1]. simpl in Ha. subst a1.
    injection Hc as <- <-. split; [by eexists|]. exists [7; 8; 9]. split; [find_handle | done].
  - apply copy_state_2 in Hs as (data & p & d & Ha & Hb & Hne & ->).
    destruct x1 as [[t1 c1] a1], x2 as [[t2 c2] a2]. simpl in Ha, Hb. subst a1 a2.
    injection Hc as <- <-. split; [by eexists|]. exists [7; 8; 9]. split; [done|]. left.
    eexists. find_handle.
  - apply copy_state_3 in Hs as (data & p & d & Ha & Hb & Hne & ->).
    destruct x1 as [[t1 c1] a1], x2 as [[t2 c2] a2]. simpl in Ha, Hb. subst a1 a2.
    injection Hc as <- <-. split; [by eexists|]. right. eexists _, _. split; [find_handle | done].
  - apply copy_state_4 in Hs as (data & p & d & Ha & Hb & Hne & ->).
    destruct x1 as [[t1 c1] a1], x2 as [[t2 c2] a2]. simpl in Ha, Hb. subst a1 a2.
    injection Hc as <- <-. split; [by eexists|]. eexists. unfold holds_at. simpl.
    rewrite lookup_delete_ne; [find_handle | done].
  - destruct x1 as [[? ?] []], x2 as [[? ?] []]; discriminate.
Qed.

Lemma disciplined_programs_are_safe_witness :
  exists hist T σ', run_program 9 copy_program [] 0%N initial_mem = Done hist σ' /\
    session copy_program empty_table hist T /\ store_of T ∅ σ' /\
    (only_plain T -> forall p b, mem_map σ' !! LHeap p = Some b ->
       holds_at T p (OPlain b) \/ (∅ : gmap loc Block) !! LHeap p = Some b \/
       exists t, mem_map σ' !! LTls t = Some (BLastError (Some p))).
Proof.
  exact (disciplined_programs_are_safe copy_program empty_table initial_mem ∅ 0%N 9
    copy_program_disciplined store_of_initial).
Defined.
End demo.
