(* ===== verification/BuildScript.v ===== *)
(** * BuildScript: src/rgpot-core/build.rs, and the include of src/lib.rs

    The build script of the crate: the C header with its version macros, written by cbindgen
    and normalised to end in one newline, and the choice of the Cap'n Proto schema, with the
    stub that stands in when there is none.  [cbindgen] and [capnpc] are dependencies and
    appear as interfaces; a disk maps path texts to files and directories. *)
From S2P Require Import Prelude Machine Utf8.
Open Scope Z_scope.

(** ** Texts *)

Definition chr (n : N) : string := String (Ascii.ascii_of_N n) EmptyString.
Definition newline : string := chr 10.
Definition quote : string := chr 34.
Definition dot : Ascii.ascii := Ascii.ascii_of_N 46.
Definition slash : Ascii.ascii := Ascii.ascii_of_N 47.

(** [str::split] at a character: the pieces between the separators. *)
Fixpoint split_at (sep : Ascii.ascii) (s : string) : list string :=
  match s with
  | EmptyString => [EmptyString]
  | String c rest =>
      if Ascii.eqb c sep then EmptyString :: split_at sep rest
      else match split_at sep rest with
           | piece :: pieces => String c piece :: pieces
           | [] => [String c EmptyString]
           end
  end.

(** The characters with Unicode's [White_Space] property, by their UTF-8 encodings, which
    [trim_end] meets from the back: one byte, two bytes, three bytes. *)
Definition byte (a : Ascii.ascii) : Z := Z.of_N (Ascii.N_of_ascii a).
Definition white_1 (a : Ascii.ascii) : bool := within 9 (byte a) 13 || (byte a =? 32).
Definition white_2 (b a : Ascii.ascii) : bool :=
  (byte b =? 194) && ((byte a =? 133) || (byte a =? 160)).
Definition white_3 (c b a : Ascii.ascii) : bool :=
  ((byte c =? 225) && (byte b =? 154) && (byte a =? 128)) ||
  ((byte c =? 226) && (byte b =? 128) &&
     (within 128 (byte a) 138 || (byte a =? 168) || (byte a =? 169) || (byte a =? 175))) ||
  ((byte c =? 226) && (byte b =? 129) && (byte a =? 159)) ||
  ((byte c =? 227) && (byte b =? 128) && (byte a =? 128)).

(** On the bytes of a text, last byte first. *)
Fixpoint drop_white (l : list Ascii.ascii) : list Ascii.ascii :=
  match l with
  | [] => []
  | a :: l1 =>
      if white_1 a then drop_white l1
      else match l1 with
           | [] => l
           | b :: l2 =>
               if white_2 b a then drop_white l2
               else match l2 with
                    | [] => l
                    | c :: l3 => if white_3 c b a then drop_white l3 else l
                    end
           end
  end.

Definition trim_end (s : string) : string :=
  String.string_of_list_ascii (reverse (drop_white (reverse (String.list_ascii_of_string s)))).

(** ** Paths and the disk *)

(** [PathBuf::join] with a relative component. *)
Definition ends_with_slash (s : string) : bool :=
  match last (String.list_ascii_of_string s) with
  | Some c => Ascii.eqb c slash
  | None => false
  end.
Definition join (base component : string) : string :=
  match base with
  | EmptyString => component
  | _ => if ends_with_slash base then base +:+ component else base +:+ "/" +:+ component
  end.

Inductive Entry := File (text : string) | Directory.

(** Paths are told apart by their text: links and [".."] are not resolved.  Some paths cannot
    be written (permissions, a full disk).  Errors are given by their kind. *)
Record Disk := MkDisk { entries : gmap string Entry; unwritable : gset string }.

Definition path_exists (d : Disk) (p : string) : bool := bool_decide (is_Some (entries d !! p)).
Definition set_entry (p : string) (e : Entry) (d : Disk) : Disk :=
  MkDisk (<[p := e]> (entries d)) (unwritable d).

(** The directories on the way to [p], outermost first; the root and the working directory
    have an empty text and always exist. *)
Definition ancestors (p : string) : list string :=
  let pieces := split_at slash p in
  filter (fun q => q <> EmptyString)
    ((fun i => String.concat "/" (take i pieces)) <$> seq 1 (length pieces - 1)).

Definition is_directory (d : Disk) (p : string) : bool :=
  if entries d !! p is Some Directory then true else false.

Definition fs_write (p text : string) (d : Disk) : Result Disk string :=
  if negb (forallb (is_directory d) (ancestors p)) then Err "NotFound"%string
  else if decide (p ∈ unwritable d) then Err "PermissionDenied"%string
  else if is_directory d p then Err "IsADirectory"%string
  else Ok (set_entry p (File text) d).

Definition fs_read_to_string (p : string) (d : Disk) : Result string string :=
  match entries d !! p with
  | Some (File text) => if to_str text is Ok s then Ok s else Err "InvalidData"%string
  | Some Directory => Err "IsADirectory"%string
  | None => Err "NotFound"%string
  end.

Definition fs_create_dir (r : Result Disk string) (p : string) : Result Disk string :=
  match r with
  | Err e => Err e
  | Ok d =>
      match entries d !! p with
      | Some Directory => Ok d
      | Some (File _) => Err "AlreadyExists"%string
      | None => if decide (p ∈ unwritable d) then Err "PermissionDenied"%string
                else Ok (set_entry p Directory d)
      end
  end.

Definition fs_create_dir_all (p : string) (d : Disk) : Result Disk string :=
  foldl fs_create_dir (Ok d) (ancestors p ++ [p]).

(** ** Running a build script: it ends, or it panics and the build fails *)

Inductive BuildOutcome (A : Type) : Type :=
| Built (a : A) (d : Disk)
| Failed (e : PanicPayload).
Arguments Built {A} a d.
Arguments Failed {A} e.

Definition B (A : Type) : Type := Disk -> BuildOutcome A.
#[export] Instance B_ret : MRet B := fun A a d => Built a d.
#[export] Instance B_bind : MBind B := fun A C k x d =>
  match x d with Built a d' => k a d' | Failed e => Failed e end.

Definition build_panic {A} (e : PanicPayload) : B A := fun _ => Failed e.
Definition on_disk : B Disk := fun d => Built d d.
Definition set_disk (d : Disk) : B unit := fun _ => Built tt d.

Definition unwrap_message (e : string) : PanicPayload :=
  PanicString ("called `Result::unwrap()` on an `Err` value: " +:+ e).

(** [.unwrap()] and [.expect(message)] on a value. *)
Definition unwrap {A} (r : Result A string) : B A :=
  match r with Ok a => mret a | Err e => build_panic (unwrap_message e) end.
Definition expect {A} (message : string) (r : Result A string) : B A :=
  match r with Ok a => mret a | Err e => build_panic (PanicString (message +:+ ": " +:+ e)) end.

(** A disk operation whose failure is turned into a panic by [k]. *)
Definition disk_op (k : Result Disk string -> B Disk) (f : Disk -> Result Disk string) : B unit :=
  d ← on_disk; d' ← k (f d); set_disk d'.

Definition part (parts : list string) (i : nat) : B string :=
  match parts !! i with
  | Some s => mret s
  | None => build_panic (PanicString ("index out of bounds: the len is " +:+
      pretty (Z.of_nat (length parts)) +:+ " but the index is " +:+ pretty (Z.of_nat i)))
  end.

(** ** The dependencies of the build *)

(** [cbindgen]: the configuration and the generator.  [write_to_file] leaves the file with the
    text of the bindings, or panics. *)
Class Cbindgen := {
  Config : Type;
  Bindings : Type;
  config_from_file : string -> Disk -> Result Config string;
  after_includes : Config -> option string;
  with_after_includes : option string -> Config -> Config;
  generate : string -> Config -> Disk -> Result Bindings string;
  bindings_text : Bindings -> string;
  write_to_file : Bindings -> string -> Disk -> Result Disk string;
  write_to_file_text b p d d' :
    write_to_file b p d = Ok d' -> entries d' !! p = Some (File (bindings_text b));
}.

(** [capnpc]: compiles a schema file to [OUT_DIR]/Potentials_capnp.rs, the path relative to the
    source prefix with the suffix replaced. *)
Class Capnpc (env : string -> option string) := {
  rust_code : string -> string;
  capnpc_run : string -> string -> Disk -> Result Disk string;
  capnpc_run_output prefix out d d' :
    env "OUT_DIR"%string = Some out ->
    capnpc_run prefix (join prefix "Potentials.capnp") d = Ok d' ->
    exists schema, entries d !! join prefix "Potentials.capnp" = Some (File schema) /\
      entries d' !! join out "Potentials_capnp.rs" = Some (File (rust_code schema));
}.

(** ** build.rs *)

Section build.
  Context (env : string -> option string) {cbindgen : Cbindgen} {capnpc : Capnpc env}.

(** [env::var(name).unwrap()]. *)
Definition env_var (name : string) : B string :=
  match env name with Some v => mret v | None => build_panic (unwrap_message "NotPresent") end.

(** The four version macros. *)
Definition version_block (version : string) : B string :=
  let parts := split_at dot version in
  major ← part parts 0;
  minor ← part parts 1;
  patch ← part parts 2;
  mret ("#define RGPOT_VERSION " +:+ quote +:+ version +:+ quote +:+ newline +:+
        "#define RGPOT_VERSION_MAJOR " +:+ major +:+ newline +:+
        "#define RGPOT_VERSION_MINOR " +:+ minor +:+ newline +:+
        "#define RGPOT_VERSION_PATCH " +:+ patch).

(** The block goes after what the configuration already includes. *)
Definition add_version_block (block : string) (config : Config) : Config :=
  with_after_includes
    (Some (match after_includes config with
           | Some existing => existing +:+ newline +:+ newline +:+ block
           | None => block
           end)) config.

(** The header is rewritten to end in exactly one newline. *)
Definition normalise_header (path : string) : B unit :=
  d ← on_disk;
  content ← unwrap (fs_read_to_string path d);
  disk_op unwrap (fs_write path (trim_end content +:+ newline)).

Definition generate_c_header (crate_dir : string) : B unit :=
  let output_dir := join crate_dir "include" in
  disk_op unwrap (fs_create_dir_all output_dir);;
  d ← on_disk;
  config ← expect "Unable to find cbindgen.toml" (config_from_file "cbindgen.toml" d);
  version ← env_var "CARGO_PKG_VERSION";
  block ← version_block version;
  let config := add_version_block block config in
  d ← on_disk;
  bindings ← expect "Unable to generate C bindings" (generate crate_dir config d);
  disk_op unwrap (write_to_file bindings (join output_dir "rgpot.h"));;
  normalise_header (join output_dir "rgpot.h").

Definition stub_text : string :=
  "// Auto-generated stub: Potentials.capnp not found at build time." +:+ newline.

Definition compile_capnp_schema (crate_dir : string) : B unit :=
  let bundled := join (join crate_dir "schema") "Potentials.capnp" in
  let monorepo :=
    join (join (join (join (join crate_dir "..") "CppCore") "rgpot") "rpc") "Potentials.capnp" in
  d ← on_disk;
  let compile capnp_dir capnp_schema :=
    disk_op (expect "Failed to compile Cap'n Proto schema") (capnpc_run capnp_dir capnp_schema) in
  if path_exists d bundled then compile (join crate_dir "schema") bundled
  else if path_exists d monorepo then
    compile (join (join (join (join crate_dir "..") "CppCore") "rgpot") "rpc") monorepo
  else
    out_dir ← env_var "OUT_DIR";
    let stub := join out_dir "Potentials_capnp.rs" in
    disk_op (expect "Failed to write Cap'n Proto stub") (fs_write stub stub_text).

(** [main], under the features [gen-header] and [rpc]. *)
Definition main (gen_header rpc : bool) : B unit :=
  crate_dir ← (if gen_header || rpc then env_var "CARGO_MANIFEST_DIR" else mret EmptyString);
  (if gen_header then generate_c_header crate_dir else mret tt);;
  (if rpc then compile_capnp_schema crate_dir else mret tt).

(** ** lib.rs: the text of the module [Potentials_capnp]

    [include!(concat!(env!("OUT_DIR"), "/Potentials_capnp.rs"))]; without the file the crate
    does not compile. *)
Definition Potentials_capnp (d : Disk) : option string :=
  match env "OUT_DIR"%string with
  | Some out =>
      match entries d !! (out +:+ "/Potentials_capnp.rs") with
      | Some (File text) => Some text
      | _ => None
      end
  | None => None
  end.
End build.
