(* ===== verification/BuildTheorems.v ===== *)
(** * BuildTheorems: what the build script guarantees

    The version macros read back to the version; the header is in a normal form that a
    second normalisation keeps; and a build that ends leaves the module that lib.rs
    includes. *)
From S2P Require Import Prelude Machine Utf8 BuildScript.
Open Scope Z_scope.

(** ** Splitting and joining *)

Fixpoint has_char (c : Ascii.ascii) (s : string) : bool :=
  match s with EmptyString => false | String c' s => Ascii.eqb c' c || has_char c s end.

Lemma split_at_not_nil sep s : split_at sep s <> [].
Proof.
  destruct s as [|c s]; simpl; [done|]. destruct (Ascii.eqb c sep); [done|].
  by destruct (split_at sep s).
Qed.

Lemma concat_cons sep x xs :
  xs <> [] -> String.concat sep (x :: xs) = x +:+ sep +:+ String.concat sep xs.
Proof. by destruct xs. Qed.

(** Joining the pieces with the separator gives the text back. *)
Lemma concat_split_at sep s : String.concat (String sep "") (split_at sep s) = s.
Proof.
  induction s as [|c s IH]; [done|]. cbn [split_at]. pose proof (split_at_not_nil sep s) as Hn.
  destruct (Ascii.eqb_spec c sep) as [->|_].
  - rewrite concat_cons by done. by rewrite IH.
  - destruct (split_at sep s) as [|p [|q ps]]; [done| |].
    + simpl in *. by rewrite IH.
    + rewrite <- IH. by rewrite !(concat_cons _ _ (q :: ps)) by done.
Qed.

Lemma split_at_free sep s : has_char sep s = false -> split_at sep s = [s].
Proof.
  induction s as [|c s IH]; simpl; [done|]. intros [-> H]%orb_false_elim. by rewrite IH.
Qed.

Lemma split_at_app sep s rest :
  has_char sep s = false -> split_at sep (s +:+ String sep rest) = s :: split_at sep rest.
Proof.
  induction s as [|c s IH]; cbn [has_char].
  - intros _. simpl. by rewrite Ascii.eqb_refl.
  - intros [Hc H]%orb_false_elim.
    change (String c s +:+ String sep rest) with (String c (s +:+ String sep rest)).
    cbn [split_at]. by rewrite Hc, IH.
Qed.

Lemma str_app_assoc (a b c : string) : a +:+ (b +:+ c) = (a +:+ b) +:+ c.
Proof. induction a as [|x a IH]; [done|]. by apply (f_equal (String x)). Qed.

Lemma has_char_app c (a b : string) : has_char c (a +:+ b) = has_char c a || has_char c b.
Proof.
  induction a as [|x a IH]; [done|].
  change (String x a +:+ b) with (String x (a +:+ b)). cbn [has_char].
  by rewrite IH, orb_assoc.
Qed.

(** The pieces contain no separator, and no other character that the text does not have. *)
Lemma split_at_pieces sep c s :
  has_char c s = false -> Forall (fun p => has_char c p = false) (split_at sep s).
Proof.
  induction s as [|a s IH]; simpl; [by repeat constructor|].
  intros [Ha H]%orb_false_elim. specialize (IH H). destruct (Ascii.eqb a sep).
  - by constructor.
  - destruct (split_at sep s) as [|p ps].
    + constructor; [simpl; by rewrite Ha | done].
    + apply Forall_cons in IH as [Hp Hps]. constructor; [simpl; by rewrite Ha, Hp | done].
Qed.

(** ** The version macros *)

Fixpoint strip_prefix (p s : string) : option string :=
  match p, s with
  | EmptyString, _ => Some s
  | String a p, String b s => if Ascii.eqb a b then strip_prefix p s else None
  | _, _ => None
  end.

(** What a C preprocessor takes for [name]: the rest of the first line that defines it. *)
Definition macro (name text : string) : option string :=
  head (omap (strip_prefix ("#define " +:+ name +:+ " "))
          (split_at (Ascii.ascii_of_N 10) text)).

Definition has_newline (s : string) : bool := has_char (Ascii.ascii_of_N 10) s.

(** The block has the four lines, and the macros are the parts of the version. *)
Lemma version_block_lines version major minor patch :
  has_newline version = false -> has_newline major = false -> has_newline minor = false ->
  has_newline patch = false ->
  split_at (Ascii.ascii_of_N 10)
    ("#define RGPOT_VERSION " +:+ quote +:+ version +:+ quote +:+ newline +:+
     "#define RGPOT_VERSION_MAJOR " +:+ major +:+ newline +:+
     "#define RGPOT_VERSION_MINOR " +:+ minor +:+ newline +:+
     "#define RGPOT_VERSION_PATCH " +:+ patch)
  = ["#define RGPOT_VERSION " +:+ quote +:+ version +:+ quote;
     "#define RGPOT_VERSION_MAJOR " +:+ major; "#define RGPOT_VERSION_MINOR " +:+ minor;
     "#define RGPOT_VERSION_PATCH " +:+ patch].
Proof.
  intros Hv Ha Hb Hc. unfold has_newline in *.
  transitivity (split_at (Ascii.ascii_of_N 10)
    (("#define RGPOT_VERSION " +:+ quote +:+ version +:+ quote) +:+ String (Ascii.ascii_of_N 10)
      (("#define RGPOT_VERSION_MAJOR " +:+ major) +:+ String (Ascii.ascii_of_N 10)
        (("#define RGPOT_VERSION_MINOR " +:+ minor) +:+ String (Ascii.ascii_of_N 10)
          ("#define RGPOT_VERSION_PATCH " +:+ patch))))).
  { f_equal. rewrite <- !str_app_assoc. done. }
  rewrite !split_at_app, split_at_free; rewrite ?has_char_app; try done.
  all: by rewrite ?Hv, ?Ha, ?Hb, ?Hc.
Qed.

Lemma str_length_app (a b : string) :
  String.length (a +:+ b) = (String.length a + String.length b)%nat.
Proof. induction a as [|x a IH]; [done|]. by apply (f_equal S). Qed.

(** Three parts joined again, against the whole text. *)
Lemma three_parts_whole major minor patch rest version :
  split_at dot version = major :: minor :: patch :: rest ->
  major +:+ "." +:+ minor +:+ "." +:+ patch = version <-> rest = [].
Proof.
  intros E. pose proof (concat_split_at dot version) as Hv. rewrite E in Hv.
  rewrite (concat_cons _ major), (concat_cons _ minor) in Hv by done.
  split; [|by intros ->].
  intros Hw. destruct rest as [|x rest]; [done|]. exfalso.
  rewrite (concat_cons _ patch) in Hv by done.
  apply (f_equal String.length) in Hv, Hw. repeat rewrite str_length_app in Hv.
  repeat rewrite str_length_app in Hw. simpl in *. lia.
Qed.

(** ** Trimming *)

(** What trimming does to the reversed bytes, one white-space character at a time. *)
Lemma drop_white_ind (P : list Ascii.ascii -> list Ascii.ascii -> Prop) :
  (forall l, drop_white l = l -> P l l) ->
  (forall a l r, white_1 a = true -> P l r -> P (a :: l) r) ->
  (forall a b l r, white_2 b a = true -> P l r -> P (a :: b :: l) r) ->
  (forall a b c l r, white_3 c b a = true -> P l r -> P (a :: b :: c :: l) r) ->
  forall l, P l (drop_white l).
Proof.
  intros H0 H1 H2 H3 l. induction l as [l IH] using (induction_ltof1 _ length).
  unfold ltof in IH. destruct l as [|a l]; [by apply H0|]. cbn [drop_white].
  destruct (white_1 a) eqn:E1; [apply H1, IH; simpl; [done|lia]|].
  destruct l as [|b l]; [apply H0; cbn [drop_white]; by rewrite E1|].
  destruct (white_2 b a) eqn:E2; [apply H2, IH; simpl; [done|lia]|].
  destruct l as [|c l]; [apply H0; cbn [drop_white]; by rewrite E1, E2|].
  destruct (white_3 c b a) eqn:E3; [apply H3, IH; simpl; [done|lia]|].
  apply H0. cbn [drop_white]. by rewrite E1, E2, E3.
Qed.

Lemma drop_white_idemp l : drop_white (drop_white l) = drop_white l.
Proof. by apply (drop_white_ind (fun _ r => drop_white r = r)). Qed.

Lemma trim_end_idemp s : trim_end (trim_end s) = trim_end s.
Proof.
  unfold trim_end. by rewrite String.list_ascii_of_string_of_list_ascii, reverse_involutive, drop_white_idemp.
Qed.

Lemma list_ascii_app a b :
  String.list_ascii_of_string (a +:+ b)
  = String.list_ascii_of_string a ++ String.list_ascii_of_string b.
Proof. induction a as [|x a IH]; [done|]. by apply (f_equal (cons x)). Qed.

(** A newline at the end is white space. *)
Lemma trim_end_newline s : trim_end (s +:+ newline) = trim_end s.
Proof.
  unfold trim_end. rewrite list_ascii_app.
  change (String.list_ascii_of_string newline) with [Ascii.ascii_of_N 10].
  by rewrite reverse_snoc.
Qed.

(** ** Trimming keeps UTF-8 valid *)

Lemma utf8_check_app i x y :
  utf8_check i x = None -> utf8_check i (x ++ y) = utf8_check (i + Z.of_nat (length x)) y.
Proof.
  revert i. induction x as [x IH] using (induction_ltof1 _ length). unfold ltof in IH. intros i.
  destruct x as [|b0 x]; [intros _; simpl; f_equal; lia|].
  cbn [utf8_check app]. destruct (b0 <? 128).
  { intros H. rewrite IH by (simpl; lia || done). f_equal. simpl. lia. }
  destruct (within 194 b0 223).
  { destruct x as [|b1 x]; [done|]. cbn [app]. destruct (continuation b1); [|done].
    intros H. rewrite IH by (simpl; lia || done). f_equal. simpl. lia. }
  destruct (within 224 b0 239).
  { destruct x as [|b1 x]; [done|]. cbn [app]. destruct (second_of_3 b0 b1); [|done].
    destruct x as [|b2 x]; [done|]. cbn [app]. destruct (continuation b2); [|done].
    intros H. rewrite IH by (simpl; lia || done). f_equal. simpl. lia. }
  destruct (within 240 b0 244); [|done].
  destruct x as [|b1 x]; [done|]. cbn [app]. destruct (second_of_4 b0 b1); [|done].
  destruct x as [|b2 x]; [done|]. cbn [app]. destruct (continuation b2); [|done].
  destruct x as [|b3 x]; [done|]. cbn [app]. destruct (continuation b3); [|done].
  intros H. rewrite IH by (simpl; lia || done). f_equal. simpl. lia.
Qed.

Lemma second_of_3_continuation b0 b1 : second_of_3 b0 b1 = true -> continuation b1 = true.
Proof. unfold second_of_3, continuation, within. lia. Qed.
Lemma second_of_4_continuation b0 b1 : second_of_4 b0 b1 = true -> continuation b1 = true.
Proof. unfold second_of_4, continuation, within. lia. Qed.

(** A text that is cut before the first byte of a character stays valid. *)
Lemma utf8_check_prefix i x b y :
  continuation b = false -> utf8_check i (x ++ b :: y) = None -> utf8_check i x = None.
Proof.
  intros Hb. revert i. induction x as [x IH] using (induction_ltof1 _ length).
  unfold ltof in IH. intros i. destruct x as [|b0 x]; [done|].
  cbn [utf8_check app]. destruct (b0 <? 128); [apply IH; simpl; lia|].
  destruct (within 194 b0 223).
  { destruct x as [|b1 x]; cbn [app]; [by rewrite Hb|].
    destruct (continuation b1); [apply IH; simpl; lia | done]. }
  destruct (within 224 b0 239).
  { destruct x as [|b1 x]; cbn [app].
    { destruct (second_of_3 b0 b) eqn:E; [|done]. apply second_of_3_continuation in E. congruence. }
    destruct (second_of_3 b0 b1); [|done].
    destruct x as [|b2 x]; cbn [app]; [by rewrite Hb|].
    destruct (continuation b2); [apply IH; simpl; lia | done]. }
  destruct (within 240 b0 244); [|done].
  destruct x as [|b1 x]; cbn [app].
  { destruct (second_of_4 b0 b) eqn:E; [|done]. apply second_of_4_continuation in E. congruence. }
  destruct (second_of_4 b0 b1); [|done].
  destruct x as [|b2 x]; cbn [app]; [by rewrite Hb|]. destruct (continuation b2); [|done].
  destruct x as [|b3 x]; cbn [app]; [by rewrite Hb|].
  destruct (continuation b3); [apply IH; simpl; lia | done].
Qed.

Definition valid_utf8 (l : list Ascii.ascii) : Prop := utf8_check 0 (byte <$> l) = None.

Lemma valid_prefix x b y :
  continuation (byte b) = false -> valid_utf8 (x ++ b :: y) -> valid_utf8 x.
Proof. unfold valid_utf8. rewrite fmap_app. apply utf8_check_prefix. Qed.

Lemma drop_white_valid l : valid_utf8 (reverse l) -> valid_utf8 (reverse (drop_white l)).
Proof.
  apply (drop_white_ind (fun l r => valid_utf8 (reverse l) -> valid_utf8 (reverse r)));
    [done | intros a | intros a b | intros a b c]; clear l; intros l r Hw IH Hv; apply IH.
  - rewrite reverse_cons in Hv. eapply valid_prefix, Hv.
    unfold white_1, continuation, within in *. lia.
  - rewrite !reverse_cons, <- app_assoc in Hv. eapply valid_prefix, Hv.
    unfold white_2, continuation, within in *. lia.
  - rewrite !reverse_cons, <- !app_assoc in Hv. eapply valid_prefix, Hv.
    unfold white_3, continuation, within in *. lia.
Qed.

Lemma to_str_valid s : to_str s = Ok s <-> valid_utf8 (String.list_ascii_of_string s).
Proof.
  unfold to_str, valid_utf8, bytes_of. change (fun c => Z.of_N (Ascii.N_of_ascii c)) with byte.
  destruct (utf8_check 0 _); by split.
Qed.

Lemma to_str_ok s r : to_str s = Ok r -> r = s.
Proof. unfold to_str. destruct (utf8_check 0 (bytes_of s)); congruence. Qed.

Lemma to_str_trim s : to_str s = Ok s -> to_str (trim_end s +:+ newline) = Ok (trim_end s +:+ newline).
Proof.
  rewrite !to_str_valid, list_ascii_app. intros Hv. unfold trim_end.
  rewrite String.list_ascii_of_string_of_list_ascii.
  assert (valid_utf8 (reverse (drop_white (reverse (String.list_ascii_of_string s))))) as Hv'.
  { apply drop_white_valid. by rewrite reverse_involutive. }
  unfold valid_utf8 in *. rewrite fmap_app, utf8_check_app by done. done.
Qed.

(** ** Builds that end *)

Lemma built_bind {A C} (x : B A) (k : A -> B C) d c d' :
  (x ≫= k) d = Built c d' -> exists a d1, x d = Built a d1 /\ k a d1 = Built c d'.
Proof. unfold mbind, B_bind. destruct (x d) as [a d1|e]; [|done]. by exists a, d1. Qed.

Lemma built_unwrap {A} (r : Result A string) d a d' :
  unwrap r d = Built a d' <-> r = Ok a /\ d' = d.
Proof. destruct r; simpl; unfold mret, B_ret, build_panic; naive_solver. Qed.
Lemma built_expect {A} m (r : Result A string) d a d' :
  expect m r d = Built a d' <-> r = Ok a /\ d' = d.
Proof. destruct r; simpl; unfold mret, B_ret, build_panic; naive_solver. Qed.

Lemma built_disk_op k f d d' :
  (forall r d0 d1 d2, k r d0 = Built d1 d2 <-> r = Ok d1 /\ d2 = d0) ->
  disk_op k f d = Built tt d' <-> f d = Ok d'.
Proof.
  intros Hk. unfold disk_op, mbind, B_bind, on_disk, set_disk. split.
  - destruct (k (f d) d) as [d1 d2|e] eqn:E; [|done]. apply Hk in E as [E _]. congruence.
  - intros H. assert (k (f d) d = Built d' d) as -> by (by apply Hk). done.
Qed.

Lemma fs_write_entry p text d d' :
  fs_write p text d = Ok d' -> d' = set_entry p (File text) d.
Proof.
  unfold fs_write. destruct (negb _); [done|]. destruct (decide _); [done|].
  destruct (is_directory d p); congruence.
Qed.

(** Writing a file again. *)
Lemma fs_write_again p text text' d d' :
  fs_write p text d = Ok d' -> fs_write p text' d' = Ok (set_entry p (File text') d').
Proof.
  intros H. pose proof (fs_write_entry _ _ _ _ H) as ->. revert H. unfold fs_write.
  destruct (forallb (is_directory d) (ancestors p)) eqn:Ha; [|done]. simpl.
  destruct (decide (p ∈ unwritable d)); [done|].
  destruct (is_directory d p) eqn:Hp; [done|]. intros _.
  assert (forallb (is_directory (set_entry p (File text) d)) (ancestors p) = true) as ->.
  { apply forallb_forall. intros q Hq. apply forallb_forall with (x := q) in Ha; [|done].
    unfold is_directory in *. simpl. rewrite lookup_insert_ne; [done|]. intros ->. congruence. }
  simpl. unfold is_directory. simpl. by rewrite lookup_insert_eq.
Qed.

Lemma set_entry_again p e d : entries d !! p = Some e -> set_entry p e d = d.
Proof. intros H. unfold set_entry. rewrite insert_id by done. by destruct d. Qed.

Lemma normalise_header_built p d d' :
  normalise_header p d = Built tt d' -> exists text, entries d !! p = Some (File text) /\
    to_str text = Ok text /\ fs_write p (trim_end text +:+ newline) d = Ok d'.
Proof.
  unfold normalise_header. intros (d0 & d1 & [= <- <-] & H)%built_bind.
  apply built_bind in H as (text & d2 & [Hr ->]%built_unwrap & H).
  apply built_disk_op in H; [|intros; apply built_unwrap].
  unfold fs_read_to_string in Hr. destruct (entries d !! p) as [[s|]|]; try done.
  destruct (to_str s) as [r|] eqn:E; [|done]. apply to_str_ok in E as E'. subst r.
  injection Hr as ->. by exists text.
Qed.

(** A normalised header stays as it is. *)
Lemma normalise_header_idemp p d d' :
  normalise_header p d = Built tt d' -> normalise_header p d' = Built tt d'.
Proof.
  intros (text & _ & Hu & Hw)%normalise_header_built.
  pose proof (fs_write_entry _ _ _ _ Hw) as Hd'.
  assert (entries d' !! p = Some (File (trim_end text +:+ newline))) as Hp.
  { rewrite Hd'. apply lookup_insert_eq. }
  unfold normalise_header. unfold mbind at 1, B_bind at 1, on_disk.
  unfold fs_read_to_string. rewrite Hp, to_str_trim by done. simpl.
  unfold mbind at 1, B_bind at 1, mret, B_ret. rewrite trim_end_newline, trim_end_idemp.
  apply built_disk_op; [intros; apply built_unwrap|].
  rewrite (fs_write_again _ _ _ _ _ Hw). f_equal. by apply set_entry_again.
Qed.

Section build.
  Context (env : string -> option string) {cbindgen : Cbindgen} {capnpc : Capnpc env}.

(** C35: The version macros that build.rs writes into the C header can be read back.  For a
    version with at least two dots the whole version and its first three parts come out of
    the block as they went in, and the parts alone give the version back exactly when there
    is no fourth part.  With fewer dots the build panics with the index error. *)
Theorem version_macros_round_trip (version : string) (d : Disk)
    (Hline : has_newline version = false) :
  match split_at dot version with
  | major :: minor :: patch :: rest =>
      exists block, version_block version d = Built block d /\
        macro "RGPOT_VERSION" block = Some (quote +:+ version +:+ quote) /\
        macro "RGPOT_VERSION_MAJOR" block = Some major /\
        macro "RGPOT_VERSION_MINOR" block = Some minor /\
        macro "RGPOT_VERSION_PATCH" block = Some patch /\
        (major +:+ "." +:+ minor +:+ "." +:+ patch = version <-> rest = [])
  | parts => version_block version d = Failed (PanicString ("index out of bounds: the len is " +:+
      pretty (Z.of_nat (length parts)) +:+ " but the index is " +:+
      pretty (Z.of_nat (length parts))))
  end.
Proof.
  pose proof (split_at_pieces dot (Ascii.ascii_of_N 10) version Hline) as Hp.
  pose proof (split_at_not_nil dot version) as Hn.
  destruct (split_at dot version) as [|major [|minor [|patch rest]]] eqn:E; [done|..].
  1,2: unfold version_block; by rewrite E.
  apply Forall_cons in Hp as [Ha Hp]. apply Forall_cons in Hp as [Hb Hp].
  apply Forall_cons in Hp as [Hc _].
  eexists. split; [unfold version_block; by rewrite E|]. unfold macro.
  rewrite version_block_lines by done. by rewrite (three_parts_whole _ _ _ _ _ E).
Qed.

(** When the header generation ends, the header on the disk is the text that cbindgen
    made from the configuration extended by the block of the package's version, with the
    white space at its end replaced by one newline; to normalise it again changes nothing. *)
Theorem header_normal_form (crate_dir : string) (d d' : Disk)
    (Hbuilt : generate_c_header env crate_dir d = Built tt d') :
  let path := join (join crate_dir "include") "rgpot.h" in
  exists version block config d1 bindings text,
    env "CARGO_PKG_VERSION"%string = Some version /\
    (exists d2, version_block version d2 = Built block d2) /\
    generate crate_dir (add_version_block block config) d1 = Ok bindings /\
    text = trim_end (bindings_text bindings) /\
    entries d' !! path = Some (File (text +:+ newline)) /\
    trim_end text = text /\
    normalise_header path d' = Built tt d'.
Proof.
  intros path. unfold generate_c_header in Hbuilt. fold path in Hbuilt.
  apply built_bind in Hbuilt as ([] & d1 & _ & H). cbv beta zeta in H.
  apply built_bind in H as (dd & d2 & [= <- <-] & H).
  apply built_bind in H as (config & d2 & [_ ->]%built_expect & H).
  apply built_bind in H as (version & d2 & Hv & H).
  apply built_bind in H as (block & d3 & Hblock & H).
  apply built_bind in H as (dd & d4 & [= <- <-] & H).
  apply built_bind in H as (bindings & d4 & [Hgen ->]%built_expect & H).
  apply built_bind in H as ([] & d5 & Hwrite & H). fold path in Hwrite, H.
  apply built_disk_op in Hwrite; [|intros; apply built_unwrap].
  apply write_to_file_text in Hwrite.
  apply normalise_header_idemp in H as Hidem.
  apply normalise_header_built in H as (text & Htext & _ & Hw).
  rewrite Hwrite in Htext. injection Htext as <-.
  apply fs_write_entry in Hw as Hd'.
  assert (d3 = d2) as ->.
  { unfold version_block in Hblock. repeat (apply built_bind in Hblock as (? & ? & Hp & Hblock);
      unfold part in Hp; destruct (_ !! _) in Hp; [|done]; injection Hp as _ <-).
    by injection Hblock. }
  exists version, block, config, d2, bindings, (trim_end (bindings_text bindings)).
  split_and!; [|by exists d2|done|done| |apply trim_end_idemp|done].
  - unfold env_var in Hv. destruct (env "CARGO_PKG_VERSION"%string); [|done]. by injection Hv as -> _.
  - rewrite Hd'. apply lookup_insert_eq.
Qed.

(** The directory of the schema: the bundled one goes before the one of the repository. *)
Definition schema_dir (crate_dir : string) (d : Disk) : option string :=
  let bundled := join crate_dir "schema" in
  let monorepo := join (join (join (join crate_dir "..") "CppCore") "rgpot") "rpc" in
  if path_exists d (join bundled "Potentials.capnp") then Some bundled
  else if path_exists d (join monorepo "Potentials.capnp") then Some monorepo
  else None.

(** The module text that the schemas on the disk call for. *)
Definition chosen_module (crate_dir : string) (d : Disk) : option string :=
  match schema_dir crate_dir d with
  | Some dir => if entries d !! join dir "Potentials.capnp" is Some (File schema)
                then Some (rust_code schema) else None
  | None => Some stub_text
  end.

(** Why the schema step may fail: the compiler reports an error, or the stub cannot be
    written. *)
Definition schema_failure (crate_dir out : string) (d : Disk) : option string :=
  match schema_dir crate_dir d with
  | Some dir =>
      if capnpc_run dir (join dir "Potentials.capnp") d is Err e
      then Some ("Failed to compile Cap'n Proto schema: " +:+ e) else None
  | None =>
      if fs_write (join out "Potentials_capnp.rs") stub_text d is Err e
      then Some ("Failed to write Cap'n Proto stub: " +:+ e) else None
  end.

Lemma compile_capnp_schema_verdict (crate_dir out : string) (d : Disk) :
  env "OUT_DIR"%string = Some out ->
  match compile_capnp_schema env crate_dir d with
  | Built _ d' => schema_failure crate_dir out d = None /\
      exists text, entries d' !! join out "Potentials_capnp.rs" = Some (File text) /\
        chosen_module crate_dir d = Some text
  | Failed e => exists m, schema_failure crate_dir out d = Some m /\ e = PanicString m
  end.
Proof.
  intros Hout. unfold compile_capnp_schema, chosen_module, schema_failure, schema_dir, disk_op.
  unfold mbind, B_bind, on_disk.
  destruct (path_exists d (join (join crate_dir "schema") _)).
  2: destruct (path_exists d (join (join _ "rpc") _)).
  1, 2: destruct (capnpc_run _ _ d) as [d'|e] eqn:Hrun; simpl; [|by eexists];
    destruct (capnpc_run_output _ out _ _ Hout Hrun) as (schema & -> & Hf); by eauto.
  unfold env_var. rewrite Hout. simpl.
  destruct (fs_write _ stub_text d) as [d'|e] eqn:Hw; simpl; [|by eexists].
  apply fs_write_entry in Hw as ->. split; [done|]. eexists. split; [apply lookup_insert_eq | done].
Qed.

(** C34: With the rpc feature, a build script that ends has provided the file that lib.rs
    includes: the code of the bundled schema if there is one, else of the schema of the
    repository, else the stub.  The header generation that may run before does not get in
    the way: the choice is the one that the disk it leaves calls for.  The script fails
    exactly when the header generation does, when the schema compiler reports an error, or
    when the stub cannot be written, with the message of that step. *)
Theorem build_provides_module (gen_header : bool) (crate_dir out : string) (d : Disk)
    (Hdir : env "CARGO_MANIFEST_DIR"%string = Some crate_dir)
    (Hout : env "OUT_DIR"%string = Some out)
    (Hpath : join out "Potentials_capnp.rs" = out +:+ "/Potentials_capnp.rs") :
  match (if gen_header then generate_c_header env crate_dir d else Built tt d) with
  | Built _ d1 =>
      match main env gen_header true d with
      | Built _ d' => schema_failure crate_dir out d1 = None /\
          Potentials_capnp env d' = chosen_module crate_dir d1 /\ is_Some (Potentials_capnp env d')
      | Failed e => exists m, schema_failure crate_dir out d1 = Some m /\ e = PanicString m
      end
  | Failed e => main env gen_header true d = Failed e
  end.
Proof.
  assert (main env gen_header true d =
    match (if gen_header then generate_c_header env crate_dir d else Built tt d) with
    | Built _ d1 => compile_capnp_schema env crate_dir d1
    | Failed e => Failed e
    end) as ->.
  { unfold main, env_var. rewrite orb_true_r, Hdir. unfold mbind, B_bind, mret, B_ret.
    by destruct gen_header. }
  destruct (if gen_header then _ else _) as [[] d1|e]; [|done].
  pose proof (compile_capnp_schema_verdict crate_dir out d1 Hout) as H.
  destruct (compile_capnp_schema env crate_dir d1) as [[] d'|e]; [|done].
  destruct H as (Hok & text & Hfile & ->). split; [done|].
  unfold Potentials_capnp. rewrite Hout, <- Hpath, Hfile. by split.
Qed.
End build.

(** ** Concrete instances of the theorems

    A crate at [/crate] with a bundled schema, a generator that prints what the configuration
    includes, and a compiler that wraps the schema. *)

Definition demo_env (name : string) : option string :=
  if decide (name = "CARGO_MANIFEST_DIR"%string) then Some "/crate"%string
  else if decide (name = "CARGO_PKG_VERSION"%string) then Some "1.0.1"%string
  else if decide (name = "OUT_DIR"%string) then Some "/out"%string
  else None.

Definition demo_disk : Disk := MkDisk
  (<["/crate"%string := Directory]> (<["/crate/schema"%string := Directory]>
    (<["/crate/schema/Potentials.capnp"%string := File "interface Potential {}"]>
      {["/out"%string := Directory]}))) ∅.

Program Definition demo_cbindgen : Cbindgen := {|
  Config := option string;
  Bindings := string;
  config_from_file _ _ := Ok (Some "#include <dlpack/dlpack.h>"%string);
  after_includes c := c;
  with_after_includes a _ := a;
  generate _ c _ := Ok (default EmptyString c +:+ newline +:+ newline);
  bindings_text b := b;
  write_to_file b p d := fs_write p b d;
|}.
Next Obligation.
  intros b p d d' H. apply fs_write_entry in H as ->. apply lookup_insert_eq.
Qed.

Definition demo_compile (file : string) (d : Disk) : Result Disk string :=
  match entries d !! file with
  | Some (File schema) => fs_write "/out/Potentials_capnp.rs" ("// " +:+ schema) d
  | _ => Err "NotFound"%string
  end.

Program Definition demo_capnpc : Capnpc demo_env := {|
  rust_code schema := "// " +:+ schema;
  capnpc_run _ file d := demo_compile file d;
|}.
Next Obligation.
  intros prefix out d d' [= <-] H. unfold demo_compile in H.
  destruct (entries d !! join prefix "Potentials.capnp") as [[schema|]|]; try done.
  exists schema. split; [done|]. apply fs_write_entry in H as ->. apply lookup_insert_eq.
Qed.

#[local] Existing Instances demo_cbindgen demo_capnpc.

Definition built_disk (x : BuildOutcome unit) : Disk :=
  match x with Built _ d => d | Failed _ => demo_disk end.

Lemma demo_main_built :
  main demo_env true true demo_disk = Built tt (built_disk (main demo_env true true demo_disk)).
Proof. vm_compute. reflexivity. Qed.

Lemma demo_header_built :
  generate_c_header demo_env "/crate" demo_disk
    = Built tt (built_disk (generate_c_header demo_env "/crate" demo_disk)).
Proof. vm_compute. reflexivity. Qed.

Lemma build_provides_module_witness :
  match generate_c_header demo_env "/crate" demo_disk with
  | Built _ d1 =>
      match main demo_env true true demo_disk with
      | Built _ d' => schema_failure demo_env "/crate" "/out" d1 = None /\
          Potentials_capnp demo_env d' = chosen_module demo_env "/crate" d1 /\
          is_Some (Potentials_capnp demo_env d')
      | Failed e => exists m, schema_failure demo_env "/crate" "/out" d1 = Some m /\
          e = PanicString m
      end
  | Failed e => main demo_env true true demo_disk = Failed e
  end.
Proof.
  exact (build_provides_module demo_env true "/crate" "/out" demo_disk eq_refl eq_refl eq_refl).
Defined.

Example bundled_schema_chosen :
  Potentials_capnp demo_env (built_disk (main demo_env true true demo_disk))
    = Some "// interface Potential {}"%string.
Proof. vm_compute. reflexivity. Qed.

Lemma header_normal_form_witness :
  exists text, entries (built_disk (generate_c_header demo_env "/crate" demo_disk))
      !! "/crate/include/rgpot.h"%string = Some (File (text +:+ newline)) /\ trim_end text = text.
Proof.
  destruct (header_normal_form demo_env "/crate" demo_disk
    (built_disk (generate_c_header demo_env "/crate" demo_disk))
    demo_header_built) as (v & b & c & d1 & bs & text & _ & _ & _ & _ & Ht & Hr & _).
  exists text. split; [exact Ht | exact Hr].
Defined.

(** The version of Cargo.toml. *)
Lemma version_macros_round_trip_witness :
  exists block, version_block "1.0.1" demo_disk = Built block demo_disk /\
    macro "RGPOT_VERSION" block = Some (quote +:+ "1.0.1" +:+ quote) /\
    macro "RGPOT_VERSION_MAJOR" block = Some "1"%string /\
    macro "RGPOT_VERSION_MINOR" block = Some "0"%string /\
    macro "RGPOT_VERSION_PATCH" block = Some "1"%string /\
    (("1" +:+ "." +:+ "0" +:+ "." +:+ "1")%string = "1.0.1"%string <-> ([] : list string) = []).
Proof. exact (version_macros_round_trip "1.0.1" demo_disk eq_refl). Defined.

(** A pre-release version leaves a patch macro that is no number. *)
Example prerelease_patch :
  match version_block "1.0.0-rc.1" demo_disk with
  | Built block _ => macro "RGPOT_VERSION_PATCH" block
  | Failed _ => None
  end = Some "0-rc"%string.
Proof. reflexivity. Qed.
