(* ===== verification/SharedServers.v ===== *)
(** * SharedServers: several servers that share one potential

    [rgpot_rpc_server_start] blocks its thread, so a program that serves on several ports
    runs it on several threads, with one potential: the callback and its user data are
    shared ([unsafe impl Send/Sync for PotentialServer]).  Here the threads are interleaved
    inside a request, at the three parts of [calculate]: the data is put in place, the
    callback runs, the reply is built and everything released. *)
From S2P Require Import Prelude Machine Objects Memory HeapLogic Status Strides Tensor TensorSpec.
From S2P Require Import ForceTypes Potential RpcEnv RpcClient RpcServer RpcSpec Environment.
From S2P Require Import Callbacks RpcTheorems.
From stdpp Require Import relations.
From iris.proofmode Require Import proofmode.
Open Scope Z_scope.

Section shared_servers.
  Context {profile : Target} {dlpack : Dlpack} {ccode : CCode}
    {errors : CapnpErrors} {lists : CapnpLists}.

(** ** The system *)

Inductive Phase :=
| Waiting
| Prepared (c : Config) (fl : Flight)
| Answered (c : Config) (fl : Flight) (st : rgpot_status_t).

(** A server thread: the requests it has received, the one it works on, its replies. *)
Record Worker := MkWorker {
  wk_queue : list Config;
  wk_phase : Phase;
  wk_replies : list (Config * Result CalculateResults CapnpError);
}.

Definition idle_worker : Worker := MkWorker [] Waiting [].

Definition in_flight (p : Phase) : list Config :=
  match p with Waiting => [] | Prepared c _ | Answered c _ _ => [c] end.

(** Every request so far, in the order of arrival. *)
Definition received (w : Worker) : list Config :=
  (wk_replies w).*1 ++ in_flight (wk_phase w) ++ wk_queue w.

Definition busy (w : Worker) : bool :=
  match wk_phase w, wk_queue w with Waiting, [] => false | _, _ => true end.

(** The next part of [PotentialServer::calculate] on the worker's thread. *)
Definition work (srv : PotentialServer) (w : Worker) : M Worker :=
  match wk_phase w with
  | Waiting =>
      match wk_queue w with
      | [] => mret w
      | c :: q =>
          fl ← server_prepare (cf_positions c) (cf_atomic_numbers c) (cf_box c);
          mret (MkWorker q (Prepared c fl) (wk_replies w))
      end
  | Prepared c fl =>
      st ← call_callback (srv_callback srv) (srv_user_data srv) (fl_input fl) (fl_output fl);
      mret (MkWorker (wk_queue w) (Answered c fl st) (wk_replies w))
  | Answered c fl st =>
      r ← server_finish fl st;
      mret (MkWorker (wk_queue w) Waiting (wk_replies w ++ [(c, r)]))
  end.

Definition arrive (c : Config) (w : Worker) : Worker :=
  MkWorker (wk_queue w ++ [c]) (wk_phase w) (wk_replies w).

(** The three parts in a row are the call of the code. *)
Lemma work_is_calculate srv c q rs t σ :
  (w1 ← work srv (MkWorker (c :: q) Waiting rs); w2 ← work srv w1; work srv w2) t σ =
  (r ← PotentialServer_calculate srv (params_of c); mret (MkWorker q Waiting (rs ++ [(c, r)]))) t σ.
Proof.
  unfold work, PotentialServer_calculate, mbind, M_bind, mret, M_ret. cbn.
  unfold mbind, M_bind.
  destruct (server_prepare _ _ _ t σ) as [fl σ1|e σ1|e|z]; [|done..]. cbn.
  destruct (call_callback _ _ _ _ t σ1) as [st σ2|e σ2|e|z]; [|done..]. cbn.
  by destruct (server_finish fl st t σ2).
Qed.

Record System := MkSystem { sys_mem : Mem; sys_workers : gmap thread_id Worker }.

Inductive Label := Arrive (t : thread_id) (c : Config) | Work (t : thread_id).

Inductive sys_step (srv : PotentialServer) : Label -> System -> System -> Prop :=
| sys_arrive σ ws t w c :
    ws !! t = Some w -> config_ok c = true ->
    sys_step srv (Arrive t c) (MkSystem σ ws) (MkSystem σ (<[t := arrive c w]> ws))
| sys_work σ σ' ws t w w' :
    ws !! t = Some w -> busy w = true -> work srv w t σ = Done w' σ' ->
    sys_step srv (Work t) (MkSystem σ ws) (MkSystem σ' (<[t := w']> ws)).

(** The step of a label, computed. *)
Definition sys_next (srv : PotentialServer) (l : Label) (s : System) : option System :=
  match l with
  | Arrive t c =>
      match sys_workers s !! t with
      | Some w => if config_ok c
                  then Some (MkSystem (sys_mem s) (<[t := arrive c w]> (sys_workers s)))
                  else None
      | None => None
      end
  | Work t =>
      match sys_workers s !! t with
      | Some w => if busy w then
                    match work srv w t (sys_mem s) with
                    | Done w' σ' => Some (MkSystem σ' (<[t := w']> (sys_workers s)))
                    | _ => None
                    end
                  else None
      | None => None
      end
  end.

Fixpoint sys_exec (srv : PotentialServer) (s : System) (ls : list Label) : option System :=
  match ls with
  | [] => Some s
  | l :: ls => match sys_next srv l s with Some s1 => sys_exec srv s1 ls | None => None end
  end.

Lemma sys_next_step srv l s s' : sys_next srv l s = Some s' <-> sys_step srv l s s'.
Proof.
  split.
  - destruct s as [σ ws], l as [t c|t]; simpl; destruct (ws !! t) as [w|] eqn:Ht; try done.
    + destruct (config_ok c) eqn:Hc; [|done]. intros [= <-]. by apply sys_arrive.
    + destruct (busy w) eqn:Hb; [|done]. destruct (work srv w t σ) as [w' σ'| | |] eqn:Hw; try done.
      intros [= <-]. by eapply sys_work.
  - intros [σ ws t w c Ht Hc|σ σ' ws t w w' Ht Hb Hw]; simpl; rewrite Ht.
    + by rewrite Hc.
    + by rewrite Hb Hw.
Qed.

Lemma sys_exec_app srv s ls ls' :
  sys_exec srv s (ls ++ ls') =
  match sys_exec srv s ls with Some s1 => sys_exec srv s1 ls' | None => None end.
Proof. revert s. induction ls as [|l ls IH]; intros s; simpl; [done|]. by destruct (sys_next srv l s). Qed.

(** ** What a step does to its worker *)

(** The parts of work still to be done. *)
Definition remaining (w : Worker) : nat :=
  3 * length (wk_queue w) +
  match wk_phase w with Waiting => 0 | Prepared _ _ => 2 | Answered _ _ _ => 1 end.

(** A part of work keeps the order of the requests, keeps the replies and is one part less. *)
Lemma work_moves srv w t σ w' σ' :
  busy w = true -> work srv w t σ = Done w' σ' ->
  received w' = received w /\ wk_replies w `prefix_of` wk_replies w' /\
  S (remaining w') = remaining w.
Proof.
  destruct w as [q [|c fl|c fl st] rs]; unfold work, received, remaining, mbind, M_bind; simpl.
  - destruct q as [|c q]; [done|]. intros _.
    destruct (server_prepare _ _ _ t σ); [|done..]. intros [= <- <-]. simpl.
    split_and!; [done..|lia].
  - intros _. destruct (call_callback _ _ _ _ t σ); [|done..]. intros [= <- <-]. simpl.
    split_and!; [done..|lia].
  - intros _. destruct (server_finish fl st t σ) as [r σ1| | |]; [|done..]. intros [= <- <-]. simpl.
    rewrite fmap_app -app_assoc. split_and!; [done | by apply prefix_app_r | lia].
Qed.

(** ** The invariant *)

Context (srv : PotentialServer) (R : mProp)
  (φ : Config -> rgpot_status_t -> f64 -> list f64 -> Prop).

Definition phase_at (p : Phase) : mProp :=
  match p with
  | Waiting => emp
  | Prepared c fl => flight_ready c fl
  | Answered c fl st => flight_answered (φ c) c fl st
  end%I.

Definition right_reply (x : Config * Result CalculateResults CapnpError) : Prop :=
  exists st e F, φ x.1 st e F /\ reply_is st e F x.2.

Definition worker_ok (w : Worker) : Prop :=
  Forall (fun c => config_ok c = true) (received w) /\ Forall right_reply (wk_replies w).

Lemma work_spec t w :
  (forall c, config_ok c = true ->
     callback_answers R (srv_callback srv) (srv_user_data srv) c (φ c)) ->
  worker_ok w ->
  R ∗ phase_at (wk_phase w) ⊢
  wp t (work srv w) (fun w' => R ∗ phase_at (wk_phase w') ∗ <affine> ⌜worker_ok w'⌝).
Proof.
  intros Hcb [Hreq Hrep]. destruct w as [q [|c fl|c fl st] rs]; unfold work; simpl.
  - destruct q as [|c q].
    { iIntros "[HR _]". iApply wp_ret. iFrame "HR". by iSplit. }
    iIntros "[HR _]". iApply (wp_seq with "[]"); [apply server_prepare_spec|done|].
    iIntros (fl) "Hfl". iApply wp_ret. by iFrame.
  - iIntros "[HR Hfl]". iApply (wp_seq with "[HR Hfl]");
      [apply (server_call_spec t R srv c (φ c)) | iFrame |].
    { apply Hcb. unfold received in Hreq. simpl in Hreq. by apply Forall_app in Hreq as [_ [? _]%Forall_cons]. }
    iIntros (st) "[HR Hfl]". iApply wp_ret. by iFrame.
  - iIntros "[HR Hfl]". unfold received in Hreq. simpl in Hreq.
    iApply (wp_seq with "Hfl"); [apply server_finish_spec|].
    { by apply Forall_app in Hreq as [_ [? _]%Forall_cons]. }
    iIntros (r) "(%e & %F & %Hr)". iApply wp_ret. iFrame "HR". simpl. iSplitR; [done|].
    iPureIntro. split; unfold received; simpl; [by rewrite fmap_app -app_assoc|].
    apply Forall_app. split; [done|]. apply Forall_singleton. by exists st, e, F.
Qed.

(** The store holds the potential's resources, the requests in progress, and a part [hf] that
    nobody touches. *)
Record sys_inv (hf : gmap loc Block) (s : System) : Prop := {
  si_wf : wf_mem (sys_mem s);
  si_store : exists h, (R ∗ [∗ map] w ∈ sys_workers s, phase_at (wk_phase w))%I h /\
    mem_map (sys_mem s) = h ∪ hf /\ h ##ₘ hf;
  si_workers : map_Forall (fun _ => worker_ok) (sys_workers s);
}.

Context (Hcb : forall c, config_ok c = true ->
  callback_answers R (srv_callback srv) (srv_user_data srv) c (φ c)).

(** The phases after one worker has changed its own. *)
Lemma phases_update (ws : gmap thread_id Worker) t w w' :
  ws !! t = Some w ->
  ([∗ map] w ∈ ws, phase_at (wk_phase w)) ⊢ phase_at (wk_phase w) ∗
    (phase_at (wk_phase w') -∗ [∗ map] w ∈ <[t := w']> ws, phase_at (wk_phase w)).
Proof.
  iIntros (Ht) "H". rewrite big_sepM_insert_acc //. iDestruct "H" as "[$ H]". iApply "H".
Qed.

Lemma work_run hf σ ws t w :
  sys_inv hf (MkSystem σ ws) -> ws !! t = Some w ->
  exists w' σ', work srv w t σ = Done w' σ' /\ sys_inv hf (MkSystem σ' (<[t := w']> ws)).
Proof.
  intros [Hwf (h & Hh & Hm & Hd) Hws] Ht. simpl in *.
  assert ((R ∗ [∗ map] w ∈ ws, phase_at (wk_phase w)) ⊢ wp t (work srv w) (fun w' =>
    <affine> ⌜worker_ok w'⌝ ∗ R ∗ [∗ map] w ∈ <[t := w']> ws, phase_at (wk_phase w))) as Hw.
  { iIntros "[HR H]". rewrite (big_sepM_insert_acc _ ws t w) //. iDestruct "H" as "[Hp Hk]".
    iApply (wp_use with "[HR Hp]"); [apply work_spec; [done | by eapply Hws] | iFrame |].
    iIntros (w') "(HR & Hp & $)". iFrame "HR". by iApply "Hk". }
  destruct (wp_run t _ _ _ σ h hf Hw Hh Hwf Hm Hd) as (w' & σ' & h' & Hrun & Hwf' & Hm' & Hd' & HΦ).
  destruct HΦ as (h1 & h2 & -> & _ & [He Hok] & HR). simpl in He. subst h1.
  rewrite left_id_L in Hm' Hd'. exists w', σ'. split; [done|]. split; simpl; [done|by exists h2|].
  by apply map_Forall_insert_2.
Qed.

Lemma arrive_ok c w : config_ok c = true -> worker_ok w -> worker_ok (arrive c w).
Proof.
  intros Hc [Hreq Hrep]. split; [|done]. unfold received, arrive in *. simpl.
  rewrite !app_assoc -(app_assoc _ (in_flight _)). apply Forall_app. split; [done|]. by constructor.
Qed.

Lemma sys_inv_step hf l s s' : sys_step srv l s s' -> sys_inv hf s -> sys_inv hf s'.
Proof.
  intros [σ ws t w c Ht Hc | σ σ' ws t w w' Ht Hb Hrun] Hinv.
  - destruct Hinv as [Hwf (h & Hh & Hm & Hd) Hws]. split; cbn [sys_mem sys_workers] in *; [done| |].
    + exists h. split; [|done]. eapply holds_mono; [|exact Hh].
      rewrite (phases_update ws t w (arrive c w)) //. iIntros "($ & Hp & H)". by iApply "H".
    + apply map_Forall_insert_2; [|done]. apply arrive_ok; [done | by eapply Hws].
  - destruct (work_run hf σ ws t w Hinv Ht) as (w1 & σ1 & Hrun1 & Hinv1).
    rewrite Hrun in Hrun1. by injection Hrun1 as <- <-.
Qed.

(** ** Runs *)

Inductive sys_run : System -> list Label -> System -> Prop :=
| run_start s : sys_run s [] s
| run_step s ls s1 l s2 : sys_run s ls s1 -> sys_step srv l s1 s2 -> sys_run s (ls ++ [l]) s2.

Lemma sys_exec_run s ls s' : sys_exec srv s ls = Some s' <-> sys_run s ls s'.
Proof.
  split.
  - revert s'. induction ls as [|l ls IH] using rev_ind; intros s'; [intros [= <-]; constructor|].
    rewrite sys_exec_app. destruct (sys_exec srv s ls) as [s1|]; [|done]. simpl.
    destruct (sys_next srv l s1) as [s2|] eqn:Hl; [|done]. intros [= <-].
    eapply run_step; [by apply IH | by apply sys_next_step].
  - induction 1 as [s|s ls s1 l s2 Hrun IH Hstep]; [done|].
    rewrite sys_exec_app IH /=. by apply sys_next_step in Hstep as ->.
Qed.

(** The requests that arrive at thread [t]. *)
Definition arrival (t : thread_id) (l : Label) : option Config :=
  match l with Arrive t' c => if decide (t' = t) then Some c else None | Work _ => None end.
Definition arrivals (t : thread_id) (ls : list Label) : list Config := omap (arrival t) ls.

Lemma sys_run_inv hf s ls s' : sys_run s ls s' -> sys_inv hf s -> sys_inv hf s'.
Proof. induction 1; eauto using sys_inv_step. Qed.

Lemma received_arrive c w : received (arrive c w) = received w ++ [c].
Proof. unfold received, arrive. simpl. by rewrite !app_assoc. Qed.

Lemma step_received l s s' t w' :
  sys_step srv l s s' -> sys_workers s' !! t = Some w' ->
  exists w, sys_workers s !! t = Some w /\ wk_replies w `prefix_of` wk_replies w' /\
    received w' = received w ++ option_list (arrival t l).
Proof.
  intros [σ ws t' w c Ht Hc | σ σ' ws t' w w1 Ht Hb Hrun]; simpl;
    rewrite lookup_insert_Some; intros [[<- <-]|[Hne Hw']].
  - exists w. rewrite decide_True // received_arrive. by split_and!.
  - exists w'. rewrite decide_False //= app_nil_r. by split_and!.
  - exists w. rewrite app_nil_r. by destruct (work_moves srv w t' σ w1 σ' Hb Hrun) as (? & ? & _).
  - exists w'. by rewrite app_nil_r.
Qed.

(** What a thread has received is what it had and what arrived, in this order. *)
Lemma run_received s ls s' t w' :
  sys_run s ls s' -> sys_workers s' !! t = Some w' ->
  exists w, sys_workers s !! t = Some w /\ wk_replies w `prefix_of` wk_replies w' /\
    received w' = received w ++ arrivals t ls.
Proof.
  intros Hrun. revert w'. induction Hrun as [s|s ls s1 l s2 Hrun IH Hstep]; intros w' Hw'.
  - exists w'. rewrite app_nil_r. by split_and!.
  - destruct (step_received _ _ _ _ _ Hstep Hw') as (w1 & Hw1 & Hp1 & Hr1).
    destruct (IH w1 Hw1) as (w & Hw & Hp & Hr). exists w. split; [done|]. split; [by etrans|].
    rewrite Hr1 Hr -app_assoc /arrivals omap_app /=. by destruct (arrival t l).
Qed.

(** The servers start without requests, on the potential's resources [h0]. *)
Record sys_start (h0 hf : gmap loc Block) (s : System) : Prop := {
  ss_wf : wf_mem (sys_mem s);
  ss_idle : map_Forall (fun _ w => w = idle_worker) (sys_workers s);
  ss_potential : R h0;
  ss_store : mem_map (sys_mem s) = h0 ∪ hf;
  ss_disjoint : h0 ##ₘ hf;
}.

Lemma idle_phases (ws : gmap thread_id Worker) :
  map_Forall (fun _ w => wk_phase w = Waiting) ws ->
  ([∗ map] w ∈ ws, phase_at (wk_phase w)) ⊣⊢ emp.
Proof.
  intros Hws. rewrite (big_sepM_proper _ (fun _ _ => emp)%I); [by rewrite big_opM_unit|].
  intros t w Hw. by rewrite (Hws t w Hw).
Qed.

Lemma sys_start_inv h0 hf s : sys_start h0 hf s -> sys_inv hf s.
Proof.
  intros [Hwf Hidle HR Hm Hd]. split; [done| |].
  - exists h0. split; [|done]. eapply holds_mono; [|exact HR].
    rewrite idle_phases; [by rewrite right_id|]. intros t w Hw. by rewrite (Hidle t w Hw).
  - intros t w Hw. rewrite (Hidle t w Hw). split; constructor.
Qed.
End shared_servers.
