(* ===== verification/SharedTheorems.v ===== *)
(** * SharedTheorems: servers that share a potential answer correctly, and answer

    Whatever the interleaving of the threads, every request gets its own reply, in the order
    of arrival, and the store returns to what it was; without new requests the servers come
    to rest after a number of steps that is known in advance; and under a fair scheduler no
    request waits forever. *)
From S2P Require Import Prelude Machine Objects Memory HeapLogic Status Strides Tensor TensorSpec.
From S2P Require Import ForceTypes Potential RpcEnv RpcClient RpcServer RpcSpec Environment.
From S2P Require Import Callbacks RpcTheorems SharedServers.
From stdpp Require Import relations.
From iris.proofmode Require Import proofmode.
Open Scope Z_scope.

Section shared_theorems.
  Context {profile : Target} {dlpack : Dlpack} {ccode : CCode}
    {errors : CapnpErrors} {lists : CapnpLists}.
  Context (srv : PotentialServer) (R : mProp)
    (φ : Config -> rgpot_status_t -> f64 -> list f64 -> Prop).

(** The shared potential answers every well-formed configuration within [φ], on any thread,
    and keeps its resources. *)
Definition serves_all : Prop := forall c, config_ok c = true ->
  callback_answers R (srv_callback srv) (srv_user_data srv) c (φ c).

Lemma start_received h0 hf s ls s' t w :
  sys_start R h0 hf s -> sys_run srv s ls s' -> sys_workers s' !! t = Some w ->
  received w = arrivals t ls.
Proof.
  intros Hs Hrun Hw. destruct (run_received srv _ _ _ _ _ Hrun Hw) as (w0 & Hw0 & _ & ->).
  by rewrite (ss_idle _ _ _ _ Hs t w0 Hw0).
Qed.

(** A busy worker can always take its next step. *)
Lemma busy_step hf s t w :
  serves_all -> sys_inv R φ hf s -> sys_workers s !! t = Some w -> busy w = true ->
  exists s', sys_step srv (Work t) s s'.
Proof.
  intros Hcb Hinv Hw Hb. destruct s as [σ ws]. simpl in Hw.
  destruct (work_run srv R φ Hcb hf σ ws t w Hinv Hw) as (w' & σ' & Hrun & _).
  eexists. by eapply sys_work.
Qed.

(** C5: Servers on several threads that share one potential.  Requests arrive at any thread
    at any time, and the threads are interleaved inside the requests: between the
    preparation of the data, the callback, and the construction of the reply.  Whatever the
    order, each thread's replies, current request and queue are the requests that arrived
    there, in their order; every reply is one that the potential's answer to its own request
    allows; and a thread with work to do can always go on.  When no request is in progress
    the store is the one from before: nothing is leaked and nothing is lost. *)
Theorem shared_servers_answer (h0 hf : gmap loc Block) (s0 s : System) (ls : list Label)
    (Hcb : serves_all) (Hstart : sys_start R h0 hf s0) (Hrun : sys_run srv s0 ls s) :
  (forall t w, sys_workers s !! t = Some w ->
     received w = arrivals t ls /\ Forall (right_reply φ) (wk_replies w) /\
     (busy w = true -> exists s', sys_step srv (Work t) s s')) /\
  (map_Forall (fun _ w => wk_phase w = Waiting) (sys_workers s) ->
     exists h, R h /\ mem_map (sys_mem s) = h ∪ hf /\ h ##ₘ hf).
Proof.
  pose proof (sys_run_inv srv R φ Hcb hf _ _ _ Hrun (sys_start_inv R φ _ _ _ Hstart)) as Hinv.
  split.
  - intros t w Hw. split; [by eapply start_received|]. split; [by apply (si_workers _ _ _ _ Hinv t w)|].
    by eapply busy_step.
  - intros Hidle. destruct (si_store _ _ _ _ Hinv) as (h & Hh & Hm & Hd). exists h.
    split; [|done]. eapply holds_mono; [|exact Hh]. by rewrite idle_phases // right_id.
Qed.

(** ** Coming to rest *)

Definition pending (s : System) : nat :=
  map_fold (fun _ w n => (remaining w + n)%nat) 0%nat (sys_workers s).

Lemma pending_update (ws : gmap thread_id Worker) t w w' σ σ' :
  ws !! t = Some w ->
  (pending (MkSystem σ' (<[t := w']> ws)) + remaining w
   = pending (MkSystem σ ws) + remaining w')%nat.
Proof.
  intros Ht. unfold pending. simpl.
  rewrite -insert_delete_eq map_fold_insert_L; [|intros; lia|apply lookup_delete_eq].
  rewrite (map_fold_delete_L _ _ t w ws); [|intros; lia|done]. lia.
Qed.

Lemma pending_zero s t w :
  pending s = 0%nat -> sys_workers s !! t = Some w -> remaining w = 0%nat.
Proof.
  intros Hp Hw. unfold pending in Hp. rewrite (map_fold_delete_L _ _ t w) in Hp; [|intros; lia|done].
  lia.
Qed.

Lemma remaining_busy w : remaining w = 0%nat <-> busy w = false.
Proof. destruct w as [[|c q] [| |] rs]; unfold remaining, busy; simpl; split; done || lia. Qed.

Lemma pending_busy s :
  (0 < pending s)%nat -> exists t w, sys_workers s !! t = Some w /\ busy w = true.
Proof.
  intros Hp. destruct (decide (map_Forall (fun _ w => busy w = false) (sys_workers s))) as [Hb|Hb].
  - exfalso. revert Hp Hb. unfold pending. generalize (sys_workers s) as ws. intros ws.
    induction ws as [|t w ws Ht IH] using map_ind; [rewrite map_fold_empty; lia|].
    rewrite map_fold_insert_L //; [|intros; lia]. intros Hp Hb.
    apply map_Forall_insert in Hb as [Hw Hb]; [|done]. apply remaining_busy in Hw.
    apply IH; [lia|done].
  - apply map_not_Forall in Hb as (t & w & Hw & Hb); [|apply _].
    exists t, w. split; [done|]. by destruct (busy w).
Qed.

Definition is_work (l : Label) : Prop := match l with Work _ => True | Arrive _ _ => False end.

Lemma work_run_pending s ls s' :
  sys_run srv s ls s' -> Forall is_work ls -> (length ls + pending s' = pending s)%nat.
Proof.
  induction 1 as [s|s ls s1 l s2 Hrun IH Hstep]; [done|].
  rewrite Forall_app Forall_singleton. intros [Hls Hl]. rewrite length_app -(IH Hls). simpl.
  destruct Hstep as [|σ σ' ws t w w' Ht Hb Hw]; [done|].
  pose proof (pending_update ws t w w' σ σ' Ht). destruct (work_moves srv w t σ w' σ' Hb Hw) as (_ & _ & ?).
  lia.
Qed.

Lemma idle_all_replied w : busy w = false -> (wk_replies w).*1 = received w.
Proof. destruct w as [[|c q] [| |] rs]; unfold received; simpl; try done. by rewrite app_nil_r. Qed.

Lemma arrivals_work t ls : Forall is_work ls -> arrivals t ls = [].
Proof. unfold arrivals. induction 1 as [|[|] ls Hl _ IH]; done. Qed.

(** C27: Servers without new requests come to rest.  From any reachable state every schedule
    of the threads makes the outstanding work smaller by one with each step, can go on while
    there is work left, and so ends after a number of steps that is known in advance; then
    every request that has arrived is answered, in order, and the store holds the
    potential's resources and nothing of the requests. *)
Theorem shared_servers_drain (h0 hf : gmap loc Block) (s0 s s' : System) (ls work_ls : list Label)
    (Hcb : serves_all) (Hstart : sys_start R h0 hf s0) (Hrun : sys_run srv s0 ls s)
    (Hwork : sys_run srv s work_ls s') (Hno_arrival : Forall is_work work_ls) :
  (length work_ls + pending s' = pending s)%nat /\
  ((0 < pending s')%nat -> exists t s'', sys_step srv (Work t) s' s'') /\
  (pending s' = 0%nat ->
     (forall t w, sys_workers s' !! t = Some w -> (wk_replies w).*1 = arrivals t ls) /\
     exists h, R h /\ mem_map (sys_mem s') = h ∪ hf /\ h ##ₘ hf).
Proof.
  pose proof (sys_run_inv srv R φ Hcb hf _ _ _ Hrun (sys_start_inv R φ _ _ _ Hstart)) as Hinv.
  pose proof (sys_run_inv srv R φ Hcb hf _ _ _ Hwork Hinv) as Hinv'.
  split; [by apply work_run_pending|]. split.
  - intros (t & w & Hw & Hb)%pending_busy. exists t. by eapply busy_step.
  - intros Hp. split.
    + intros t w Hw. pose proof (pending_zero _ _ _ Hp Hw) as Hr%remaining_busy.
      rewrite idle_all_replied //.
      destruct (run_received srv _ _ _ _ _ Hwork Hw) as (w1 & Hw1 & _ & ->).
      by rewrite arrivals_work // app_nil_r (start_received _ _ _ _ _ _ _ Hstart Hrun Hw1).
    + destruct (si_store _ _ _ _ Hinv') as (h & Hh & Hm & Hd). exists h. split; [|done].
      eapply holds_mono; [|exact Hh]. rewrite idle_phases ?right_id //.
      intros t w Hw. pose proof (pending_zero _ _ _ Hp Hw) as Hr.
      destruct w as [q [| |] rs]; unfold remaining in Hr; simpl in *; done || lia.
Qed.

(** ** Infinite executions and fairness *)

(** One step at each time, or none. *)
Record Execution := {
  ex_state : nat -> System;
  ex_label : nat -> option Label;
  ex_step n : match ex_label n with
              | Some l => sys_step srv l (ex_state n) (ex_state (S n))
              | None => ex_state (S n) = ex_state n
              end;
}.

(** No busy worker is passed over forever: at some later time it works or has nothing to do. *)
Definition fair (e : Execution) : Prop := forall t n, exists m, (n <= m)%nat /\
  (ex_label e m = Some (Work t) \/
   forall w, sys_workers (ex_state e m) !! t = Some w -> busy w = false).

(** The parts of work until reply [j]. *)
Definition steps_left (j : nat) (w : Worker) : nat :=
  if decide (j < length (wk_replies w))%nat then 0%nat
  else (3 * S (j - length (wk_replies w)) -
        match wk_phase w with Waiting => 0 | Prepared _ _ => 1 | Answered _ _ _ => 2 end)%nat.

Lemma steps_left_zero j w : steps_left j w = 0%nat -> (j < length (wk_replies w))%nat.
Proof. unfold steps_left. destruct (decide _); [done|]. destruct (wk_phase w); lia. Qed.

Lemma steps_left_busy j w c :
  received w !! j = Some c -> steps_left j w <> 0%nat -> busy w = true.
Proof.
  destruct w as [[|c' q] [| |] rs]; unfold received, steps_left; simpl; try done.
  intros Hj. apply lookup_lt_Some in Hj. rewrite app_nil_r length_fmap in Hj.
  by rewrite decide_True.
Qed.

Lemma work_steps_left j w t σ w' σ' :
  work srv w t σ = Done w' σ' -> busy w = true -> steps_left j w <> 0%nat ->
  (steps_left j w' < steps_left j w)%nat.
Proof.
  destruct w as [q [|c fl|c fl st] rs]; unfold work, steps_left, mbind, M_bind; simpl.
  - destruct q as [|c q]; [done|].
    destruct (server_prepare _ _ _ t σ); [|done..]. intros [= <- <-] _. simpl.
    destruct (decide _); [done|]. lia.
  - destruct (call_callback _ _ _ _ t σ); [|done..]. intros [= <- <-] _. simpl.
    destruct (decide _); [done|]. lia.
  - destruct (server_finish fl st t σ); [|done..]. intros [= <- <-] _. simpl.
    rewrite length_app. simpl. repeat destruct (decide _); lia.
Qed.

(** One step of the execution, seen by a worker that still owes reply [j]. *)
Lemma execution_step (e : Execution) n t w j c :
  sys_workers (ex_state e n) !! t = Some w -> received w !! j = Some c ->
  exists w', sys_workers (ex_state e (S n)) !! t = Some w' /\ received w' !! j = Some c /\
    (steps_left j w' <= steps_left j w)%nat /\
    (ex_label e n = Some (Work t) -> steps_left j w <> 0%nat ->
     (steps_left j w' < steps_left j w)%nat).
Proof.
  intros Hw Hj. pose proof (ex_step e n) as Hstep. destruct (ex_label e n) as [l|].
  2:{ rewrite Hstep. exists w. split_and!; try done. }
  destruct Hstep as [σ ws t' w0 c0 Ht Hc | σ σ' ws t' w0 w1 Ht Hb Hrun]; simpl in *.
  - destruct (decide (t' = t)) as [->|Hne].
    + rewrite lookup_insert_eq. rewrite Hw in Ht. injection Ht as <-. eexists. split; [done|].
      rewrite received_arrive. split; [by apply lookup_app_l_Some|]. by split.
    + rewrite lookup_insert_ne //. exists w. by split_and!.
  - destruct (decide (t' = t)) as [->|Hne].
    + rewrite lookup_insert_eq. rewrite Hw in Ht. injection Ht as <-. exists w1.
      destruct (work_moves srv w t σ w1 σ' Hb Hrun) as (Hrec & _ & _). rewrite Hrec.
      split_and!; [done..| |intros _; by eapply work_steps_left].
      destruct (decide (steps_left j w = 0%nat)) as [E|E].
      * rewrite E. apply steps_left_zero in E. unfold steps_left.
        destruct (work_moves srv w t σ w1 σ' Hb Hrun) as (_ & Hp%prefix_length & _).
        rewrite decide_True; lia.
      * by apply Nat.lt_le_incl; eapply work_steps_left.
    + rewrite lookup_insert_ne //. exists w. split_and!; try done. congruence.
Qed.

Lemma execution_later (e : Execution) n d t w j c :
  sys_workers (ex_state e n) !! t = Some w -> received w !! j = Some c ->
  exists w', sys_workers (ex_state e (n + d)) !! t = Some w' /\ received w' !! j = Some c /\
    (steps_left j w' <= steps_left j w)%nat.
Proof.
  intros Hw Hj. induction d as [|d (w1 & Hw1 & Hj1 & Hle)].
  - rewrite Nat.add_0_r. exists w. by split_and!.
  - destruct (execution_step e _ _ _ _ _ Hw1 Hj1) as (w2 & Hw2 & Hj2 & Hle2 & _).
    rewrite Nat.add_succ_r. exists w2. split_and!; [done..|lia].
Qed.

Lemma eventually_replied (e : Execution) t j c k : fair e ->
  forall n w, sys_workers (ex_state e n) !! t = Some w -> received w !! j = Some c ->
    (steps_left j w <= k)%nat ->
    exists m w', (n <= m)%nat /\ sys_workers (ex_state e m) !! t = Some w' /\
      received w' !! j = Some c /\ (j < length (wk_replies w'))%nat.
Proof.
  intros Hfair. induction k as [|k IH]; intros n w Hw Hj Hk.
  { exists n, w. split_and!; [done..|]. apply steps_left_zero. lia. }
  destruct (Hfair t n) as (m & Hm & Hcase).
  destruct (execution_later e n (m - n) t w j c Hw Hj) as (w1 & Hw1 & Hj1 & Hle).
  replace (n + (m - n))%nat with m in Hw1 by lia.
  destruct (decide (steps_left j w1 = 0%nat)) as [E|E].
  { exists m, w1. split_and!; [done..|]. by apply steps_left_zero. }
  destruct Hcase as [Hlab|Hidle].
  - destruct (execution_step e m t w1 j c Hw1 Hj1) as (w2 & Hw2 & Hj2 & _ & Hlt).
    specialize (Hlt Hlab E). destruct (IH (S m) w2 Hw2 Hj2) as (m' & w' & Hm' & ?); [lia|].
    exists m', w'. split; [lia|done].
  - pose proof (Hidle w1 Hw1) as Hb. by rewrite (steps_left_busy j w1 c) in Hb.
Qed.

Lemma execution_run (e : Execution) n : exists ls, sys_run srv (ex_state e 0) ls (ex_state e n).
Proof.
  induction n as [|n [ls Hrun]]; [by exists []; constructor|].
  pose proof (ex_step e n) as Hstep. destruct (ex_label e n) as [l|].
  - exists (ls ++ [l]). by eapply run_step.
  - exists ls. by rewrite Hstep.
Qed.

(** The execution of finitely many labels, after which nothing happens. *)
Program Definition finite_execution (s0 : System) (ls : list Label) (s : System)
    (Hrun : sys_exec srv s0 ls = Some s) : Execution := {|
  ex_state n := default s (sys_exec srv s0 (take n ls));
  ex_label n := ls !! n;
|}.
Next Obligation.
  intros s0 ls s Hrun n. cbn beta. destruct (ls !! n) as [l|] eqn:Hl.
  - rewrite -(take_drop_middle ls n l Hl) sys_exec_app in Hrun.
    rewrite (take_S_r ls n l) // sys_exec_app.
    destruct (sys_exec srv s0 (take n ls)) as [s1|]; [|done]. simpl in *.
    destruct (sys_next srv l s1) eqn:Hs1; [|done]. rewrite ?Hl. by apply sys_next_step.
  - apply lookup_ge_None in Hl. rewrite !take_ge //; lia.
Qed.

Lemma finite_execution_fair s0 ls s Hrun :
  map_Forall (fun _ w => busy w = false) (sys_workers s) -> fair (finite_execution s0 ls s Hrun).
Proof.
  intros Hidle t n. exists (n + length ls)%nat. split; [lia|]. right. intros w. simpl.
  rewrite take_ge; [|lia]. rewrite Hrun. apply Hidle.
Qed.

(** C24: No request waits forever.  In any infinite execution of the servers, with requests
    that go on arriving, in which no thread with work to do is passed over forever, every
    request that has been received has, at some later time, a reply in its own place of the
    thread's list, and that reply is one that the potential's answer allows. *)
Theorem shared_servers_no_starvation (h0 hf : gmap loc Block) (e : Execution)
    (t : thread_id) (n j : nat) (w : Worker) (c : Config)
    (Hcb : serves_all) (Hstart : sys_start R h0 hf (ex_state e 0)) (Hfair : fair e)
    (Hw : sys_workers (ex_state e n) !! t = Some w) (Hj : received w !! j = Some c) :
  exists m w' r, (n <= m)%nat /\ sys_workers (ex_state e m) !! t = Some w' /\
    wk_replies w' !! j = Some (c, r) /\ right_reply φ (c, r).
Proof.
  destruct (eventually_replied e t j c _ Hfair n w Hw Hj (le_n _)) as (m & w' & Hm & Hw' & Hj' & Hlt).
  destruct (lookup_lt_is_Some_2 _ _ Hlt) as [[c' r] Hr].
  assert (c' = c) as ->.
  { unfold received in Hj'. rewrite lookup_app_l in Hj'; [|by rewrite length_fmap].
    rewrite list_lookup_fmap Hr in Hj'. by injection Hj'. }
  exists m, w', r. split_and!; [done..|]. destruct (execution_run e m) as [ls Hrun].
  pose proof (sys_run_inv srv R φ Hcb hf _ _ _ Hrun (sys_start_inv R φ _ _ _ Hstart)) as Hinv.
  destruct (si_workers _ _ _ _ Hinv t w' Hw') as [_ Hrep].
  by eapply Forall_lookup_1 in Hr.
Qed.
End shared_theorems.

(** ** Two servers that share a failing potential *)

Section shared_demo.
#[local] Existing Instances debug_profile dlpack_header demo_c text_errors plain_lists.

Definition two_servers : System := MkSystem initial_mem {[0%N := idle_worker; 1%N := idle_worker]}.

(** A request at each server; the parts of their work interleaved. *)
Definition arriving : list Label := [Arrive 0%N demo_config; Arrive 1%N demo_config; Work 0%N].
Definition working : list Label := [Work 1%N; Work 1%N; Work 0%N; Work 0%N; Work 1%N].

Definition failed (_ : Config) (st : rgpot_status_t) (_ : f64) (_ : list f64) : Prop :=
  st <> RGPOT_SUCCESS.

Definition after (ls : list Label) : System :=
  default two_servers (sys_exec (demo_server 3%N) two_servers ls).

Lemma demo_serves : serves_all (demo_server 3%N) emp failed.
Proof. intros c _. exact (failing_answers (profile:=debug_profile) (dlpack:=dlpack_header) null c). Qed.

Lemma two_servers_start : sys_start emp ∅ (mem_map initial_mem) two_servers.
Proof.
  split; [exact initial_mem_wf| |done|by rewrite left_id_L|apply map_disjoint_empty_l].
  intros t w. simpl. rewrite lookup_insert_Some lookup_singleton_Some. naive_solver.
Qed.

(** The store and the workers after the run, looked at without printing the store. *)
Definition succeeds (ls : list Label) (check : System -> bool) : bool :=
  match sys_exec (demo_server 3%N) two_servers ls with Some s => check s | None => false end.

Definition all_idle (s : System) : bool :=
  forallb (fun x => negb (busy x.2)) (map_to_list (sys_workers s)).

Definition reply_counts (s : System) : list nat :=
  (fun x => length (wk_replies x.2)) <$> map_to_list (sys_workers s).

Lemma succeeds_exec ls check : succeeds ls check = true ->
  sys_exec (demo_server 3%N) two_servers ls = Some (after ls) /\ check (after ls) = true.
Proof. unfold succeeds, after. by destruct (sys_exec _ _ ls). Qed.

Lemma all_idle_spec s : all_idle s = true -> map_Forall (fun _ w => busy w = false) (sys_workers s).
Proof.
  unfold all_idle. rewrite forallb_forall. intros Hs t w Hw.
  specialize (Hs (t, w)). simpl in Hs. apply negb_true_iff, Hs, list_elem_of_In.
  by apply elem_of_map_to_list.
Qed.

Definition all_labels : list Label := arriving ++ working.

(** Both requests are answered, and nothing is left in the store but what was there. *)
Example both_answered : succeeds all_labels (fun s =>
  all_idle s && bool_decide (reply_counts s = [1; 1]%nat) &&
  bool_decide (size (mem_map (sys_mem s)) = 1%nat)) = true.
Proof. vm_compute. reflexivity. Qed.

Lemma arriving_run : sys_run (demo_server 3%N) two_servers arriving (after arriving).
Proof.
  apply sys_exec_run. apply (succeeds_exec arriving (fun _ => true)). vm_compute. reflexivity.
Qed.

Lemma all_run :
  sys_exec (demo_server 3%N) two_servers all_labels = Some (after all_labels) /\
  all_idle (after all_labels) = true.
Proof. apply (succeeds_exec all_labels all_idle). vm_compute. reflexivity. Qed.

Lemma working_run : sys_run (demo_server 3%N) (after arriving) working (after all_labels).
Proof.
  apply sys_exec_run. destruct all_run as [Hall _]. unfold all_labels in Hall at 1.
  rewrite sys_exec_app in Hall. pose proof arriving_run as Harr.
  apply sys_exec_run in Harr. by rewrite Harr in Hall.
Qed.

Lemma all_labels_run : sys_run (demo_server 3%N) two_servers all_labels (after all_labels).
Proof. apply sys_exec_run, all_run. Qed.

Lemma all_labels_idle : map_Forall (fun _ w => busy w = false) (sys_workers (after all_labels)).
Proof. apply all_idle_spec, all_run. Qed.

Definition demo_execution : Execution (demo_server 3%N) :=
  finite_execution (demo_server 3%N) two_servers all_labels (after all_labels) (proj1 all_run).

Lemma first_worker : exists w, sys_workers (after all_labels) !! 0%N = Some w.
Proof.
  destruct (succeeds_exec all_labels (fun s => bool_decide (is_Some (sys_workers s !! 0%N))))
    as [_ H]; [vm_compute; reflexivity|]. by apply bool_decide_eq_true in H.
Qed.

Lemma shared_servers_answer_witness :
  exists w, sys_workers (after all_labels) !! 0%N = Some w /\
    received w = [demo_config] /\ Forall (right_reply failed) (wk_replies w).
Proof.
  destruct first_worker as [w Hw].
  destruct (proj1 (shared_servers_answer (demo_server 3%N) emp failed ∅ (mem_map initial_mem)
    two_servers (after all_labels) all_labels demo_serves two_servers_start all_labels_run) 0%N w Hw)
    as (Hr & Hf & _).
  exists w. exact (conj Hw (conj Hr Hf)).
Defined.

Lemma shared_servers_drain_witness :
  (length working + pending (after all_labels) = pending (after arriving))%nat.
Proof.
  refine (proj1 (shared_servers_drain (demo_server 3%N) emp failed ∅ (mem_map initial_mem)
    two_servers (after arriving) (after all_labels) arriving working demo_serves two_servers_start
    arriving_run working_run _)).
  repeat constructor.
Defined.

(** The request of thread 1 is in its queue after the first two labels. *)
Lemma shared_servers_no_starvation_witness :
  exists m w' r, (2 <= m)%nat /\ sys_workers (ex_state _ demo_execution m) !! 1%N = Some w' /\
    wk_replies w' !! 0%nat = Some (demo_config, r) /\ right_reply failed (demo_config, r).
Proof.
  exact (shared_servers_no_starvation (demo_server 3%N) emp failed ∅ (mem_map initial_mem)
    demo_execution 1%N 2 0 (MkWorker [demo_config] Waiting []) demo_config demo_serves
    two_servers_start (finite_execution_fair _ _ _ _ _ all_labels_idle) eq_refl eq_refl).
Defined.
End shared_demo.
