(* ===== verification/CxxEffects.v ===== *)
(** * CxxEffects: exceptions, scopes and vectors of the C++ side

    The wrapper classes of include/rgpot call the crate's C interface from C++.  A C++
    function ends in a value or throws; when a scope is left, either way, its objects are
    destroyed.  What a C++ implementation may choose is a parameter (class [CxxRuntime]). *)
From S2P Require Import Prelude Machine Objects Memory HeapLogic RpcEnv.
From iris.proofmode Require Import proofmode.
Open Scope Z_scope.

(** ** Exceptions *)

(** [rgpot::Error] and [std::runtime_error] with what [what()] says, or any other exception
    (of the standard library or of Cap'n Proto). *)
Inductive CxxException :=
| RgpotError (what : string)
| RuntimeError (what : string)
| OtherException.

#[export] Instance CxxException_eq_dec : EqDecision CxxException.
Proof. solve_decision. Defined.

Notation X A := (M (Result A CxxException)).

Definition throw {A} (e : CxxException) : X A := mret (Err e).

(** [try { body } catch (...) { handler }]. *)
Definition catch_all {A} (body : X A) (handler : M A) : M A :=
  r ← body; match r with Ok a => mret a | Err _ => handler end.

(** An object of the scope [body] is destroyed when the scope is left, also by an exception. *)
Definition scoped {A B} (x : A) (destroy : A -> M unit) (body : A -> X B) : X B :=
  r ← body x; destroy x;; mret r.

(** ** Implementation choices

    Whether [return local;] constructs the result in place or moves it; whether [data()] of a
    new empty vector is a null pointer, which the standard leaves open and the usual
    libraries do; and for how many elements the allocator gives memory: a vector of any
    other size throws. *)
Class CxxRuntime := {
  return_in_place : bool;
  empty_data_is_null : bool;
  can_allocate : Z -> bool;
  can_allocate_small n : 0 <= n < 2 ^ 29 -> can_allocate n = true;
}.

(** ** [std::vector<double>]

    An empty vector has no buffer and a null [data()], or else a buffer of no elements. *)
Record Vector := MkVector { v_data : ptr; v_size : Z }.

Definition vector_drop (v : Vector) : M unit :=
  if is_null (v_data v) then mret tt else dealloc (v_data v).

Section vectors.
  Context {runtime : CxxRuntime}.

(** [std::vector<double>(n, x)]. *)
Definition vector_new (n : Z) (x : f64) : X Vector :=
  if negb (can_allocate n) then throw OtherException
  else if (n =? 0) && empty_data_is_null then mret (Ok (MkVector null 0))
  else p ← alloc (BF64s (replicate (Z.to_nat n) x)); mret (Ok (MkVector p n)).
End vectors.

(** ** Members and locals in the store *)

Definition as_cxx_size (b : Block) : option Z := if b is BCxx (CxxSize n) then Some n else None.
Definition as_cxx_pointer (b : Block) : option ptr :=
  if b is BCxx (CxxPointer p) then Some p else None.

(** [ForceStructs.hpp]: the legacy input, passed by reference to immutable data, and the legacy
    output. *)
Record ForceInput := MkLegacyInput {
  fi_nAtoms : Z;
  fi_pos : ptr;
  fi_atmnrs : ptr;
  fi_box : ptr;
}.

Record ForceOut := MkLegacyOut { fo_F : ptr; fo_energy : f64; fo_variance : f64 }.

Definition as_legacy_out (b : Block) : option ForceOut :=
  if b is BCxx (CxxForceOut f e v) then Some (MkLegacyOut f e v) else None.
Definition legacy_out (o : ForceOut) : Block := BCxx (CxxForceOut (fo_F o) (fo_energy o) (fo_variance o)).

(** ** Rules *)

Section rules.
  Context (t : thread_id).

Lemma wp_throw {A} e (Q : Result A CxxException -> mProp) : Q (Err e) ⊢ wp t (throw e : X A) Q.
Proof. apply wp_ret. Qed.

Lemma wp_try_bind {A B E} P (x : M (Result A E)) (k : A -> M (Result B E)) Ψ Q :
  (P ⊢ wp t x Ψ) ->
  P -∗ (∀ r, Ψ r -∗ match r with Ok a => wp t (k a) Q | Err e => Q (Err e) end) -∗
  wp t (try_bind x k) Q.
Proof.
  iIntros (Hx) "HP Hk". iApply (wp_seq with "HP"); [done|]. iIntros (r) "HΨ".
  iSpecialize ("Hk" with "HΨ"). destruct r; [done|]. by iApply wp_ret.
Qed.

Lemma wp_scoped {A B} (x : A) destroy (body : A -> X B) Q :
  wp t (body x) (fun r => wp t (destroy x) (fun _ => Q r)) ⊢ wp t (scoped x destroy body) Q.
Proof.
  iIntros "H". iApply wp_bind. iApply (wp_wand with "H"). iIntros (r) "H".
  iApply wp_bind. iApply (wp_wand with "H"). iIntros ([]) "HQ". by iApply wp_ret.
Qed.

Lemma wp_catch_all {A} (body : X A) handler Q :
  wp t body (fun r => match r with Ok a => Q a | Err _ => wp t handler Q end) ⊢
  wp t (catch_all body handler) Q.
Proof.
  iIntros "H". iApply wp_bind. iApply (wp_wand with "H"). iIntros ([a|e]) "H"; [|done].
  by iApply wp_ret.
Qed.
End rules.

(** The elements of a vector. *)
Definition vector_at `{CxxRuntime} (v : Vector) (xs : list f64) : mProp :=
  (<affine> ⌜v_size v = Z.of_nat (length xs)⌝ ∗
   if bool_decide (xs = []) && empty_data_is_null then <affine> ⌜v_data v = null⌝ else v_data v ↦ BF64s xs)%I.

Lemma vector_new_spec `{CxxRuntime} t n x :
  0 <= n < 2 ^ 29 ->
  emp ⊢ wp t (vector_new n x) (fun r => ∃ v, <affine> ⌜r = Ok v⌝ ∗
    vector_at v (replicate (Z.to_nat n) x)).
Proof.
  iIntros (Hn) "_". unfold vector_new. rewrite can_allocate_small //. cbn [negb].
  unfold vector_at. replace (bool_decide (replicate (Z.to_nat n) x = [])) with (n =? 0).
  2: { symmetry. destruct (Z.eqb_spec n 0) as [->|Hne]; [done|]. apply bool_decide_false.
       by destruct (Z.to_nat n) eqn:E; [lia|]. }
  destruct ((n =? 0) && empty_data_is_null) eqn:E.
  - iApply wp_ret. iExists _. apply andb_prop in E as [->%Z.eqb_eq _]. by iSplit.
  - iApply wp_bind. iApply wp_alloc. iIntros (p) "Hp". iApply wp_ret. iExists _.
    iSplitR; [done|]. iFrame. iPureIntro. rewrite length_replicate. simpl. lia.
Qed.

Lemma vector_drop_spec `{CxxRuntime} t v xs : vector_at v xs ⊢ wp t (vector_drop v) (fun _ => emp).
Proof.
  unfold vector_at, vector_drop. iIntros "[_ H]". destruct (_ && _).
  - iDestruct "H" as %->. by iApply wp_ret.
  - iDestruct (is_null_pointsto with "H") as %->. by iApply (wp_dealloc with "H").
Qed.
