(* ===== verification/CxxWrappers.v ===== *)
(** * CxxWrappers: the C++ classes of include/rgpot

    [InputSpec], [CalcResult], [PotentialHandle] and [RpcClient] own the crate's objects and
    release them in their destructors; [check_status] turns a status into an exception; a
    template trampoline lets a legacy C++ potential be the callback of a handle.  An object
    is designated by the addresses of its members. *)
From S2P Require Import Prelude Machine Objects Memory HeapLogic Status Tensor TensorSpec.
From S2P Require Import ForceTypes Potential Utf8 RpcEnv RpcClient CxxEffects.
Open Scope Z_scope.

Section wrappers.
  Context {profile : Target} {dlpack : Dlpack} {ccode : CCode}
    {errors : CapnpErrors} {lists : CapnpLists} {network : Network} {runtime : CxxRuntime}.

(** ** errors.hpp *)

(** A C string as a [std::string], with a text for NULL. *)
Definition message_or (fallback : string) (msg : ptr) : M string :=
  if negb (is_null msg) then cstr_from_ptr msg else mret fallback.

Definition check_status (status : rgpot_status_t) : X unit :=
  if bool_decide (status = RGPOT_SUCCESS) then mret (Ok tt)
  else
    msg ← rgpot_last_error;
    error_msg ← message_or "unknown error" msg;
    match status with
    | RGPOT_INVALID_PARAMETER => throw (RgpotError ("invalid parameter: " +:+ error_msg))
    | RGPOT_RPC_ERROR => throw (RgpotError ("RPC error: " +:+ error_msg))
    | RGPOT_BUFFER_SIZE_ERROR => throw (RgpotError ("buffer size error: " +:+ error_msg))
    | _ => throw (RgpotError ("internal error: " +:+ error_msg))
    end.

(** ** types.hpp: [InputSpec] *)

Record InputSpec := MkInputSpec { n_atoms_ : ptr; input_ : ptr }.

(** Members are initialised, in the storage of the object. *)
Definition InputSpec_init (n : Z) (i : rgpot_force_input_t) : M InputSpec :=
  pn ← alloc (BCxx (CxxSize n));
  pi ← alloc (BForceInput i);
  mret (MkInputSpec pn pi).

Definition InputSpec_new (n_atoms : Z) (pos atmnrs box : ptr) : M InputSpec :=
  i ← rgpot_force_input_create n_atoms pos atmnrs box;
  InputSpec_init n_atoms i.

(** From [std::vector]s: a vector of positions holds whole atoms. *)
Definition InputSpec_from_vectors (positions : Vector) (atmnrs box : ptr) : M InputSpec :=
  let n := Z.div (v_size positions) 3 in
  i ← rgpot_force_input_create n (v_data positions) atmnrs box;
  InputSpec_init n i.

Definition InputSpec_drop (self : InputSpec) : M unit :=
  rgpot_force_input_free (input_ self);;
  dealloc (input_ self);;
  dealloc (n_atoms_ self).

(** [other.input_.positions = nullptr], and the other two. *)
Definition forget_input (input : ptr) : M unit :=
  update_input input (fun i => MkForceInput null (atomic_numbers i) (box_matrix i));;
  update_input input (fun i => MkForceInput (positions i) null (box_matrix i));;
  update_input input (fun i => MkForceInput (positions i) (atomic_numbers i) null).

Definition InputSpec_move (other : InputSpec) : M InputSpec :=
  n ← view as_cxx_size (n_atoms_ other);
  i ← view as_force_input (input_ other);
  self ← InputSpec_init n i;
  forget_input (input_ other);;
  mret self.

(** [operator=(InputSpec &&)]; the address of an object is that of its members. *)
Definition InputSpec_assign (self other : InputSpec) : M unit :=
  if bool_decide (input_ self <> input_ other) then
    rgpot_force_input_free (input_ self);;
    n ← view as_cxx_size (n_atoms_ other);
    store (n_atoms_ self) (BCxx (CxxSize n));;
    i ← view as_force_input (input_ other);
    store (input_ self) (BForceInput i);;
    forget_input (input_ other)
  else mret tt.

Definition InputSpec_c_struct (self : InputSpec) : ptr := input_ self.
Definition InputSpec_n_atoms (self : InputSpec) : M Z := view as_cxx_size (n_atoms_ self).

(** ** types.hpp: [CalcResult], at the address of its member [output_] *)

Definition CalcResult_new : M ptr :=
  o ← rgpot_force_out_create;
  alloc (BForceOut o).

(** [if (output_.forces) rgpot_tensor_free(output_.forces)]. *)
Definition free_forces (self : ptr) : M unit :=
  o ← view as_force_out self;
  if negb (is_null (forces o)) then rgpot_tensor_free (forces o) else mret tt.

Definition CalcResult_drop (self : ptr) : M unit :=
  free_forces self;;
  dealloc self.

Definition CalcResult_move (other : ptr) : M ptr :=
  o ← view as_force_out other;
  self ← alloc (BForceOut o);
  update_output other (set_forces null);;
  mret self.

Definition CalcResult_assign (self other : ptr) : M unit :=
  if bool_decide (self <> other) then
    free_forces self;;
    o ← view as_force_out other;
    store self (BForceOut o);;
    update_output other (set_forces null)
  else mret tt.

Definition CalcResult_energy (self : ptr) : M f64 :=
  o ← view as_force_out self; mret (energy o).
Definition CalcResult_variance (self : ptr) : M f64 :=
  o ← view as_force_out self; mret (variance o).
Definition CalcResult_has_forces (self : ptr) : M bool :=
  o ← view as_force_out self; mret (negb (is_null (forces o))).

(** [n_elements *= static_cast<size_t>(tensor->shape[i])] for [i < ndim]. *)
Fixpoint count_elements (n : Z) (shape : list Z) (ndim : nat) : M Z :=
  match ndim with
  | O => mret n
  | S ndim =>
      match shape with
      | s :: shape => count_elements (as_usize (n * as_usize s)) shape ndim
      | [] => undefined SliceOutOfBounds
      end
  end.

Definition CalcResult_forces_data (self : ptr) : M (ptr * Z) :=
  o ← view as_force_out self;
  if is_null (forces o) then mret (null, 0)
  else
    m ← view as_managed (forces o);
    let tensor := dl_tensor m in
    shape ← (if 0 <? dl_ndim tensor then view as_i64s (dl_shape tensor) else mret []);
    n ← count_elements 1 shape (Z.to_nat (dl_ndim tensor));
    mret (dl_data tensor, n).

(** The elements of the vector that is returned by value. *)
Definition CalcResult_forces_vec (self : ptr) : M (list f64) :=
  r ← CalcResult_forces_data self;
  if is_null r.1 || (r.2 =? 0) then mret []
  else from_raw_parts as_f64s r.1 r.2.

(** [return result;] of a local [result], constructed in place or moved. *)
Definition return_result (result : ptr) : M ptr :=
  if return_in_place then mret result
  else
    self ← CalcResult_move result;
    CalcResult_drop result;;
    mret self.

(** [CalcResult result; status = call; check_status(status); return result;]. *)
Definition calculate_with (call : ptr -> M rgpot_status_t) : X ptr :=
  result ← CalcResult_new;
  status ← call result;
  r ← check_status status;
  match r with
  | Ok _ => self ← return_result result; mret (Ok self)
  | Err e => CalcResult_drop result;; throw e
  end.

(** ** potential.hpp: [PotentialHandle], at the address of its member [handle_] *)

Definition PotentialHandle_new (handle : ptr) : M ptr := alloc (BCxx (CxxPointer handle)).

(** [if (handle_) rgpot_potential_free(handle_)]. *)
Definition free_handle (free : ptr -> M unit) (self : ptr) : M unit :=
  handle ← view as_cxx_pointer self;
  if negb (is_null handle) then free handle else mret tt.

(** The destructor, the move constructor and the move assignment of a class that owns one
    handle. *)
Definition handle_drop (free : ptr -> M unit) (self : ptr) : M unit :=
  free_handle free self;;
  dealloc self.

Definition handle_move (other : ptr) : M ptr :=
  handle ← view as_cxx_pointer other;
  self ← alloc (BCxx (CxxPointer handle));
  store other (BCxx (CxxPointer null));;
  mret self.

Definition handle_assign (free : ptr -> M unit) (self other : ptr) : M unit :=
  if bool_decide (self <> other) then
    free_handle free self;;
    handle ← view as_cxx_pointer other;
    store self (BCxx (CxxPointer handle));;
    store other (BCxx (CxxPointer null))
  else mret tt.

Definition PotentialHandle_drop : ptr -> M unit := handle_drop rgpot_potential_free.
Definition PotentialHandle_move : ptr -> M ptr := handle_move.
Definition PotentialHandle_assign : ptr -> ptr -> M unit := handle_assign rgpot_potential_free.

Definition PotentialHandle_calculate (self : ptr) (input : InputSpec) : X ptr :=
  calculate_with (fun result =>
    handle ← view as_cxx_pointer self;
    rgpot_potential_calculate handle (InputSpec_c_struct input) result).

Definition PotentialHandle_from_callback (callback : fnptr) (user_data : ptr)
    (free_fn : option fnptr) : M ptr :=
  handle ← rgpot_potential_new callback user_data free_fn;
  PotentialHandle_new handle.

(** [from_impl<Impl>(impl)]: [trampoline] is the address of [trampoline_callback<Impl>]. *)
Definition PotentialHandle_from_impl (trampoline : fnptr) (impl : ptr) : M ptr :=
  handle ← rgpot_potential_new trampoline impl None;
  PotentialHandle_new handle.

Definition PotentialHandle_raw (self : ptr) : M ptr := view as_cxx_pointer self.

(** ** rpc_client.hpp: [RpcClient], at the address of its member [handle_] *)

(** [host] is the buffer of the string. *)
Definition CxxRpcClient_new (host : ptr) (port : Z) : X ptr :=
  handle ← rgpot_rpc_client_new host port;
  if is_null handle then
    msg ← rgpot_last_error;
    text ← message_or "failed to create RPC client" msg;
    throw (RgpotError text)
  else
    self ← alloc (BCxx (CxxPointer handle));
    mret (Ok self).

Definition CxxRpcClient_drop : ptr -> M unit := handle_drop rgpot_rpc_client_free.
Definition CxxRpcClient_move : ptr -> M ptr := handle_move.
Definition CxxRpcClient_assign : ptr -> ptr -> M unit := handle_assign rgpot_rpc_client_free.

Definition CxxRpcClient_calculate (self : ptr) (input : InputSpec) : X ptr :=
  calculate_with (fun result =>
    handle ← view as_cxx_pointer self;
    rgpot_rpc_calculate handle (InputSpec_c_struct input) result).

(** ** potential.hpp: the trampoline

    [forceImpl] is the member function of the template parameter [Impl]. *)
Section trampoline.
  Context (forceImpl : ptr -> ForceInput -> ptr -> X unit).

(** The data pointer of an optional tensor. *)
Definition data_or_null (tensor : ptr) : M ptr :=
  if negb (is_null tensor) then
    m ← view as_managed tensor; mret (dl_data (dl_tensor m))
  else mret null.

(** The results of the legacy call are handed over, the forces as a copy. *)
Definition hand_over (fo forces_data : ptr) (n_atoms : Z) (output : ptr) : M unit :=
  o ← view as_legacy_out fo;
  update_output output (set_energy (fo_energy o));;
  update_output output (fun out => MkForceOut (forces out) (energy out) (fo_variance o));;
  tensor ← rgpot_tensor_owned_cpu_f64_2d forces_data (as_i64 n_atoms) 3;
  update_output output (set_forces tensor).

Definition trampoline_callback (user_data input output : ptr) : M rgpot_status_t :=
  catch_all (
    inp ← view as_force_input input;
    if is_null (positions inp) then mret (Ok RGPOT_INVALID_PARAMETER)
    else
      m ← view as_managed (positions inp);
      shape ← view as_i64s (dl_shape (dl_tensor m));
      n_atoms ← match shape with
                | s0 :: _ => mret (as_usize s0)
                | [] => undefined SliceOutOfBounds
                end;
      let pos := dl_data (dl_tensor m) in
      atmnrs ← data_or_null (atomic_numbers inp);
      box ← data_or_null (box_matrix inp);
      let fi := MkLegacyInput n_atoms pos atmnrs box in
      forces ?← vector_new (as_usize (n_atoms * 3)) f64_zero;
      scoped forces vector_drop (fun forces =>
        fo ← alloc (legacy_out (MkLegacyOut (v_data forces) f64_zero f64_zero));
        scoped fo dealloc (fun fo =>
          _ ?← forceImpl user_data fi fo;
          hand_over fo (v_data forces) n_atoms output;;
          mret (Ok RGPOT_SUCCESS))))
    (mret RGPOT_INTERNAL_ERROR).
End trampoline.
End wrappers.
