(* ===== verification/CxxSpec.v ===== *)
(** * CxxSpec: what the C++ classes promise

    Ownership predicates for the objects of include/rgpot, live and moved-from, and the
    specifications of their constructors, destructors, moves and calls.  A legacy potential
    is specified by what its [forceImpl] computes; through the trampoline it becomes a
    callback that meets the contract of [RpcSpec]. *)
From S2P Require Import Prelude Machine Objects Memory HeapLogic Status Strides Tensor TensorSpec.
From S2P Require Import ForceTypes Potential Utf8 RpcEnv RpcClient RpcServer RpcSpec RpcTheorems.
From S2P Require Import CxxEffects CxxWrappers.
From iris.proofmode Require Import proofmode.
Open Scope Z_scope.

Section specs.
  Context {profile : Target} {dlpack : Dlpack} {ccode : CCode}
    {errors : CapnpErrors} {lists : CapnpLists} {network : Network} {runtime : CxxRuntime}.

(** ** Objects *)

Definition empty_input : rgpot_force_input_t := MkForceInput null null null.

(** The storage of an [InputSpec]. *)
Definition input_members (s : InputSpec) (n : Z) (i : rgpot_force_input_t) : mProp :=
  n_atoms_ s ↦ BCxx (CxxSize n) ∗ input_ s ↦ BForceInput i.

(** A live [InputSpec] over the arrays of a configuration; the arrays stay with the caller. *)
Definition input_live (s : InputSpec) (pp pa pb : ptr) (c : Config) : mProp :=
  ∃ i, input_members s (cf_n c) i ∗ force_input i (cf_n c) pp pa pb.
Definition input_moved (s : InputSpec) : mProp := ∃ n, input_members s n empty_input.

(** A [CalcResult]: forces for [n] atoms, or none. *)
Definition result_at (p : ptr) (n : Z) (e v : f64) (F : list f64) : mProp :=
  ∃ fp, p ↦ BForceOut (MkForceOut fp e v) ∗ maybe_forces fp n F.

Definition pointer_at (p h : ptr) : mProp := p ↦ BCxx (CxxPointer h).

Definition potential_live (p : ptr) (pot : PotentialImpl) : mProp :=
  ∃ h, pointer_at p h ∗ h ↦ BPotential pot.
Definition client_live (p : ptr) (cl : RpcClient) : mProp :=
  ∃ h, pointer_at p h ∗ h ↦ BRpcClient cl.

(** ** InputSpec *)

Lemma InputSpec_init_spec t n i :
  emp ⊢ wp t (InputSpec_init n i) (fun s => input_members s n i).
Proof.
  iIntros "_". iApply wp_bind. iApply wp_alloc. iIntros (pn) "Hn".
  iApply wp_bind. iApply wp_alloc. iIntros (pi) "Hi". iApply wp_ret. iFrame.
Qed.

Lemma InputSpec_new_spec t c pp pa pb :
  emp ⊢ wp t (InputSpec_new (cf_n c) pp pa pb) (fun s => input_live s pp pa pb c).
Proof.
  iIntros "_". iApply (wp_seq with "[]"); [apply rgpot_force_input_create_spec|done|].
  iIntros (i) "Hi". iApply (wp_use with "[]"); [apply InputSpec_init_spec|done|].
  iIntros (s) "Hs". iExists i. iFrame.
Qed.

Lemma free_input_spec t p i n pp pa pb :
  p ↦ BForceInput i ∗ force_input i n pp pa pb ⊢
  wp t (rgpot_force_input_free p) (fun _ => p ↦ BForceInput empty_input).
Proof.
  iIntros "(Hp & H1 & H2 & H3)".
  iApply (rgpot_force_input_free_spec t (T1:=borrowed_tensor) (T2:=borrowed_tensor)
    (T3:=borrowed_tensor)). iFrame.
Qed.

Lemma free_empty_input_spec t p :
  p ↦ BForceInput empty_input ⊢
  wp t (rgpot_force_input_free p) (fun _ => p ↦ BForceInput empty_input).
Proof.
  iIntros "Hp".
  iApply (wp_use with "[Hp]"); [apply (rgpot_force_input_free_with t p empty_input emp emp emp emp);
    apply rgpot_tensor_free_null | by iFrame | by iIntros (_) "[$ _]"].
Qed.

Lemma InputSpec_release_spec t s n i (P : mProp) :
  (input_ s ↦ BForceInput i ∗ P ⊢
     wp t (rgpot_force_input_free (input_ s)) (fun _ => input_ s ↦ BForceInput empty_input)) ->
  input_members s n i ∗ P ⊢ wp t (InputSpec_drop s) (fun _ => emp).
Proof.
  iIntros (Hfree) "[[Hn Hi] HP]".
  iApply (wp_seq with "[Hi HP]"); [exact Hfree|iFrame|]. iIntros (_) "Hi".
  iApply wp_bind. iApply (wp_dealloc with "Hi"). by iApply (wp_dealloc with "Hn").
Qed.

Lemma InputSpec_drop_spec t s pp pa pb c :
  input_live s pp pa pb c ⊢ wp t (InputSpec_drop s) (fun _ => emp).
Proof.
  iIntros "(%i & Hs & Hi)". iApply (InputSpec_release_spec t s (cf_n c) i (force_input i (cf_n c) pp pa pb)
    with "[$Hs $Hi]"). apply free_input_spec.
Qed.

Lemma InputSpec_drop_moved_spec t s : input_moved s ⊢ wp t (InputSpec_drop s) (fun _ => emp).
Proof.
  iIntros "(%n & Hs)".
  iApply (InputSpec_release_spec t s n empty_input emp%I with "[$Hs]").
  iIntros "[Hp _]". by iApply free_empty_input_spec.
Qed.

Lemma forget_input_spec t p i :
  p ↦ BForceInput i ⊢ wp t (forget_input p) (fun _ => p ↦ BForceInput empty_input).
Proof.
  iIntros "Hp". wp_call update_input_spec "Hp". iIntros (_) "Hp".
  wp_call update_input_spec "Hp". iIntros (_) "Hp".
  iApply (wp_use with "Hp"); [apply update_input_spec|]. by iIntros (_) "$".
Qed.

Lemma InputSpec_move_spec t s n i :
  input_members s n i ⊢
  wp t (InputSpec_move s) (fun s' => input_members s' n i ∗ input_members s n empty_input).
Proof.
  iIntros "[Hn Hi]". wp_look "Hn". wp_look "Hi".
  iApply (wp_seq with "[]"); [apply InputSpec_init_spec|done|]. iIntros (s') "Hs'".
  wp_call forget_input_spec "Hi". iIntros (_) "Hi". iApply wp_ret. iFrame.
Qed.

(** Assignment from another object, for any way to free the old contents. *)
Lemma InputSpec_assign_spec t s s' n i n' i' P :
  (input_ s ↦ BForceInput i ∗ P ⊢
     wp t (rgpot_force_input_free (input_ s)) (fun _ => input_ s ↦ BForceInput empty_input)) ->
  input_ s <> input_ s' ->
  (input_members s n i ∗ P) ∗ input_members s' n' i' ⊢
  wp t (InputSpec_assign s s') (fun _ => input_members s n' i' ∗ input_members s' n' empty_input).
Proof.
  iIntros (Hfree Hne) "([[Hn Hi] HP] & Hn' & Hi')". unfold InputSpec_assign.
  rewrite bool_decide_true //.
  iApply (wp_seq with "[Hi HP]"); [exact Hfree|iFrame|]. iIntros (_) "Hi".
  wp_look "Hn'". iApply wp_bind. iApply (wp_store with "Hn"). iIntros "Hn".
  wp_look "Hi'". iApply wp_bind. iApply (wp_store with "Hi"). iIntros "Hi".
  iApply (wp_use with "Hi'"); [apply forget_input_spec|]. iIntros (_) "Hi'". iFrame.
Qed.

(** ** CalcResult *)

Lemma CalcResult_new_spec t :
  emp ⊢ wp t CalcResult_new (fun p => p ↦ BForceOut (MkForceOut null f64_zero f64_zero)).
Proof.
  iIntros "_". iApply wp_bind. iApply wp_extern_C. iApply wp_ret. iApply wp_alloc.
  by iIntros (p) "$".
Qed.

Lemma free_forces_of_spec t p o n F :
  p ↦ BForceOut o ∗ maybe_forces (forces o) n F ⊢
  wp t (free_forces p) (fun _ => p ↦ BForceOut o).
Proof.
  iIntros "[Hp HF]". wp_look "Hp". destruct (is_null (forces o)) eqn:E; cbn [negb].
  - unfold maybe_forces. rewrite E. iDestruct "HF" as %?. by iApply wp_ret.
  - iApply (wp_use with "HF"); [apply free_forces_spec|]. by iIntros (_) "_".
Qed.

Lemma CalcResult_drop_spec t p n e v F :
  result_at p n e v F ⊢ wp t (CalcResult_drop p) (fun _ => emp).
Proof.
  iIntros "(%fp & Hp & HF)". iApply (wp_seq with "[Hp HF]");
    [apply (free_forces_of_spec t p (MkForceOut fp e v))|iFrame|].
  iIntros (_) "Hp". by iApply (wp_dealloc with "Hp").
Qed.

Lemma maybe_forces_null n : emp ⊢ maybe_forces null n [].
Proof. by iIntros "_". Qed.

Lemma CalcResult_move_spec t p n e v F :
  result_at p n e v F ⊢
  wp t (CalcResult_move p) (fun p' => result_at p' n e v F ∗ result_at p n e v []).
Proof.
  iIntros "(%fp & Hp & HF)". wp_look "Hp". iApply wp_bind. iApply wp_alloc. iIntros (p') "Hp'".
  wp_call update_output_spec "Hp". iIntros (_) "Hp". iApply wp_ret.
  iSplitL "Hp' HF"; [iExists fp; iFrame|]. iExists null. iFrame "Hp". by iApply maybe_forces_null.
Qed.

Lemma CalcResult_assign_spec t p p' n e v F n' e' v' F' :
  p <> p' ->
  result_at p n e v F ∗ result_at p' n' e' v' F' ⊢
  wp t (CalcResult_assign p p') (fun _ => result_at p n' e' v' F' ∗ result_at p' n' e' v' []).
Proof.
  iIntros (Hne) "[(%fp & Hp & HF) (%fp' & Hp' & HF')]". unfold CalcResult_assign.
  rewrite bool_decide_true //. iApply (wp_seq with "[Hp HF]");
    [apply (free_forces_of_spec t p (MkForceOut fp e v))|iFrame|].
  iIntros (_) "Hp". wp_look "Hp'". iApply wp_bind. iApply (wp_store with "Hp"). iIntros "Hp".
  iApply (wp_use with "Hp'"); [apply update_output_spec|]. iIntros (_) "Hp'".
  iSplitL "Hp HF'"; [iExists fp'; iFrame|]. iExists null. iFrame "Hp'". by iApply maybe_forces_null.
Qed.

Lemma return_result_spec t p n e v F :
  result_at p n e v F ⊢ wp t (return_result p) (fun p' => result_at p' n e v F).
Proof.
  iIntros "H". unfold return_result. destruct return_in_place; [by iApply wp_ret|].
  wp_call CalcResult_move_spec "H". iIntros (p') "[Hp' Hp]".
  wp_call CalcResult_drop_spec "Hp". iIntros (_) "_". by iApply wp_ret.
Qed.

Lemma CalcResult_energy_spec t p n e v F :
  result_at p n e v F ⊢ wp t (CalcResult_energy p) (fun r => <affine> ⌜r = e⌝ ∗ result_at p n e v F).
Proof.
  iIntros "(%fp & Hp & HF)". wp_look "Hp". iApply wp_ret. iSplitR; [done|]. iExists fp. iFrame.
Qed.

Lemma read_all_forces t d n F :
  0 <= n -> 3 * n < 2 ^ 29 -> Z.of_nat (length F) = 3 * n ->
  d ↦ BF64s F ⊢
  wp t (if is_null d || (3 * n =? 0) then mret [] else from_raw_parts as_f64s d (3 * n))
    (fun r => <affine> ⌜r = F⌝ ∗ d ↦ BF64s F).
Proof.
  iIntros (H0 H3 HF) "Hd". iDestruct (is_null_pointsto with "Hd") as %->. cbn [orb].
  destruct (Z.eqb_spec (3 * n) 0) as [E|E].
  - iApply wp_ret. iFrame. destruct F; [done|simpl in HF; lia].
  - iApply (wp_from_raw_parts with "Hd"); [done|lia|]. iIntros "Hd". iFrame.
    iPureIntro. apply take_ge. lia.
Qed.

(** The vector of the forces holds all of them. *)
Lemma CalcResult_forces_vec_spec t p n e v F :
  0 <= n -> 3 * n < 2 ^ 29 ->
  result_at p n e v F ⊢
  wp t (CalcResult_forces_vec p) (fun r => <affine> ⌜r = F⌝ ∗ result_at p n e v F).
Proof.
  iIntros (H0 H3) "(%fp & Hp & HF)". unfold CalcResult_forces_vec, CalcResult_forces_data.
  iApply wp_bind. wp_look "Hp". cbn [forces]. unfold maybe_forces at 1.
  destruct (is_null fp) eqn:E.
  - iDestruct "HF" as %->. iApply wp_ret. cbn. iApply wp_ret. iSplitR; [done|].
    iExists fp. iFrame "Hp". unfold maybe_forces. by rewrite E.
  - iDestruct "HF" as "(%m & [%Hm %HF] & Hm & Hsh & Hd & Hfree)".
    wp_look "Hm". pose proof Hm as (_ & _ & _ & Hnd). cbn [tv_shape length] in Hnd.
    rewrite Hnd. cbn [Z.ltb Z.compare].
    wp_look "Hsh". iApply wp_bind. cbn. iApply wp_ret. iApply wp_ret. cbn [fst snd].
    rewrite as_usize_as_i64; [|unfold is_usize; lia].
    rewrite (as_usize_id (1 * n)); [|unfold is_usize; lia].
    rewrite (as_usize_id (1 * n * as_usize 3)); [|unfold is_usize; change (as_usize 3) with 3; lia].
    change (as_usize 3) with 3. replace (1 * n * 3) with (3 * n) by lia.
    iApply (wp_use with "Hd"); [by apply read_all_forces|]. iIntros (r) "[-> Hd]".
    iSplitR; [done|]. iExists fp. iFrame "Hp". unfold maybe_forces. rewrite E.
    iExists m. by iFrame.
Qed.

(** ** Status to exception *)

Definition category (st : rgpot_status_t) : string :=
  match st with
  | RGPOT_INVALID_PARAMETER => "invalid parameter: "
  | RGPOT_RPC_ERROR => "RPC error: "
  | RGPOT_BUFFER_SIZE_ERROR => "buffer size error: "
  | _ => "internal error: "
  end.

(** What [check_status] throws for a failure, when the thread's message is [msg]. *)
Definition thrown (st : rgpot_status_t) (msg : option string) : CxxException :=
  RgpotError (category st +:+ default ""%string msg).

(** Reading the message creates the buffer when the slot was not used before. *)
Definition slot_after_read (msg : option string) : option string := Some (default ""%string msg).

Lemma message_spec t fallback msg {A} (k : string -> M A) Q :
  last_error_slot t msg -∗
  (last_error_slot t (slot_after_read msg) -∗ wp t (k (default ""%string msg)) Q) -∗
  wp t (p ← rgpot_last_error; text ← message_or fallback p; k text) Q.
Proof.
  iIntros "Hs Hk". wp_call rgpot_last_error_spec "Hs". iIntros (p) "[Ht Hp]".
  unfold message_or. iDestruct (is_null_pointsto with "Hp") as %->. cbn [negb].
  wp_call cstr_from_ptr_spec "Hp". iIntros (text) "[Hp ->]". iApply "Hk". iExists p. iFrame.
Qed.

Lemma check_status_spec t st msg :
  last_error_slot t msg ⊢ wp t (check_status st) (fun r =>
    if decide (st = RGPOT_SUCCESS) then <affine> ⌜r = Ok tt⌝ ∗ last_error_slot t msg
    else <affine> ⌜r = Err (thrown st msg)⌝ ∗ last_error_slot t (slot_after_read msg)).
Proof.
  iIntros "Hs". unfold check_status. case_bool_decide as Hst.
  - iApply wp_ret. rewrite decide_True //. by iFrame.
  - iApply (message_spec with "Hs"). iIntros "Hs".
    destruct st; try done; iApply wp_ret; by iFrame.
Qed.

(** ** calculate, for both kinds of handle *)

Lemma calculate_with_spec t (call : ptr -> M rgpot_status_t) P (n : Z)
    (Ψ : rgpot_status_t -> f64 -> list f64 -> option string -> mProp) :
  (forall result, P ∗ result ↦ BForceOut (MkForceOut null f64_zero f64_zero) ⊢
     wp t (call result) (fun st => ∃ e v F msg,
       result_at result n e v F ∗ last_error_slot t msg ∗ Ψ st e F msg)) ->
  P ⊢ wp t (calculate_with call) (fun r => ∃ st e F msg, Ψ st e F msg ∗
    if decide (st = RGPOT_SUCCESS) then
      last_error_slot t msg ∗ ∃ self v, <affine> ⌜r = Ok self⌝ ∗ result_at self n e v F
    else last_error_slot t (slot_after_read msg) ∗ <affine> ⌜r = Err (thrown st msg)⌝).
Proof.
  iIntros (Hcall) "HP". unfold calculate_with.
  iApply (wp_seq with "[]"); [apply CalcResult_new_spec|done|]. iIntros (result) "Hr".
  iApply (wp_seq with "[HP Hr]"); [apply Hcall|iFrame|].
  iIntros (st) "(%e & %v & %F & %msg & Hr & Hs & HΨ)".
  wp_call check_status_spec "Hs". iIntros (r). case_decide as Hst.
  - iIntros "[-> Hs]". wp_call return_result_spec "Hr". iIntros (self) "Hr". iApply wp_ret.
    iExists st, e, F, msg. iFrame "HΨ". rewrite decide_True //. iFrame "Hs". iExists self, v.
    by iFrame.
  - iIntros "[-> Hs]". wp_call CalcResult_drop_spec "Hr". iIntros (_) "_". iApply wp_throw.
    iExists st, e, F, msg. iFrame "HΨ". rewrite decide_False //. by iFrame.
Qed.

(** ** Handles *)

Lemma handle_move_spec t p h :
  pointer_at p h ⊢ wp t (handle_move p) (fun p' => pointer_at p' h ∗ pointer_at p null).
Proof.
  iIntros "Hp". wp_look "Hp". iApply wp_bind. iApply wp_alloc. iIntros (p') "Hp'".
  iApply wp_bind. iApply (wp_store with "Hp"). iIntros "Hp". iApply wp_ret. iFrame.
Qed.

(** What a handle owns: nothing, or an object that [free] releases. *)
Definition owned (free : ptr -> M unit) (h : ptr) (P : mProp) : Prop :=
  (h = null /\ P = emp%I) \/ (P ⊢ ⌜h <> null⌝) /\ (forall t, P ⊢ wp t (free h) (fun _ => emp)).

Lemma free_handle_spec t free p h P :
  owned free h P -> pointer_at p h ∗ P ⊢ wp t (free_handle free p) (fun _ => pointer_at p h).
Proof.
  iIntros (Hown) "[Hp HP]". wp_look "Hp". destruct Hown as [[-> ->]|[Hnull Hfree]].
  - by iApply wp_ret.
  - iDestruct (Hnull with "HP") as %Hn. rewrite is_null_false //. cbn [negb].
    iApply (wp_use with "HP"); [apply Hfree|]. by iIntros ([]) "_".
Qed.

Lemma handle_drop_spec t free p h P :
  owned free h P -> pointer_at p h ∗ P ⊢ wp t (handle_drop free p) (fun _ => emp).
Proof.
  iIntros (Hown) "H". iApply (wp_seq with "H"); [by apply free_handle_spec|]. iIntros (_) "Hp".
  by iApply (wp_dealloc with "Hp").
Qed.

Lemma handle_assign_spec t free p h P p' h' :
  owned free h P -> p <> p' ->
  (pointer_at p h ∗ P) ∗ pointer_at p' h' ⊢
  wp t (handle_assign free p p') (fun _ => pointer_at p h' ∗ pointer_at p' null).
Proof.
  iIntros (Hown Hne) "[H Hp']". unfold handle_assign. rewrite bool_decide_true //.
  iApply (wp_seq with "H"); [by apply free_handle_spec|]. iIntros (_) "Hp". wp_look "Hp'".
  iApply wp_bind. iApply (wp_store with "Hp"). iIntros "Hp".
  iApply (wp_store with "Hp'"). iIntros "Hp'". iFrame.
Qed.
End specs.
