(* ===== verification/CxxTrampoline.v ===== *)
(** * CxxTrampoline: legacy potentials behind the C interface

    A legacy potential is known by what its [forceImpl] does with a configuration: it
    computes an energy, a variance and forces, or throws.  The trampoline of potential.hpp
    makes it a callback that meets the contract of the RPC and of the local entry point. *)
From S2P Require Import Prelude Machine Objects Memory HeapLogic Status Strides Tensor TensorSpec.
From S2P Require Import ForceTypes Potential Utf8 RpcEnv RpcClient RpcServer RpcSpec RpcTheorems.
From S2P Require Import CxxEffects CxxWrappers CxxSpec.
From iris.proofmode Require Import proofmode.
Open Scope Z_scope.

Section trampoline.
  Context {profile : Target} {dlpack : Dlpack} {ccode : CCode} {runtime : CxxRuntime}.

(** Energy, variance, forces; nothing when the computation throws. *)
Definition Computed : Type := option (f64 * f64 * list f64).

(** [forceImpl] on the configuration [c]: it may use the resources [R] and read the arrays;
    the force buffer holds zeros when it starts, and keeps its length. *)
Definition legacy_computes (R : mProp) (forceImpl : ptr -> ForceInput -> ptr -> X unit)
    (impl : ptr) (c : Config) (r : Computed) : Prop :=
  forall t pp pa pb fp fo,
    R ∗ arrays pp pa pb c ∗ fp ↦ BF64s (replicate (Z.to_nat (3 * cf_n c)) f64_zero) ∗
      fo ↦ legacy_out (MkLegacyOut fp f64_zero f64_zero) ⊢
    wp t (forceImpl impl (MkLegacyInput (cf_n c) pp pa pb) fo) (fun x =>
      R ∗ arrays pp pa pb c ∗ ∃ o Fs, fp ↦ BF64s Fs ∗ fo ↦ legacy_out o ∗
        <affine> ⌜Z.of_nat (length Fs) = (3 * cf_n c)%Z /\
          match r with
          | Some (e, v, Fs') => x = Ok tt /\ fo_energy o = e /\ fo_variance o = v /\ Fs = Fs'
          | None => exists ex, x = Err ex
          end⌝).

(** The configurations that the trampoline can handle: a request with at least one atom, and
    also one without, if an empty vector has a buffer. *)
Definition atoms_ok (c : Config) : bool :=
  config_ok c && ((0 <? cf_n c) || negb empty_data_is_null).

Lemma atoms_ok_spec c : atoms_ok c = true ->
  config_ok c = true /\ (0 < cf_n c \/ empty_data_is_null = false) /\ 0 <= 3 * cf_n c < 2 ^ 29.
Proof.
  unfold atoms_ok. intros [Hc Hn]%andb_prop.
  pose proof (config_ok_spec c Hc) as (_ & _ & H0 & H3). split_and!; [done| |lia|done].
  apply orb_prop in Hn as [Hn|Hn%negb_true_iff]; [left; lia|by right].
Qed.

Context (forceImpl : ptr -> ForceInput -> ptr -> X unit).

Lemma data_or_null_spec t p v :
  borrowed_tensor p v ⊢ wp t (data_or_null p) (fun q => <affine> ⌜q = tv_data v⌝ ∗ borrowed_tensor p v).
Proof.
  iIntros "HT". iDestruct (tensor_not_null (T:=borrowed_tensor) with "HT") as %Hn.
  iDestruct (tensor_open (T:=borrowed_tensor) with "HT") as (m) "(%Hm & Hp & Hsh & Hclose)".
  unfold data_or_null. rewrite is_null_false //. cbn [negb]. wp_look "Hp". iApply wp_ret.
  destruct Hm as (-> & _). iSplitR; [done|]. iApply ("Hclose" with "Hp Hsh").
Qed.

(** The copy of the legacy forces is a forces tensor of the output. *)
Lemma hand_over_spec t fo fp lo Fs output e v n :
  0 <= n -> 3 * n < 2 ^ 29 -> Z.of_nat (length Fs) = 3 * n ->
  fo ↦ legacy_out lo ∗ fp ↦ BF64s Fs ∗ output ↦ BForceOut (MkForceOut null e v) ⊢
  wp t (hand_over fo fp n output) (fun _ => fo ↦ legacy_out lo ∗ fp ↦ BF64s Fs ∗
    ∃ tp, output ↦ BForceOut (MkForceOut tp (fo_energy lo) (fo_variance lo)) ∗ forces_tensor tp n Fs).
Proof.
  iIntros (H0 H3 HF) "(Hfo & Hfp & Ho)". unfold hand_over.
  iApply wp_bind. iApply (wp_view with "Hfo"); [by destruct lo|]. iIntros "Hfo".
  wp_call update_output_spec "Ho". iIntros (_) "Ho".
  wp_call update_output_spec "Ho". iIntros (_) "Ho".
  assert (as_i64 n = n) as En by (apply as_i64_id; unfold is_i64; lia).
  iApply (wp_seq with "Hfp"); [apply (rgpot_tensor_owned_cpu_f64_2d_spec t fp Fs);
    [done | unfold is_i64; lia | lia]|].
  iIntros (tp) "(Hfp & %d & HT)".
  iApply (wp_use with "Ho"); [apply update_output_spec|]. iIntros (_) "Ho". iFrame "Hfo Hfp".
  iExists tp. iFrame "Ho". rewrite take_ge; [|lia].
  iApply (owned_forces_tensor tp d); [done|]. by rewrite !En.
Qed.

(** Without positions, as in a moved-from input. *)
Lemma trampoline_empty_spec t ud input i b output Q :
  positions i = null ->
  input ↦ BForceInput i ∗ output ↦ b ∗
    (input ↦ BForceInput i ∗ output ↦ b -∗ Q RGPOT_INVALID_PARAMETER) ⊢
  wp t (trampoline_callback forceImpl ud input output) Q.
Proof.
  iIntros (Hi) "(Hi & Ho & HQ)". iApply wp_catch_all. wp_look "Hi". rewrite Hi.
  iApply wp_ret. iApply "HQ". iFrame.
Qed.

(** What the trampoline leaves in the output. *)
Definition trampoline_result (c : Config) (r : Computed) (output : ptr) (e v : f64)
    (st : rgpot_status_t) : mProp :=
  match r with
  | Some (e', v', Fs) => <affine> ⌜st = RGPOT_SUCCESS /\ Z.of_nat (length Fs) = (3 * cf_n c)%Z⌝ ∗
      ∃ tp, output ↦ BForceOut (MkForceOut tp e' v') ∗ forces_tensor tp (cf_n c) Fs
  | None => <affine> ⌜st = RGPOT_INTERNAL_ERROR⌝ ∗ output ↦ BForceOut (MkForceOut null e v)
  end.

Lemma trampoline_spec t R impl c r i pp pa pb input output e v :
  atoms_ok c = true -> legacy_computes R forceImpl impl c r ->
  R ∗ input_at input i pp pa pb c ∗ output ↦ BForceOut (MkForceOut null e v) ⊢
  wp t (trampoline_callback forceImpl impl input output) (fun st =>
    R ∗ input_at input i pp pa pb c ∗ trampoline_result c r output e v st).
Proof.
  intros (Hc & Hn & H3)%atoms_ok_spec Hleg.
  iIntros "(HR & (Hi & (Hp & Ha & Hb) & Harr) & Ho)". iApply wp_catch_all.
  wp_look "Hi". iDestruct (tensor_not_null (T:=borrowed_tensor) with "Hp") as %Hpn.
  rewrite is_null_false //.
  iDestruct (tensor_open (T:=borrowed_tensor) with "Hp") as (m) "(%Hm & Hp & Hsh & Hclose)".
  destruct Hm as (Hdata & _). wp_look "Hp". wp_look "Hsh". iApply wp_bind. iApply wp_ret.
  rewrite Hdata. iDestruct ("Hclose" with "Hp Hsh") as "Hp".
  rewrite as_usize_as_i64; [|unfold is_usize; lia].
  wp_call data_or_null_spec "Ha". iIntros (q) "[-> Ha]".
  wp_call data_or_null_spec "Hb". iIntros (q) "[-> Hb]". cbn [tv_data positions_view atmnrs_view box_view].
  rewrite (as_usize_id (cf_n c * 3)); [|unfold is_usize; lia].
  replace (cf_n c * 3) with (3 * cf_n c) by lia.
  iApply (wp_try_bind with "[]"); [apply (vector_new_spec t (3 * cf_n c)); lia|done|].
  iIntros (x) "(%vec & -> & Hvec)". iApply wp_scoped. iApply wp_bind. iApply wp_alloc.
  iIntros (fo) "Hfo". iApply wp_scoped.
  unfold vector_at. iDestruct "Hvec" as "[%Hvs Hvec]".
  assert (forall xs : list f64, Z.of_nat (length xs) = 3 * cf_n c ->
    bool_decide (xs = []) && empty_data_is_null = false) as Hbuf.
  { intros xs Hxs. destruct Hn as [Hn| ->]; [|by rewrite andb_false_r].
    rewrite bool_decide_false; [done|]. intros ->. simpl in Hxs. lia. }
  rewrite (Hbuf (replicate _ _)); [|rewrite length_replicate; lia].
  iApply (wp_try_bind with "[HR Harr Hvec Hfo]");
    [apply (Hleg t pp pa pb (v_data vec) fo)|iFrame|].
  iIntros (x) "(HR & Harr & %lo & %Fs & Hvec & Hfo & %HF & %Hx)".
  assert (v_data vec ↦ BF64s Fs ⊢ wp t (vector_drop vec) (fun _ => emp)) as Hdrop.
  { iIntros "H". iApply (vector_drop_spec t vec Fs). unfold vector_at. rewrite (Hbuf Fs HF).
    iFrame. iPureIntro. rewrite Hvs length_replicate. lia. }
  unfold trampoline_result. destruct x as [[]|ex], r as [[[e' v'] Fs']|];
    try (destruct Hx as [? ?]; discriminate); try (exfalso; naive_solver).
  - destruct Hx as (_ & He & Hv & <-).
    iApply (wp_seq with "[Hfo Hvec Ho]"); [apply (hand_over_spec t fo (v_data vec) lo Fs output e v
      (cf_n c)); lia|iFrame|].
    iIntros (_) "(Hfo & Hvec & %tp & Ho & HT)". rewrite He Hv. iApply wp_ret.
    iApply (wp_dealloc with "Hfo"). iApply (wp_use with "Hvec"); [exact Hdrop|]. iIntros ([]) "_".
    iFrame "HR". iSplitL "Hi Hp Ha Hb Harr"; [iFrame|]. iSplitR; [done|]. iExists tp. iFrame.
  - iApply (wp_dealloc with "Hfo"). iApply (wp_use with "Hvec"); [exact Hdrop|]. iIntros ([]) "_".
    iApply wp_ret. iFrame "HR". iSplitL "Hi Hp Ha Hb Harr"; [iFrame|]. by iFrame.
Qed.

(** What a client of the callback is told. *)
Definition computed_answer (c : Config) (r : Computed) (st : rgpot_status_t) (e : f64) (Fs : list f64) : Prop :=
  match r with
  | Some (e', _, Fs') =>
      st = RGPOT_SUCCESS /\ e = e' /\ Fs = Fs' /\ Z.of_nat (length Fs) = 3 * cf_n c
  | None => st = RGPOT_INTERNAL_ERROR /\ Fs = []
  end.

(** The address [tramp] is that of [trampoline_callback<Impl>]. *)
Definition registered (tramp : fnptr) : Prop := forall ud input output t σ,
  c_callback tramp ud input output t σ = trampoline_callback forceImpl ud input output t σ.

Lemma call_trampoline tramp ud input output t Q :
  registered tramp ->
  wp t (trampoline_callback forceImpl ud input output) Q ⊢
  wp t (call_callback tramp ud input output) Q.
Proof.
  iIntros (Hreg) "H". iApply wp_extern_C. iApply wp_ext; [|done]. intros σ. apply Hreg.
Qed.

Lemma trampoline_answers tramp R impl c r :
  registered tramp -> atoms_ok c = true -> legacy_computes R forceImpl impl c r ->
  callback_answers R tramp impl c (computed_answer c r).
Proof.
  intros Hreg Hc Hleg t i pp pa pb input output. iIntros "H".
  iApply (call_trampoline tramp); [done|].
  iApply (wp_use with "H"); [by apply (trampoline_spec t R impl c r)|].
  iIntros (st) "($ & $ & H)". unfold trampoline_result, computed_answer.
  destruct r as [[[e' v'] Fs]|].
  - iDestruct "H" as "(%Hst & %tp & Ho & HT)". destruct Hst as [-> HF]. iExists _, Fs. iFrame "Ho". cbn [forces energy].
    iDestruct (forces_tensor_not_null with "HT") as %Hn. unfold maybe_forces.
    rewrite is_null_false //. by iFrame.
  - iDestruct "H" as "[-> Ho]". iExists _, []. iFrame "Ho". cbn [forces]. by iSplit.
Qed.

(** ** No atoms

    An empty vector with a null [data()]: the copying constructor makes a slice of what it is
    given: a null pointer is undefined behaviour there, whatever the length. *)

(** A potential that has nothing to do for no atoms: the buffer of the forces is null. *)
Definition legacy_idle (R : mProp) (impl : ptr) (c : Config) : Prop :=
  forall t pp pa pb fo,
    R ∗ arrays pp pa pb c ∗ fo ↦ legacy_out (MkLegacyOut null f64_zero f64_zero) ⊢
    wp t (forceImpl impl (MkLegacyInput 0 pp pa pb) fo) (fun x =>
      R ∗ arrays pp pa pb c ∗ ∃ o, fo ↦ legacy_out o ∗ <affine> ⌜x = Ok tt⌝).

Lemma stuck_hand_over t fo lo output o :
  fo ↦ legacy_out lo ∗ output ↦ BForceOut o ⊢ stuck t (hand_over fo null 0 output) NullDereference.
Proof.
  iIntros "[Hfo Ho]". unfold hand_over. iApply stuck_after.
  iApply (wp_view with "Hfo"); [by destruct lo|]. iIntros "Hfo".
  iApply (stuck_seq with "Ho"); [apply update_output_spec|]. iIntros (_) "Ho".
  iApply (stuck_seq with "Ho"); [apply update_output_spec|]. iIntros (_) "Ho".
  iApply stuck_bind. iStopProof. by apply stuck_always.
Qed.

Lemma stuck_try_bind {A B E} t z P (x : M (Result A E)) (k : A -> M (Result B E)) Ψ :
  (P ⊢ wp t x Ψ) ->
  P -∗ (∀ r, Ψ r -∗ ∃ a, <affine> ⌜r = Ok a⌝ ∗ stuck t (k a) z) -∗ stuck t (try_bind x k) z.
Proof.
  iIntros (Hx) "HP Hk". iApply (stuck_seq with "HP"); [done|]. iIntros (r) "HΨ".
  iDestruct ("Hk" with "HΨ") as (a) "[-> Hk]". done.
Qed.

Lemma trampoline_without_atoms t R impl c i pp pa pb input output e v :
  empty_data_is_null = true -> config_ok c = true -> cf_n c = 0 -> legacy_idle R impl c ->
  R ∗ input_at input i pp pa pb c ∗ output ↦ BForceOut (MkForceOut null e v) ⊢
  stuck t (trampoline_callback forceImpl impl input output) NullDereference.
Proof.
  intros Hnull Hc Hn Hleg. iIntros "(HR & (Hi & (Hp & Ha & Hb) & Harr) & Ho)". iApply stuck_bind.
  iApply stuck_after. iApply (wp_view with "Hi"); [done|]. iIntros "Hi".
  iDestruct (tensor_not_null (T:=borrowed_tensor) with "Hp") as %Hpn. rewrite is_null_false //.
  iDestruct (tensor_open (T:=borrowed_tensor) with "Hp") as (m) "(%Hm & Hp & Hsh & Hclose)".
  destruct Hm as (Hdata & _). iApply stuck_after. iApply (wp_view with "Hp"); [done|]. iIntros "Hp".
  iApply stuck_after. iApply (wp_view with "Hsh"); [done|]. iIntros "Hsh".
  iApply stuck_after. iApply wp_ret. rewrite Hdata Hn. cbn [positions_view tv_shape tv_data].
  iApply (stuck_seq with "Ha"); [apply data_or_null_spec|]. iIntros (q) "[-> Ha]".
  iApply (stuck_seq with "Hb"); [apply data_or_null_spec|]. iIntros (q) "[-> Hb]".
  change (as_usize (as_usize (as_i64 0) * 3)) with 0. change (as_usize (as_i64 0)) with 0.
  iApply (stuck_try_bind with "[]"); [by apply (vector_new_spec t 0)|done|].
  iIntros (x) "(%vec & -> & [_ Hvec])". rewrite Hnull. iExists vec. iSplitR; [done|].
  iApply stuck_bind. iDestruct "Hvec" as %->. iApply stuck_after. iApply wp_alloc.
  iIntros (fo) "Hfo". iApply stuck_bind.
  iApply (stuck_try_bind with "[HR Harr Hfo]"); [apply (Hleg t pp pa pb fo)|iFrame|].
  iIntros (x) "(HR & Harr & %o & Hfo & ->)". iExists tt. iSplitR; [done|].
  iApply stuck_bind. iApply stuck_frame. iSplitL "Hfo Ho"; [by iApply (stuck_hand_over with "[$Hfo $Ho]")|].
  by iAccu.
Qed.
End trampoline.
