(* ===== verification/CxxTheorems.v ===== *)
(** * CxxTheorems: evaluations from C++, local and remote

    The example of potential.hpp as a program: an input, a handle for a legacy potential, a
    calculation, and the destruction of everything at the end of the scope; and the same
    through the RPC client.  Both give what the potential computes. *)
From S2P Require Import Prelude Machine Objects Memory HeapLogic Status Strides Tensor TensorSpec.
From S2P Require Import ForceTypes Potential Utf8 RpcEnv RpcClient RpcServer RpcSpec Environment.
From S2P Require Import Callbacks RpcTheorems.
From S2P Require Import CxxEffects CxxWrappers CxxSpec CxxTrampoline.
From iris.proofmode Require Import proofmode.
Open Scope Z_scope.

Section calls.
  Context {profile : Target} {dlpack : Dlpack} {ccode : CCode}
    {errors : CapnpErrors} {lists : CapnpLists} {network : Network} {runtime : CxxRuntime}.

(** How [calculate] of a handle ends, when the entry point answers [st] and the thread's
    message is [msg]. *)
Definition calculated (t : thread_id) (n : Z) (st : rgpot_status_t) (e : f64) (Fs : list f64)
    (msg : option string) (r : Result ptr CxxException) : mProp :=
  (if decide (st = RGPOT_SUCCESS) then
     last_error_slot t msg ∗ ∃ self v, <affine> ⌜r = Ok self⌝ ∗ result_at self n e v Fs
   else last_error_slot t (slot_after_read msg) ∗ <affine> ⌜r = Err (thrown st msg)⌝)%I.

Lemma PotentialHandle_calculate_spec t R p h pot s pp pa pb c φ msg :
  callback_answers R (callback pot) (user_data pot) c φ ->
  R ∗ input_live s pp pa pb c ∗ arrays pp pa pb c ∗ pointer_at p h ∗ h ↦ BPotential pot ∗
    last_error_slot t msg ⊢
  wp t (PotentialHandle_calculate p s) (fun r =>
    (R ∗ input_live s pp pa pb c ∗ arrays pp pa pb c ∗ pointer_at p h ∗ h ↦ BPotential pot) ∗
    ∃ st e Fs, <affine> ⌜φ st e Fs⌝ ∗ calculated t (cf_n c) st e Fs msg r).
Proof.
  intros Hcb. set (P := (R ∗ input_live s pp pa pb c ∗ arrays pp pa pb c ∗ pointer_at p h ∗
    h ↦ BPotential pot)%I).
  iIntros "(HR & Hs & Harr & Hp & Hh & Hslot)".
  iApply (wp_use with "[HR Hs Harr Hp Hh Hslot]");
    [apply (calculate_with_spec t _ (P ∗ last_error_slot t msg) (cf_n c)
       (fun st e Fs m => P ∗ <affine> ⌜φ st e Fs /\ m = msg⌝)%I)|iFrame|].
  - intros result. iIntros "[[(HR & (%i & [Hn Hi] & Hin) & Harr & Hp & Hh) Hslot] Ho]".
    wp_look "Hp". unfold InputSpec_c_struct.
    iDestruct (pointsto_not_null with "Hi") as %Hni. iDestruct (pointsto_not_null with "Ho") as %Hno.
    iApply (rgpot_potential_calculate_spec with "Hh"); [done..|]. iIntros "Hh".
    iApply (wp_use with "[HR Hi Hin Harr Ho]"); [apply Hcb|iFrame|].
    iIntros (st) "(HR & (Hi & Hin & Harr) & %o & %Fs & Ho & HF & %Hφ)". destruct o as [fp e v].
    iExists e, v, Fs, msg. iFrame "HR Harr Hp Hh Hslot". iFrame. by iFrame.
  - iIntros (r) "(%st & %e & %Fs & %m & [HP %Hφ] & Hr)". destruct Hφ as [Hφ ->].
    iFrame "HP". iExists st, e, Fs. by iFrame.
Qed.

(** What the client's entry point answers to the callback's answer, and its message. *)
Definition rpc_status (n : Z) (st : rgpot_status_t) (Fs : list f64) : rgpot_status_t :=
  if decide (st = RGPOT_SUCCESS /\ Z.of_nat (length Fs) = 3 * n) then RGPOT_SUCCESS
  else RGPOT_RPC_ERROR.

Definition rpc_message (n : Z) (st : rgpot_status_t) (Fs : list f64) (msg : option string) :
    option string :=
  if decide (st = RGPOT_SUCCESS) then
    if decide (Z.of_nat (length Fs) = 3 * n) then msg
    else Some (stored_message ("rgpot_rpc_calculate: force array size mismatch: expected "
           +:+ show (3 * n) +:+ ", got " +:+ show (Z.of_nat (length Fs))))
  else Some (stored_message ("rgpot_rpc_calculate: RPC call failed: " +:+ show_capnp_error
           (remote_exception (CapnpError_failed "potential callback returned an error")))).

Lemma CxxRpcClient_calculate_spec t R srv p h cl s pp pa pb c φ msg :
  Faithful srv -> config_ok c = true ->
  callback_answers R (srv_callback srv) (srv_user_data srv) c φ ->
  R ∗ input_live s pp pa pb c ∗ arrays pp pa pb c ∗ pointer_at p h ∗ h ↦ BRpcClient cl ∗
    last_error_slot t msg ⊢
  wp t (CxxRpcClient_calculate p s) (fun r =>
    (R ∗ input_live s pp pa pb c ∗ arrays pp pa pb c ∗ pointer_at p h ∗ h ↦ BRpcClient cl) ∗
    ∃ st e Fs, <affine> ⌜φ st e Fs⌝ ∗
      calculated t (cf_n c) (rpc_status (cf_n c) st Fs) e Fs (rpc_message (cf_n c) st Fs msg) r).
Proof.
  intros Hnet Hc Hcb. set (P := (R ∗ input_live s pp pa pb c ∗ arrays pp pa pb c ∗
    pointer_at p h ∗ h ↦ BRpcClient cl)%I).
  iIntros "(HR & Hs & Harr & Hp & Hh & Hslot)".
  iApply (wp_use with "[HR Hs Harr Hp Hh Hslot]");
    [apply (calculate_with_spec t _ (P ∗ last_error_slot t msg) (cf_n c)
       (fun st e Fs m => P ∗ <affine> ⌜exists st0 e0 Fs0, φ st0 e0 Fs0 /\
          st = rpc_status (cf_n c) st0 Fs0 /\ m = rpc_message (cf_n c) st0 Fs0 msg /\
          (st = RGPOT_SUCCESS -> e = e0 /\ Fs = Fs0)⌝)%I)|iFrame|].
  - intros result. iIntros "[[(HR & (%i & [Hn Hi] & Hin) & Harr & Hp & Hh) Hslot] Ho]".
    wp_look "Hp". unfold InputSpec_c_struct.
    iApply (wp_use with "[HR Hi Hin Harr Ho Hh Hslot]");
      [by apply (rgpot_rpc_calculate_outcome t R srv φ cl h c i pp pa pb)|iFrame|].
    iIntros (st') "((HR & Hh) & (Hi & Hin & Harr) & %st & %e & %Fs & %r & %Hφ & Hout & Hslot)".
    iAssert (P) with "[HR Hi Hn Hin Harr Hp Hh]" as "HP"; [iFrame|].
    unfold client_outcome. destruct (decide (st = RGPOT_SUCCESS)) as [Hst|Hst];
      [destruct (decide (Z.of_nat (length Fs) = 3 * cf_n c)) as [HF|HF]|].
    + iDestruct "Hout" as "(-> & %fp & Ho & HF)". iDestruct "Hslot" as "[-> Hslot]".
      iExists e, f64_zero, Fs, msg. iFrame "HP Hslot". iSplitL; [iExists fp; iFrame "Ho"|].
      * iDestruct (forces_tensor_not_null with "HF") as %Hfp. unfold maybe_forces.
        by rewrite is_null_false.
      * iPureIntro. exists st, e, Fs. unfold rpc_status, rpc_message.
        rewrite !decide_True //.
    + iDestruct "Hout" as "[-> Ho]". iDestruct "Hslot" as "[-> Hslot]".
      iExists e, f64_zero, [], _. iFrame "HP Hslot". iSplitL.
      * iExists null. iFrame "Ho". by iApply maybe_forces_null.
      * iPureIntro. exists st, e, Fs. unfold rpc_status, rpc_message.
        rewrite (decide_False (P:=_ /\ _)); [|naive_solver]. rewrite decide_True // decide_False //.
    + iDestruct "Hout" as "[-> Ho]". iDestruct "Hslot" as "[-> Hslot]".
      iExists f64_zero, f64_zero, [], _. iFrame "HP Hslot". iSplitL.
      * iExists null. iFrame "Ho". by iApply maybe_forces_null.
      * iPureIntro. exists st, e, Fs. unfold rpc_status, rpc_message.
        rewrite (decide_False (P:=_ /\ _)); [|naive_solver]. rewrite decide_False //.
  - iIntros (r) "(%st & %e & %Fs & %m & [HP %Hφ] & Hr)".
    destruct Hφ as (st0 & e0 & Fs0 & Hφ & -> & -> & Heq).
    iFrame "HP". iExists st0, e0, Fs0. iSplitR; [done|]. unfold calculated.
    case_decide as Hst; [|done]. by destruct (Heq Hst) as [-> ->].
Qed.

(** ** Handles own what they point to *)

Lemma owned_potential h tramp impl :
  owned rgpot_potential_free h (h ↦ BPotential (MkPotentialImpl tramp impl None)).
Proof.
  right. split; [apply pointsto_not_null|]. intros t. iIntros "Hh".
  iApply (rgpot_potential_free_spec t h _ emp%I with "Hh"); [done|].
  done.
Qed.

Lemma owned_client h cl :
  (forall t σ, runtime_drop (Objects.runtime cl) t σ = Done tt σ) ->
  owned rgpot_rpc_client_free h (h ↦ BRpcClient cl).
Proof.
  intros Hdrop. right. split; [apply pointsto_not_null|]. intros t. iIntros "Hh".
  iApply (rgpot_rpc_client_free_spec t h cl emp%I); [|by iFrame].
  iIntros "_". iApply wp_done; [apply Hdrop|]. done.
Qed.

(** ** The programs *)

(** [result.energy()] and [result.forces_vec()], and the end of the result's scope. *)
Definition read_result (calculation : X ptr) : X (f64 * list f64) :=
  result ?← calculation;
  scoped result CalcResult_drop (fun result =>
    e ← CalcResult_energy result;
    Fs ← CalcResult_forces_vec result;
    mret (Ok (e, Fs))).

Definition evaluate_local (tramp : fnptr) (impl : ptr) (n : Z) (pos atmnrs box : ptr) :
    X (f64 * list f64) :=
  input ← InputSpec_new n pos atmnrs box;
  scoped input InputSpec_drop (fun input =>
    pot ← PotentialHandle_from_impl tramp impl;
    scoped pot PotentialHandle_drop (fun pot =>
      read_result (PotentialHandle_calculate pot input))).

Definition evaluate_remote (host : ptr) (port : Z) (n : Z) (pos atmnrs box : ptr) :
    X (f64 * list f64) :=
  input ← InputSpec_new n pos atmnrs box;
  scoped input InputSpec_drop (fun input =>
    client ?← CxxRpcClient_new host port;
    scoped client CxxRpcClient_drop (fun client =>
      read_result (CxxRpcClient_calculate client input))).

(** How a program ends: with the values, or the exception of [check_status]. *)
Definition evaluated (t : thread_id) (st : rgpot_status_t) (e : f64) (Fs : list f64)
    (msg : option string) (x : Result (f64 * list f64) CxxException) : mProp :=
  (if decide (st = RGPOT_SUCCESS) then last_error_slot t msg ∗ <affine> ⌜x = Ok (e, Fs)⌝
   else last_error_slot t (slot_after_read msg) ∗ <affine> ⌜x = Err (thrown st msg)⌝)%I.

Lemma read_result_spec t n calculation P
    (Ψ : rgpot_status_t -> f64 -> list f64 -> option string -> mProp) :
  0 <= n -> 3 * n < 2 ^ 29 ->
  (P ⊢ wp t calculation (fun x => ∃ st e Fs msg, Ψ st e Fs msg ∗ calculated t n st e Fs msg x)) ->
  P ⊢ wp t (read_result calculation) (fun x =>
    ∃ st e Fs msg, Ψ st e Fs msg ∗ evaluated t st e Fs msg x).
Proof.
  intros H0 H3 Hcalc. iIntros "HP".
  iApply (wp_try_bind with "HP"); [exact Hcalc|]. iIntros (x) "(%st & %e & %Fs & %msg & HΨ & H)".
  unfold calculated. case_decide as Hst.
  - iDestruct "H" as "(Hslot & %self & %v & -> & Hr)". iApply wp_scoped.
    wp_call CalcResult_energy_spec "Hr". iIntros (e') "[-> Hr]".
    iApply (wp_seq with "Hr"); [by apply CalcResult_forces_vec_spec|]. iIntros (Fs') "[-> Hr]".
    iApply wp_ret. iApply (wp_use with "Hr"); [apply CalcResult_drop_spec|]. iIntros (_) "_".
    iExists st, e, Fs, msg. iFrame "HΨ". unfold evaluated. rewrite decide_True //. by iFrame.
  - iDestruct "H" as "[Hslot ->]". iExists st, e, Fs, msg. iFrame "HΨ". unfold evaluated.
    rewrite decide_False //. by iFrame.
Qed.

(** The legacy potential is called with its own configuration. *)
Lemma evaluate_local_spec t R tramp impl c φ pp pa pb msg :
  config_ok c = true -> callback_answers R tramp impl c φ ->
  last_error_slot t msg ∗ R ∗ arrays pp pa pb c ⊢
  wp t (evaluate_local tramp impl (cf_n c) pp pa pb) (fun x => R ∗ arrays pp pa pb c ∗
    ∃ st e Fs, <affine> ⌜φ st e Fs⌝ ∗ evaluated t st e Fs msg x).
Proof.
  intros Hc Hcb. pose proof (config_ok_spec c Hc) as (_ & _ & H0 & H3).
  iIntros "(Hslot & HR & Harr)". unfold evaluate_local.
  iApply (wp_seq with "[]"); [apply (InputSpec_new_spec t c)|done|]. iIntros (s) "Hs".
  iApply wp_scoped. unfold PotentialHandle_from_impl.
  iApply wp_bind. iApply (wp_seq with "[]"); [apply rgpot_potential_new_spec|done|].
  iIntros (h) "Hh". iApply wp_alloc. iIntros (p) "Hp". iApply wp_scoped.
  set (pot := MkPotentialImpl tramp impl None).
  set (K := (R ∗ input_live s pp pa pb c ∗ arrays pp pa pb c ∗ pointer_at p h ∗ h ↦ BPotential pot)%I).
  iApply (wp_use with "[HR Hs Harr Hp Hh Hslot]");
    [apply (read_result_spec t (cf_n c) _ (R ∗ input_live s pp pa pb c ∗ arrays pp pa pb c ∗
       pointer_at p h ∗ h ↦ BPotential pot ∗ last_error_slot t msg)
       (fun st e Fs m => K ∗ <affine> ⌜φ st e Fs /\ m = msg⌝)%I); [done..|]|iFrame|].
  { iIntros "H". iApply (wp_use with "H"); [by apply (PotentialHandle_calculate_spec t R p h pot)|].
    iIntros (x) "(HK & %st & %e & %Fs & %Hφ & H)". iExists st, e, Fs, msg. iFrame "HK H". done. }
  iIntros (x) "(%st & %e & %Fs & %m & [(HR & Hs & Harr & Hp & Hh) %Hφ] & H)".
  destruct Hφ as [Hφ ->].
  iApply (wp_use with "[Hp Hh]"); [apply (handle_drop_spec t _ p h), owned_potential|iFrame|].
  iIntros ([]) "_". iApply (wp_use with "Hs"); [apply InputSpec_drop_spec|]. iIntros ([]) "_".
  iFrame "HR Harr". iExists st, e, Fs. by iFrame "H".
Qed.

Lemma CxxRpcClient_new_spec t host text port rt msg :
  (forall t σ, runtime_new t σ = Done (Ok rt) σ) ->
  forallb (fun b => b <? 128) (bytes_of text) = true ->
  last_error_slot t msg ∗ host ↦ BCStr text ⊢
  wp t (CxxRpcClient_new host port) (fun r => host ↦ BCStr text ∗ last_error_slot t msg ∗
    ∃ p h, <affine> ⌜r = Ok p⌝ ∗ pointer_at p h ∗
      h ↦ BRpcClient (MkRpcClient rt (host_port text port))).
Proof.
  iIntros (Hrt Htext) "H". unfold CxxRpcClient_new.
  iApply (wp_seq with "H"); [by apply (rgpot_rpc_client_new_spec t host text port (Ok rt))|].
  iIntros (h) "[Hh H]". unfold client_new_verdict. rewrite to_str_ascii //.
  iDestruct "H" as "[Hslot Hcl]". iDestruct (is_null_pointsto with "Hcl") as %->.
  iApply wp_bind. iApply wp_alloc. iIntros (p) "Hp". iApply wp_ret. iFrame "Hh Hslot".
  iExists p, h. by iFrame.
Qed.

Lemma evaluate_remote_spec t R srv host text port rt c φ pp pa pb msg :
  Faithful srv -> config_ok c = true ->
  callback_answers R (srv_callback srv) (srv_user_data srv) c φ ->
  (forall t σ, runtime_new t σ = Done (Ok rt) σ) ->
  (forall t σ, runtime_drop rt t σ = Done tt σ) ->
  forallb (fun b => b <? 128) (bytes_of text) = true ->
  last_error_slot t msg ∗ host ↦ BCStr text ∗ R ∗ arrays pp pa pb c ⊢
  wp t (evaluate_remote host port (cf_n c) pp pa pb) (fun x =>
    host ↦ BCStr text ∗ R ∗ arrays pp pa pb c ∗ ∃ st e Fs, <affine> ⌜φ st e Fs⌝ ∗
      evaluated t (rpc_status (cf_n c) st Fs) e Fs (rpc_message (cf_n c) st Fs msg) x).
Proof.
  intros Hnet Hc Hcb Hrt Hdrop Htext. pose proof (config_ok_spec c Hc) as (_ & _ & H0 & H3).
  iIntros "(Hslot & Hhost & HR & Harr)". unfold evaluate_remote.
  iApply (wp_seq with "[]"); [apply (InputSpec_new_spec t c)|done|]. iIntros (s) "Hs".
  iApply wp_scoped.
  iApply (wp_try_bind with "[Hslot Hhost]"); [by apply (CxxRpcClient_new_spec t host text port rt)|iFrame|].
  iIntros (r) "(Hhost & Hslot & %p & %h & -> & Hp & Hh)". iApply wp_scoped.
  set (cl := MkRpcClient rt (host_port text port)).
  set (K := (R ∗ input_live s pp pa pb c ∗ arrays pp pa pb c ∗ pointer_at p h ∗ h ↦ BRpcClient cl)%I).
  iApply (wp_use with "[HR Hs Harr Hp Hh Hslot]");
    [apply (read_result_spec t (cf_n c) _ (R ∗ input_live s pp pa pb c ∗ arrays pp pa pb c ∗
       pointer_at p h ∗ h ↦ BRpcClient cl ∗ last_error_slot t msg)
       (fun st e Fs m => K ∗ <affine> ⌜exists st0, φ st0 e Fs /\
          st = rpc_status (cf_n c) st0 Fs /\ m = rpc_message (cf_n c) st0 Fs msg⌝)%I); [done..|]
    |iFrame|].
  { iIntros "H". iApply (wp_use with "H"); [by apply (CxxRpcClient_calculate_spec t R srv p h cl)|].
    iIntros (x) "(HK & %st & %e & %Fs & %Hφ & H)". iExists _, e, Fs, _. iFrame "HK H".
    iPureIntro. by exists st. }
  iIntros (x) "(%st & %e & %Fs & %m & [(HR & Hs & Harr & Hp & Hh) %Hφ] & H)".
  destruct Hφ as (st0 & Hφ & -> & ->).
  iApply (wp_use with "[Hp Hh]"); [apply (handle_drop_spec t _ p h), (owned_client h cl Hdrop)|iFrame|].
  iIntros ([]) "_". iApply (wp_use with "Hs"); [apply InputSpec_drop_spec|]. iIntros ([]) "_".
  iFrame "Hhost HR Harr". iExists st0, e, Fs. by iFrame "H".
Qed.

(** What the program gives for a computation, when a failure is reported as [st] with [text]. *)
Definition program_outcome (t : thread_id) (r : Computed) (failure : CxxException)
    (msg msg' : option string) (x : Result (f64 * list f64) CxxException) : mProp :=
  match r with
  | Some (e, _, Fs) => <affine> ⌜x = Ok (e, Fs)⌝ ∗ last_error_slot t msg
  | None => <affine> ⌜x = Err failure⌝ ∗ last_error_slot t msg'
  end.

(** What a C++ caller of the RPC is told when the remote potential throws. *)
Definition remote_failure : string :=
  stored_message ("rgpot_rpc_calculate: RPC call failed: " +:+
    show_capnp_error (remote_exception
      (CapnpError_failed "potential callback returned an error"))).

(** C6: From C++ a remote evaluation is a local one.  A legacy C++ potential is registered
    with the trampoline, once behind a [PotentialHandle] of the same process and once behind
    a server, and a C++ program evaluates a configuration with at least one atom (or any, if
    an empty vector has a buffer), through the handle or through an [RpcClient] whose
    transport is faithful.  When the potential computes, both programs return
    its energy and its forces; when it throws, the local one throws the internal error with
    the thread's message, the remote one the RPC error.  Both leave the caller's arrays and
    the potential's resources as they were and nothing else behind, exceptions included. *)
Theorem cxx_remote_equals_local (R : mProp) (forceImpl : ptr -> ForceInput -> ptr -> X unit)
    (tramp : fnptr) (impl : ptr) (c : Config) (r : Computed) (t : thread_id)
    (msg : option string) (pp pa pb host : ptr) (text : string) (port : Z) (rt : N)
    (Htramp : registered forceImpl tramp) (Hc : atoms_ok c = true)
    (Hleg : legacy_computes R forceImpl impl c r)
    (Hnet : Faithful (MkPotentialServer tramp impl))
    (Hrt : forall t σ, runtime_new t σ = Done (Ok rt) σ)
    (Hdrop : forall t σ, runtime_drop rt t σ = Done tt σ)
    (Htext : forallb (fun b => b <? 128) (bytes_of text) = true) :
  (last_error_slot t msg ∗ R ∗ arrays pp pa pb c ⊢
   wp t (evaluate_local tramp impl (cf_n c) pp pa pb) (fun x => R ∗ arrays pp pa pb c ∗
     program_outcome t r (RgpotError ("internal error: " +:+ default "" msg)) msg
       (Some (default ""%string msg)) x)) /\
  (last_error_slot t msg ∗ host ↦ BCStr text ∗ R ∗ arrays pp pa pb c ⊢
   wp t (evaluate_remote host port (cf_n c) pp pa pb) (fun x =>
     host ↦ BCStr text ∗ R ∗ arrays pp pa pb c ∗
     program_outcome t r (RgpotError ("RPC error: " +:+ remote_failure)) msg
       (Some remote_failure) x)).
Proof.
  pose proof (atoms_ok_spec c Hc) as [Hok _].
  pose proof (trampoline_answers forceImpl tramp R impl c r Htramp Hc Hleg) as Hcb.
  split; iIntros "H".
  - iApply (wp_use with "H"); [by apply (evaluate_local_spec t R tramp impl c (computed_answer c r))|].
    iIntros (x) "($ & $ & %st & %e & %Fs & %Hφ & H)". unfold program_outcome, evaluated.
    destruct r as [[[e' v'] Fs']|]; simpl in Hφ.
    + destruct Hφ as (-> & -> & -> & _). cbn. by iDestruct "H" as "[$ $]".
    + destruct Hφ as [-> _]. cbn. by iDestruct "H" as "[$ $]".
  - iApply (wp_use with "H");
      [by apply (evaluate_remote_spec t R (MkPotentialServer tramp impl) host text port rt c
         (computed_answer c r))|].
    iIntros (x) "($ & $ & $ & %st & %e & %Fs & %Hφ & H)".
    unfold program_outcome, evaluated, rpc_status, rpc_message.
    destruct r as [[[e' v'] Fs']|]; simpl in Hφ.
    + destruct Hφ as (-> & -> & -> & HF). rewrite !decide_True //. by iDestruct "H" as "[$ $]".
    + destruct Hφ as [-> _]. cbn. by iDestruct "H" as "[$ $]".
Qed.

(** C23: A request without atoms is undefined behaviour behind the trampoline, with a standard
    library that gives a new empty vector a null [data()], as the usual ones do.  For a
    potential that has nothing to do when there are no atoms, the buffer of the forces is a
    null pointer, from which the copying tensor constructor makes a slice: so every peer can
    bring the server down with an empty request, and every local caller with an empty
    input. *)
Theorem empty_request_is_undefined (R : mProp) (forceImpl : ptr -> ForceInput -> ptr -> X unit)
    (tramp : fnptr) (impl : ptr) (c : Config) (t : thread_id)
    (Htramp : registered forceImpl tramp) (Hc : config_ok c = true) (Hn : cf_n c = 0)
    (Hidle : legacy_idle forceImpl R impl c) (Hnull : empty_data_is_null = true) :
  (R ⊢ stuck t (PotentialServer_calculate (MkPotentialServer tramp impl) (params_of c))
         NullDereference) /\
  (forall h input output i pp pa pb e v,
     h ↦ BPotential (MkPotentialImpl tramp impl None) ∗ R ∗ input_at input i pp pa pb c ∗
       output ↦ BForceOut (MkForceOut null e v) ⊢
     stuck t (rgpot_potential_calculate h input output) NullDereference).
Proof.
  assert (forall R' ud input output,
    (R' ⊢ stuck t (trampoline_callback forceImpl ud input output) NullDereference) ->
    R' ⊢ stuck t (call_callback tramp ud input output) NullDereference) as Hcall.
  { iIntros (R' ud input output H) "HR". iApply stuck_extern_C. iApply stuck_ext; [apply Htramp|].
    by iApply H. }
  split.
  - iIntros "HR". unfold PotentialServer_calculate.
    cbn [pry params_get params_of get_pos get_atmnrs get_box].
    iApply (stuck_seq with "[]"); [apply server_prepare_spec|done|].
    iIntros (fl) "(%i & (%Hfn & %Hl & Hin) & Ho)". iApply stuck_bind.
    iApply (Hcall (R ∗ input_at (fl_input fl) i (vec_ptr (fl_pos fl)) (vec_ptr (fl_atm fl))
      (vec_ptr (fl_box fl)) c ∗ fl_output fl ↦ BForceOut (MkForceOut null f64_zero f64_zero))%I);
      [|iFrame]. by apply trampoline_without_atoms.
  - intros h input output i pp pa pb e v. iIntros "(Hh & HR & (Hi & Hin) & Ho)".
    iApply stuck_extern_C. iApply stuck_catch_unwind.
    iDestruct (is_null_pointsto with "Hh") as %->. iDestruct (is_null_pointsto with "Hi") as %->.
    iDestruct (is_null_pointsto with "Ho") as %->.
    iApply stuck_after. iApply (wp_view with "Hh"); [done|]. iIntros "Hh".
    iApply stuck_frame. iSplitR "Hh"; [|iAccu].
    iApply (Hcall (R ∗ input_at input i pp pa pb c ∗ output ↦ BForceOut (MkForceOut null e v))%I);
      [|iFrame]. by apply trampoline_without_atoms.
Qed.
End calls.

(** ** A concrete legacy potential

    Its forces are the positions; it throws for a negative atomic number. *)

Section demo.
#[local] Existing Instances debug_profile dlpack_header text_errors plain_lists.

Program Definition desktop_runtime : CxxRuntime := {|
  return_in_place := true;
  empty_data_is_null := true;
  can_allocate n := n <? 2 ^ 40;
|}.
Next Obligation. intros n Hn. apply Z.ltb_lt. lia. Qed.
#[local] Existing Instance desktop_runtime.

Definition demo_force (impl : ptr) (fi : ForceInput) (fo : ptr) : X unit :=
  o ← view as_legacy_out fo;
  xs ← from_raw_parts as_f64s (fi_pos fi) (3 * fi_nAtoms fi);
  zs ← from_raw_parts as_i32s (fi_atmnrs fi) (fi_nAtoms fi);
  if existsb (fun z => z <? 0) zs then throw OtherException
  else
    (if fi_nAtoms fi =? 0 then mret tt else store (fo_F o) (BF64s xs));;
    store fo (legacy_out (MkLegacyOut (fo_F o) 42 7));;
    mret (Ok tt).

Definition demo_computed (c : Config) : Computed :=
  if existsb (fun z => z <? 0) (cf_atomic_numbers c) then None else Some (42, 7, cf_positions c).

Lemma demo_force_computes impl c :
  atoms_ok c = true -> legacy_computes emp demo_force impl c (demo_computed c).
Proof.
  intros (Hc & [Hn|Hn] & H3)%atoms_ok_spec t pp pa pb fp fo; [|done].
  pose proof (config_ok_spec c Hc) as (Hp & _ & _ & _).
  iIntros "(_ & (Hpp & Hpa & Hpb) & Hfp & Hfo)". unfold demo_force. wp_look "Hfo".
  cbn [fi_pos fi_nAtoms fi_atmnrs].
  iApply wp_bind. iApply (wp_from_raw_parts with "Hpp"); [done|lia|]. iIntros "Hpp".
  iApply wp_bind. iApply (wp_from_raw_parts with "Hpa"); [done|unfold cf_n in *; lia|]. iIntros "Hpa".
  rewrite !take_ge; [|unfold cf_n in *; lia..]. unfold demo_computed.
  destruct (existsb _ _).
  - iApply wp_throw. iSplitR; [done|]. iFrame "Hpp Hpa Hpb". iExists _, _. iFrame "Hfp Hfo".
    iPureIntro. rewrite length_replicate. split; [lia|by eexists].
  - rewrite (proj2 (Z.eqb_neq (cf_n c) 0)); [|lia]. iApply wp_bind. iApply (wp_store with "Hfp").
    iIntros "Hfp". iApply wp_bind. iApply (wp_store with "Hfo"). iIntros "Hfo". iApply wp_ret.
    iSplitR; [done|]. iFrame "Hpp Hpa Hpb". iExists (MkLegacyOut fp 42 7), _. iFrame "Hfp Hfo".
    iPureIntro. by split_and!.
Qed.

Lemma demo_force_idle impl c :
  config_ok c = true -> cf_n c = 0 -> legacy_idle demo_force emp impl c.
Proof.
  intros Hc Hn t pp pa pb fo. pose proof (config_ok_spec c Hc) as (Hp & _ & _ & _).
  iIntros "(_ & (Hpp & Hpa & Hpb) & Hfo)". unfold demo_force. wp_look "Hfo".
  cbn [fi_pos fi_nAtoms fi_atmnrs].
  iApply wp_bind. iApply (wp_from_raw_parts with "Hpp"); [done|lia|]. iIntros "Hpp".
  iApply wp_bind. iApply (wp_from_raw_parts with "Hpa"); [done|lia|]. iIntros "Hpa". cbn.
  iApply wp_bind. iApply wp_ret. iApply wp_bind. iApply (wp_store with "Hfo"). iIntros "Hfo".
  iApply wp_ret. iSplitR; [done|]. iFrame "Hpp Hpa Hpb". iExists (MkLegacyOut null 42 7).
  by iFrame "Hfo".
Qed.

(** The function at address 1 is the trampoline of the potential. *)
Definition legacy_c : CCode := {|
  c_callback f ud input output :=
    if decide (f = 1%N) then trampoline_callback demo_force ud input output
    else panic (PanicStr "boom");
  c_free_fn _ p := dealloc p;
  c_deleter _ _ := undefined WrongObject;
|}.
#[local] Existing Instance legacy_c.
Definition legacy_server : PotentialServer := MkPotentialServer 1%N null.
Definition legacy_network : Network := loopback legacy_server 9%N.
#[local] Existing Instance legacy_network.

Lemma demo_registered : registered demo_force 1%N.
Proof. by intros ud input output t σ. Qed.


Lemma cxx_remote_equals_local_witness :
  (last_error_slot 0%N None ∗ emp ∗ arrays 10%N 11%N 12%N demo_config ⊢
   wp 0%N (evaluate_local 1%N null 2 10%N 11%N 12%N) (fun x => emp ∗
     arrays 10%N 11%N 12%N demo_config ∗
     <affine> ⌜x = Ok (42, [0; 0; 0; 1; 1; 1])⌝ ∗ last_error_slot 0%N None)) /\
  (last_error_slot 0%N None ∗ 13%N ↦ BCStr "localhost" ∗ emp ∗ arrays 10%N 11%N 12%N demo_config ⊢
   wp 0%N (evaluate_remote 13%N 12345 2 10%N 11%N 12%N) (fun x =>
     13%N ↦ BCStr "localhost" ∗ emp ∗ arrays 10%N 11%N 12%N demo_config ∗
     <affine> ⌜x = Ok (42, [0; 0; 0; 1; 1; 1])⌝ ∗ last_error_slot 0%N None)).
Proof.
  exact (cxx_remote_equals_local emp demo_force 1%N null demo_config (Some (42, 7, [0; 0; 0; 1; 1; 1]))
    0%N None 10%N 11%N 12%N 13%N "localhost" 12345 0%N demo_registered eq_refl
    (demo_force_computes null demo_config eq_refl) (loopback_faithful legacy_server 9%N)
    (fun t σ => eq_refl) (fun t σ => eq_refl) eq_refl).
Defined.

Definition no_atoms : Config := MkConfig [] [] [1; 0; 0; 0; 1; 0; 0; 0; 1].

Lemma empty_request_is_undefined_witness :
  emp ⊢ stuck 0%N (PotentialServer_calculate legacy_server (params_of no_atoms)) NullDereference.
Proof.
  exact (proj1 (empty_request_is_undefined emp demo_force 1%N null no_atoms 0%N demo_registered
    eq_refl eq_refl (demo_force_idle null no_atoms eq_refl eq_refl) eq_refl)).
Defined.

(** The program, run: three doubles per atom come back, and the store is as before. *)
Example program_runs :
  match evaluate_local 1%N null 2 1%N 2%N 3%N 0%N
    (with_objects initial_mem [BF64s [0; 0; 0; 1; 1; 1]; BI32s [1; 8]; BF64s (replicate 9 0)]) with
  | Done x σ => x = Ok (42, [0; 0; 0; 1; 1; 1]) /\ size (mem_map σ) = 4%nat
  | _ => False
  end.
Proof. vm_compute. by split. Qed.
End demo.
