(* ===== verification/CxxPrograms.v ===== *)
(** * CxxPrograms: programs over the wrapper classes

    A small language of C++ programs: declarations, moves, move assignments, calculations,
    blocks and [try] blocks over local variables of the classes [InputSpec], [CalcResult],
    [PotentialHandle] and [RpcClient].  Whatever such a program moves where, and whatever the
    peers of its clients reply, it neither uses freed memory nor frees twice nor leaks:
    ownership by objects is safe. *)
From S2P Require Import Prelude Machine Objects Memory HeapLogic Status Strides Tensor TensorSpec.
From S2P Require Import ForceTypes Potential Utf8 RpcEnv RpcClient RpcServer RpcSpec Environment.
From S2P Require Import Callbacks RpcTheorems RpcPeers.
From S2P Require Import CxxEffects CxxWrappers CxxSpec CxxTrampoline CxxTheorems.
From iris.proofmode Require Import proofmode.
Open Scope Z_scope.

(** ** Syntax *)

Inductive Class_ := InputClass | ResultClass | HandleClass | ClientClass.

(** Variables are numbered in the order of their declaration. *)
Inductive Stmt :=
| NewInput (data : nat)
| NewResult
| NewHandle (potential : nat)
| NewClient (host : nat)
| MoveFrom (cls : Class_) (x : nat)
| Assign (cls : Class_) (x y : nat)
| Calculate (handle input : nat)
| CalculateRemotely (client input : nat)
| ReadForces (result : nat).

(** What a statement declares. *)
Definition declares (s : Stmt) : option Class_ :=
  match s with
  | NewInput _ => Some InputClass
  | NewResult | Calculate _ _ | CalculateRemotely _ _ => Some ResultClass
  | NewHandle _ => Some HandleClass
  | NewClient _ => Some ClientClass
  | MoveFrom cls _ => Some cls
  | Assign _ _ _ | ReadForces _ => None
  end.

Inductive Prog :=
| Finish
| Then (s : Stmt) (rest : Prog)
| Block_ (inner rest : Prog)
| Try (inner rest : Prog).

#[export] Instance Class_eq_dec : EqDecision Class_.
Proof. solve_decision. Defined.

(** The compiler's check: variables are declared, with the right class; [data] arrays,
    [pots] potentials and [hosts] names of servers are in scope. *)
Definition has_class (ctx : list Class_) (x : nat) (cls : Class_) : bool :=
  bool_decide (ctx !! x = Some cls).

Definition stmt_ok (data pots hosts : nat) (ctx : list Class_) (s : Stmt) : bool :=
  match s with
  | NewInput d => Nat.ltb d data
  | NewResult => true
  | NewHandle k => Nat.ltb k pots
  | NewClient k => Nat.ltb k hosts
  | MoveFrom cls x => has_class ctx x cls
  | Assign cls x y => has_class ctx x cls && has_class ctx y cls
  | Calculate h x => has_class ctx h HandleClass && has_class ctx x InputClass
  | CalculateRemotely h x => has_class ctx h ClientClass && has_class ctx x InputClass
  | ReadForces r => has_class ctx r ResultClass
  end.

Fixpoint prog_ok (data pots hosts : nat) (ctx : list Class_) (p : Prog) : bool :=
  match p with
  | Finish => true
  | Then s rest => stmt_ok data pots hosts ctx s && prog_ok data pots hosts (ctx ++ option_list (declares s)) rest
  | Block_ inner rest | Try inner rest => prog_ok data pots hosts ctx inner && prog_ok data pots hosts ctx rest
  end.

(** ** Semantics *)

Inductive Var := VInput (s : InputSpec) | VResult (p : ptr) | VHandle (p : ptr) | VClient (p : ptr).

Definition class_of (v : Var) : Class_ :=
  match v with
  | VInput _ => InputClass
  | VResult _ => ResultClass
  | VHandle _ => HandleClass
  | VClient _ => ClientClass
  end.

(** The caller's arrays, potentials, and names of servers with their ports. *)
Record Data := MkData { da_pos : ptr; da_atm : ptr; da_box : ptr; da_config : Config }.
Definition Potentials : Type := list (fnptr * ptr).
Record Host := MkHost { ho_name : ptr; ho_text : string; ho_port : Z }.

Section semantics.
  Context {profile : Target} {dlpack : Dlpack} {ccode : CCode}
    {errors : CapnpErrors} {lists : CapnpLists} {network : Network} {runtime : CxxRuntime}
    (data : list Data) (pots : Potentials) (hosts : list Host).

Definition destroy (v : Var) : M unit :=
  match v with
  | VInput s => InputSpec_drop s
  | VResult p => CalcResult_drop p
  | VHandle p => PotentialHandle_drop p
  | VClient p => CxxRpcClient_drop p
  end.

(** A construct that the compiler refuses has no meaning. *)
Definition refused {A} : M A := undefined WrongObject.

Definition exec_stmt (env : list Var) (s : Stmt) : X (option Var) :=
  match s with
  | NewInput d =>
      match data !! d with
      | Some a => s ← InputSpec_new (cf_n (da_config a)) (da_pos a) (da_atm a) (da_box a);
                  mret (Ok (Some (VInput s)))
      | None => refused
      end
  | NewResult => p ← CalcResult_new; mret (Ok (Some (VResult p)))
  | NewHandle k =>
      match pots !! k with
      | Some (tramp, impl) => p ← PotentialHandle_from_impl tramp impl; mret (Ok (Some (VHandle p)))
      | None => refused
      end
  | NewClient k =>
      match hosts !! k with
      | Some h => client ?← CxxRpcClient_new (ho_name h) (ho_port h); mret (Ok (Some (VClient client)))
      | None => refused
      end
  | MoveFrom _ x =>
      match env !! x with
      | Some (VInput s) => s' ← InputSpec_move s; mret (Ok (Some (VInput s')))
      | Some (VResult p) => p' ← CalcResult_move p; mret (Ok (Some (VResult p')))
      | Some (VHandle p) => p' ← PotentialHandle_move p; mret (Ok (Some (VHandle p')))
      | Some (VClient p) => p' ← CxxRpcClient_move p; mret (Ok (Some (VClient p')))
      | None => refused
      end
  | Assign _ x y =>
      match env !! x, env !! y with
      | Some (VInput s), Some (VInput s') => InputSpec_assign s s';; mret (Ok None)
      | Some (VResult p), Some (VResult p') => CalcResult_assign p p';; mret (Ok None)
      | Some (VHandle p), Some (VHandle p') => PotentialHandle_assign p p';; mret (Ok None)
      | Some (VClient p), Some (VClient p') => CxxRpcClient_assign p p';; mret (Ok None)
      | _, _ => refused
      end
  | Calculate h x =>
      match env !! h, env !! x with
      | Some (VHandle p), Some (VInput s) =>
          result ?← PotentialHandle_calculate p s; mret (Ok (Some (VResult result)))
      | _, _ => refused
      end
  | CalculateRemotely h x =>
      match env !! h, env !! x with
      | Some (VClient p), Some (VInput s) =>
          result ?← CxxRpcClient_calculate p s; mret (Ok (Some (VResult result)))
      | _, _ => refused
      end
  | ReadForces r =>
      match env !! r with
      | Some (VResult p) => _ ← CalcResult_forces_vec p; mret (Ok None)
      | _ => refused
      end
  end.

(** A declared variable lives until the end of its block, and is destroyed there, or when an
    exception leaves the block. *)
Fixpoint run (p : Prog) (env : list Var) : X unit :=
  match p with
  | Finish => mret (Ok tt)
  | Then s rest =>
      r ?← exec_stmt env s;
      match r with
      | Some v => scoped v destroy (fun v => run rest (env ++ [v]))
      | None => run rest env
      end
  | Block_ inner rest => _ ?← run inner env; run rest env
  | Try inner rest => catch_all (run inner env) (mret tt);; run rest env
  end.

(** ** What a variable owns *)

(** The tensors of an input: none after a move, or views of the caller's arrays. *)
Definition input_contents (n : Z) (i : rgpot_force_input_t) : mProp :=
  (<affine> ⌜i = empty_input⌝ ∨
   ∃ a, <affine> ⌜a ∈ data /\ n = cf_n (da_config a)⌝ ∗
     force_input i (cf_n (da_config a)) (da_pos a) (da_atm a) (da_box a))%I.

Definition handle_contents (h : ptr) : mProp :=
  (<affine> ⌜h = null⌝ ∨
   ∃ tramp impl, <affine> ⌜(tramp, impl) ∈ pots⌝ ∗ h ↦ BPotential (MkPotentialImpl tramp impl None))%I.

Definition client_contents (h : ptr) : mProp :=
  (<affine> ⌜h = null⌝ ∨ ∃ cl, h ↦ BRpcClient cl)%I.

(** A member [handle_] and what it points to. *)
Definition pointer_var (contents : ptr -> mProp) (p : ptr) : mProp := ∃ h, pointer_at p h ∗ contents h.

Definition input_var (s : InputSpec) : mProp := ∃ n i, input_members s n i ∗ input_contents n i.
Definition result_var (p : ptr) : mProp :=
  ∃ n e v F, <affine> ⌜0 <= n /\ 3 * n < 2 ^ 29⌝ ∗ result_at p n e v F.

Definition var_at (v : Var) : mProp :=
  match v with
  | VInput s => input_var s
  | VResult p => result_var p
  | VHandle p => pointer_var handle_contents p
  | VClient p => pointer_var client_contents p
  end.

Definition vars_at (env : list Var) : mProp := [∗ list] v ∈ env, var_at v.

(** ** What surrounds the program

    The potentials answer every configuration of the data, and an input that was moved away;
    [R] is what they and the servers behind the network work with. *)
Context (R : mProp).

Record library_ok : Prop := {
  lib_peers : Peers R (da_config <$> data);
  lib_data a : a ∈ data -> config_ok (da_config a) = true;
  lib_answer tramp impl a : (tramp, impl) ∈ pots -> a ∈ data ->
    exists φ, callback_answers R tramp impl (da_config a) φ;
  lib_empty tramp impl t input output : (tramp, impl) ∈ pots ->
    R ∗ input ↦ BForceInput empty_input ∗ output ↦ BForceOut (MkForceOut null f64_zero f64_zero) ⊢
    wp t (call_callback tramp impl input output) (fun _ => R ∗ input ↦ BForceInput empty_input ∗
      ∃ o F, output ↦ BForceOut o ∗ maybe_forces (forces o) 0 F);
}.

Definition all_arrays : mProp :=
  [∗ list] a ∈ data, arrays (da_pos a) (da_atm a) (da_box a) (da_config a).

Definition all_hosts : mProp := [∗ list] h ∈ hosts, ho_name h ↦ BCStr (ho_text h).

Definition frame (t : thread_id) : mProp := some_message t ∗ R ∗ all_arrays ∗ all_hosts.

Context (Hlib : library_ok).

(** ** Members that own

    What a member points to: nothing, or an object that the destructor releases. *)
Class Contents (free : ptr -> M unit) (contents : ptr -> mProp) := {
  contents_null : emp ⊢ contents null;
  contents_owned h : contents h ⊢ ∃ P, <affine> ⌜owned free h P⌝ ∗ P;
}.

#[export] Instance handle_owns : Contents rgpot_potential_free handle_contents.
Proof.
  split.
  - iIntros "_". by iLeft.
  - intros h. iIntros "[->|(%tramp & %impl & %Hin & Hh)]".
    + iExists emp%I. iSplit; [|done]. iPureIntro. by left.
    + iExists (h ↦ BPotential (MkPotentialImpl tramp impl None))%I. iFrame "Hh". iPureIntro.
      apply owned_potential.
Qed.

#[export] Instance client_owns : Contents rgpot_rpc_client_free client_contents.
Proof.
  split.
  - iIntros "_". by iLeft.
  - intros h. iIntros "[->|(%cl & Hh)]".
    + iExists emp%I. iSplit; [|done]. iPureIntro. by left.
    + iExists (h ↦ BRpcClient cl)%I. iFrame "Hh". iPureIntro. right.
      split; [apply pointsto_not_null|]. intros t.
      apply (rpc_client_freed R (da_config <$> data) (lib_peers Hlib)).
Qed.

Lemma drop_pointer `{!Contents free contents} t p :
  pointer_var contents p ⊢ wp t (handle_drop free p) (fun _ => emp).
Proof.
  iIntros "(%h & Hp & Hh)". iDestruct (contents_owned with "Hh") as (P) "[%Hown HP]".
  iApply (handle_drop_spec t _ p h P with "[$Hp $HP]"). exact Hown.
Qed.

Lemma move_pointer `{!Contents free contents} t p :
  pointer_var contents p ⊢
  wp t (handle_move p) (fun p' => pointer_var contents p ∗ pointer_var contents p').
Proof.
  iIntros "(%h & Hp & Hh)". iApply (wp_use with "Hp"); [apply handle_move_spec|].
  iIntros (p') "[Hp' Hp]". iSplitL "Hp"; [|iExists h; iFrame]. iExists null. iFrame "Hp".
  by iApply (contents_null (free := free)).
Qed.

Lemma assign_pointer `{!Contents free contents} t p p' :
  pointer_var contents p ∗ pointer_var contents p' ⊢
  wp t (handle_assign free p p') (fun _ => pointer_var contents p ∗ pointer_var contents p').
Proof.
  iIntros "[(%h & Hp & Hh) (%h' & Hp' & Hh')]". iDestruct (pointsto_ne with "Hp Hp'") as %Hne.
  iDestruct (contents_owned with "Hh") as (P) "[%Hown HP]".
  iApply (wp_use with "[Hp HP Hp']"); [by apply (handle_assign_spec t free p h P p' h') | iFrame |].
  iIntros (_) "[Hp Hp']". iSplitL "Hp Hh'"; [iExists h'; iFrame|]. iExists null. iFrame "Hp'".
  by iApply (contents_null (free := free)).
Qed.

(** ** Inputs and results *)

Lemma free_contents t p n i :
  p ↦ BForceInput i ∗ input_contents n i ⊢
  wp t (rgpot_force_input_free p) (fun _ => p ↦ BForceInput empty_input).
Proof.
  iIntros "[Hp [->|(%a & _ & Hi)]]"; [by iApply free_empty_input_spec|].
  iApply free_input_spec. iFrame.
Qed.

Lemma no_contents n : emp ⊢ input_contents n empty_input.
Proof. iIntros "_". by iLeft. Qed.

Lemma move_input t s :
  input_var s ⊢ wp t (InputSpec_move s) (fun s' => input_var s ∗ input_var s').
Proof.
  iIntros "(%n & %i & Hs & Hi)". iApply (wp_use with "Hs"); [apply InputSpec_move_spec|].
  iIntros (s') "[Hs' Hs]". iSplitL "Hs"; [|iExists n, i; iFrame].
  iExists n, empty_input. iFrame "Hs". by iApply no_contents.
Qed.

Lemma move_result t p :
  result_var p ⊢ wp t (CalcResult_move p) (fun p' => result_var p ∗ result_var p').
Proof.
  iIntros "(%n & %e & %v & %F & %Hn & H)". iApply (wp_use with "H"); [apply CalcResult_move_spec|].
  iIntros (p') "[Hp' Hp]". iSplitL "Hp"; iExists n, e, v, _; by iFrame.
Qed.

Lemma assign_input t s s' :
  input_var s ∗ input_var s' ⊢ wp t (InputSpec_assign s s') (fun _ => input_var s ∗ input_var s').
Proof.
  iIntros "[(%n & %i & [Hn Hi] & Hc) (%n' & %i' & [Hn' Hi'] & Hc')]".
  iDestruct (pointsto_ne with "Hi Hi'") as %Hne.
  iApply (wp_use with "[Hn Hi Hc Hn' Hi']");
    [apply (InputSpec_assign_spec t s s' n i n' i' (input_contents n i));
      [apply free_contents | exact Hne] | iFrame |].
  iIntros (_) "[Hs Hs']". iSplitL "Hs Hc'"; [iExists n', i'; iFrame|].
  iExists n', empty_input. iFrame "Hs'". by iApply no_contents.
Qed.

Lemma assign_result t p p' :
  result_var p ∗ result_var p' ⊢ wp t (CalcResult_assign p p') (fun _ => result_var p ∗ result_var p').
Proof.
  iIntros "[(%n & %e & %v & %F & %Hn & (%fp & Hp & HF)) (%n' & %e' & %v' & %F' & %Hn' & (%fp' & Hp' & HF'))]".
  iDestruct (pointsto_ne with "Hp Hp'") as %Hne.
  iApply (wp_use with "[Hp HF Hp' HF']");
    [by apply (CalcResult_assign_spec t p p' n e v F n' e' v' F') | iSplitL "Hp HF"; iExists _; iFrame |].
  iIntros (_) "[Hp Hp']". iSplitL "Hp"; iExists n', e', v', _; by iFrame.
Qed.

Lemma destroy_spec t v : var_at v ⊢ wp t (destroy v) (fun _ => emp).
Proof.
  destruct v as [s|p|p|p]; cbn.
  - iIntros "(%n & %i & Hs & Hi)".
    iApply (InputSpec_release_spec t s n i (input_contents n i) with "[$Hs $Hi]").
    apply free_contents.
  - iIntros "(%n & %e & %v & %F & _ & H)". by iApply CalcResult_drop_spec.
  - apply drop_pointer.
  - apply drop_pointer.
Qed.

(** ** Calculations *)

Lemma arrays_acc a :
  a ∈ data -> all_arrays ⊢ arrays (da_pos a) (da_atm a) (da_box a) (da_config a) ∗
    (arrays (da_pos a) (da_atm a) (da_box a) (da_config a) -∗ all_arrays).
Proof.
  intros [k Hk]%list_elem_of_lookup.
  by apply (big_sepL_lookup_acc (fun _ a => arrays (da_pos a) (da_atm a) (da_box a) (da_config a)) data k a).
Qed.

Lemma data_size a : a ∈ data -> 0 <= cf_n (da_config a) /\ 3 * cf_n (da_config a) < 2 ^ 29.
Proof. intros Ha. by destruct (config_ok_spec _ (lib_data Hlib a Ha)) as (_ & _ & ? & ?). Qed.

(** What an entry point that calculates promises, on any member and any input. *)
Definition calls (call : ptr -> ptr -> ptr -> M rgpot_status_t) (contents : ptr -> mProp) : Prop :=
  forall t h n i s result,
    frame t ∗ contents h ∗ (input_members s n i ∗ input_contents n i) ∗
      result ↦ BForceOut (MkForceOut null f64_zero f64_zero) ⊢
    wp t (call h (input_ s) result) (fun _ =>
      frame t ∗ contents h ∗ (input_members s n i ∗ input_contents n i) ∗ result_var result).

Lemma no_forces n result :
  0 <= n /\ 3 * n < 2 ^ 29 -> some_output result n ⊢ result_var result.
Proof.
  iIntros (Hn) "(%o & %F & Ho & HF)". destruct o as [fp e v]. iExists n, e, v, F.
  iSplitR; [done|]. iExists fp. iFrame.
Qed.

Lemma handle_calls : calls rgpot_potential_calculate handle_contents.
Proof.
  intros t h n i s result. iIntros "(((%msg & Hslot) & HR & Harr & Hho) & Hh & ([Hn Hi] & Hc) & Ho)".
  iDestruct (pointsto_not_null with "Hi") as %Hni. iDestruct (pointsto_not_null with "Ho") as %Hno.
  iDestruct "Hh" as "[->|(%tramp & %impl & %Hin & Hh)]".
  { iApply (wp_use with "Hslot"); [by apply (rgpot_potential_calculate_null_spec t null)|].
    iIntros (st) "[_ Hslot]". iFrame "HR Harr Hho Hn Hi Hc". iSplitL "Hslot"; [by iExists _|].
    iSplitR; [by iLeft|]. iApply (no_forces 0); [done|]. by iApply (output_kept with "Ho"). }
  iApply (rgpot_potential_calculate_spec with "Hh"); [done..|]. iIntros "Hh". cbn [callback user_data].
  iDestruct "Hc" as "[->|(%a & %Ha & Hf)]".
  - iApply (wp_use with "[HR Hi Ho]"); [by apply (lib_empty Hlib tramp impl)|iFrame|].
    iIntros (st) "(HR & Hi & %o & %F & Ho & HF)". iFrame "HR Harr Hho Hn Hi".
    iSplitL "Hslot"; [by iExists _|]. iSplitL "Hh"; [iRight; iExists tramp, impl; by iFrame|].
    iSplitR; [by iApply no_contents|]. iApply (no_forces 0); [done|]. iExists o, F. iFrame.
  - destruct Ha as [Ha ->]. destruct (lib_answer Hlib tramp impl a Hin Ha) as [φ Hcb].
    iDestruct (arrays_acc with "Harr") as "[Ha Harr]"; [exact Ha|].
    iApply (wp_use with "[HR Hi Hf Ha Ho]"); [by apply Hcb|iFrame|].
    iIntros (st) "(HR & (Hi & Hf & Ha) & %o & %F & Ho & HF & _)".
    iDestruct ("Harr" with "Ha") as "Harr". iFrame "HR Harr Hho Hn Hi".
    iSplitL "Hslot"; [by iExists _|]. iSplitL "Hh"; [iRight; iExists tramp, impl; by iFrame|].
    iSplitL "Hf"; [iRight; iExists a; by iFrame|].
    iApply (no_forces (cf_n (da_config a))); [by apply data_size|]. iExists o, F. iFrame.
Qed.

(** A server may answer with whatever it likes. *)
Lemma client_calls : calls rgpot_rpc_calculate client_contents.
Proof.
  intros t h n i s result. iIntros "((Hslot & HR & Harr & Hho) & Hh & ([Hn Hi] & Hc) & Ho)".
  iDestruct "Hh" as "[->|(%cl & Hh)]".
  { iApply (wp_use with "Hslot"); [apply rpc_calculate_null|]. iIntros (st) "Hslot".
    iFrame "Hslot HR Harr Hho Hn Hi Hc". iSplitR; [by iLeft|].
    iApply (no_forces 0); [done|]. by iApply (output_kept with "Ho"). }
  iDestruct "Hc" as "[->|(%a & %Ha & Hf)]".
  - iApply (wp_use with "[Hslot Hh Hi Ho]");
      [by apply (rpc_calculate_empty t cl h (input_ s) result (MkForceOut null f64_zero f64_zero))
      | iFrame |].
    iIntros (st) "(Hslot & Hh & Hi & Ho)". iFrame "Hslot HR Harr Hho Hn Hi".
    iSplitL "Hh"; [iRight; by iExists cl|]. iSplitR; [by iApply no_contents|].
    by iApply (no_forces 0 with "Ho").
  - destruct Ha as [Ha ->]. iDestruct (arrays_acc with "Harr") as "[Ha Harr]"; [exact Ha|].
    iApply (wp_use with "[Hslot HR Hh Hi Hf Ha Ho]");
      [apply (rpc_calculate_any R (da_config <$> data) (lib_peers Hlib) t cl h (da_config a) i
         (da_pos a) (da_atm a) (da_box a) (input_ s) result (MkForceOut null f64_zero f64_zero))
      | unfold input_at; iFrame |].
    { by apply list_elem_of_fmap_2. } { by apply (lib_data Hlib). } { done. }
    iIntros (st) "(Hslot & HR & Hh & (Hi & Hf & Ha) & Ho)".
    iDestruct ("Harr" with "Ha") as "Harr". iFrame "Hslot HR Harr Hho Hn Hi".
    iSplitL "Hh"; [iRight; by iExists cl|]. iSplitL "Hf"; [iRight; iExists a; by iFrame|].
    iApply (no_forces with "Ho"). by apply data_size.
Qed.

(** [calculate] of a class with such an entry point. *)
Lemma calculate_spec call contents t p s :
  calls call contents ->
  frame t ∗ pointer_var contents p ∗ input_var s ⊢
  wp t (calculate_with (fun result =>
      handle ← view as_cxx_pointer p; call handle (InputSpec_c_struct s) result)) (fun r =>
    frame t ∗ pointer_var contents p ∗ input_var s ∗
    match r with Ok result => result_var result | Err _ => emp end).
Proof.
  iIntros (Hcall) "(Hf & (%h & Hp & Hh) & (%n & %i & Hs & Hc))". unfold calculate_with.
  iApply (wp_seq with "[]"); [apply CalcResult_new_spec|done|]. iIntros (result) "Ho".
  iApply wp_bind. wp_look "Hp".
  iApply (wp_use with "[Hf Hh Hs Hc Ho]"); [apply (Hcall t h n i s result)|iFrame|].
  iIntros (st) "(((%msg & Hslot) & Hf) & Hh & [Hs Hc] & Hr)".
  wp_call check_status_spec "Hslot". iIntros (r) "H".
  iAssert (pointer_var contents p) with "[Hp Hh]" as "Hp"; [iExists h; iFrame|].
  iAssert (input_var s) with "[Hs Hc]" as "Hs"; [iExists n, i; iFrame|].
  iDestruct "Hr" as "(%m & %e & %v & %F & %Hm & Hr)". case_decide.
  - iDestruct "H" as "[-> Hslot]". wp_call return_result_spec "Hr". iIntros (self) "Hr".
    iApply wp_ret. iFrame "Hf Hp Hs". iSplitL "Hslot"; [by iExists msg|].
    iExists m, e, v, F. by iFrame.
  - iDestruct "H" as "[-> Hslot]". wp_call CalcResult_drop_spec "Hr". iIntros (_) "_".
    iApply wp_throw. iFrame "Hf Hp Hs". by iExists _.
Qed.

Lemma hosts_acc h :
  h ∈ hosts -> all_hosts ⊢ ho_name h ↦ BCStr (ho_text h) ∗ (ho_name h ↦ BCStr (ho_text h) -∗ all_hosts).
Proof.
  intros [k Hk]%list_elem_of_lookup.
  by apply (big_sepL_lookup_acc (fun _ h => ho_name h ↦ BCStr (ho_text h))%I hosts k h).
Qed.

(** A new client, or an exception with the reason. *)
Lemma new_client_spec t h :
  h ∈ hosts ->
  frame t ⊢ wp t (CxxRpcClient_new (ho_name h) (ho_port h)) (fun r =>
    frame t ∗ match r with Ok p => pointer_var client_contents p | Err _ => emp end).
Proof.
  iIntros (Hh) "(Hslot & HR & Harr & Hho)". iDestruct (hosts_acc with "Hho") as "[Hn Hho]"; [exact Hh|].
  iApply (wp_seq with "[Hslot Hn]");
    [apply (rpc_client_new_any R (da_config <$> data) (lib_peers Hlib))|iFrame|].
  iIntros (c) "(Hslot & Hn & Hc)". iDestruct ("Hho" with "Hn") as "Hho".
  iDestruct "Hc" as "[->|(%cl & Hc)]".
  - iDestruct "Hslot" as (msg) "Hslot". iApply (message_spec with "Hslot"). iIntros "Hslot".
    iApply wp_throw. iFrame "HR Harr Hho". by iExists _.
  - iDestruct (is_null_pointsto with "Hc") as %->. iApply wp_bind. iApply wp_alloc. iIntros (p) "Hp".
    iApply wp_ret. iFrame "Hslot HR Harr Hho". iExists c. iFrame "Hp". iRight. by iExists cl.
Qed.

(** ** Statements *)

Lemma vars_acc env x v :
  env !! x = Some v -> vars_at env ⊢ var_at v ∗ (var_at v -∗ vars_at env).
Proof. apply (big_sepL_lookup_acc (fun _ v => var_at v)). Qed.

Lemma vars_acc_2 env x y v w :
  env !! x = Some v -> env !! y = Some w -> x <> y ->
  vars_at env ⊢ var_at v ∗ var_at w ∗ (var_at v -∗ var_at w -∗ vars_at env).
Proof.
  iIntros (Hx Hy Hne) "H". unfold vars_at.
  rewrite (big_sepL_delete (fun _ v => var_at v) env x v Hx).
  iDestruct "H" as "[$ H]".
  iDestruct (big_sepL_lookup_acc (fun k v => if decide (k = x) then emp else var_at v)%I
    with "H") as "[Hw H]"; [exact Hy|].
  rewrite decide_False; [|done]. iFrame "Hw". iIntros "Hv Hw". iFrame "Hv". by iApply "H".
Qed.

Lemma has_class_lookup env x cls :
  has_class (class_of <$> env) x cls = true -> exists v, env !! x = Some v /\ class_of v = cls.
Proof.
  intros [v [-> Hv]]%bool_decide_eq_true%list_lookup_fmap_Some. by exists v.
Qed.

(** What a statement leaves: the variables, and the one that it declares. *)
Definition stmt_post (t : thread_id) (env : list Var) (s : Stmt) (r : Result (option Var) CxxException) :
    mProp :=
  frame t ∗ vars_at env ∗
  match r with
  | Ok (Some v) => <affine> ⌜declares s = Some (class_of v)⌝ ∗ var_at v
  | Ok None => <affine> ⌜declares s = None⌝
  | Err _ => emp
  end.

Lemma move_spec t env cls x :
  has_class (class_of <$> env) x cls = true ->
  frame t ∗ vars_at env ⊢ wp t (exec_stmt env (MoveFrom cls x)) (stmt_post t env (MoveFrom cls x)).
Proof.
  intros (v & Hx & <-)%has_class_lookup. iIntros "[Hf Henv]".
  iDestruct (vars_acc with "Henv") as "[Hv Henv]"; [exact Hx|]. cbn [exec_stmt]. rewrite Hx.
  destruct v as [s|p|p|p].
  - wp_call move_input "Hv". iIntros (s') "[Hv Hv']". iApply wp_ret. iFrame "Hf".
    iSplitL "Hv Henv"; [by iApply "Henv"|]. by iFrame.
  - wp_call move_result "Hv". iIntros (s') "[Hv Hv']". iApply wp_ret. iFrame "Hf".
    iSplitL "Hv Henv"; [by iApply "Henv"|]. by iFrame.
  - wp_call move_pointer "Hv". iIntros (s') "[Hv Hv']". iApply wp_ret. iFrame "Hf".
    iSplitL "Hv Henv"; [by iApply "Henv"|]. by iFrame.
  - wp_call move_pointer "Hv". iIntros (s') "[Hv Hv']". iApply wp_ret. iFrame "Hf".
    iSplitL "Hv Henv"; [by iApply "Henv"|]. by iFrame.
Qed.

(** A self-assignment changes nothing. *)
Lemma assign_self t env cls x :
  has_class (class_of <$> env) x cls = true ->
  frame t ∗ vars_at env ⊢ wp t (exec_stmt env (Assign cls x x)) (stmt_post t env (Assign cls x x)).
Proof.
  intros (v & Hx & <-)%has_class_lookup. iIntros "[Hf Henv]". cbn [exec_stmt]. rewrite Hx.
  destruct v; unfold InputSpec_assign, CalcResult_assign, PotentialHandle_assign, CxxRpcClient_assign, handle_assign;
    (rewrite bool_decide_false; [|naive_solver]); iApply wp_bind; iApply wp_ret; iApply wp_ret;
    by iFrame.
Qed.

Lemma assign_spec t env cls x y :
  has_class (class_of <$> env) x cls = true -> has_class (class_of <$> env) y cls = true ->
  frame t ∗ vars_at env ⊢ wp t (exec_stmt env (Assign cls x y)) (stmt_post t env (Assign cls x y)).
Proof.
  intros Hcx Hcy. destruct (decide (x = y)) as [<-|Hne]; [by apply assign_self|].
  apply has_class_lookup in Hcx as (v & Hx & <-). apply has_class_lookup in Hcy as (w & Hy & Hw).
  iIntros "[Hf Henv]". iDestruct (vars_acc_2 env x y v w with "Henv") as "(Hv & Hw & Henv)"; [done..|].
  cbn [exec_stmt]. rewrite Hx Hy. destruct v, w; try done.
  - iApply (wp_seq with "[Hv Hw]"); [apply assign_input|iFrame|]. iIntros (_) "[Hv Hw]".
    iApply wp_ret. iFrame "Hf". iSplitL; [iApply ("Henv" with "Hv Hw")|done].
  - iApply (wp_seq with "[Hv Hw]"); [apply assign_result|iFrame|]. iIntros (_) "[Hv Hw]".
    iApply wp_ret. iFrame "Hf". iSplitL; [iApply ("Henv" with "Hv Hw")|done].
  - iApply (wp_seq with "[Hv Hw]"); [apply assign_pointer|iFrame|]. iIntros (_) "[Hv Hw]".
    iApply wp_ret. iFrame "Hf". iSplitL; [iApply ("Henv" with "Hv Hw")|done].
  - iApply (wp_seq with "[Hv Hw]"); [apply assign_pointer|iFrame|]. iIntros (_) "[Hv Hw]".
    iApply wp_ret. iFrame "Hf". iSplitL; [iApply ("Henv" with "Hv Hw")|done].
Qed.

(** A calculation by variable [h] on the input [x]. *)
Lemma calculation_spec call contents t env h x v p s stmt :
  calls call contents -> env !! h = Some v -> env !! x = Some (VInput s) ->
  var_at v = pointer_var contents p -> v <> VInput s -> declares stmt = Some ResultClass ->
  frame t ∗ vars_at env ⊢
  wp t (result ?← calculate_with (fun result =>
      handle ← view as_cxx_pointer p; call handle (InputSpec_c_struct s) result);
    mret (Ok (Some (VResult result)))) (stmt_post t env stmt).
Proof.
  iIntros (Hcall Hh Hx Hv Hne Hd) "[Hf Henv]".
  iDestruct (vars_acc_2 env h x with "Henv") as "(Hp & Hs & Henv)"; [done | done | congruence |].
  rewrite Hv. iApply (wp_try_bind with "[Hf Hp Hs]"); [by apply calculate_spec|iFrame|].
  iIntros (r) "(Hf & Hp & Hs & Hr)". iDestruct ("Henv" with "Hp Hs") as "Henv".
  destruct r as [result|e]; [|iFrame]. iApply wp_ret. rewrite /stmt_post Hd. by iFrame.
Qed.

Lemma exec_stmt_spec t env s :
  stmt_ok (length data) (length pots) (length hosts) (class_of <$> env) s = true ->
  frame t ∗ vars_at env ⊢ wp t (exec_stmt env s) (stmt_post t env s).
Proof.
  destruct s as [d| |k|k|cls x|cls x y|h x|h x|r]; cbn [stmt_ok].
  - intros [a Ha]%Nat.ltb_lt%lookup_lt_is_Some_2. iIntros "[Hf Henv]". cbn [exec_stmt]. rewrite Ha.
    iApply (wp_seq with "[]"); [apply (InputSpec_new_spec t (da_config a))|done|].
    iIntros (s) "(%i & Hs & Hi)". iApply wp_ret. iFrame "Hf Henv". iSplitR; [done|].
    iExists (cf_n (da_config a)), i. iFrame "Hs". iRight. iExists a. iFrame. iPureIntro.
    split; [by eapply list_elem_of_lookup_2|done].
  - iIntros (_) "[Hf Henv]". cbn [exec_stmt].
    iApply (wp_seq with "[]"); [apply CalcResult_new_spec|done|]. iIntros (p) "Hp".
    iApply wp_ret. iFrame "Hf Henv". iSplitR; [done|].
    iApply (no_forces 0); [done|]. by iApply (output_kept with "Hp").
  - intros [[tramp impl] Hk]%Nat.ltb_lt%lookup_lt_is_Some_2. iIntros "[Hf Henv]". cbn [exec_stmt].
    rewrite Hk. iApply wp_bind. iApply (wp_seq with "[]"); [apply rgpot_potential_new_spec|done|].
    iIntros (h) "Hh". iApply wp_alloc. iIntros (p) "Hp". iApply wp_ret. iFrame "Hf Henv".
    iSplitR; [done|]. iExists h. iFrame "Hp". iRight. iExists tramp, impl. iFrame. iPureIntro.
    by eapply list_elem_of_lookup_2.
  - intros [h Hk]%Nat.ltb_lt%lookup_lt_is_Some_2. iIntros "[Hf Henv]". cbn [exec_stmt]. rewrite Hk.
    iApply (wp_try_bind with "Hf"); [by eapply new_client_spec, list_elem_of_lookup_2|].
    iIntros (r) "[Hf Hr]". destruct r as [p|e]; [|iFrame]. iApply wp_ret. by iFrame.
  - apply move_spec.
  - intros [Hx Hy]%andb_prop. by apply assign_spec.
  - intros [(v & Hh & Hv)%has_class_lookup (w & Hx & Hw)%has_class_lookup]%andb_prop.
    destruct v as [|?|p|?]; try done. destruct w as [s| | |]; try done.
    cbn [exec_stmt]. rewrite Hh Hx. by apply (calculation_spec _ _ t env h x (VHandle p) p s _ handle_calls).
  - intros [(v & Hh & Hv)%has_class_lookup (w & Hx & Hw)%has_class_lookup]%andb_prop.
    destruct v as [|?|?|p]; try done. destruct w as [s| | |]; try done.
    cbn [exec_stmt]. rewrite Hh Hx. by apply (calculation_spec _ _ t env h x (VClient p) p s _ client_calls).
  - intros (v & Hr & Hv)%has_class_lookup. iIntros "[Hf Henv]". destruct v as [|p| |]; try done.
    iDestruct (vars_acc with "Henv") as "[Hp Henv]"; [exact Hr|]. cbn [exec_stmt]. rewrite Hr.
    iDestruct "Hp" as "(%n & %e & %v & %F & %Hn & Hp)".
    iApply (wp_seq with "Hp"); [apply CalcResult_forces_vec_spec; apply Hn|].
    iIntros (xs) "[_ Hp]". iApply wp_ret. iFrame "Hf". iSplitL; [|done]. iApply "Henv".
    iExists n, e, v, F. by iFrame.
Qed.

(** ** Programs *)

Lemma run_spec t p env :
  prog_ok (length data) (length pots) (length hosts) (class_of <$> env) p = true ->
  frame t ∗ vars_at env ⊢ wp t (run p env) (fun _ => frame t ∗ vars_at env).
Proof.
  revert env. induction p as [|s rest IH|inner IHi rest IH|inner IHi rest IH]; intros env;
    cbn [prog_ok run].
  - iIntros (_) "H". by iApply wp_ret.
  - intros [Hs Hrest]%andb_prop. iIntros "H".
    iApply (wp_try_bind with "H"); [by apply exec_stmt_spec|]. iIntros (r) "(Hf & Henv & H)".
    destruct r as [[v|]|e]; [| |iFrame].
    + iDestruct "H" as "[%Hd Hv]". rewrite Hd /= in Hrest. iApply wp_scoped.
      iApply (wp_use with "[Hf Henv Hv]"); [apply (IH (env ++ [v])); by rewrite fmap_app| |].
      { iFrame "Hf". unfold vars_at. rewrite big_sepL_snoc. iFrame. }
      iIntros (r) "[Hf H]". unfold vars_at. rewrite big_sepL_snoc. iDestruct "H" as "[Henv Hv]".
      iApply (wp_use with "Hv"); [apply destroy_spec|]. iIntros ([]) "_". iFrame.
    + iDestruct "H" as %Hd. rewrite Hd /= app_nil_r in Hrest. iApply IH; [done|]. iFrame.
  - intros [Hi Hrest]%andb_prop. iIntros "H".
    iApply (wp_try_bind with "H"); [by apply IHi|]. iIntros (r) "H".
    destruct r; [by iApply IH|done].
  - intros [Hi Hrest]%andb_prop. iIntros "H". iApply wp_bind. iApply wp_catch_all.
    iApply (wp_use with "H"); [by apply IHi|]. iIntros (r) "H".
    destruct r; [|iApply wp_ret]; by iApply IH.
Qed.

(** C7: C++ programs over the wrapper classes are safe by their types.  A program declares
    inputs, results, handles and RPC clients, moves and assigns them (also to themselves),
    evaluates locally and remotely, reads forces, and nests blocks and [try] blocks; the
    compiler's check is that variables are declared with the right class.  Whatever such a
    program does, with moved-from objects too, and whatever servers and network answer, its
    run ends, in a value or an exception, without undefined behaviour, abort or panic, and
    when its variables are destroyed the store is the one from before: the caller's arrays
    and strings, what the potentials work with, and the thread's message. *)
Theorem raii_programs_are_safe (t : thread_id) (p : Prog) (σ : Mem) (h hf : gmap loc Block)
    (Hp : prog_ok (length data) (length pots) (length hosts) [] p = true)
    (Hwf : wf_mem σ) (Hm : mem_map σ = h ∪ hf) (Hd : h ##ₘ hf) (Hf : frame t h) :
  exists r σ' h', run p [] t σ = Done r σ' /\ wf_mem σ' /\ mem_map σ' = h' ∪ hf /\
    h' ##ₘ hf /\ frame t h'.
Proof.
  apply (wp_run t (run p []) (frame t) (fun _ => frame t) σ h hf); [|done..]. iIntros "Hf".
  iApply (wp_use with "[Hf]"); [by apply (run_spec t p [])|iFrame; by iApply big_sepL_nil|].
  by iIntros (r) "[$ _]".
Qed.
End semantics.

(** ** A program with moves, assignments and exceptions *)

Section demo.
#[local] Existing Instances debug_profile dlpack_header text_errors plain_lists desktop_runtime
  legacy_c legacy_network.

Definition demo_data : list Data := [MkData 1%N 2%N 3%N demo_config].
Definition demo_pots : Potentials := [(1%N, null)].

Definition demo_hosts : list Host :=
  [MkHost 4%N "localhost" 12345; MkHost 5%N (String (Ascii.ascii_of_nat 255) "") 1].

(** Variables 0 to 4 are an input, a handle, a client, a result and the handle moved from the
    first one.  The moved handle throws in the first [try] block; an assignment gives it the
    potential back.  A remote result replaces the local one.  The client is moved, and its old
    variable throws; so does a client for a host that is no text. *)
Definition moving_program : Prog :=
  Then (NewInput 0) (Then (NewHandle 0) (Then (NewClient 0) (Then (Calculate 1 0)
  (Then (MoveFrom HandleClass 1)
  (Try (Then (Calculate 1 0) Finish)
  (Then (Assign HandleClass 1 4)
  (Block_ (Then (CalculateRemotely 2 0) (Then (Assign ResultClass 3 5) (Then (Assign ResultClass 3 3) Finish)))
  (Then (ReadForces 3) (Then (MoveFrom ClientClass 2)
  (Try (Then (CalculateRemotely 2 0) Finish)
  (Try (Then (NewClient 1) Finish)
  (Then (MoveFrom InputClass 0) (Then (CalculateRemotely 5 0) Finish))))))))))))).

Definition demo_store : Mem := with_objects initial_mem
  [BF64s (cf_positions demo_config); BI32s (cf_atomic_numbers demo_config); BF64s (cf_box demo_config);
   BCStr "localhost"; BCStr (String (Ascii.ascii_of_nat 255) "")].

(** The last calculation throws, with the input moved away; only its message stays. *)
Example moving_program_runs :
  match run demo_data demo_pots demo_hosts moving_program [] 0%N demo_store with
  | Done r σ =>
      r = Err (RgpotError "RPC error: rgpot_rpc_calculate: cannot determine n_atoms from input tensors")
      /\ size (mem_map σ) = S (size (mem_map demo_store))
  | _ => False
  end.
Proof. vm_compute. by split. Qed.

(** An input without positions is refused without a message, so the exception carries that of
    the earlier failure. *)
Example stale_message :
  match run demo_data demo_pots demo_hosts
    (Then (NewInput 0) (Then (NewHandle 0) (Then (MoveFrom HandleClass 1)
      (Try (Then (Calculate 1 0) Finish) (Then (MoveFrom InputClass 0) (Then (Calculate 2 0) Finish))))))
    [] 0%N demo_store with
  | Done r _ => r = Err (RgpotError "invalid parameter: rgpot_potential_calculate: pot is NULL")
  | _ => False
  end.
Proof. vm_compute. done. Qed.

Lemma silent_done {A} (x : M A) (a : A) : (forall t σ, x t σ = Done a σ) -> silent x.
Proof. intros Hx t. iIntros "H". by iApply wp_done. Qed.

Lemma demo_answer impl a :
  a ∈ demo_data -> exists φ, callback_answers emp 1%N impl (da_config a) φ.
Proof.
  intros ->%list_elem_of_singleton. eexists.
  apply (trampoline_answers demo_force); [exact demo_registered|done|].
  by apply demo_force_computes.
Qed.

Lemma demo_peers : Peers emp (da_config <$> demo_data).
Proof.
  apply (faithful_peers emp _ legacy_server).
  - apply (loopback_faithful legacy_server 9%N).
  - by eapply silent_done.
  - intros rt. by eapply silent_done.
  - intros c (a & -> & Ha)%list_elem_of_fmap. split; [|by apply demo_answer].
    by apply list_elem_of_singleton in Ha as ->.
Qed.

Lemma demo_library : library_ok demo_data demo_pots emp.
Proof.
  assert (forall tramp impl, (tramp, impl) ∈ demo_pots -> tramp = 1%N /\ impl = null) as Hpots.
  { intros tramp impl Hin. apply list_elem_of_singleton in Hin. by injection Hin as -> ->. }
  split.
  - exact demo_peers.
  - by intros a ->%list_elem_of_singleton.
  - intros tramp impl a [-> ->]%Hpots Ha. by apply demo_answer.
  - intros tramp impl t input output [-> ->]%Hpots. iIntros "(_ & Hi & Ho)".
    iApply (call_trampoline demo_force); [exact demo_registered|].
    iApply trampoline_empty_spec; [by instantiate (1 := empty_input)|]. iFrame "Hi Ho".
    iIntros "[Hi Ho]". iSplitR; [done|]. iFrame "Hi". iExists _, []. iFrame "Ho".
    by iApply maybe_forces_null.
Qed.

Lemma demo_frame : frame demo_data demo_hosts emp 0%N (mem_map demo_store).
Proof.
  assert (forall p b (P : mProp) h, p <> null -> h !! LHeap p = None -> P h ->
    (p ↦ b ∗ P)%I (<[LHeap p := b]> h)) as Hput.
  { intros p b P h Hn Hp HP. exists {[LHeap p := b]}, h. split_and!; [|
      by apply map_disjoint_singleton_l_2|by split|done].
    by rewrite insert_union_singleton_l. }
  assert ((5%N ↦ BCStr (String (Ascii.ascii_of_nat 255) "") ∗ 4%N ↦ BCStr "localhost" ∗
    3%N ↦ BF64s (cf_box demo_config) ∗ 2%N ↦ BI32s (cf_atomic_numbers demo_config) ∗
    1%N ↦ BF64s (cf_positions demo_config) ∗ last_error_slot 0%N None)%I (mem_map demo_store)) as H.
  { repeat (apply Hput; [done|reflexivity|]). done. }
  revert H. apply holds_mono. iIntros "(H5 & H4 & H3 & H2 & H1 & Hs)".
  iSplitL "Hs"; [by iExists None|]. iSplitR; [done|].
  iSplitL "H3 H2 H1"; [iApply big_sepL_singleton; iFrame|].
  rewrite /all_hosts big_sepL_cons big_sepL_singleton. iFrame.
Qed.

Lemma raii_programs_are_safe_witness :
  prog_ok 1 1 2 [] moving_program = true /\
  exists r σ' h', run demo_data demo_pots demo_hosts moving_program [] 0%N demo_store = Done r σ' /\
    wf_mem σ' /\ mem_map σ' = h' ∪ ∅ /\ h' ##ₘ ∅ /\ frame demo_data demo_hosts emp 0%N h'.
Proof.
  split; [reflexivity|].
  exact (raii_programs_are_safe demo_data demo_pots demo_hosts emp demo_library 0%N moving_program
    demo_store (mem_map demo_store) ∅ eq_refl (objects_wf _) (eq_sym (right_id_L ∅ _ _))
    (map_disjoint_empty_r _) demo_frame).
Defined.
End demo.
