(* ===== verification/CxxRegistry.v ===== *)
(** * CxxRegistry: the registry of potentials

    [registry<T>] of PotHelpers.hpp counts the living objects of a potential class and links
    them in a list.  Its state is the static members and the [prev] and [next] of each living
    object; touching an object that is not alive is undefined behaviour ([None]).  The list is
    refined by the sequence of living objects, most recent first; the copy assignment that the
    compiler generates is the one operation that breaks it. *)
From Stdlib Require Import ssreflect.
From S2P Require Import Prelude Machine.
Open Scope Z_scope.

(** ** State *)

Record Link := MkLink { prev : ptr; next : ptr }.

Record Registry := MkRegistry {
  count : Z;
  forceCalls : Z;
  head : ptr;
  objects : gmap ptr Link;
}.

Definition no_objects : Registry := MkRegistry 0 0 null ∅.

Definition with_count (n : Z) (r : Registry) : Registry :=
  MkRegistry n (forceCalls r) (head r) (objects r).
Definition with_head (p : ptr) (r : Registry) : Registry :=
  MkRegistry (count r) (forceCalls r) p (objects r).
Definition set_objects (m : gmap ptr Link) (r : Registry) : Registry :=
  MkRegistry (count r) (forceCalls r) (head r) m.

Definition set_next (q : ptr) (l : Link) : Link := MkLink (prev l) q.
Definition set_prev (q : ptr) (l : Link) : Link := MkLink q (next l).

(** [p->next] as a value, and [p->next = ...]. *)
Definition member (f : Link -> ptr) (p : ptr) (r : Registry) : option ptr := f <$> objects r !! p.
Definition update (f : Link -> Link) (p : ptr) (r : Registry) : option Registry :=
  l ← objects r !! p; Some (set_objects (<[p := f l]> (objects r)) r).

(** ** Operations *)

(** [registry()]; the copy constructor is the same code and ignores its argument. *)
Definition registry_new (this : ptr) (r : Registry) : option Registry :=
  let r := with_count (as_usize (count r + 1)) r in
  let r := set_objects (<[this := MkLink null (head r)]> (objects r)) r in
  let r := with_head this r in
  n ← member next this r;
  if negb (is_null n) then update (set_prev (head r)) n r else Some r.

Definition registry_copy (this other : ptr) (r : Registry) : option Registry := registry_new this r.

(** [~registry()], and the end of the object. *)
Definition registry_drop (this : ptr) (r : Registry) : option Registry :=
  let r := with_count (as_usize (count r - 1)) r in
  p ← member prev this r;
  n ← member next this r;
  r ← (if negb (is_null p) then update (set_next n) p r else Some r);
  n ← member next this r;
  p ← member prev this r;
  r ← (if negb (is_null n) then update (set_prev p) n r else Some r);
  n ← member next this r;
  let r := if bool_decide (head r = this) then with_head n r else r in
  Some (set_objects (delete this (objects r)) r).

(** The implicit [operator=(const registry &)] copies the members. *)
Definition registry_assign (this other : ptr) (r : Registry) : option Registry :=
  p ← member prev other r;
  n ← member next other r;
  update (fun _ => MkLink p n) this r.

Definition incrementForceCalls (r : Registry) : Registry :=
  MkRegistry (count r) (as_usize (forceCalls r + 1)) (head r) (objects r).

(** From [head], following [next]: the objects, when at most [fuel] of them are met. *)
Fixpoint walk (fuel : nat) (p : ptr) (r : Registry) : option (list ptr) :=
  if is_null p then Some []
  else
    match fuel with
    | O => None
    | S fuel => n ← member next p r; ps ← walk fuel n r; Some (p :: ps)
    end.

Inductive Action :=
| Construct (this : ptr)
| CopyConstruct (this other : ptr)
| Destroy (this : ptr)
| ForceCall.

Definition act (a : Action) (r : Registry) : option Registry :=
  match a with
  | Construct this => registry_new this r
  | CopyConstruct this other => registry_copy this other r
  | Destroy this => registry_drop this r
  | ForceCall => Some (incrementForceCalls r)
  end.

Fixpoint acts (l : list Action) (r : Registry) : option Registry :=
  match l with
  | [] => Some r
  | a :: l => r ← act a r; acts l r
  end.

(** ** The sequence of living objects *)

(** What C++ allows: an object is constructed in storage of its own, and destroyed once. *)
Definition living_step (a : Action) (live : list ptr) : option (list ptr) :=
  match a with
  | Construct this => if bool_decide (this = null \/ this ∈ live) then None else Some (this :: live)
  | CopyConstruct this other =>
      if bool_decide (this = null \/ this ∈ live \/ other ∉ live) then None else Some (this :: live)
  | Destroy this =>
      if bool_decide (this ∈ live) then Some (filter (fun p => p <> this) live) else None
  | ForceCall => Some live
  end.

Fixpoint living (l : list Action) (live : list ptr) : option (list ptr) :=
  match l with
  | [] => Some live
  | a :: l => live ← living_step a live; living l live
  end.

(** The links of a sequence of objects after [before]. *)
Fixpoint links_of (before : ptr) (ps : list ptr) : gmap ptr Link :=
  match ps with
  | [] => ∅
  | p :: ps => <[p := MkLink before (hd null ps)]> (links_of p ps)
  end.

Record registers (live : list ptr) (r : Registry) : Prop := {
  reg_count : count r = as_usize (Z.of_nat (length live));
  reg_head : head r = hd null live;
  reg_objects : objects r = links_of null live;
  reg_nodup : NoDup live;
  reg_null : null ∉ live;
}.

Lemma links_of_none before ps p : p ∉ ps -> links_of before ps !! p = None.
Proof.
  revert before. induction ps as [|q ps IH]; intros before Hp; cbn; [done|].
  rewrite -> lookup_insert_ne by set_solver. apply IH. set_solver.
Qed.

Lemma links_of_at before ps1 p ps2 :
  NoDup (ps1 ++ p :: ps2) ->
  links_of before (ps1 ++ p :: ps2) !! p = Some (MkLink (default before (last ps1)) (hd null ps2)).
Proof.
  revert before. induction ps1 as [|q ps1 IH]; intros before Hnd; cbn.
  - by rewrite lookup_insert_eq.
  - apply NoDup_cons in Hnd as [Hq Hnd]. rewrite -> lookup_insert_ne by set_solver.
    rewrite IH // last_cons. by destruct (last ps1).
Qed.

Lemma alter_absent (f : Link -> Link) k (m : gmap ptr Link) : m !! k = None -> alter f k m = m.
Proof. intros Hk. apply alter_id. intros l Hl. congruence. Qed.

(** Taking [p] out: its neighbours are linked with each other. *)
Lemma links_of_unlink before ps1 p ps2 :
  NoDup (before :: ps1 ++ p :: ps2) -> null ∉ ps1 ++ p :: ps2 ->
  delete p (alter (set_prev (default before (last ps1))) (hd null ps2)
    (alter (set_next (hd null ps2)) (default before (last ps1)) (links_of before (ps1 ++ p :: ps2))))
  = links_of before (ps1 ++ ps2).
Proof.
  revert before. induction ps1 as [|a ps1 IH]; intros before Hnd Hnull.
  - apply NoDup_cons in Hnd as [Hb Hnd]. apply NoDup_cons in Hnd as [Hp Hnd]. simpl in *.
    rewrite -> alter_insert_ne by set_solver. rewrite -> (alter_absent _ before) by (apply links_of_none; set_solver).
    destruct ps2 as [|q ps2]; cbn [hd links_of app default last] in *.
    + rewrite -> alter_insert_ne by set_solver. rewrite -> alter_absent by apply lookup_empty.
      apply delete_insert_id, lookup_empty.
    + apply not_elem_of_cons in Hp as [Hpq Hp]. rewrite -> alter_insert_ne by done.
      rewrite alter_insert_eq. apply delete_insert_id. rewrite -> lookup_insert_ne by done.
      by apply links_of_none.
  - specialize (IH a). apply NoDup_cons in Hnd as [Hb Hnd].
    assert (default before (last (a :: ps1)) = default a (last ps1)) as ->.
    { rewrite last_cons. by destruct (last ps1). }
    cbn [app links_of]. assert (hd null ps2 <> a) as Hna.
    { pose proof (proj1 (proj1 (NoDup_cons _ _) Hnd)) as Ha. intros <-.
      destruct ps2; [apply Hnull|apply Ha]; set_solver. }
    assert (p <> a) by (apply NoDup_cons in Hnd as [? _]; set_solver).
    specialize (IH Hnd ltac:(set_solver)).
    destruct ps1 as [|b ps1].
    + cbn [default last app hd] in *. rewrite alter_insert_eq alter_insert_ne // delete_insert_ne //.
      f_equal. rewrite -> (alter_absent (set_next _) a) in IH; [exact IH|].
      apply links_of_none. by apply NoDup_cons in Hnd as [? _].
    + assert (default a (last (b :: ps1)) <> a) as Hla.
      { destruct (last (b :: ps1)) as [c|] eqn:E; [|by apply last_None in E].
        apply last_Some_elem_of in E. apply NoDup_cons in Hnd as [? _]. set_solver. }
      rewrite alter_insert_ne // alter_insert_ne // delete_insert_ne //. f_equal. exact IH.
Qed.

(** ** The operations on the sequence *)

Lemma update_links f p r l :
  objects r !! p = Some l -> update f p r = Some (set_objects (alter f p (objects r)) r).
Proof.
  intros Hp. unfold update. rewrite Hp. cbn. do 2 f_equal. symmetry.
  rewrite -{1}(insert_id (objects r) p l Hp) alter_insert_eq //.
Qed.

(** Through a pointer that may be null: nothing happens. *)
Lemma update_or_null f p r :
  (p = null /\ objects r !! p = None) \/ (p <> null /\ is_Some (objects r !! p)) ->
  (if negb (is_null p) then update f p r else Some r)
  = Some (set_objects (alter f p (objects r)) r).
Proof.
  intros [[-> Hp]|[Hn [l Hl]]].
  - rewrite alter_absent //. by destruct r.
  - rewrite is_null_false //. by eapply update_links.
Qed.

Lemma registry_new_registers this live r :
  registers live r -> this <> null -> this ∉ live ->
  exists r', registry_new this r = Some r' /\ registers (this :: live) r' /\ forceCalls r' = forceCalls r.
Proof.
  intros [Hc Hh Ho Hnd Hnull] Hn Hthis. unfold registry_new, member. cbn.
  rewrite lookup_insert_eq. cbn. rewrite Hh Ho.
  assert (forall m, m = links_of null (this :: live) -> exists r',
    Some (MkRegistry (as_usize (count r + 1)) (forceCalls r) this m) = Some r' /\
    registers (this :: live) r' /\ forceCalls r' = forceCalls r) as Hdone.
  { intros m ->. eexists. split; [done|]. split; [|done]. split; cbn; try done.
    - rewrite Hc. unfold as_usize, wrap_unsigned. rewrite Zplus_mod_idemp_l. f_equal. lia.
    - by apply NoDup_cons.
    - set_solver. }
  destruct live as [|q live]; cbn [hd].
  - by apply Hdone.
  - rewrite -> is_null_false by set_solver. unfold update. cbn.
    rewrite -> lookup_insert_ne by set_solver. rewrite lookup_insert_eq. cbn. apply Hdone. cbn.
    rewrite -> insert_insert_ne by set_solver. by rewrite insert_insert_eq.
Qed.

(** Neighbours are objects of the sequence, or null. *)
Lemma prev_of_links ps1 p ps2 :
  let m := links_of null (ps1 ++ p :: ps2) in
  NoDup (ps1 ++ p :: ps2) -> null ∉ ps1 ++ p :: ps2 ->
  (default null (last ps1) = null /\ m !! default null (last ps1) = None) \/
  (default null (last ps1) <> null /\ is_Some (m !! default null (last ps1))).
Proof.
  intros m Hnd Hnull. destruct (last ps1) as [q|] eqn:E; cbn.
  - apply last_Some in E as [ps0 ->]. right. split; [set_solver|]. subst m.
    rewrite -app_assoc in Hnd |- *. cbn in *. rewrite links_of_at //.
  - left. split; [done|]. by apply links_of_none.
Qed.

Lemma next_of_links ps1 p ps2 :
  let m := links_of null (ps1 ++ p :: ps2) in
  NoDup (ps1 ++ p :: ps2) -> null ∉ ps1 ++ p :: ps2 ->
  (hd null ps2 = null /\ m !! hd null ps2 = None) \/
  (hd null ps2 <> null /\ is_Some (m !! hd null ps2)).
Proof.
  intros m Hnd Hnull. destruct ps2 as [|q ps2]; cbn.
  - left. split; [done|]. by apply links_of_none.
  - right. split; [set_solver|]. subst m. replace (ps1 ++ p :: q :: ps2) with ((ps1 ++ [p]) ++ q :: ps2) in *
      by by rewrite -app_assoc. rewrite links_of_at //.
Qed.

Lemma filter_absent (p : ptr) (ps : list ptr) : p ∉ ps -> filter (fun q => q <> p) ps = ps.
Proof.
  induction ps as [|q ps IH]; intros Hp; [done|].
  rewrite filter_cons_True; [set_solver|]. f_equal. apply IH. set_solver.
Qed.

Lemma member_at f p r l : objects r !! p = Some l -> member f p r = Some (f l).
Proof. unfold member. by intros ->. Qed.

Lemma neighbours_differ ps1 this ps2 :
  NoDup (ps1 ++ this :: ps2) -> null ∉ ps1 ++ this :: ps2 ->
  default null (last ps1) <> this /\ hd null ps2 <> this.
Proof.
  intros Hnd Hnull. apply NoDup_app in Hnd as (_ & Hd & Hnd). apply NoDup_cons in Hnd as [Ht _].
  split.
  - destruct (last ps1) as [q|] eqn:E; cbn; [|set_solver].
    apply last_Some_elem_of in E. set_solver.
  - destruct ps2; cbn; set_solver.
Qed.

Lemma registry_drop_registers live this r :
  registers live r -> this ∈ live ->
  exists r', registry_drop this r = Some r' /\ registers (filter (fun p => p <> this) live) r' /\
    forceCalls r' = forceCalls r.
Proof.
  intros [Hc Hh Ho Hnd Hnull] Hin.
  apply list_elem_of_split in Hin as (ps1 & ps2 & ->).
  pose proof (links_of_at null ps1 this ps2 Hnd) as Hthis.
  pose proof (prev_of_links ps1 this ps2 Hnd Hnull) as Hp.
  pose proof (next_of_links ps1 this ps2 Hnd Hnull) as Hn.
  pose proof (links_of_unlink null ps1 this ps2) as Hun.
  pose proof (neighbours_differ ps1 this ps2 Hnd Hnull) as [Hpne Hnne].
  unfold registry_drop. set (r1 := with_count _ r).
  change (objects r) with (objects r1) in Ho. rewrite -Ho in Hthis Hp Hn Hun.
  set (pv := default null (last ps1)) in *. set (nx := hd null ps2) in *.
  rewrite (member_at prev this r1 _ Hthis) (member_at next this r1 _ Hthis). cbn [mbind option_bind].
  cbn [prev next]. rewrite update_or_null //. cbn [mbind option_bind].
  set (r2 := set_objects _ r1).
  assert (objects r2 !! this = Some (MkLink pv nx)) as Hthis2 by (cbn; by rewrite lookup_alter_ne).
  rewrite (member_at prev this r2 _ Hthis2) (member_at next this r2 _ Hthis2). cbn [mbind option_bind].
  cbn [prev next]. rewrite -> (update_or_null (set_prev pv) nx r2)
    by (cbn; by rewrite lookup_alter_None lookup_alter_is_Some). cbn [mbind option_bind].
  set (r3 := set_objects _ r2).
  assert (objects r3 !! this = Some (MkLink pv nx)) as Hthis3 by (cbn; by rewrite lookup_alter_ne).
  rewrite (member_at next this r3 _ Hthis3). cbn [mbind option_bind next].
  eexists. split; [done|].
  assert (head r3 = hd null (ps1 ++ this :: ps2)) as Hh3 by done.
  rewrite filter_app. rewrite -> filter_cons_False by (by intros []).
  apply NoDup_app in Hnd as Hnd'. destruct Hnd' as (Hnd1 & Hd & [Ht Hnd2]%NoDup_cons).
  rewrite -> !filter_absent by set_solver. split; [|by case_bool_decide].
  split.
  - transitivity (count r3); [by case_bool_decide|]. cbn. rewrite Hc. unfold as_usize, wrap_unsigned.
    rewrite Zminus_mod_idemp_l. f_equal. rewrite !length_app. cbn. lia.
  - rewrite Hh3. destruct ps1 as [|a ps1]; cbn [app hd].
    + by rewrite bool_decide_true.
    + rewrite bool_decide_false //. intros ->. apply (Hd this); by left.
  - rewrite -Hun //; [by apply NoDup_cons|]. by case_bool_decide.
  - apply NoDup_app. set_solver.
  - set_solver.
Qed.

Definition is_call (a : Action) : bool := if a is ForceCall then true else false.
Definition calls (l : list Action) : Z := Z.of_nat (length (List.filter is_call l)).

Lemma act_registers a live live' r :
  registers live r -> living_step a live = Some live' -> is_usize (forceCalls r) = true ->
  exists r', act a r = Some r' /\ registers live' r' /\
    forceCalls r' = as_usize (forceCalls r + calls [a]).
Proof.
  intros Hr Hl Hf. assert (as_usize (forceCalls r + 0) = forceCalls r) as H0.
  { by rewrite Z.add_0_r as_usize_id. }
  destruct a as [this|this other|this|]; cbn in Hl |- *.
  - case_bool_decide as Hn; [done|]. injection Hl as <-. change (calls [_]) with 0. rewrite H0.
    apply registry_new_registers; [done|naive_solver..].
  - case_bool_decide as Hn; [done|]. injection Hl as <-. change (calls [_]) with 0. rewrite H0.
    apply registry_new_registers; [done|naive_solver..].
  - case_bool_decide as Hn; [|done]. injection Hl as <-.
    change (calls [_]) with 0. rewrite H0. by apply registry_drop_registers.
  - injection Hl as <-. eexists. split; [done|]. split; [|done]. by destruct Hr.
Qed.

Lemma acts_registers l live live' r :
  registers live r -> living l live = Some live' -> is_usize (forceCalls r) = true ->
  exists r', acts l r = Some r' /\ registers live' r' /\
    forceCalls r' = as_usize (forceCalls r + calls l).
Proof.
  revert live r. induction l as [|a l IH]; intros live r Hr Hl Hf; cbn in *.
  - injection Hl as <-. exists r. rewrite Z.add_0_r as_usize_id //.
  - apply bind_Some in Hl as (live1 & Ha & Hl).
    destruct (act_registers a live live1 r Hr Ha Hf) as (r1 & -> & Hr1 & Hf1). cbn.
    destruct (IH live1 r1 Hr1 Hl) as (r' & -> & Hr' & Hf').
    { rewrite Hf1. unfold is_usize, as_usize, wrap_unsigned.
      pose proof (Z.mod_pos_bound (forceCalls r + calls [a]) (2 ^ 64) ltac:(lia)). lia. }
    exists r'. split_and!; [done..|]. rewrite Hf' Hf1. unfold as_usize, wrap_unsigned.
    rewrite Zplus_mod_idemp_l. f_equal. unfold calls. cbn [List.filter].
    destruct (is_call a); cbn [length]; lia.
Qed.

(** Walking the list meets the living objects, from any of them on. *)
Lemma walk_links before ps m r :
  objects r = m ∪ links_of before ps -> m ##ₘ links_of before ps ->
  NoDup ps -> null ∉ ps -> walk (length ps) (hd null ps) r = Some ps.
Proof.
  revert before m. induction ps as [|p ps IH]; intros before m Ho Hd Hnd Hnull; [done|].
  cbn. rewrite -> is_null_false by set_solver. apply NoDup_cons in Hnd as [Hp Hnd]. cbn in Ho, Hd.
  apply map_disjoint_insert_r in Hd as Hd'. destruct Hd' as [Hm Hd'].
  rewrite (member_at next p r (MkLink before (hd null ps))).
  { rewrite Ho. apply lookup_union_Some_r; [done|]. apply lookup_insert_eq. }
  cbn. assert (walk (length ps) (hd null ps) r = Some ps) as ->; [|done].
  apply (IH p (<[p := MkLink before (hd null ps)]> m)); [| |done|set_solver].
  - by rewrite Ho -insert_union_r // insert_union_l.
  - apply map_disjoint_insert_l. split; [by apply links_of_none|done].
Qed.

(** A well-formed list has no two objects with the same successor and predecessor. *)
Lemma same_links_same_object live r p q l :
  registers live r -> objects r !! p = Some l -> objects r !! q = Some l -> p = q.
Proof.
  intros [_ _ Ho Hnd Hnull] Hp Hq. rewrite Ho in Hp Hq.
  assert (forall x, links_of null live !! x = Some l -> x ∈ live) as Hlive.
  { intros x Hx. destruct (decide (x ∈ live)) as [|Hn]; [done|].
    by rewrite (links_of_none null live x Hn) in Hx. }
  apply Hlive in Hp as Hp'. apply list_elem_of_split in Hp' as (ps1 & ps2 & ->).
  rewrite links_of_at // in Hp. injection Hp as Hl.
  apply Hlive in Hq as Hq'. apply list_elem_of_split in Hq' as (qs1 & qs2 & E).
  rewrite E in Hnd Hnull Hq. rewrite links_of_at // in Hq. injection Hq as Hl'.
  rewrite <- Hl in Hl'. injection Hl' as Hpv _. rewrite -E in Hnd.
  destruct (last ps1) as [x|] eqn:Ep, (last qs1) as [y|] eqn:Eq; cbn in Hpv.
  - subst y. apply last_Some in Ep as [a ->], Eq as [b ->].
    assert (length b = length a) as Hab.
    { eapply NoDup_lookup; [exact Hnd|rewrite E|]; by rewrite -app_assoc list_lookup_middle. }
    rewrite -!app_assoc in E. apply app_inj_1 in E as [_ E]; [by injection E|done].
  - apply last_Some in Ep as [a ->]. exfalso. apply Hnull. rewrite -E Hpv. set_solver.
  - apply last_Some in Eq as [b ->]. exfalso. apply Hnull. rewrite Hpv. set_solver.
  - apply last_None in Ep as ->. apply last_None in Eq as ->. by injection E.
Qed.

(** A walk is determined by where it starts, and goes on from every object it meets. *)
Lemma walk_deterministic r f f' p ps ps' :
  walk f p r = Some ps -> walk f' p r = Some ps' -> ps = ps'.
Proof.
  revert f' p ps ps'. induction f as [|f IH]; intros f' p ps ps'.
  - cbn. destruct f'; cbn; destruct (is_null p); congruence.
  - destruct f'; cbn; destruct (is_null p); try congruence.
    intros (n & Hn & (qs & Hqs & [= <-])%bind_Some)%bind_Some.
    intros (n' & Hn' & (qs' & Hqs' & [= <-])%bind_Some)%bind_Some.
    f_equal. rewrite Hn in Hn'. injection Hn' as <-. by eapply IH.
Qed.

Lemma walk_after r f p ps1 x ps2 :
  walk f p r = Some (ps1 ++ x :: ps2) ->
  exists f' n, member next x r = Some n /\ walk f' n r = Some ps2.
Proof.
  revert f p. induction ps1 as [|a ps1 IH]; intros [|f] p; cbn; destruct (is_null p); try done;
    intros (n & Hn & (qs & Hqs & [= -> ->])%bind_Some)%bind_Some; [by exists f, n|by eapply IH].
Qed.

(** ** Properties *)

(** C21: The registry lists the living potentials.  After any sequence of constructions,
    copy constructions, destructions in any order, and force calls, following [next] from
    [head] meets exactly the living objects, the most recent first, and ends; the counters
    are their number and the number of force calls, at the width of [size_t]; and no
    destroyed object was touched. *)
Theorem registry_refines_living (l : list Action) (live : list ptr)
    (Hl : living l [] = Some live) :
  exists r, acts l no_objects = Some r /\
    count r = as_usize (Z.of_nat (length live)) /\
    forceCalls r = as_usize (calls l) /\
    walk (length live) (head r) r = Some live /\
    forall p, is_Some (objects r !! p) <-> p ∈ live.
Proof.
  destruct (acts_registers l [] live no_objects) as (r & Hr & Hreg & Hf); [|done|done|].
  { split; [done..|apply NoDup_nil_2|set_solver]. }
  exists r. destruct Hreg as [Hc Hh Ho Hnd Hnull]. split_and!; [done|done|done|..].
  - rewrite Hh. apply (walk_links null live ∅); [by rewrite left_id_L|apply map_disjoint_empty_l|done..].
  - intros p. rewrite Ho. split.
    + intros [x Hx]. destruct (decide (p ∈ live)) as [|Hn]; [done|].
      by rewrite (links_of_none null live p Hn) in Hx.
    + intros (ps1 & ps2 & ->)%list_elem_of_split. by rewrite links_of_at.
Qed.

(** C31: The implicit copy assignment corrupts the registry.  It copies [prev] and [next] of
    another living object, after which the list is that of no sequence of objects at all: a
    walk from [head] loses one of the two objects or never ends. *)
Theorem copy_assignment_corrupts_registry (l : list Action) (live : list ptr) (p q : ptr) (r : Registry)
    (Hl : living l [] = Some live) (Hr : acts l no_objects = Some r)
    (Hp : p ∈ live) (Hq : q ∈ live) (Hpq : p <> q) :
  exists r', registry_assign p q r = Some r' /\
    (forall live', ~ registers live' r') /\
    (forall fuel ps, walk fuel (head r') r' = Some ps -> ~ (p ∈ ps /\ q ∈ ps)).
Proof.
  destruct (acts_registers l [] live no_objects) as (r1 & Hr1 & [Hc Hh Ho Hnd Hnull] & _); [|done|done|].
  { split; [done..|apply NoDup_nil_2|set_solver]. }
  rewrite Hr in Hr1. injection Hr1 as <-.
  assert (forall x, x ∈ live -> is_Some (objects r !! x)) as Hlive.
  { intros x (ps1 & ps2 & ->)%list_elem_of_split. by rewrite Ho links_of_at. }
  destruct (Hlive p Hp) as [lp Hlp], (Hlive q Hq) as [lq Hlq].
  unfold registry_assign. rewrite !(member_at _ q r lq) //. cbn.
  rewrite (update_links _ p r lp) //. eexists. split; [done|]. destruct lq as [pv nx].
  set (r' := set_objects _ r).
  assert (objects r' !! p = Some (MkLink pv nx) /\ objects r' !! q = Some (MkLink pv nx)) as [Hp' Hq'].
  { cbn. rewrite lookup_alter_eq lookup_alter_ne // Hlp Hlq //. }
  split.
  - intros live' Hreg. by apply Hpq, (same_links_same_object live' r' p q (MkLink pv nx)).
  - intros fuel ps Hw [Hpin Hqin].
    apply list_elem_of_split in Hpin as (a1 & a2 & E). rewrite E in Hw.
    apply walk_after in Hw as Hwp. destruct Hwp as (f1 & n1 & Hn1 & Hw1). rewrite -E in Hw.
    apply list_elem_of_split in Hqin as (b1 & b2 & E'). rewrite E' in Hw.
    apply walk_after in Hw as (f2 & n2 & Hn2 & Hw2).
    rewrite (member_at next p r' _ Hp') in Hn1. rewrite (member_at next q r' _ Hq') in Hn2.
    injection Hn1 as <-. injection Hn2 as <-.
    rewrite -(walk_deterministic r' f1 f2 nx a2 b2 Hw1 Hw2) in E'. rewrite E in E'.
    apply app_inj_2 in E' as [_ E']; [by injection E'|]. cbn. done.
Qed.

(** A program: three objects, the second is destroyed. *)
Definition demo_actions : list Action :=
  [Construct 5%N; ForceCall; Construct 6%N; CopyConstruct 7%N 5%N; ForceCall; Destroy 6%N].

Lemma registry_refines_living_witness :
  exists r, acts demo_actions no_objects = Some r /\
    count r = as_usize (Z.of_nat (length [7%N; 5%N])) /\
    forceCalls r = as_usize (calls demo_actions) /\
    walk (length [7%N; 5%N]) (head r) r = Some [7%N; 5%N] /\
    forall p, is_Some (objects r !! p) <-> p ∈ [7%N; 5%N].
Proof. exact (registry_refines_living demo_actions [7%N; 5%N] eq_refl). Defined.

(** Two objects on the stack, and the first one is assigned from the second. *)
Definition two_objects : Registry :=
  default no_objects (acts [Construct 5%N; Construct 6%N] no_objects).

Lemma copy_assignment_corrupts_registry_witness :
  exists r', registry_assign 5%N 6%N two_objects = Some r' /\
    (forall live', ~ registers live' r') /\
    (forall fuel ps, walk fuel (head r') r' = Some ps -> ~ (5%N ∈ ps /\ 6%N ∈ ps)).
Proof.
  apply (copy_assignment_corrupts_registry [Construct 5%N; Construct 6%N] [6%N; 5%N] 5%N 6%N two_objects);
    first [reflexivity | set_solver | discriminate].
Defined.

(** Assigned in this direction, the first object is its own successor; after the end of both,
    the next construction writes to a dead object.  In the other direction the destructor of
    the first one does. *)
Example assignment_then_destruction :
  (r ← registry_assign 5%N 6%N two_objects; r ← registry_drop 6%N r; registry_drop 5%N r) <> None /\
  (r ← registry_assign 5%N 6%N two_objects; r ← registry_drop 6%N r; r ← registry_drop 5%N r; registry_new 8%N r) = None /\
  (r ← registry_assign 6%N 5%N two_objects; r ← registry_drop 6%N r; registry_drop 5%N r) = None.
Proof. vm_compute. split_and!; congruence. Qed.
