(* ===== verification/CxxCore.v ===== *)
(** * CxxCore: potentials and their cache, src/CppCore

    The C++ core works on values: matrices of coordinates, vectors of atomic numbers, and the
    bytes that it stores in a database.  A computation changes the state of the process
    ([World]), may throw, and is undefined ([None]) when it leaves an array, or uses an object
    that is not there.  RocksDB and the hash function are interfaces. *)
From Stdlib Require Import ssreflect.
From S2P Require Import Prelude Machine RpcEnv CxxEffects CxxRegistry.
Open Scope Z_scope.
#[local] Open Scope general_if_scope.

(** ** Bytes in memory *)

(** [n] bytes of a word, least significant first, and back. *)
Fixpoint bytes_of_word (n : nat) (x : Z) : list Z :=
  match n with O => [] | S n => x mod 256 :: bytes_of_word n (x / 256) end.
Fixpoint word_of (bs : list Z) : Z :=
  match bs with [] => 0 | b :: bs => b + 256 * word_of bs end.

Definition sizeof_double : Z := 8.
Definition sizeof_int : Z := 4.
Definition sizeof_size_t : Z := 8.

(** The object representation of arrays of [double] and of [int]. *)
Definition double_bytes (xs : list f64) : list Z := xs ≫= bytes_of_word 8.
Definition int_bytes (xs : list Z) : list Z := xs ≫= fun x => bytes_of_word 4 (as_u32 x).

(** An array of [double] read back from its bytes. *)
Fixpoint doubles_of (n : nat) (bs : list Z) : list f64 :=
  match n with O => [] | S n => word_of (take 8 bs) :: doubles_of n (drop 8 bs) end.

(** The first [n] bytes behind a pointer. *)
Definition read_bytes (src : list Z) (n : Z) : option (list Z) :=
  if n <=? Z.of_nat (length src) then Some (take (Z.to_nat n) src) else None.

(** [std::memcpy] of [n] bytes to the start of an object. *)
Definition memcpy (dst src : list Z) (n : Z) : option (list Z) :=
  bs ← read_bytes src n;
  if n <=? Z.of_nat (length dst) then Some (bs ++ drop (Z.to_nat n) dst) else None.

(** ** AtomMatrix.hpp *)

Record AtomMatrix := MkAtomMatrix { m_rows : Z; m_cols : Z; m_data : list f64 }.

Definition AtomMatrix_new (rows cols : Z) : AtomMatrix :=
  MkAtomMatrix rows cols (replicate (Z.to_nat (as_usize (rows * cols))) f64_zero).
Definition AtomMatrix_Zero (rows cols : Z) : AtomMatrix :=
  let matrix := AtomMatrix_new rows cols in
  MkAtomMatrix (m_rows matrix) (m_cols matrix) (replicate (length (m_data matrix)) f64_zero).
Definition AtomMatrix_size (m : AtomMatrix) : Z := as_usize (m_rows m * m_cols m).

(** [matrix(row, col)], as a value and as a target. *)
Definition AtomMatrix_index (m : AtomMatrix) (row col : Z) : Z := as_usize (row * m_cols m + col).
Definition AtomMatrix_at (m : AtomMatrix) (row col : Z) : option f64 :=
  m_data m !! Z.to_nat (AtomMatrix_index m row col).
Definition AtomMatrix_set (m : AtomMatrix) (row col : Z) (x : f64) : option AtomMatrix :=
  let i := Z.to_nat (AtomMatrix_index m row col) in
  _ ← m_data m !! i; Some (MkAtomMatrix (m_rows m) (m_cols m) (<[i := x]> (m_data m))).

(** Writing through [data()] keeps the dimensions. *)
Definition with_data (m : AtomMatrix) (xs : list f64) : AtomMatrix :=
  MkAtomMatrix (m_rows m) (m_cols m) xs.

(** Row by row, from nested initializer lists; the first row gives the width. *)
Fixpoint copy_rows (cols : nat) (rows : list (list f64)) (data : list f64) (at_ : nat) :
    option (list f64) :=
  match rows with
  | [] => Some data
  | row :: rows =>
      if Nat.leb (at_ + length row) (length data) then
        copy_rows cols rows (take at_ data ++ row ++ drop (at_ + length row) data) (at_ + cols)
      else None
  end.
Definition AtomMatrix_from_lists (rows : list (list f64)) : option AtomMatrix :=
  first ← rows !! 0%nat;
  let m := AtomMatrix_new (Z.of_nat (length rows)) (Z.of_nat (length first)) in
  data ← copy_rows (length first) rows (m_data m) 0;
  Some (with_data m data).

(** ** pot_types.hpp, and the values behind the pointers of ForceStructs.hpp *)

Inductive PotType := UNKNOWN | CuH2 | LJ.
#[export] Instance PotType_eq_dec : EqDecision PotType.
Proof. solve_decision. Defined.

Definition PotType_value (t : PotType) : Z := match t with UNKNOWN => 0 | CuH2 => 1 | LJ => 2 end.

Record InputView := MkInputView {
  nAtoms : Z;
  pos : list f64;
  atmnrs : list Z;
  box : list f64;
}.
Record OutputView := MkOutputView { out_F : list f64; out_energy : f64; out_variance : f64 }.

(** What [forceImpl] does with an input and the output it may fill: fill it, throw, or leave
    an array. *)
Definition ForceImpl : Type := InputView -> OutputView -> option (Result OutputView CxxException).

(** ** PotHelpers.cc *)

Definition zeroForceOut (nAtoms : Z) (efvd : OutputView) : option OutputView :=
  if 3 * nAtoms <=? Z.of_nat (length (out_F efvd)) then
    let n := Z.to_nat (3 * nAtoms) in
    Some (MkOutputView (replicate n f64_zero ++ drop n (out_F efvd)) f64_zero f64_zero)
  else None.

Definition checkParams (params : InputView) : Result unit CxxException :=
  if nAtoms params <=? 0 then Err (RuntimeError "Can't work with zero atoms in force call")
  else Ok tt.

(** ** The database

    RocksDB: processes open databases by their path, and hold them by pointers; what a path
    stores outlives the process.  A write that fails may have been done or not; a read that
    finds something finds what is stored. *)
Class RocksDB := {
  Engine : Type;
  db_open : Engine -> string -> bool -> Engine * option ptr;
  db_close : Engine -> ptr -> Engine;
  db_put : Engine -> ptr -> string -> list Z -> Engine * bool;
  db_get : Engine -> ptr -> string -> Engine * option (list Z);
  handles : Engine -> gmap ptr string;
  stored : Engine -> string -> gmap string (list Z);
  db_open_spec e path create :
    (forall q, stored (db_open e path create).1 q = stored e q) /\
    match (db_open e path create).2 with
    | Some h => h <> null /\ handles e !! h = None /\
        handles (db_open e path create).1 = <[h := path]> (handles e)
    | None => handles (db_open e path create).1 = handles e
    end;
  db_close_spec e h :
    handles (db_close e h) = delete h (handles e) /\
    forall q, stored (db_close e h) q = stored e q;
  db_put_spec e h path k v : handles e !! h = Some path ->
    handles (db_put e h k v).1 = handles e /\
    (forall q, q <> path -> stored (db_put e h k v).1 q = stored e q) /\
    (stored (db_put e h k v).1 path = <[k := v]> (stored e path) \/
     ((db_put e h k v).2 = false /\ stored (db_put e h k v).1 path = stored e path));
  db_get_spec e h path k : handles e !! h = Some path ->
    handles (db_get e h k).1 = handles e /\
    (forall q, stored (db_get e h k).1 q = stored e q) /\
    match (db_get e h k).2 with Some v => stored e path !! k = Some v | None => True end;
}.

Section core.
  Context {rocksdb : RocksDB} (XXH3_64bits : list Z -> Z) (forceImpl : PotType -> ForceImpl).

(** ** The state of the process *)

Record PotentialCache := MkPotentialCache { db_ : ptr; own_db_ : bool }.

Record World := MkWorld {
  engine : Engine;
  cache_objects : gmap ptr PotentialCache;
  registries : PotType -> Registry;
}.

Definition set_engine (e : Engine) (w : World) : World :=
  MkWorld e (cache_objects w) (registries w).
Definition set_caches (m : gmap ptr PotentialCache) (w : World) : World :=
  MkWorld (engine w) m (registries w).
Definition count_force_call (t : PotType) (w : World) : World :=
  MkWorld (engine w) (cache_objects w)
    (fun u => if decide (u = t) then incrementForceCalls (registries w u) else registries w u).

(** ** PotentialCache.cc *)

(** [PotentialCache(path, create_if_missing)] in the storage [this], and [PotentialCache()]. *)
Definition PotentialCache_open (this : ptr) (path : string) (create : bool) (w : World) : option World :=
  let r := db_open (engine w) path create in
  let c := match r.2 with
           | Some h => MkPotentialCache h true
           | None => MkPotentialCache null false
           end in
  Some (set_caches (<[this := c]> (cache_objects w)) (set_engine r.1 w)).
Definition PotentialCache_default (this : ptr) (w : World) : option World :=
  Some (set_caches (<[this := MkPotentialCache null false]> (cache_objects w)) w).

(** The copy constructor that the compiler generates. *)
Definition PotentialCache_copy (this other : ptr) (w : World) : option World :=
  c ← cache_objects w !! other;
  Some (set_caches (<[this := c]> (cache_objects w)) w).

(** [if (own_db_ && db_) delete db_]; what is deleted must be open. *)
Definition delete_owned (c : PotentialCache) (w : World) : option World :=
  if own_db_ c && negb (is_null (db_ c)) then
    _ ← handles (engine w) !! db_ c;
    Some (set_engine (db_close (engine w) (db_ c)) w)
  else Some w.

Definition PotentialCache_drop (this : ptr) (w : World) : option World :=
  c ← cache_objects w !! this;
  w ← delete_owned c w;
  Some (set_caches (delete this (cache_objects w)) w).

Definition PotentialCache_set_db (this db : ptr) (w : World) : option World :=
  c ← cache_objects w !! this;
  w ← delete_owned c w;
  Some (set_caches (<[this := MkPotentialCache db false]> (cache_objects w)) w).

(** [KeyHash(hash)]: the key is the decimal text of the hash. *)
Definition KeyHash (hash : Z) : string := pretty hash.

(** The text of a [std::string] is followed by a NUL. *)
Definition deserialize_hit (hit : list Z) (energy : f64) (forces : AtomMatrix) :
    option (f64 * AtomMatrix) :=
  let text := hit ++ [0] in
  e ← memcpy (bytes_of_word 8 energy) text sizeof_double;
  rest ← (if sizeof_double <=? Z.of_nat (length text) then Some (drop 8 text) else None);
  f ← memcpy (double_bytes (m_data forces)) rest (as_usize (AtomMatrix_size forces * sizeof_double));
  Some (word_of e, with_data forces (doubles_of (length (m_data forces)) f)).

(** The value that is stored: [[double energy] [double force_0] ...]. *)
Definition serialize (energy : f64) (forces : AtomMatrix) : option (list Z) :=
  let value_size := as_usize (sizeof_double + as_usize (AtomMatrix_size forces * sizeof_double)) in
  let buffer := replicate (Z.to_nat value_size) 0 in
  buffer ← memcpy buffer (bytes_of_word 8 energy) sizeof_double;
  tail ← memcpy (drop 8 buffer) (double_bytes (m_data forces))
           (as_usize (AtomMatrix_size forces * sizeof_double));
  Some (take 8 buffer ++ tail).

Definition add_serialized (this : ptr) (kv : string) (energy : f64) (forces : AtomMatrix) (w : World) :
    option World :=
  c ← cache_objects w !! this;
  if is_null (db_ c) then Some w
  else
    value ← serialize energy forces;
    _ ← handles (engine w) !! db_ c;
    Some (set_engine (db_put (engine w) (db_ c) kv value).1 w).

Definition find (this : ptr) (kv : string) (w : World) : option (option (list Z) * World) :=
  c ← cache_objects w !! this;
  if is_null (db_ c) then Some (None, w)
  else
    _ ← handles (engine w) !! db_ c;
    let r := db_get (engine w) (db_ c) kv in
    Some (r.2, set_engine r.1 w).

(** ** Potential.hpp *)

Record Potential := MkPotential { m_type : PotType; _cache : ptr }.

Definition set_cache (c : ptr) (self : Potential) : Potential := MkPotential (m_type self) c.

(** A [std::array<std::array<double, 3>, 3>] by its rows. *)
Definition Box3 : Type := (f64 * f64 * f64) * (f64 * f64 * f64) * (f64 * f64 * f64).
Definition flatBox (b : Box3) : list f64 :=
  let '((x1, y1, z1), (x2, y2, z2), (x3, y3, z3)) := b in [x1; y1; z1; x2; y2; z2; x3; y3; z3].

(** The hash of a configuration, and of the type of the potential. *)
Definition hash_val (t : PotType) (fi : InputView) : option Z :=
  p ← read_bytes (double_bytes (pos fi)) (as_usize (as_usize (nAtoms fi * 3) * sizeof_double));
  a ← read_bytes (int_bytes (atmnrs fi)) (as_usize (nAtoms fi * sizeof_int));
  b ← read_bytes (double_bytes (box fi)) (9 * sizeof_double);
  let h := Z.lxor 0 (XXH3_64bits p) in
  let h := Z.lxor h (XXH3_64bits a) in
  let h := Z.lxor h (XXH3_64bits b) in
  Some (Z.lxor h (XXH3_64bits (bytes_of_word 8 (PotType_value t)))).

Definition input_view (positions : AtomMatrix) (atmtypes : list Z) (b : Box3) : InputView :=
  MkInputView (m_rows positions) (m_data positions) atmtypes (flatBox b).

Definition Evaluation : Type := Result (f64 * AtomMatrix) CxxException.

(** [static_cast<Derived *>(this)->forceImpl(fi, &fo)] and the count. *)
Definition compute (t : PotType) (fi : InputView) (forces : AtomMatrix) (w : World) :
    option (Evaluation * World) :=
  r ← forceImpl t fi (MkOutputView (m_data forces) f64_zero f64_zero);
  match r with
  | Ok fo => Some (Ok (out_energy fo, with_data forces (out_F fo)), count_force_call t w)
  | Err e => Some (Err e, w)
  end.

(** [operator()] with [RGPOT_HAS_CACHE]. *)
Definition evaluate_cached (self : Potential) (positions : AtomMatrix) (atmtypes : list Z)
    (b : Box3) (w : World) : option (Evaluation * World) :=
  let forces := AtomMatrix_Zero (m_rows positions) 3 in
  let fi := input_view positions atmtypes b in
  h ← hash_val (m_type self) fi;
  let key := KeyHash h in
  r ← (if is_null (_cache self) then Some (None, w) else find (_cache self) key w);
  match r with
  | (Some hit, w) => x ← deserialize_hit hit f64_zero forces; Some (Ok x, w)
  | (None, w) =>
      r ← compute (m_type self) fi forces w;
      match r with
      | (Ok (e, F), w) =>
          w ← (if is_null (_cache self) then Some w else add_serialized (_cache self) key e F w);
          Some (Ok (e, F), w)
      | (Err e, w) => Some (Err e, w)
      end
  end.

(** [operator()] without the cache. *)
Definition evaluate (self : Potential) (positions : AtomMatrix) (atmtypes : list Z) (b : Box3)
    (w : World) : option (Evaluation * World) :=
  compute (m_type self) (input_view positions atmtypes b) (AtomMatrix_Zero (m_rows positions) 3) w.
End core.

(** ** CuH2Pot.cc

    The Fortran routine is given the numbers of copper and hydrogen atoms, the number of
    coordinates, the diagonal of the box and the positions, and fills forces and energy. *)
Section cuh2.
  Context (c_force_eam : Z * Z -> Z -> f64 * f64 * f64 -> list f64 -> list f64 * f64 ->
    option (list f64 * f64)).

(** [natmc.count(z)] of the multiset of the numbers. *)
Definition multiset_count (z : Z) (natmc : list Z) : Z :=
  Z.of_nat (length (List.filter (fun y => y =? z) natmc)).

Definition CuH2Pot_forceImpl : ForceImpl := fun in_ out =>
  let N := nAtoms in_ in
  (* overflow of an [int] is undefined *)
  ndim ← (if is_i32 (3 * as_i32 N) then Some (3 * as_i32 N) else None);
  natmc ← (if N <=? Z.of_nat (length (atmnrs in_)) then Some (take (Z.to_nat N) (atmnrs in_)) else None);
  if (multiset_count 29 natmc <=? 0) || (multiset_count 1 natmc <=? 0) then
    Some (Err (RuntimeError ("The system does not have Copper or Hydrogen, but "
                             +:+ "the CuH2 potential was requested")))
  else
    let natms := (as_i32 (multiset_count 29 natmc), as_i32 (multiset_count 1 natmc)) in
    if negb (as_usize (as_i32 (natms.1 + natms.2)) =? N) then
      Some (Err (RuntimeError ("The system has other atom types, but the CuH2 "
                               +:+ "potential was requested")))
    else
      b0 ← box in_ !! 0%nat; b4 ← box in_ !! 4%nat; b8 ← box in_ !! 8%nat;
      r ← c_force_eam natms ndim (b0, b4, b8) (pos in_) (out_F out, out_energy out);
      Some (Ok (MkOutputView r.1 r.2 (out_variance out))).
End cuh2.
