(* ===== verification/CxxCoreTheorems.v ===== *)
(** * CxxCoreTheorems: the cache of the C++ core

    An entry of the cache reads back as the result that was written; when no two
    configurations collide, evaluating with a cache is evaluating without; and two
    configurations that always collide. *)
From Stdlib Require Import ssreflect.
From S2P Require Import Prelude Machine RpcEnv CxxEffects CxxRegistry CxxCore.
Open Scope Z_scope.
#[local] Open Scope general_if_scope.

(** ** Bytes *)

Lemma length_bytes_of_word n x : length (bytes_of_word n x) = n.
Proof. revert x. induction n; intros x; cbn; auto. Qed.

Lemma word_of_bytes n x : 0 <= x < 256 ^ Z.of_nat n -> word_of (bytes_of_word n x) = x.
Proof.
  revert x. induction n as [|n IH]; intros x Hx; cbn [bytes_of_word word_of].
  - change (256 ^ Z.of_nat 0) with 1 in Hx. lia.
  - rewrite Nat2Z.inj_succ in Hx. rewrite -> Z.pow_succ_r in Hx by lia. rewrite IH.
    + pose proof (Z.div_mod x 256 ltac:(lia)). lia.
    + split; [apply Z.div_pos; lia|]. apply Z.div_lt_upper_bound; lia.
Qed.

(** An [f64] is a 64-bit pattern. *)
Definition f64_ok (x : f64) : bool := is_usize x.

Lemma word_of_double x : f64_ok x = true -> word_of (bytes_of_word 8 x) = x.
Proof. unfold f64_ok, is_usize. intros Hx. apply word_of_bytes. change (256 ^ Z.of_nat 8) with (2 ^ 64). lia. Qed.

Lemma length_double_bytes xs : length (double_bytes xs) = (8 * length xs)%nat.
Proof.
  induction xs as [|x xs IH]; [done|]. unfold double_bytes in *. cbn [mbind list_bind].
  rewrite length_app length_bytes_of_word IH. cbn [length]. lia.
Qed.

Lemma length_int_bytes xs : length (int_bytes xs) = (4 * length xs)%nat.
Proof.
  induction xs as [|x xs IH]; [done|]. unfold int_bytes in *. cbn [mbind list_bind].
  rewrite length_app length_bytes_of_word IH. cbn [length]. lia.
Qed.

Lemma doubles_of_bytes xs ys :
  forallb f64_ok xs = true -> doubles_of (length xs) (double_bytes xs ++ ys) = xs.
Proof.
  induction xs as [|x xs IH]; [done|]. cbn [forallb]. intros [Hx Hxs]%andb_prop.
  unfold double_bytes. cbn [mbind list_bind length doubles_of]. rewrite -app_assoc.
  rewrite take_app_length' ?length_bytes_of_word // drop_app_length' ?length_bytes_of_word //.
  rewrite word_of_double // IH //.
Qed.

Lemma read_bytes_all src rest n :
  n = Z.of_nat (length src) -> read_bytes (src ++ rest) n = Some src.
Proof.
  intros ->. unfold read_bytes. rewrite length_app. rewrite -> (proj2 (Z.leb_le _ _)) by lia.
  by rewrite Nat2Z.id take_app_length.
Qed.

Lemma memcpy_app dst tail src rest n :
  n = Z.of_nat (length src) -> length dst = length src ->
  memcpy (dst ++ tail) (src ++ rest) n = Some (src ++ tail).
Proof.
  intros Hn Hl. unfold memcpy. rewrite read_bytes_all //. cbn. subst n.
  rewrite -> (proj2 (Z.leb_le _ _)) by (rewrite length_app; lia).
  by rewrite Nat2Z.id -Hl drop_app_length.
Qed.

Lemma memcpy_all dst src rest n :
  n = Z.of_nat (length src) -> length dst = length src -> memcpy dst (src ++ rest) n = Some src.
Proof. intros Hn Hl. rewrite -(app_nil_r dst) memcpy_app // app_nil_r //. Qed.

(** ** Entries *)

(** A matrix of [n] rows of three words. *)
Definition matrix_ok (n : Z) (m : AtomMatrix) : bool :=
  (m_rows m =? n) && (m_cols m =? 3) && (Z.of_nat (length (m_data m)) =? 3 * n) &&
  forallb f64_ok (m_data m).

Definition entry (e : f64) (xs : list f64) : list Z := bytes_of_word 8 e ++ double_bytes xs.

Lemma matrix_ok_spec n m : 0 <= n < 2 ^ 29 -> matrix_ok n m = true ->
  m_rows m = n /\ m_cols m = 3 /\ Z.of_nat (length (m_data m)) = 3 * n /\
  forallb f64_ok (m_data m) = true /\ AtomMatrix_size m = 3 * n /\
  as_usize (AtomMatrix_size m * sizeof_double) = 24 * n.
Proof.
  intros Hn. unfold matrix_ok, AtomMatrix_size, sizeof_double. intros H.
  repeat apply andb_prop in H as [H ?]. assert (m_rows m = n) as -> by lia.
  assert (m_cols m = 3) as -> by lia. split_and!; try done; try lia.
  - rewrite -> as_usize_id by (unfold is_usize; lia). lia.
  - rewrite -> (as_usize_id (n * 3)) by (unfold is_usize; lia).
    rewrite -> as_usize_id by (unfold is_usize; lia). lia.
Qed.

Lemma serialize_entry n e F :
  0 <= n < 2 ^ 29 -> matrix_ok n F = true -> serialize e F = Some (entry e (m_data F)).
Proof.
  intros Hn HF. apply matrix_ok_spec in HF as (_ & _ & Hl & _ & _ & Hb); [|done].
  unfold serialize. rewrite Hb. rewrite -> as_usize_id by (unfold is_usize, sizeof_double; lia).
  unfold sizeof_double. replace (Z.to_nat (8 + 24 * n)) with (8 + 8 * length (m_data F))%nat by lia.
  rewrite replicate_add. set (tail := replicate (8 * length (m_data F)) 0).
  assert (memcpy (replicate 8 0 ++ tail) (bytes_of_word 8 e) 8 = Some (bytes_of_word 8 e ++ tail)) as ->.
  { rewrite -{1}(app_nil_r (bytes_of_word 8 e)). apply memcpy_app; by rewrite length_bytes_of_word. }
  cbn [mbind option_bind]. rewrite drop_app_length' ?length_bytes_of_word //.
  rewrite take_app_length' ?length_bytes_of_word //.
  assert (memcpy tail (double_bytes (m_data F)) (24 * n) = Some (double_bytes (m_data F))) as ->.
  { rewrite -{1}(app_nil_r (double_bytes (m_data F))). apply memcpy_all.
    - rewrite length_double_bytes. lia.
    - by rewrite length_double_bytes /tail length_replicate. }
  done.
Qed.

Lemma deserialize_entry n e xs rest e0 forces :
  0 <= n < 2 ^ 29 -> f64_ok e = true -> forallb f64_ok xs = true ->
  m_cols forces = 3 -> m_rows forces = n -> Z.of_nat (length (m_data forces)) = 3 * n ->
  Z.of_nat (length xs) = 3 * n ->
  deserialize_hit (entry e xs ++ rest) e0 forces = Some (e, with_data forces xs).
Proof.
  intros Hn He Hxs Hc Hr Hl Hlx. unfold deserialize_hit, entry.
  assert (as_usize (AtomMatrix_size forces * sizeof_double) = 24 * n) as ->.
  { unfold AtomMatrix_size, sizeof_double. rewrite Hc Hr.
    rewrite -> (as_usize_id (n * 3)) by (unfold is_usize; lia).
    rewrite -> as_usize_id by (unfold is_usize; lia). lia. }
  rewrite -!app_assoc memcpy_all ?length_bytes_of_word //. cbn [mbind option_bind].
  rewrite -> (proj2 (Z.leb_le _ _)) by (rewrite length_app length_bytes_of_word; unfold sizeof_double; lia).
  rewrite drop_app_length' ?length_bytes_of_word //. cbn [mbind option_bind].
  rewrite -> memcpy_all by (rewrite !length_double_bytes; lia).
  cbn [mbind option_bind]. rewrite word_of_double //. do 3 f_equal.
  replace (length (m_data forces)) with (length xs) by lia.
  rewrite -(app_nil_r (double_bytes xs)). by apply doubles_of_bytes.
Qed.

(** A value that is too short for the forces is read past its end. *)
Lemma deserialize_short hit e0 forces :
  Z.of_nat (length hit) + 1 < 8 + as_usize (AtomMatrix_size forces * sizeof_double) ->
  deserialize_hit hit e0 forces = None.
Proof.
  intros Hl. unfold deserialize_hit. destruct (memcpy (bytes_of_word 8 e0) _ _); [|done].
  cbn [mbind option_bind]. destruct (Z.leb_spec sizeof_double (Z.of_nat (length (hit ++ [0])))) as [H|H]; [|done].
  unfold memcpy, read_bytes. cbn [mbind option_bind].
  destruct (Z.leb_spec (as_usize (AtomMatrix_size forces * sizeof_double))
    (Z.of_nat (length (drop 8 (hit ++ [0]))))) as [H'|H']; [exfalso|done].
  unfold sizeof_double in *. rewrite length_drop in H'. rewrite !length_app in H, H'. cbn in *. lia.
Qed.

(** ** Requests *)

Record Request := MkRequest { rq_positions : AtomMatrix; rq_types : list Z; rq_box : Box3 }.

Definition rq_n (rq : Request) : Z := m_rows (rq_positions rq).
Definition rq_view (rq : Request) : InputView :=
  input_view (rq_positions rq) (rq_types rq) (rq_box rq).

(** Three coordinates and an atomic number per atom. *)
Definition request_ok (rq : Request) : bool :=
  (0 <=? rq_n rq) && (rq_n rq <? 2 ^ 29) && (m_cols (rq_positions rq) =? 3) &&
  (Z.of_nat (length (m_data (rq_positions rq))) =? 3 * rq_n rq) &&
  (rq_n rq <=? Z.of_nat (length (rq_types rq))).

Lemma length_Zero n : 0 <= n < 2 ^ 29 -> m_data (AtomMatrix_Zero n 3) = replicate (Z.to_nat (3 * n)) f64_zero.
Proof.
  intros Hn. cbn. rewrite length_replicate. rewrite -> as_usize_id by (unfold is_usize; lia).
  by rewrite Z.mul_comm.
Qed.

Section cache.
  Context {rocksdb : RocksDB} (XXH3_64bits : list Z -> Z) (forceImpl : PotType -> ForceImpl).

(** What [forceImpl] is given, with the output that [operator()] prepares. *)
Definition impl_answer (t : PotType) (rq : Request) : option (Result OutputView CxxException) :=
  forceImpl t (rq_view rq) (MkOutputView (m_data (AtomMatrix_Zero (rq_n rq) 3)) f64_zero f64_zero).

(** The potential stays inside its arrays and fills the forces with words. *)
Definition impl_ok : Prop := forall t rq, request_ok rq = true ->
  match impl_answer t rq with
  | Some (Ok fo) => f64_ok (out_energy fo) = true /\ forallb f64_ok (out_F fo) = true /\
      Z.of_nat (length (out_F fo)) = 3 * rq_n rq
  | Some (Err _) => True
  | None => False
  end.

(** The potential's own result. *)
Definition result_of (t : PotType) (rq : Request) : Evaluation :=
  match impl_answer t rq with
  | Some (Ok fo) => Ok (out_energy fo, with_data (AtomMatrix_Zero (rq_n rq) 3) (out_F fo))
  | Some (Err e) => Err e
  | None => Err OtherException
  end.

Definition hash_of (t : PotType) (rq : Request) : option Z := hash_val XXH3_64bits t (rq_view rq).

Lemma request_ok_spec rq : request_ok rq = true ->
  0 <= rq_n rq < 2 ^ 29 /\ Z.of_nat (length (m_data (rq_positions rq))) = 3 * rq_n rq /\
  rq_n rq <= Z.of_nat (length (rq_types rq)).
Proof. unfold request_ok. lia. Qed.

Lemma read_bytes_some src n : n <= Z.of_nat (length src) -> read_bytes src n = Some (take (Z.to_nat n) src).
Proof. intros Hn. unfold read_bytes. by rewrite -> (proj2 (Z.leb_le _ _)) by lia. Qed.

Lemma hash_total t rq : request_ok rq = true -> exists h, hash_of t rq = Some h.
Proof.
  intros (Hn & Hl & Ht)%request_ok_spec. unfold hash_of, hash_val. cbn [pos atmnrs box nAtoms rq_view input_view].
  unfold rq_n, sizeof_double, sizeof_int in *. set (n := m_rows (rq_positions rq)) in *.
  rewrite -> (as_usize_id (n * 3)) by (unfold is_usize; lia).
  rewrite -> (as_usize_id (n * 3 * 8)) by (unfold is_usize; lia).
  rewrite -> (as_usize_id (n * 4)) by (unfold is_usize; lia).
  rewrite -> (read_bytes_some (double_bytes (m_data _))) by (rewrite length_double_bytes; lia).
  rewrite -> (read_bytes_some (int_bytes _)) by (rewrite length_int_bytes; lia).
  rewrite -> (read_bytes_some (double_bytes (flatBox _))).
  2: { rewrite length_double_bytes. by destruct (rq_box rq) as [[[[] ?] [[] ?]] [[] ?]]. }
  by eexists.
Qed.

Lemma compute_result t rq w :
  impl_ok -> request_ok rq = true ->
  compute forceImpl t (rq_view rq) (AtomMatrix_Zero (rq_n rq) 3) w =
  Some (result_of t rq, if is_ok (result_of t rq) then count_force_call t w else w).
Proof.
  intros Himpl Hrq. specialize (Himpl t rq Hrq). unfold compute, result_of.
  fold (impl_answer t rq). by destruct (impl_answer t rq) as [[fo|e]|].
Qed.

Lemma result_entry t rq e F :
  impl_ok -> request_ok rq = true -> result_of t rq = Ok (e, F) ->
  serialize e F = Some (entry e (m_data F)) /\
  forall e0 rest, deserialize_hit (entry e (m_data F) ++ rest) e0 (AtomMatrix_Zero (rq_n rq) 3) = Some (e, F).
Proof.
  intros Himpl Hrq Hres. specialize (Himpl t rq Hrq).
  pose proof (request_ok_spec rq Hrq) as (Hn & _). unfold result_of in Hres.
  destruct (impl_answer t rq) as [[fo|]|]; [|done..]. injection Hres as <- <-.
  destruct Himpl as (He & HF & Hl). split.
  - apply (serialize_entry (rq_n rq)); [done|]. unfold matrix_ok. cbn. rewrite HF. lia.
  - intros e0 rest. cbn [m_data with_data]. rewrite (deserialize_entry (rq_n rq)) //.
    rewrite length_Zero // length_replicate. lia.
Qed.

(** ** What the database may hold *)

(** The evaluations in use. *)
Context (U : list (PotType * Request)).

Definition collision_free : Prop := forall u u' h, u ∈ U -> u' ∈ U ->
  hash_of u.1 u.2 = Some h -> hash_of u'.1 u'.2 = Some h -> result_of u.1 u.2 = result_of u'.1 u'.2.

(** What is stored for an evaluation in use is its result. *)
Definition sound (e : Engine) : Prop := forall path u h v, u ∈ U ->
  hash_of u.1 u.2 = Some h -> stored e path !! KeyHash h = Some v ->
  exists en F, result_of u.1 u.2 = Ok (en, F) /\ v = entry en (m_data F).

Definition cache_ok (w : World) (self : Potential) : Prop :=
  _cache self = null \/ exists c, cache_objects w !! _cache self = Some c /\
    (db_ c = null \/ exists path, handles (engine w) !! db_ c = Some path).

(** Objects and open databases are as before. *)
Definition same_objects (w w' : World) : Prop :=
  cache_objects w' = cache_objects w /\ handles (engine w') = handles (engine w).

Lemma sound_stored e e' : sound e -> (forall q, stored e' q = stored e q) -> sound e'.
Proof. intros Hs He path u h v Hu Hh Hv. rewrite He in Hv. by eapply Hs. Qed.

Lemma sound_put e h path u hash en F :
  collision_free -> sound e -> handles e !! h = Some path -> u ∈ U ->
  hash_of u.1 u.2 = Some hash -> result_of u.1 u.2 = Ok (en, F) ->
  sound (db_put e h (KeyHash hash) (entry en (m_data F))).1.
Proof.
  intros Hcol Hs Hh Hu Hhash Hres q u' h' v Hu' Hhash' Hv.
  destruct (db_put_spec e h path (KeyHash hash) (entry en (m_data F)) Hh) as (_ & Hother & Hput).
  destruct (decide (q = path)) as [->|Hq]; [|rewrite Hother // in Hv; by eapply Hs].
  destruct Hput as [Hput|[_ Hput]]; rewrite Hput in Hv; [|by eapply Hs].
  apply lookup_insert_Some in Hv as [[Hk <-]|[_ Hv]]; [|by eapply Hs].
  apply (inj pretty) in Hk as <-. exists en, F. split; [|done]. by rewrite -(Hcol u u' hash).
Qed.

Lemma find_spec self key w :
  cache_ok w self ->
  exists r w1, (if is_null (_cache self) then Some (None, w) else find (_cache self) key w) = Some (r, w1) /\
    same_objects w w1 /\ registries w1 = registries w /\
    (forall q, stored (engine w1) q = stored (engine w) q) /\
    match r with
    | Some v => exists path, stored (engine w) path !! key = Some v
    | None => True
    end.
Proof.
  intros [->|(c & Hc & Hdb)]; [exists None, w; done|].
  destruct (is_null (_cache self)); [exists None, w; done|]. unfold find. rewrite Hc. cbn [mbind option_bind].
  destruct (is_null (db_ c)) eqn:En; [exists None, w; done|].
  destruct Hdb as [Hdb|[path Hdb]]; [by rewrite Hdb in En|]. rewrite Hdb. cbn [mbind option_bind].
  destruct (db_get_spec (engine w) (db_ c) path key Hdb) as (Hh & Hst & Hget).
  eexists _, _. split; [done|]. split; [by split|]. split; [done|]. split; [done|].
  destruct (db_get (engine w) (db_ c) key).2; [by exists path|done].
Qed.

Lemma add_spec self u hash en F w :
  collision_free -> sound (engine w) -> cache_ok w self -> u ∈ U ->
  hash_of u.1 u.2 = Some hash -> result_of u.1 u.2 = Ok (en, F) ->
  serialize en F = Some (entry en (m_data F)) ->
  exists w1, (if is_null (_cache self) then Some w else add_serialized (_cache self) (KeyHash hash) en F w)
      = Some w1 /\
    same_objects w w1 /\ registries w1 = registries w /\ sound (engine w1).
Proof.
  intros Hcol Hs Hok Hu Hhash Hres Hser.
  destruct Hok as [->|(c & Hc & Hdb)]; [exists w; done|].
  destruct (is_null (_cache self)); [exists w; done|]. unfold add_serialized. rewrite Hc Hser.
  cbn [mbind option_bind].
  destruct (is_null (db_ c)) eqn:En; [exists w; done|].
  destruct Hdb as [Hdb|[path Hdb]]; [by rewrite Hdb in En|]. rewrite Hdb. cbn [mbind option_bind].
  eexists. split; [done|]. split; [split; [done|]|].
  - by destruct (db_put_spec (engine w) (db_ c) path (KeyHash hash) (entry en (m_data F)) Hdb) as (? & _).
  - split; [done|]. by eapply sound_put.
Qed.

Definition evaluate_request (self : Potential) (rq : Request) : World -> option (Evaluation * World) :=
  evaluate forceImpl self (rq_positions rq) (rq_types rq) (rq_box rq).
Definition evaluate_request_cached (self : Potential) (rq : Request) :
    World -> option (Evaluation * World) :=
  evaluate_cached XXH3_64bits forceImpl self (rq_positions rq) (rq_types rq) (rq_box rq).

Lemma evaluate_cached_spec self rq w :
  impl_ok -> collision_free -> sound (engine w) -> cache_ok w self ->
  (m_type self, rq) ∈ U -> request_ok rq = true ->
  exists w', evaluate_request_cached self rq w = Some (result_of (m_type self) rq, w') /\
    same_objects w w' /\ sound (engine w').
Proof.
  intros Himpl Hcol Hs Hok Hu Hrq. unfold evaluate_request_cached, evaluate_cached.
  change (m_rows (rq_positions rq)) with (rq_n rq). fold (rq_view rq).
  change (hash_val XXH3_64bits (m_type self) (rq_view rq)) with (hash_of (m_type self) rq).
  destruct (hash_total (m_type self) rq Hrq) as [h Hh]. rewrite Hh. cbn [mbind option_bind].
  destruct (find_spec self (KeyHash h) w Hok) as (r & w1 & -> & Hw1 & Hr1 & Hst & Hr).
  assert (sound (engine w1)) as Hs1 by by eapply sound_stored.
  cbn [mbind option_bind]. destruct r as [v|].
  - destruct Hr as [path Hv]. destruct (Hs path (m_type self, rq) h v Hu Hh Hv) as (en & F & Hres & ->).
    cbn [fst snd] in Hres. destruct (result_entry _ rq en F Himpl Hrq Hres) as [_ Hde].
    rewrite -(app_nil_r (entry _ _)) Hde. cbn [mbind option_bind]. rewrite Hres. by exists w1.
  - rewrite compute_result //. cbn [mbind option_bind].
    destruct (result_of (m_type self) rq) as [[en F]|e] eqn:Hres; [|by exists w1].
    destruct (result_entry _ rq en F Himpl Hrq Hres) as [Hser _]. cbn [is_ok].
    destruct (add_spec self (m_type self, rq) h en F (count_force_call (m_type self) w1))
      as (w2 & -> & Hw2 & Hr2 & Hs2); [done|done| |done|done|done|done|].
    { destruct Hw1 as [Hc1 Hh1]. unfold cache_ok. cbn. by rewrite Hc1 Hh1. }
    cbn [mbind option_bind]. exists w2. split; [done|]. split; [|done].
    destruct Hw1, Hw2. split; by etransitivity.
Qed.

(** ** Sessions *)

(** Evaluations one after the other, possibly by different potentials. *)
Fixpoint evaluations (eval : Potential -> Request -> World -> option (Evaluation * World))
    (l : list (Potential * Request)) (w : World) : option (list Evaluation * World) :=
  match l with
  | [] => Some ([], w)
  | (self, rq) :: l =>
      r ← eval self rq w;
      rs ← evaluations eval l r.2;
      Some (r.1 :: rs.1, rs.2)
  end.

Lemma evaluate_spec self rq w :
  impl_ok -> request_ok rq = true ->
  evaluate_request self rq w = Some (result_of (m_type self) rq,
    if is_ok (result_of (m_type self) rq) then count_force_call (m_type self) w else w).
Proof. intros. by apply compute_result. Qed.

(** C16: A cache does not change results.  When no two configurations in use with different
    results have the same hash, and the database holds for them only what was computed
    (it may be new, or left by an earlier process), then any sequence of evaluations by any
    potentials, through caches that may be absent, without a database, or over one whose
    reads and writes may fail, gives what the same potentials give without a cache; the
    database goes on holding only what was computed. *)
Theorem cache_is_transparent (l : list (Potential * Request)) (w w0 : World)
    (Himpl : impl_ok) (Hcol : collision_free) (Hs : sound (engine w))
    (Hl : Forall (fun x => (m_type x.1, x.2) ∈ U /\ request_ok x.2 = true /\ cache_ok w x.1) l) :
  exists rs w1 w2, evaluations evaluate_request_cached l w = Some (rs, w1) /\
    evaluations evaluate_request l w0 = Some (rs, w2) /\
    rs = (fun x => result_of (m_type x.1) x.2) <$> l /\
    same_objects w w1 /\ sound (engine w1).
Proof.
  revert w w0 Hs Hl. induction l as [|[self rq] l IH]; intros w w0 Hs Hl; cbn [evaluations].
  - by exists [], w, w0.
  - apply Forall_cons in Hl as [(Hu & Hrq & Hok) Hl]. cbn [fst snd] in *.
    destruct (evaluate_cached_spec self rq w Himpl Hcol Hs Hok Hu Hrq) as (w1 & -> & [Hc1 Hh1] & Hs1).
    rewrite evaluate_spec //. cbn [mbind option_bind fst snd].
    edestruct (IH w1) as (rs & w2 & w3 & -> & -> & -> & [Hc2 Hh2] & Hs2); [done| |].
    { eapply Forall_impl; [exact Hl|]. intros x (? & ? & Hx). split_and!; [done..|].
      unfold cache_ok. by rewrite Hc1 Hh1. }
    eexists _, _, _. split; [done|]. split; [done|]. split; [done|]. split; [|done].
    split; by etransitivity.
Qed.
End cache.

(** ** Collisions *)

Section collisions.
  Context {rocksdb : RocksDB} (XXH3_64bits : list Z -> Z) (forceImpl : PotType -> ForceImpl).

(** A database that neither loses nor refuses anything. *)
Definition reliable : Prop := forall e h path k v, handles e !! h = Some path ->
  (db_put e h k v).2 = true /\ (db_get e h k).2 = stored e path !! k.

(** Three atoms at the rows of a box. *)
Definition three_atoms (p : Box3) : AtomMatrix := MkAtomMatrix 3 3 (flatBox p).
Definition three_request (p : Box3) (types : list Z) (b : Box3) : Request :=
  MkRequest (three_atoms p) types b.

(** The hashes of the parts are combined by an operation that commutes. *)
Lemma hash_swapped t p types b :
  hash_of XXH3_64bits t (three_request p types b) = hash_of XXH3_64bits t (three_request b types p).
Proof.
  unfold hash_of, hash_val, rq_view, input_view. cbn [three_request rq_positions rq_types rq_box three_atoms
    m_rows m_data pos atmnrs box nAtoms].
  change (as_usize (as_usize (3 * 3) * sizeof_double)) with 72. change (9 * sizeof_double) with 72.
  assert (forall q, read_bytes (double_bytes (flatBox q)) 72 = Some (double_bytes (flatBox q))) as Hread.
  { intros [[[[x1 y1] z1] [[x2 y2] z2]] [[x3 y3] z3]]. rewrite -{1}(app_nil_r (double_bytes _)).
    by apply read_bytes_all; rewrite length_double_bytes. }
  rewrite !Hread. cbn [mbind option_bind]. destruct (read_bytes (int_bytes types) _); [|done].
  cbn [mbind option_bind]. f_equal. apply Z.bits_inj'. intros i Hi. rewrite !Z.lxor_spec.
  rewrite Z.bits_0. repeat destruct (Z.testbit _ i); done.
Qed.

(** Evaluations through the open cache [c]. *)
Context (self : Potential) (c : PotentialCache) (path : string).

Definition cache_open (w : World) : Prop :=
  _cache self <> null /\ cache_objects w !! _cache self = Some c /\ db_ c <> null /\
  handles (engine w) !! db_ c = Some path.

Lemma find_open key w :
  reliable -> cache_open w ->
  exists w1, find (_cache self) key w = Some (stored (engine w) path !! key, w1) /\
    same_objects w w1 /\ registries w1 = registries w /\
    forall q, stored (engine w1) q = stored (engine w) q.
Proof.
  intros Hrel (_ & Hc & Hdb & Hopen). unfold find. rewrite Hc. cbn [mbind option_bind].
  rewrite is_null_false // Hopen. cbn [mbind option_bind].
  destruct (Hrel (engine w) (db_ c) path key [] Hopen) as [_ ->].
  destruct (db_get_spec (engine w) (db_ c) path key Hopen) as (Hh & Hst & _). eexists. by split_and!.
Qed.

(** What is stored under the key of a request is its result. *)
Lemma evaluate_hit rq w h v x :
  reliable -> cache_open w -> hash_of XXH3_64bits (m_type self) rq = Some h ->
  stored (engine w) path !! KeyHash h = Some v ->
  deserialize_hit v f64_zero (AtomMatrix_Zero (rq_n rq) 3) = Some x ->
  exists w1, evaluate_request_cached XXH3_64bits forceImpl self rq w = Some (Ok x, w1) /\
    registries w1 = registries w.
Proof.
  intros Hrel Hopen Hh Hv Hx. unfold evaluate_request_cached, evaluate_cached.
  fold (rq_view rq). unfold hash_of in Hh. rewrite Hh. cbn [mbind option_bind].
  destruct (find_open (KeyHash h) w Hrel Hopen) as (w1 & Hf & _ & Hr & _).
  rewrite -> is_null_false by apply Hopen. rewrite Hf Hv. cbn [mbind option_bind].
  change (m_rows (rq_positions rq)) with (rq_n rq). rewrite Hx. cbn [mbind option_bind]. by exists w1.
Qed.

(** A result that was returned is stored. *)
Lemma evaluate_stores rq w h x w1 :
  reliable -> impl_ok forceImpl -> request_ok rq = true -> cache_open w ->
  hash_of XXH3_64bits (m_type self) rq = Some h ->
  evaluate_request_cached XXH3_64bits forceImpl self rq w = Some (Ok x, w1) ->
  cache_open w1 /\ exists v, stored (engine w1) path !! KeyHash h = Some v /\
    deserialize_hit v f64_zero (AtomMatrix_Zero (rq_n rq) 3) = Some x.
Proof.
  intros Hrel Himpl Hrq Hopen Hh. unfold evaluate_request_cached, evaluate_cached.
  fold (rq_view rq). change (m_rows (rq_positions rq)) with (rq_n rq). unfold hash_of in Hh. rewrite Hh.
  cbn [mbind option_bind].
  destruct (find_open (KeyHash h) w Hrel Hopen) as (w2 & Hf & [Hc2 Hh2] & _ & Hst).
  assert (cache_open w2) as Hopen2 by (unfold cache_open; by rewrite Hc2 Hh2).
  rewrite -> is_null_false by apply Hopen. rewrite Hf. cbn [mbind option_bind].
  destruct (stored (engine w) path !! KeyHash h) as [v|] eqn:Hv.
  - destruct (deserialize_hit v _ _) as [y|] eqn:Hx; [|done]. cbn [mbind option_bind].
    intros [= <- <-]. split; [done|]. exists v. by rewrite Hst.
  - rewrite compute_result //. cbn [mbind option_bind].
    destruct (result_of forceImpl (m_type self) rq) as [[en F]|e] eqn:Hres; [|done]. cbn [is_ok].
    destruct (result_entry forceImpl _ rq en F Himpl Hrq Hres) as [Hser Hde].
    destruct Hopen2 as (Hn & Hc & Hdb & Ho).
    unfold add_serialized. cbn [cache_objects count_force_call engine]. rewrite Hc Hser.
    cbn [mbind option_bind]. rewrite is_null_false // Ho. cbn [mbind option_bind]. intros [= <- <-].
    destruct (db_put_spec (engine w2) (db_ c) path (KeyHash h) (entry en (m_data F)) Ho) as (Hhp & _ & Hput).
    destruct (Hrel (engine w2) (db_ c) path (KeyHash h) (entry en (m_data F)) Ho) as [Hok _].
    split; [split_and!; try done; cbn; by rewrite Hhp|].
    exists (entry en (m_data F)). split; [|by rewrite -(app_nil_r (entry _ _))].
    cbn [engine set_engine]. destruct Hput as [->|[Hno _]]; [apply lookup_insert_eq|congruence].
Qed.

Lemma flatBox_three p : Z.of_nat (length (flatBox p)) = 9.
Proof. by destruct p as [[[[x1 y1] z1] [[x2 y2] z2]] [[x3 y3] z3]]. Qed.

(** C22: The cache confuses positions and box.  The hash of a configuration is the exclusive
    or of the hashes of its parts, so for three atoms, whatever the hash function, the
    configuration with positions and box exchanged has the same key: over a reliable database
    its evaluation returns the result of the other one, and computes nothing. *)
Theorem swapped_configurations_collide (p b : Box3) (types : list Z) (w w1 : World)
    (x : f64 * AtomMatrix)
    (Hrel : reliable) (Himpl : impl_ok forceImpl) (Hopen : cache_open w)
    (Htypes : 3 <= Z.of_nat (length types))
    (Hfirst : evaluate_request_cached XXH3_64bits forceImpl self (three_request p types b) w = Some (Ok x, w1)) :
  exists w2, evaluate_request_cached XXH3_64bits forceImpl self (three_request b types p) w1
    = Some (Ok x, w2) /\ registries w2 = registries w1.
Proof.
  assert (forall q q', request_ok (three_request q types q') = true) as Hrq.
  { intros q q'. unfold request_ok. cbn. pose proof (flatBox_three q). lia. }
  destruct (hash_total XXH3_64bits (m_type self) (three_request p types b) (Hrq p b)) as [h Hh].
  destruct (evaluate_stores _ w h x w1 Hrel Himpl (Hrq p b) Hopen Hh Hfirst) as (Hopen1 & v & Hv & Hx).
  rewrite hash_swapped in Hh. by eapply evaluate_hit.
Qed.
End collisions.

(** C29: Entries of the cache read back.  Serialised energy and forces take 8 bytes and 24
    for each atom, and deserialise, into a matrix of the same dimensions, to the same energy
    and the same forces, bit by bit; a value that is shorter, even with its terminating NUL,
    is read past its end. *)
Theorem cache_entry_round_trip (n : Z) (e e0 : f64) (F forces : AtomMatrix)
    (Hn : 0 <= n < 2 ^ 29) (He : f64_ok e = true)
    (HF : matrix_ok n F = true) (Hforces : matrix_ok n forces = true) :
  exists v, serialize e F = Some v /\ Z.of_nat (length v) = 8 + 24 * n /\
    (forall rest, deserialize_hit (v ++ rest) e0 forces = Some (e, F)) /\
    (forall hit, (S (length hit) < length v)%nat -> deserialize_hit hit e0 forces = None).
Proof.
  destruct (matrix_ok_spec n F Hn HF) as (Hr & Hc & Hl & Hok & _).
  destruct (matrix_ok_spec n forces Hn Hforces) as (Hr' & Hc' & Hl' & _ & _ & Hb').
  exists (entry e (m_data F)).
  assert (Z.of_nat (length (entry e (m_data F))) = 8 + 24 * n) as Hlen.
  { unfold entry. rewrite length_app length_bytes_of_word length_double_bytes. lia. }
  split_and!; [by apply (serialize_entry n)|exact Hlen| |].
  - intros rest. rewrite (deserialize_entry n) //. unfold with_data. rewrite Hr' Hc' -Hr -Hc.
    by destruct F.
  - intros hit Hhit. apply deserialize_short. rewrite Hb'. lia.
Qed.

(** ** Copper and hydrogen *)

Lemma multiset_count_cons z y ys :
  multiset_count z (y :: ys) = (if y =? z then 1 else 0) + multiset_count z ys.
Proof. unfold multiset_count. cbn. destruct (y =? z); cbn [length]; lia. Qed.

Lemma multiset_count_positive z ys : 0 <= multiset_count z ys /\ (0 < multiset_count z ys <-> z ∈ ys).
Proof.
  induction ys as [|y ys [IH0 IH]].
  { change (multiset_count z []) with 0. split; [lia|]. split; [lia|by intros ?%elem_of_nil]. }
  rewrite multiset_count_cons elem_of_cons -IH. destruct (Z.eqb_spec y z); split; lia.
Qed.

(** Two species fill the system exactly when there is no other. *)
Lemma two_species ys :
  multiset_count 29 ys + multiset_count 1 ys <= Z.of_nat (length ys) /\
  (multiset_count 29 ys + multiset_count 1 ys = Z.of_nat (length ys) <->
   Forall (fun z => z = 29 \/ z = 1) ys).
Proof.
  induction ys as [|y ys [IHle IH]]; [by split|].
  rewrite !multiset_count_cons Forall_cons -IH. cbn [length].
  destruct (Z.eqb_spec y 29), (Z.eqb_spec y 1); split; try split; try lia.
Qed.

Definition copper_hydrogen (species : list Z) : bool :=
  bool_decide (29 ∈ species) && bool_decide (1 ∈ species) &&
  forallb (fun z => (z =? 29) || (z =? 1)) species.

(** The two ways in which a system is refused: a species is missing, or, when both are there,
    another one is there as well. *)
Definition cuh2_refusal (species : list Z) : string :=
  if bool_decide (29 ∈ species) && bool_decide (1 ∈ species) then
    "The system has other atom types, but the CuH2 potential was requested"
  else "The system does not have Copper or Hydrogen, but the CuH2 potential was requested".

(** The verdict of the copper-hydrogen potential.  It throws unless the first [nAtoms]
    atomic numbers contain copper, hydrogen and nothing else, with a text that says whether
    a species is missing or another one is there; otherwise the Fortran routine is
    called once, with the numbers of copper and of hydrogen atoms, the number of
    coordinates and the diagonal of the box, and its forces and energy are the result, with
    the variance as it was. *)
Theorem cuh2_verdict
    (c_force_eam : Z * Z -> Z -> f64 * f64 * f64 -> list f64 -> list f64 * f64 -> option (list f64 * f64))
    (fi : InputView) (fo : OutputView) (b : Box3) (Hbox : box fi = flatBox b)
    (HN : 0 <= 3 * nAtoms fi < 2 ^ 31) (Hl : nAtoms fi <= Z.of_nat (length (atmnrs fi))) :
  let species := take (Z.to_nat (nAtoms fi)) (atmnrs fi) in
  CuH2Pot_forceImpl c_force_eam fi fo =
  if copper_hydrogen species then
    r ← c_force_eam (multiset_count 29 species, nAtoms fi - multiset_count 29 species) (3 * nAtoms fi)
          (b.1.1.1.1, b.1.2.1.2, b.2.2) (pos fi) (out_F fo, out_energy fo);
    Some (Ok (MkOutputView r.1 r.2 (out_variance fo)))
  else Some (Err (RuntimeError (cuh2_refusal species))).
Proof.
  intros species. unfold CuH2Pot_forceImpl.
  assert (as_i32 (nAtoms fi) = nAtoms fi) as -> by (apply as_i32_id; unfold is_i32; lia).
  assert (is_i32 (3 * nAtoms fi) = true) as -> by (unfold is_i32; lia).
  cbn [mbind option_bind]. rewrite -> (proj2 (Z.leb_le _ _)) by exact Hl. cbn [mbind option_bind].
  fold species. pose proof (multiset_count_positive 29 species) as [Hp29 H29].
  pose proof (multiset_count_positive 1 species) as [Hp1 H1].
  pose proof (two_species species) as [Hle Hall].
  assert (Z.of_nat (length species) = nAtoms fi) as Hlen by (unfold species; rewrite length_take; lia).
  unfold copper_hydrogen, cuh2_refusal. rewrite -(bool_decide_ext _ _ H29) -(bool_decide_ext _ _ H1).
  destruct (Z.leb_spec (multiset_count 29 species) 0) as [H29'|H29'].
  { rewrite -> bool_decide_false by lia. done. }
  destruct (Z.leb_spec (multiset_count 1 species) 0) as [H1'|H1'].
  { rewrite -> (bool_decide_false (0 < multiset_count 1 species)) by lia. by rewrite andb_false_r. }
  rewrite !bool_decide_true //. cbn [orb andb].
  rewrite -> (as_i32_id (multiset_count 29 species)) by (unfold is_i32; lia).
  rewrite -> (as_i32_id (multiset_count 1 species)) by (unfold is_i32; lia). cbn [fst snd].
  rewrite -> as_i32_id by (unfold is_i32; lia). rewrite -> as_usize_id by (unfold is_usize; lia).
  destruct (Z.eqb_spec (multiset_count 29 species + multiset_count 1 species) (nAtoms fi)) as [E|E]; cbn [negb].
  - replace (multiset_count 1 species) with (nAtoms fi - multiset_count 29 species) by lia.
    assert (forallb (fun z => (z =? 29) || (z =? 1)) species = true) as ->.
    { apply forallb_forall. intros z Hz%list_elem_of_In. rewrite -Hlen in E. apply Hall in E.
      rewrite Forall_forall in E. apply E in Hz. lia. }
    rewrite Hbox. by destruct b as [[[[x1 y1] z1] [[x2 y2] z2]] [[x3 y3] z3]].
  - destruct (forallb _ species) eqn:Hf; [|done]. exfalso. apply E. rewrite -Hlen. apply Hall.
    apply Forall_forall. intros z Hz%list_elem_of_In. rewrite forallb_forall in Hf. apply Hf in Hz. lia.
Qed.

(** A routine that reports what it is called with. *)
Definition report_eam (natms : Z * Z) (ndim : Z) (b : f64 * f64 * f64) (R : list f64)
    (FU : list f64 * f64) : option (list f64 * f64) :=
  Some ([natms.1; natms.2; ndim; b.1.1; b.1.2; b.2], FU.2).
Definition copper_hydride : InputView :=
  MkInputView 2 [0; 0; 0; 1; 1; 1] [1; 29] (flatBox ((7, 0, 0), (0, 8, 0), (0, 0, 9))).

Lemma cuh2_verdict_witness :
  CuH2Pot_forceImpl report_eam copper_hydride (MkOutputView (replicate 6 0) 0 0)
  = Some (Ok (MkOutputView [1; 1; 6; 7; 8; 9] 0 0)).
Proof.
  exact (cuh2_verdict report_eam copper_hydride (MkOutputView (replicate 6 0) 0 0)
    ((7, 0, 0), (0, 8, 0), (0, 0, 9)) eq_refl ltac:(cbn; lia) ltac:(cbn; lia)).
Defined.

(** ** A database in memory *)

Record MapEngine := MkMapEngine {
  me_handles : gmap ptr string;
  me_files : gmap string (gmap string (list Z));
}.

Definition me_stored (e : MapEngine) (path : string) : gmap string (list Z) :=
  default ∅ (me_files e !! path).

(** A path can be opened once at a time. *)
Definition me_open (e : MapEngine) (path : string) (create : bool) : MapEngine * option ptr :=
  if bool_decide (map_Exists (fun _ q => q = path) (me_handles e)) ||
     negb (create || bool_decide (is_Some (me_files e !! path))) then (e, None)
  else
    let h := fresh (null :: (map_to_list (me_handles e)).*1) in
    (MkMapEngine (<[h := path]> (me_handles e)) (me_files e), Some h).

Definition me_put (e : MapEngine) (h : ptr) (k : string) (v : list Z) : MapEngine * bool :=
  match me_handles e !! h with
  | Some path =>
      (MkMapEngine (me_handles e) (<[path := <[k := v]> (me_stored e path)]> (me_files e)), true)
  | None => (e, false)
  end.

Program Definition map_db : RocksDB := {|
  Engine := MapEngine;
  db_open := me_open;
  db_close e h := MkMapEngine (delete h (me_handles e)) (me_files e);
  db_put := me_put;
  db_get e h k := (e, path ← me_handles e !! h; me_stored e path !! k);
  handles := me_handles;
  stored := me_stored;
|}.
Next Obligation.
  intros e path create. unfold me_open. destruct (_ || _); [done|]. cbn. split; [done|].
  set (l := null :: _). pose proof (infinite_is_fresh l) as Hl. unfold l in Hl at 2.
  apply not_elem_of_cons in Hl as [Hn Hl]. split_and!; [done| |done].
  destruct (me_handles e !! fresh l) as [q|] eqn:E; [|done]. exfalso. apply Hl.
  apply list_elem_of_fmap. exists (fresh l, q). split; [done|]. by apply elem_of_map_to_list.
Qed.
Next Obligation. done. Qed.
Next Obligation.
  intros e h path k v Hh. unfold me_put. rewrite Hh. cbn. split; [done|]. unfold me_stored. cbn. split.
  - intros q Hq. by rewrite lookup_insert_ne.
  - left. by rewrite lookup_insert_eq.
Qed.
Next Obligation.
  intros e h path k Hh. cbn. rewrite Hh. cbn. split_and!; [done|done|].
  by destruct (me_stored e path !! k).
Qed.

Lemma map_db_reliable : reliable (rocksdb := map_db).
Proof. intros e h path k v Hh. cbn in *. unfold me_put. by rewrite Hh. Qed.

(** ** Concrete instances *)

Section demo.
#[local] Existing Instance map_db.

(** A hash, and a potential whose energy is the first coordinate. *)
Definition demo_hash (bs : list Z) : Z := foldl (fun h b => as_usize (h * 31 + b + 7)) 17 bs.

Definition demo_impl : PotType -> ForceImpl := fun _ fi fo =>
  match checkParams fi with
  | Err e => Some (Err e)
  | Ok _ => Some (Ok (MkOutputView ((fun _ => f64_zero) <$> out_F fo) (as_usize (hd 0 (pos fi))) f64_zero))
  end.

Lemma demo_impl_ok : impl_ok demo_impl.
Proof.
  intros t rq Hrq. unfold impl_answer, demo_impl. destruct (checkParams _); [|done]. cbn.
  apply request_ok_spec in Hrq as (Hn & _). split_and!.
  - unfold f64_ok, is_usize, as_usize, wrap_unsigned.
    pose proof (Z.mod_pos_bound (hd 0 (m_data (rq_positions rq))) (2 ^ 64) ltac:(lia)). lia.
  - rewrite forallb_forall. intros x (y & Hy & _)%in_map_iff. by subst x.
  - unfold rq_n in *. rewrite length_fmap !length_replicate. rewrite -> as_usize_id by (unfold is_usize; lia).
    lia.
Qed.

Definition rows (x : Z) : Box3 := ((x, 0, 0), (0, x, 0), (0, 0, x)).
Definition demo_self : Potential := MkPotential LJ 1%N.

(** The cache object 1 over a database at [path], and the object 2 without one. *)
Definition demo_world : World :=
  default (MkWorld (MkMapEngine ∅ ∅) ∅ (fun _ => no_objects))
    (PotentialCache_open 1%N "cache" true (MkWorld (MkMapEngine ∅ ∅) ∅ (fun _ => no_objects))
      ≫= PotentialCache_default 2%N).

Definition request_35 : Request := three_request (rows 3) [1; 1; 8] (rows 5).
Definition request_53 : Request := three_request (rows 5) [1; 1; 8] (rows 3).
Definition request_4 : Request := MkRequest (MkAtomMatrix 1 3 [4; 0; 0]) [8] (rows 5).

Definition after_first : World :=
  match evaluate_request_cached demo_hash demo_impl demo_self request_35 demo_world with
  | Some (_, w) => w
  | None => demo_world
  end.

(** Two configurations, also by a potential whose cache has no database. *)
Definition demo_uses : list (PotType * Request) := [(LJ, request_35); (LJ, request_4)].
Definition demo_session : list (Potential * Request) :=
  [(demo_self, request_35); (demo_self, request_4); (demo_self, request_35); (MkPotential LJ 2%N, request_4)].

Lemma demo_hashes_differ : hash_of demo_hash LJ request_35 <> hash_of demo_hash LJ request_4.
Proof. vm_compute. discriminate. Qed.

Lemma demo_collision_free : collision_free demo_hash demo_impl demo_uses.
Proof.
  assert (forall u, u ∈ demo_uses -> u = (LJ, request_35) \/ u = (LJ, request_4)) as Huses.
  { intros u Hu. unfold demo_uses in Hu. set_solver. }
  pose proof demo_hashes_differ as Hne.
  intros u u' h [-> | ->]%Huses [-> | ->]%Huses Hh Hh'; cbn [fst snd] in *; [reflexivity| | |reflexivity];
    exfalso; apply Hne; congruence.
Qed.

Lemma demo_sound : sound demo_hash demo_impl demo_uses (engine demo_world).
Proof. intros path u h v _ _ Hv. cbn in Hv. unfold me_stored in Hv. cbn in Hv. by rewrite lookup_empty in Hv. Qed.

Lemma demo_self_ok : cache_ok demo_world demo_self.
Proof.
  right. exists (MkPotentialCache 1%N true). split; [by vm_compute|].
  right. exists "cache"%string. by vm_compute.
Qed.

Lemma demo_session_ok :
  Forall (fun x => (m_type x.1, x.2) ∈ demo_uses /\ request_ok x.2 = true /\ cache_ok demo_world x.1)
    demo_session.
Proof.
  pose proof demo_self_ok as H1.
  assert (cache_ok demo_world (MkPotential LJ 2%N)) as H2.
  { right. exists (MkPotentialCache 0%N false). split; [by vm_compute|by left]. }
  repeat (apply Forall_cons; split; [split_and!; [set_solver|by vm_compute|done]|]). by apply Forall_nil.
Qed.

Lemma cache_is_transparent_witness :
  exists rs w1 w2,
    evaluations (evaluate_request_cached demo_hash demo_impl) demo_session demo_world = Some (rs, w1) /\
    evaluations (evaluate_request demo_impl) demo_session demo_world = Some (rs, w2) /\
    rs = (fun x => result_of demo_impl (m_type x.1) x.2) <$> demo_session /\
    same_objects demo_world w1 /\ sound demo_hash demo_impl demo_uses (engine w1).
Proof.
  exact (cache_is_transparent demo_hash demo_impl demo_uses demo_session demo_world demo_world
    demo_impl_ok demo_collision_free demo_sound demo_session_ok).
Defined.

(** The session computes three times through the cache, one time of them with the cache that has
    no database, and four times without it. *)
Example session_force_calls :
  (fun r => forceCalls (registries r.2 LJ)) <$>
    evaluations (evaluate_request_cached demo_hash demo_impl) demo_session demo_world = Some 3 /\
  (fun r => forceCalls (registries r.2 LJ)) <$>
    evaluations (evaluate_request demo_impl) demo_session demo_world = Some 4.
Proof. by vm_compute. Qed.

Definition zero_forces : AtomMatrix := AtomMatrix_Zero 3 3.

Lemma demo_cache_open : cache_open demo_self (MkPotentialCache 1%N true) "cache" demo_world.
Proof. split_and!; vm_compute; [discriminate|reflexivity|discriminate|reflexivity]. Qed.

Lemma demo_first_result :
  evaluate_request_cached demo_hash demo_impl demo_self (three_request (rows 3) [1; 1; 8] (rows 5))
    demo_world = Some (Ok (3, zero_forces), after_first).
Proof.
  unfold after_first, request_35.
  assert (fst <$> evaluate_request_cached demo_hash demo_impl demo_self
    (three_request (rows 3) [1; 1; 8] (rows 5)) demo_world = Some (Ok (3, zero_forces))) as H.
  { vm_compute. reflexivity. }
  destruct (evaluate_request_cached _ _ _ _ _) as [[r w]|]; [|discriminate H].
  injection H as ->. reflexivity.
Qed.

Lemma swapped_configurations_collide_witness :
  (exists w2, evaluate_request_cached demo_hash demo_impl demo_self request_53 after_first
     = Some (Ok (3, zero_forces), w2) /\ registries w2 = registries after_first) /\
  result_of demo_impl LJ request_53 = Ok (5, zero_forces).
Proof.
  split; [|vm_compute; reflexivity]. unfold request_53.
  exact (swapped_configurations_collide demo_hash demo_impl demo_self (MkPotentialCache 1%N true) "cache"
    (rows 3) (rows 5) [1; 1; 8] demo_world after_first (3, zero_forces) map_db_reliable demo_impl_ok
    demo_cache_open ltac:(cbn; lia) demo_first_result).
Defined.

Lemma cache_entry_round_trip_witness :
  exists v, serialize 42 zero_forces = Some v /\ Z.of_nat (length v) = 8 + 24 * 3 /\
    (forall rest, deserialize_hit (v ++ rest) 0 zero_forces = Some (42, zero_forces)) /\
    (forall hit, (S (length hit) < length v)%nat -> deserialize_hit hit 0 zero_forces = None).
Proof.
  apply (cache_entry_round_trip 3 42 0 zero_forces zero_forces); [lia|by vm_compute..].
Defined.

(** A copy of a cache that owns its database closes it again. *)
Example copied_cache_closes_twice :
  bool_decide (is_Some (w ← PotentialCache_drop 1%N demo_world; PotentialCache_drop 2%N w)) = true /\
  bool_decide (is_Some (w ← PotentialCache_copy 3%N 1%N demo_world; w ← PotentialCache_drop 3%N w;
    PotentialCache_drop 1%N w)) = false.
Proof. vm_compute. split; reflexivity. Qed.
End demo.
