(* ===== verification/CxxServer.v ===== *)
(** * CxxServer: the RPC server and the C bridge of src/CppCore

    The conversions of capnp_adapter.hpp, the server's [calculate] and the client behind the C
    interface pot_bridge.h.  A Cap'n Proto list is the list of its elements; an element that
    is not there is read out of bounds, which release builds do not check. *)
From Stdlib Require Import ssreflect.
From S2P Require Import Prelude Machine RpcEnv CxxEffects CxxRegistry CxxCore.
Open Scope Z_scope.
#[local] Open Scope general_if_scope.

(** ** capnp_adapter.hpp *)

(** [for (; n > 0; --n, ++i) dst[i] = src[i];] *)
Fixpoint copy_elements (n i : nat) (src dst : list Z) : option (list Z) :=
  match n with
  | O => Some dst
  | S n => x ← src !! i; _ ← dst !! i; copy_elements n (S i) src (<[i := x]> dst)
  end.

Definition convertPositionsFromCapnp (capnpPos : list f64) (numAtoms : Z) : option AtomMatrix :=
  let nativePositions := AtomMatrix_new numAtoms 3 in
  data ← copy_elements (Z.to_nat (as_usize (numAtoms * 3))) 0 capnpPos (m_data nativePositions);
  Some (with_data nativePositions data).

Definition convertAtomNumbersFromCapnp (capnpAtmnrs : list Z) : option (list Z) :=
  copy_elements (length capnpAtmnrs) 0 capnpAtmnrs (replicate (length capnpAtmnrs) 0).

Definition convertBoxMatrixFromCapnp (capnpBox : list f64) : option Box3 :=
  x1 ← capnpBox !! 0%nat; y1 ← capnpBox !! 1%nat; z1 ← capnpBox !! 2%nat;
  x2 ← capnpBox !! 3%nat; y2 ← capnpBox !! 4%nat; z2 ← capnpBox !! 5%nat;
  x3 ← capnpBox !! 6%nat; y3 ← capnpBox !! 7%nat; z3 ← capnpBox !! 8%nat;
  Some ((x1, y1, z1), (x2, y2, z2), (x3, y3, z3)).

Definition populatePositionsToCapnp (capnpPos : list f64) (positions : AtomMatrix) : option (list f64) :=
  copy_elements (Z.to_nat (AtomMatrix_size positions)) 0 (m_data positions) capnpPos.

Definition populateForcesToCapnp (capnpForces : list f64) (forces : AtomMatrix) : option (list f64) :=
  copy_elements (Z.to_nat (AtomMatrix_size forces)) 0 (m_data forces) capnpForces.

Definition populateAtomNumbersToCapnp (capnpAtmnrs atomNumbers : list Z) : option (list Z) :=
  copy_elements (length atomNumbers) 0 atomNumbers capnpAtmnrs.

Definition populateBoxMatrixToCapnp (capnpBox : list f64) (boxMatrix : Box3) : option (list f64) :=
  copy_elements 9 0 (flatBox boxMatrix) capnpBox.

(** A new list builder holds zeros. *)
Definition init_elements (n : Z) : list Z := replicate (Z.to_nat n) 0.

(** ** server.cpp *)

Record Fip := MkFip { fip_pos : list f64; fip_atmnrs : list Z; fip_box : list f64 }.

(** What an RPC gives: energy and forces, or an exception. *)
Definition Reply : Type := Result (f64 * list f64) CxxException.

Section server.
  Context {rocksdb : RocksDB}
    (m_potential : AtomMatrix -> list Z -> Box3 -> World -> option (Evaluation * World)).

(** [GenericPotImpl::calculate]. *)
Definition GenericPotImpl_calculate (fip : Fip) (w : World) : option (Reply * World) :=
  let numAtoms := Z.div (Z.of_nat (length (fip_pos fip))) 3 in
  if negb (Z.of_nat (length (fip_atmnrs fip)) =? numAtoms) then Some (Err OtherException, w)
  else
    nativePositions ← convertPositionsFromCapnp (fip_pos fip) numAtoms;
    nativeAtomTypes ← convertAtomNumbersFromCapnp (fip_atmnrs fip);
    nativeBoxMatrix ← convertBoxMatrixFromCapnp (fip_box fip);
    r ← m_potential nativePositions nativeAtomTypes nativeBoxMatrix w;
    match r with
    | (Ok (energy, forces), w) =>
        forcesList ← populateForcesToCapnp (init_elements (as_usize (numAtoms * 3))) forces;
        Some (Ok (energy, forcesList), w)
    | (Err e, w) => Some (Err e, w)
    end.
End server.

(** ** pot_bridge.cc *)

(** What the macro [CATCH_AND_REPORT] distinguishes. *)
Inductive KjException := StdException (what : string) | NoStdException.

(** A [PotClient]: its [rpc_client], [capability] and [wait_scope] are known by the address that
    they were made for. *)
Record PotClient := MkPotClient { capability : string; last_error : string }.

Record Outputs := MkOutputs { out_energy_ : f64; out_forces_ : list f64 }.

(** [std::string(host) + ":" + std::to_string(port)]. *)
Definition server_address (host : string) (port : Z) : string := host +:+ ":" +:+ pretty port.

(** Making the RPC client for an address may throw ([connect]); it does not reach the server
    yet: the connection is made behind the capability, and its failure is an exception of
    the first call.  The host may be NULL. *)
Definition pot_client_init (connect : string -> bool) (host : option string) (port : Z) :
    option PotClient :=
  match host with
  | None => None
  | Some host =>
      let address := server_address host port in
      if connect address then Some (MkPotClient address "") else None
  end.

(** [pot_client_free], over the clients that C has handles of; a client is deleted once. *)
Definition pot_client_free (client : ptr) (clients : gmap ptr PotClient) : option (gmap ptr PotClient) :=
  if is_null client then Some clients
  else _ ← clients !! client; Some (delete client clients).

Section bridge.
  (* [req.send()] through a capability, and [promise.wait()] *)
  Context {W : Type}
    (send : string -> Fip -> W -> option (Result (f64 * list f64) KjException * W)).

(** What a call leaves: the status, the client, the caller's outputs, the rest of the world. *)
Definition Bridged : Type := Z * option PotClient * Outputs * W.

Definition exception_text (e : KjException) : string :=
  match e with StdException what => what | NoStdException => "Unknown C++ exception" end.

(** [kj::arrayPtr(p, n)], and the copy of its elements into the request. *)
Definition array_view (xs : list Z) (n : Z) : option (list Z) :=
  if as_usize n <=? Z.of_nat (length xs) then Some (take (Z.to_nat (as_usize n)) xs) else None.

Definition pot_calculate (client : option PotClient) (natoms : Z) (pos atmnrs box : list Z)
    (out : Outputs) (w : W) : option Bridged :=
  match client with
  | None => Some (-1, None, out, w)
  | Some client =>
      let reported := MkPotClient (capability client) in
      (* overflow of an [int32_t] product is undefined *)
      n3 ← (if is_i32 (natoms * 3) then Some (natoms * 3) else None);
      pos_view ← array_view pos n3;
      atm_view ← array_view atmnrs natoms;
      box_view ← array_view box 9;
      r ← send (capability client) (MkFip pos_view atm_view box_view) w;
      match r with
      | (Err e, w) => Some (-1, Some (reported (exception_text e)), out, w)
      | (Ok (energy, res_forces), w) =>
          if negb (Z.of_nat (length res_forces) =? as_usize n3) then
            Some (-2, Some (reported "Server returned force array of incorrect size"),
              MkOutputs energy (out_forces_ out), w)
          else
            forces ← copy_elements (length res_forces) 0 res_forces (out_forces_ out);
            Some (0, Some (reported ""), MkOutputs energy forces, w)
      end
  end.

Definition pot_get_last_error (client : option PotClient) : string :=
  match client with
  | None => ""
  | Some c => if bool_decide (last_error c = ""%string) then "" else last_error c
  end.
End bridge.

(** ** The conversions *)

Lemma copy_elements_spec n i src dst :
  (i + n <= length src)%nat -> (i + n <= length dst)%nat ->
  copy_elements n i src dst = Some (take i dst ++ take n (drop i src) ++ drop (i + n) dst).
Proof.
  revert i dst. induction n as [|n IH]; intros i dst Hs Hd; cbn [copy_elements].
  - rewrite Nat.add_0_r take_0 app_nil_l take_drop //.
  - destruct (lookup_lt_is_Some_2 src i ltac:(lia)) as [x Hx].
    destruct (lookup_lt_is_Some_2 dst i ltac:(lia)) as [y Hy].
    rewrite Hx Hy. cbn [mbind option_bind]. rewrite -> IH by (rewrite ?length_insert; lia). f_equal.
    rewrite (drop_S src x i Hx) firstn_cons. rewrite (take_S_r _ i x).
    2: { rewrite list_lookup_insert_eq //. lia. }
    rewrite take_insert_ge //. rewrite -> drop_insert_lt by lia. rewrite -app_assoc. cbn.
    by rewrite Nat.add_succ_r.
Qed.

Lemma copy_elements_all src dst :
  (length src <= length dst)%nat ->
  copy_elements (length src) 0 src dst = Some (src ++ drop (length src) dst).
Proof. intros H. rewrite copy_elements_spec //. by rewrite take_0 drop_0 firstn_all. Qed.

Lemma copy_elements_short n src dst : (length src < n)%nat -> copy_elements n 0 src dst = None.
Proof.
  assert (forall n i dst, (i <= length src < i + n)%nat -> copy_elements n i src dst = None) as H.
  { clear. induction n as [|n IH]; intros i dst Hn; [lia|]. cbn [copy_elements].
    destruct (src !! i) as [x|] eqn:Hx; [|done]. cbn [mbind option_bind].
    destruct (dst !! i); [|done]. cbn [mbind option_bind]. apply IH.
    apply lookup_lt_Some in Hx. lia. }
  intros Hn. apply H. lia.
Qed.
