(* ===== verification/CxxServerTheorems.v ===== *)
(** * CxxServerTheorems: the C++ server and the C bridge

    The conversions read back what they wrote; the server's verdict on every request; and the
    way from a C caller through the bridge, the server and the cached potential and back. *)
From Stdlib Require Import ssreflect.
From S2P Require Import Prelude Machine RpcEnv CxxEffects CxxRegistry CxxCore CxxCoreTheorems CxxServer.
Open Scope Z_scope.
#[local] Open Scope general_if_scope.

(** [lia], after words are seen to be integers. *)
Ltac word_lia := unfold f64 in *; lia.

(** ** Conversions *)

Lemma convert_positions xs n :
  0 <= n < 2 ^ 29 -> 3 * n <= Z.of_nat (length xs) ->
  convertPositionsFromCapnp xs n = Some (MkAtomMatrix n 3 (take (Z.to_nat (3 * n)) xs)).
Proof.
  intros Hn Hl. unfold convertPositionsFromCapnp, AtomMatrix_new. cbn [m_data].
  rewrite -> as_usize_id by (unfold is_usize; word_lia). rewrite (Z.mul_comm n 3).
  rewrite -> copy_elements_spec by (rewrite ?length_replicate; word_lia). cbn [mbind option_bind take app].
  rewrite drop_0. rewrite -> drop_ge by (rewrite length_replicate; word_lia). by rewrite app_nil_r.
Qed.

Lemma convert_numbers xs : convertAtomNumbersFromCapnp xs = Some xs.
Proof.
  unfold convertAtomNumbersFromCapnp. rewrite copy_elements_all ?length_replicate //.
  rewrite -> drop_ge by (rewrite length_replicate; word_lia). by rewrite app_nil_r.
Qed.

Lemma convert_box b rest : convertBoxMatrixFromCapnp (flatBox b ++ rest) = Some b.
Proof. by destruct b as [[[[x1 y1] z1] [[x2 y2] z2]] [[x3 y3] z3]]. Qed.

Lemma convert_box_short xs : (length xs < 9)%nat -> convertBoxMatrixFromCapnp xs = None.
Proof.
  intros H. do 9 (destruct xs as [|? xs]; [done|]). cbn in H. word_lia.
Qed.

(** Nine numbers are a box, and what follows them. *)
Lemma split_box xs : (9 <= length xs)%nat -> exists b rest, xs = flatBox b ++ rest.
Proof.
  intros H. do 9 (destruct xs as [|? xs]; [cbn in H; word_lia|]).
  match goal with |- context [ ?x1 :: ?y1 :: ?z1 :: ?x2 :: ?y2 :: ?z2 :: ?x3 :: ?y3 :: ?z3 :: xs ] =>
    by exists ((x1, y1, z1), (x2, y2, z2), (x3, y3, z3)), xs end.
Qed.

Lemma populate_all builder n m :
  0 <= n < 2 ^ 29 -> m_rows m = n -> m_cols m = 3 -> Z.of_nat (length (m_data m)) = 3 * n ->
  Z.of_nat (length builder) = 3 * n ->
  copy_elements (Z.to_nat (AtomMatrix_size m)) 0 (m_data m) builder = Some (m_data m).
Proof.
  intros Hn Hr Hc Hl Hb. unfold AtomMatrix_size. rewrite Hr Hc.
  rewrite -> as_usize_id by (unfold is_usize; word_lia).
  replace (Z.to_nat (n * 3)) with (length (m_data m)) by word_lia. rewrite -> copy_elements_all by word_lia.
  rewrite -> drop_ge by word_lia. by rewrite app_nil_r.
Qed.

(** The adapters read back what they wrote: positions, atomic numbers and box, whatever the
    builders contained before. *)
Theorem adapters_round_trip (n : Z) (positions : AtomMatrix) (types : list Z) (b : Box3)
    (builder_pos builder_atm builder_box : list Z)
    (Hn : 0 <= n < 2 ^ 29) (Hpos : matrix_ok n positions = true)
    (Hbp : Z.of_nat (length builder_pos) = 3 * n) (Hba : length builder_atm = length types)
    (Hbb : length builder_box = 9%nat) :
  (l ← populatePositionsToCapnp builder_pos positions; convertPositionsFromCapnp l n) = Some positions /\
  (l ← populateAtomNumbersToCapnp builder_atm types; convertAtomNumbersFromCapnp l) = Some types /\
  (l ← populateBoxMatrixToCapnp builder_box b; convertBoxMatrixFromCapnp l) = Some b.
Proof.
  destruct (matrix_ok_spec n positions Hn Hpos) as (Hr & Hc & Hl & _). split_and!.
  - unfold populatePositionsToCapnp. rewrite (populate_all _ n) //. cbn [mbind option_bind].
    rewrite -> convert_positions by word_lia. rewrite -> take_ge by word_lia. rewrite -Hr -Hc. by destruct positions.
  - unfold populateAtomNumbersToCapnp. rewrite -> copy_elements_all by word_lia. cbn [mbind option_bind].
    rewrite -> drop_ge by word_lia. by rewrite app_nil_r convert_numbers.
  - unfold populateBoxMatrixToCapnp.
    assert (length (flatBox b) = 9%nat) as Hf by (pose proof (flatBox_three b); word_lia).
    rewrite -{1}Hf. rewrite -> copy_elements_all by word_lia. cbn [mbind option_bind]. apply convert_box.
Qed.

(** ** The server *)

Section server.
  Context {rocksdb : RocksDB}.

(** A potential whose forces have the dimensions of the positions. *)
Definition shapes_ok (m_potential : AtomMatrix -> list Z -> Box3 -> World -> option (Evaluation * World)) :
    Prop :=
  forall n positions types b w e F w', 0 <= n < 2 ^ 29 -> m_rows positions = n -> m_cols positions = 3 ->
    Z.of_nat (length (m_data positions)) = 3 * n ->
    n <= Z.of_nat (length types) ->
    m_potential positions types b w = Some (Ok (e, F), w') ->
    m_rows F = n /\ m_cols F = 3 /\ Z.of_nat (length (m_data F)) = 3 * n.

Lemma server_evaluates m_potential fip b rest w :
  shapes_ok m_potential -> fip_box fip = flatBox b ++ rest ->
  let n := Z.div (Z.of_nat (length (fip_pos fip))) 3 in
  n < 2 ^ 29 -> Z.of_nat (length (fip_atmnrs fip)) = n ->
  GenericPotImpl_calculate m_potential fip w =
  r ← m_potential (MkAtomMatrix n 3 (take (Z.to_nat (3 * n)) (fip_pos fip))) (fip_atmnrs fip) b w;
  Some (match r.1 with Ok (e, F) => Ok (e, m_data F) | Err e => Err e end, r.2).
Proof.
  intros Hshape Hbox n Hn Ha. unfold GenericPotImpl_calculate. fold n.
  rewrite Ha Z.eqb_refl. cbn [negb].
  assert (0 <= n) by (subst n; apply Z.div_pos; word_lia).
  assert (3 * n <= Z.of_nat (length (fip_pos fip))) as Hlen.
  { pose proof (Z.mul_div_le (Z.of_nat (length (fip_pos fip))) 3 ltac:(word_lia)). subst n. word_lia. }
  rewrite -> convert_positions by word_lia. rewrite convert_numbers Hbox convert_box. cbn [mbind option_bind].
  destruct (m_potential _ _ _ w) as [[[[e F]|e] w']|] eqn:E; try done. cbn [mbind option_bind fst snd].
  apply (Hshape n) in E as (Hr & Hc & Hl); [|word_lia|done|done| |word_lia].
  2: { cbn. rewrite length_take. word_lia. }
  unfold populateForcesToCapnp. rewrite -> (populate_all _ n) by
    (rewrite ?length_replicate; try done; unfold init_elements; rewrite ?length_replicate ?as_usize_id; unfold is_usize; word_lia).
  done.
Qed.

(** C30: The verdict of the C++ server on every request of less than [2^29] coordinates, in a
    release build (which does not check the index of a list).  The number of atoms is a third of
    the number of coordinates, rounded down.  A request with another number of atomic
    numbers is refused without calling the potential; one with fewer than nine box entries
    is read out of bounds; any other one is evaluated on the coordinates of whole atoms, and
    the reply is the potential's energy and forces, or its exception. *)
Theorem cxx_server_verdict
    (m_potential : AtomMatrix -> list Z -> Box3 -> World -> option (Evaluation * World))
    (fip : Fip) (w : World) (Hshape : shapes_ok m_potential)
    (Hpos : Z.of_nat (length (fip_pos fip)) < 2 ^ 29) :
  let n := Z.div (Z.of_nat (length (fip_pos fip))) 3 in
  if negb (Z.of_nat (length (fip_atmnrs fip)) =? n) then
    GenericPotImpl_calculate m_potential fip w = Some (Err OtherException, w)
  else if Nat.ltb (length (fip_box fip)) 9 then GenericPotImpl_calculate m_potential fip w = None
  else exists b rest, fip_box fip = flatBox b ++ rest /\
    GenericPotImpl_calculate m_potential fip w =
    r ← m_potential (MkAtomMatrix n 3 (take (Z.to_nat (3 * n)) (fip_pos fip))) (fip_atmnrs fip) b w;
    Some (match r.1 with Ok (e, F) => Ok (e, m_data F) | Err e => Err e end, r.2).
Proof.
  intros n.
  assert (0 <= n /\ 3 * n <= Z.of_nat (length (fip_pos fip))) as [H0 H3].
  { split; [apply Z.div_pos; word_lia|]. apply (Z.mul_div_le (Z.of_nat (length (fip_pos fip))) 3). word_lia. }
  destruct (Z.eqb_spec (Z.of_nat (length (fip_atmnrs fip))) n) as [Ha|Ha]; cbn [negb].
  - destruct (Nat.ltb_spec (length (fip_box fip)) 9) as [Hb|Hb].
    + unfold GenericPotImpl_calculate. fold n. rewrite Ha Z.eqb_refl. cbn [negb].
      rewrite -> convert_positions by word_lia. by rewrite convert_numbers convert_box_short.
    + destruct (split_box (fip_box fip) Hb) as (b & rest & Hbox). exists b, rest. split; [done|].
      apply (server_evaluates m_potential fip b rest w); [done|done|fold n; word_lia|done].
  - unfold GenericPotImpl_calculate. fold n. by rewrite (proj2 (Z.eqb_neq _ _) Ha).
Qed.
End server.

(** ** The bridge *)

Lemma array_view_take xs n : 0 <= n < 2 ^ 31 -> n <= Z.of_nat (length xs) ->
  array_view xs n = Some (take (Z.to_nat n) xs).
Proof.
  intros Hn Hl. unfold array_view. rewrite -> as_usize_id by (unfold is_usize; lia).
  by rewrite -> (proj2 (Z.leb_le _ _)) by lia.
Qed.

(** What the bridge makes of the reply, for a caller with arrays of the right size. *)
Lemma pot_calculate_reply {W} (send : string -> Fip -> W -> option (Result (f64 * list f64) KjException * W))
    c n pos atmnrs box out w :
  0 <= n -> n * 3 < 2 ^ 31 -> n * 3 <= Z.of_nat (length pos) -> n <= Z.of_nat (length atmnrs) ->
  9 <= Z.of_nat (length box) -> n * 3 <= Z.of_nat (length (out_forces_ out)) ->
  pot_calculate send (Some c) n pos atmnrs box out w =
  r ← send (capability c) (MkFip (take (Z.to_nat (n * 3)) pos) (take (Z.to_nat n) atmnrs) (take 9 box)) w;
  Some (match r.1 with
        | Err e => (-1, Some (MkPotClient (capability c) (exception_text e)), out, r.2)
        | Ok (e, F) =>
            if Z.of_nat (length F) =? n * 3 then
              (0, Some (MkPotClient (capability c) ""), MkOutputs e (F ++ drop (length F) (out_forces_ out)), r.2)
            else (-2, Some (MkPotClient (capability c) "Server returned force array of incorrect size"),
                  MkOutputs e (out_forces_ out), r.2)
        end).
Proof.
  intros H0 H31 Hp Ha Hb Ho. unfold pot_calculate.
  assert (is_i32 (n * 3) = true) as -> by (unfold is_i32; lia). cbn [mbind option_bind].
  rewrite -> (array_view_take pos), (array_view_take atmnrs), (array_view_take box) by word_lia.
  cbn [mbind option_bind]. change (Z.to_nat 9) with 9%nat.
  destruct (send _ _ w) as [[[[e F]|e] w']|]; try done. cbn [mbind option_bind fst snd].
  rewrite -> as_usize_id by (unfold is_usize; lia).
  unfold f64 in *.
  destruct (Z.eqb_spec (Z.of_nat (length F)) (n * 3)) as [HF|HF]; [|done]. cbn [negb].
  rewrite -> copy_elements_all by word_lia. done.
Qed.

Section end_to_end.
  Context {rocksdb : RocksDB} (XXH3_64bits : list Z -> Z) (forceImpl : PotType -> ForceImpl).

Lemma length_doubles_of n bs : length (doubles_of n bs) = n.
Proof. revert bs. induction n; intros bs; cbn; auto. Qed.

Lemma evaluate_cached_shapes self :
  impl_ok forceImpl -> shapes_ok (evaluate_cached XXH3_64bits forceImpl self).
Proof.
  intros Himpl n positions types b w e F w' Hn Hr Hc Hl Ht.
  set (rq := MkRequest positions types b).
  assert (request_ok rq = true) as Hrq by (unfold request_ok, rq_n; cbn; word_lia).
  unfold evaluate_cached. change (input_view positions types b) with (rq_view rq).
  change (m_rows positions) with (rq_n rq). destruct (hash_val _ _ _) as [h|]; [|done]. cbn [mbind option_bind].
  destruct (if is_null (_cache self) then _ else _) as [[[v|] w1]|]; [| |done]; cbn [mbind option_bind].
  - destruct (deserialize_hit v _ _) as [[e' F']|] eqn:Hde; [|done]. cbn [mbind option_bind].
    intros [= -> -> ->]. unfold deserialize_hit in Hde.
    destruct (memcpy (bytes_of_word 8 f64_zero) _ _); [|done]. cbn [mbind option_bind] in Hde.
    destruct (if _ <=? _ then _ else _); [|done]. cbn [mbind option_bind] in Hde.
    destruct (memcpy (double_bytes _) _ _); [|done]. cbn [mbind option_bind] in Hde.
    injection Hde as _ <-. split_and!; [done|done|]. cbn [m_data with_data].
    rewrite length_doubles_of !length_replicate. unfold rq_n. cbn [rq rq_positions].
    rewrite -> as_usize_id by (unfold is_usize; lia). lia.
  - rewrite compute_result //. cbn [mbind option_bind].
    specialize (Himpl (m_type self) rq Hrq). unfold result_of.
    destruct (impl_answer forceImpl (m_type self) rq) as [[fo|ex]|]; [|done..].
    destruct (if is_null (_cache self) then _ else _) as [w2|]; [|done]. cbn [mbind option_bind].
    intros [= _ <- _]. cbn [m_rows m_cols m_data with_data]. destruct Himpl as (_ & _ & HF).
    unfold rq_n in HF. cbn in HF. split_and!; [done|done|lia].
Qed.

(** A network between bridge and server that delivers, whatever the address: requests and
    replies arrive unchanged, exceptions with some text. *)
Definition over_network (text : CxxException -> KjException) (self : Potential) (address : string)
    (fip : Fip) (w : World) :
    option (Result (f64 * list f64) KjException * World) :=
  r ← GenericPotImpl_calculate (evaluate_cached XXH3_64bits forceImpl self) fip w;
  Some (match r.1 with Ok x => Ok x | Err e => Err (text e) end, r.2).

(** C14: A C caller reaches the potential through the bridge.  The bridge's client, a network
    that delivers ([over_network]), the C++ server and a potential with a cache are put
    together, under these conditions: the potential meets its contract ([impl_ok]); among
    the configurations [U] that are evaluated, this one included, no two have the same cache
    key unless their answers are the same ([collision_free]; this does fail for particular
    configurations, such as two whose positions and box are exchanged); what the database
    holds already under the key of a configuration of [U] is its result ([sound]); the
    potential's cache, if it has one, is alive, and so is its database ([cache_ok]); and the
    caller's arrays are as large as they are said to be.  Then the call
    returns 0 with the potential's own energy, its forces in the first three words of each
    atom, and the rest of the buffer as it was; or -1 with the text of the exception and
    untouched outputs when the potential throws.  The message is cleared by a success, and
    the cache stays sound. *)
Theorem bridge_reaches_potential (U : list (PotType * Request)) (text : CxxException -> KjException)
    (self : Potential) (n : Z) (pos atmnrs : list Z) (b : Box3) (rest : list Z)
    (out : Outputs) (client : PotClient) (w : World)
    (Himpl : impl_ok forceImpl) (Hcol : collision_free XXH3_64bits forceImpl U)
    (Hs : sound XXH3_64bits forceImpl U (engine w)) (Hcache : cache_ok w self)
    (Hn : 0 <= n) (H3 : n * 3 < 2 ^ 29)
    (Hpos : n * 3 <= Z.of_nat (length pos)) (Hatm : n <= Z.of_nat (length atmnrs))
    (Hout : n * 3 <= Z.of_nat (length (out_forces_ out))) :
  let rq := MkRequest (MkAtomMatrix n 3 (take (Z.to_nat (n * 3)) pos)) (take (Z.to_nat n) atmnrs) b in
  (m_type self, rq) ∈ U ->
  exists w', pot_calculate (over_network text self) (Some client) n pos atmnrs (flatBox b ++ rest) out w
    = Some (match result_of forceImpl (m_type self) rq with
            | Ok (e, F) =>
                (0, Some (MkPotClient (capability client) ""), MkOutputs e (m_data F ++ drop (Z.to_nat (n * 3)) (out_forces_ out)), w')
            | Err ex => (-1, Some (MkPotClient (capability client) (exception_text (text ex))), out, w')
            end) /\
    same_objects w w' /\ sound XXH3_64bits forceImpl U (engine w').
Proof.
  intros rq HU. pose proof (flatBox_three b) as Hb.
  assert (Z.of_nat (length (take (Z.to_nat (n * 3)) pos)) = n * 3) as Hlp by (rewrite length_take; lia).
  assert (Z.of_nat (length (take (Z.to_nat n) atmnrs)) = n) as Hla by (rewrite length_take; lia).
  assert (request_ok rq = true) as Hrq by (unfold request_ok, rq_n; cbn; word_lia).
  destruct (evaluate_cached_spec XXH3_64bits forceImpl U self rq w Himpl Hcol Hs Hcache HU Hrq)
    as (w' & Hev & Hw & Hs'). unfold evaluate_request_cached in Hev. cbn [rq rq_positions rq_types rq_box] in Hev.
  exists w'. split; [|done].
  rewrite -> pot_calculate_reply by (rewrite ?length_app; word_lia).
  rewrite -> take_app_length' by word_lia. unfold over_network.
  pose proof (server_evaluates _ (MkFip (take (Z.to_nat (n * 3)) pos) (take (Z.to_nat n) atmnrs) (flatBox b))
    b [] w (evaluate_cached_shapes self Himpl)) as Hserver.
  cbn [fip_pos fip_atmnrs fip_box] in Hserver. rewrite app_nil_r in Hserver.
  unfold f64 in Hserver. rewrite Hlp Z.div_mul // in Hserver.
  rewrite -> Hserver by (done || lia). clear Hserver.
  rewrite -> (take_ge (take _ pos)) by lia. rewrite Hev. cbn [mbind option_bind fst snd].
  specialize (Himpl (m_type self) rq Hrq). unfold result_of.
  destruct (impl_answer forceImpl (m_type self) rq) as [[fo|ex]|]; [|done..]. cbn [fst snd m_data with_data].
  destruct Himpl as (_ & _ & HF). unfold rq_n in HF. cbn in HF.
  rewrite -> (proj2 (Z.eqb_eq _ _)) by word_lia.
  by replace (Z.to_nat (n * 3)) with (length (out_F fo)) by word_lia.
Qed.
End end_to_end.

(** ** Concrete instances *)

Section demo.
#[local] Existing Instance map_db.

Lemma adapters_round_trip_witness :
  (l ← populatePositionsToCapnp (replicate 3 0) (MkAtomMatrix 1 3 [1; 2; 3]);
     convertPositionsFromCapnp l 1) = Some (MkAtomMatrix 1 3 [1; 2; 3]) /\
  (l ← populateAtomNumbersToCapnp [0] [29]; convertAtomNumbersFromCapnp l) = Some [29] /\
  (l ← populateBoxMatrixToCapnp (replicate 9 7) (rows 5); convertBoxMatrixFromCapnp l) = Some (rows 5).
Proof.
  exact (adapters_round_trip 1 (MkAtomMatrix 1 3 [1; 2; 3]) [29] (rows 5) (replicate 3 0) [0] (replicate 9 7)
    ltac:(lia) eq_refl eq_refl eq_refl eq_refl).
Defined.

Definition demo_server_potential := evaluate_cached demo_hash demo_impl demo_self.

(** A box of three numbers. *)
Lemma cxx_server_verdict_witness :
  GenericPotImpl_calculate demo_server_potential (MkFip [4; 0; 0] [8] [5; 5; 5]) demo_world = None.
Proof.
  exact (cxx_server_verdict demo_server_potential (MkFip [4; 0; 0] [8] [5; 5; 5]) demo_world
    (evaluate_cached_shapes demo_hash demo_impl demo_self demo_impl_ok) ltac:(cbn; lia)).
Defined.

Definition some_text (e : CxxException) : KjException := StdException "remote exception".

Lemma bridge_reaches_potential_witness :
  exists w', pot_calculate (over_network demo_hash demo_impl some_text demo_self) (Some (MkPotClient "localhost:12345" "old")) 1
      [4; 0; 0; 9] [8; 8] (flatBox (rows 5) ++ [1]) (MkOutputs 0 [7; 7; 7; 7]) demo_world
    = Some (0, Some (MkPotClient "localhost:12345" ""), MkOutputs 4 [0; 0; 0; 7], w') /\
    same_objects demo_world w' /\ sound demo_hash demo_impl demo_uses (engine w').
Proof.
  exact (bridge_reaches_potential demo_hash demo_impl demo_uses some_text demo_self 1 [4; 0; 0; 9] [8; 8]
    (rows 5) [1] (MkOutputs 0 [7; 7; 7; 7]) (MkPotClient "localhost:12345" "old") demo_world demo_impl_ok
    demo_collision_free demo_sound demo_self_ok
    ltac:(lia) ltac:(lia) ltac:(cbn; lia) ltac:(cbn; lia) ltac:(cbn; lia)
    ltac:(apply list_elem_of_further, list_elem_of_here)).
Defined.
End demo.
