(* ===== verification/CxxEquivalence.v ===== *)
(** * CxxEquivalence: the C++ server and the Rust server

    The same potential behind the two servers of the repository: [GenericPotImpl] of the C++
    core calls it on values; the server of the crate calls it through the callback interface
    and the trampoline.  They give the same reply to every request with atoms. *)
From S2P Require Import Prelude Machine Objects Memory HeapLogic Status Strides Tensor TensorSpec.
From S2P Require Import ForceTypes Potential Utf8 RpcEnv RpcClient RpcServer RpcSpec Environment.
From S2P Require Import Callbacks RpcTheorems.
From S2P Require Import CxxEffects CxxWrappers CxxSpec CxxTrampoline CxxTheorems.
From S2P Require Import CxxRegistry CxxCore CxxCoreTheorems CxxServer CxxServerTheorems.
From iris.proofmode Require Import proofmode.
Open Scope Z_scope.

Section servers.
  Context {profile : Target} {dlpack : Dlpack} {ccode : CCode}
    {errors : CapnpErrors} {lists : CapnpLists} {network : Network} {runtime : CxxRuntime}
    {rocksdb : RocksDB} (forceImpl : PotType -> ForceImpl).

(** A configuration as the request of either server. *)
Definition fip_of (c : Config) : Fip := MkFip (cf_positions c) (cf_atomic_numbers c) (cf_box c).
Definition request_of (c : Config) (b : Box3) : Request :=
  MkRequest (MkAtomMatrix (cf_n c) 3 (cf_positions c)) (cf_atomic_numbers c) b.

(** What the potential computes, for the calls through pointers. *)
Definition computed_value (t : PotType) (rq : Request) : Computed :=
  match impl_answer forceImpl t rq with
  | Some (Ok fo) => Some (out_energy fo, out_variance fo, out_F fo)
  | _ => None
  end.

Definition same_reply (reply : Reply) (r : Result CalculateResults CapnpError) : Prop :=
  match reply with
  | Ok (e, F) => exists res, r = Ok res /\ res_energy res = e /\ list_values (res_forces res) = F
  | Err _ => r = Err (CapnpError_failed "potential callback returned an error")
  end.

Lemma config_request_ok c b : config_ok c = true -> request_ok (request_of c b) = true.
Proof.
  intros (Hp & _ & H0 & H3)%config_ok_spec. unfold request_ok, rq_n, request_of, cf_n in *.
  cbn in *. word_lia.
Qed.

Lemma evaluate_shapes self : impl_ok forceImpl -> shapes_ok (evaluate forceImpl self).
Proof.
  intros Himpl n positions types b w e F w' Hn Hr Hc Hl Ht.
  set (rq := MkRequest positions types b).
  assert (request_ok rq = true) as Hrq by (unfold request_ok, rq_n; cbn; word_lia).
  change (evaluate forceImpl self positions types b w) with (evaluate_request forceImpl self rq w).
  rewrite evaluate_spec //. specialize (Himpl (m_type self) rq Hrq). unfold result_of.
  destruct (impl_answer forceImpl (m_type self) rq) as [[fo|ex]|]; [|done..].
  intros [= _ <- _]. destruct Himpl as (_ & _ & HF). unfold rq_n in HF. cbn in HF.
  cbn [m_rows m_cols m_data with_data]. split_and!; [done|done|lia].
Qed.

Lemma cxx_server_reply self c b w :
  impl_ok forceImpl -> config_ok c = true -> cf_box c = flatBox b ->
  exists w', GenericPotImpl_calculate (evaluate forceImpl self) (fip_of c) w
    = Some (match computed_value (m_type self) (request_of c b) with
            | Some (e, _, F) => Ok (e, F)
            | None => match result_of forceImpl (m_type self) (request_of c b) with
                      | Err ex => Err ex | Ok _ => Err OtherException end
            end, w').
Proof.
  intros Himpl Hc Hb. pose proof (config_ok_spec c Hc) as (Hp & _ & H0 & H3).
  pose proof (server_evaluates (evaluate forceImpl self) (fip_of c) b [] w (evaluate_shapes self Himpl)) as H.
  cbn [fip_of fip_pos fip_atmnrs fip_box] in H. rewrite Hb app_nil_r Hp in H.
  rewrite (Z.mul_comm 3) Z.div_mul // in H. rewrite H //; [|lia].
  rewrite take_ge; [|lia].
  change (evaluate forceImpl self _ _ _ w) with (evaluate_request forceImpl self (request_of c b) w).
  pose proof (config_request_ok c b Hc) as Hrq.
  rewrite evaluate_spec //. specialize (Himpl (m_type self) _ Hrq). unfold result_of, computed_value.
  destruct (impl_answer forceImpl (m_type self) (request_of c b)) as [[fo|ex]|]; [|by eexists|done].
  by eexists.
Qed.

(** C8: The C++ server and the Rust server give the same reply.  One potential is called by
    the C++ server on values, and by the Rust server through the callback and the trampoline.
    For every configuration with atoms (or without, if an empty vector has a
    buffer) both replies carry the same energy and forces, or
    both are errors, and the Rust server gives back what the potential works with. *)
Theorem cxx_server_equals_rust_server (R : mProp) (force : ptr -> ForceInput -> ptr -> X unit)
    (tramp : fnptr) (impl : ptr) (self : Potential) (c : Config) (b : Box3) (t : thread_id) (w : World)
    (Htramp : registered force tramp) (Hc : atoms_ok c = true) (Hb : cf_box c = flatBox b)
    (Himpl : impl_ok forceImpl)
    (Hforce : legacy_computes R force impl c (computed_value (m_type self) (request_of c b))) :
  exists reply w', GenericPotImpl_calculate (evaluate forceImpl self) (fip_of c) w = Some (reply, w') /\
    (R ⊢ wp t (PotentialServer_calculate (MkPotentialServer tramp impl) (params_of c))
       (fun r => R ∗ <affine> ⌜same_reply reply r⌝)).
Proof.
  pose proof (atoms_ok_spec c Hc) as [Hok _].
  destruct (cxx_server_reply self c b w Himpl Hok Hb) as [w' Hreply].
  eexists _, w'. split; [exact Hreply|].
  pose proof (trampoline_answers force tramp R impl c _ Htramp Hc Hforce) as Hcb.
  iIntros "HR".
  iApply (wp_use with "HR"); [by apply (PotentialServer_calculate_spec t R (MkPotentialServer tramp impl))|].
  iIntros (r) "[$ (%st & %e & %F & %H)]". iPureIntro. destruct H as [Hans Hr].
  unfold computed_answer, reply_is in *.
  destruct (computed_value _ _) as [[[e' v'] F']|].
  - destruct Hans as (-> & -> & -> & _). by case_decide.
  - destruct Hans as [-> _]. case_decide; [done|]. by destruct (result_of _ _ _).
Qed.
End servers.

(** ** The demonstration potential, on values *)

Section demo.
#[local] Existing Instances debug_profile dlpack_header text_errors plain_lists desktop_runtime
  legacy_c legacy_network map_db.

Definition demo_value : PotType -> ForceImpl := fun _ fi fo =>
  if existsb (fun z => z <? 0) (atmnrs fi) then Some (Err OtherException)
  else Some (Ok (MkOutputView (as_usize <$> take (Z.to_nat (3 * nAtoms fi)) (pos fi)) 42 7)).

Lemma demo_value_ok : impl_ok demo_value.
Proof.
  intros t rq Hrq. unfold impl_answer, demo_value. destruct (existsb _ _); [done|]. cbn.
  apply request_ok_spec in Hrq as (Hn & Hl & _). split_and!; [done| |].
  - rewrite forallb_forall. intros x (y & <- & _)%in_map_iff. unfold f64_ok, is_usize, as_usize, wrap_unsigned.
    pose proof (Z.mod_pos_bound y (2 ^ 64) ltac:(lia)). lia.
  - unfold rq_n in *. rewrite length_fmap length_take. word_lia.
Qed.

Lemma cxx_server_equals_rust_server_witness :
  exists reply w', GenericPotImpl_calculate (evaluate demo_value demo_self) (fip_of demo_config) demo_world
      = Some (reply, w') /\
    (emp ⊢ wp 0%N (PotentialServer_calculate legacy_server (params_of demo_config))
       (fun r => emp ∗ <affine> ⌜same_reply reply r⌝)).
Proof.
  exact (cxx_server_equals_rust_server demo_value emp demo_force 1%N null demo_self demo_config (rows 1)
    0%N demo_world demo_registered eq_refl eq_refl demo_value_ok (demo_force_computes null demo_config eq_refl)).
Defined.
End demo.
