(* ===== verification/FloatArith.v ===== *)
(** * FloatArith: the arithmetic of a C++ [double]

    An interface to the operations that numeric code uses, and its instance on IEEE 754
    binary64: a [double] is its bit pattern, as everywhere in this library, and the operations
    are those of the Standard Library's specification of binary floating point, rounding to
    nearest, ties to even.  [floor] is exact.  [pow] of libm is not determined by the standard
    and stays a parameter. *)
From Stdlib Require Import Floats.SpecFloat.
From S2P Require Import Prelude Machine.
Open Scope Z_scope.

(** ** The interface *)

Class Arithmetic := {
  num : Type;
  of_int : Z -> num;
  one_half : num;
  fadd : num -> num -> num;
  fsub : num -> num -> num;
  fmul : num -> num -> num;
  fdiv : num -> num -> num;
  fltb : num -> num -> bool;
  fleb : num -> num -> bool;
  feqb : num -> num -> bool;
  fabs : num -> num;
  flowest : num;
  ffloor : num -> num;
  fsqrt : num -> num;
  fpow : num -> num -> num;
}.

Declare Scope num_scope.
Delimit Scope num_scope with num.
Bind Scope num_scope with num.
Notation "x + y" := (fadd x y) : num_scope.
Notation "x - y" := (fsub x y) : num_scope.
Notation "x * y" := (fmul x y) : num_scope.
Notation "x / y" := (fdiv x y) : num_scope.
Notation "x <? y" := (fltb x y) : num_scope.
Notation "x <=? y" := (fleb x y) : num_scope.
Notation "x =? y" := (feqb x y) : num_scope.

(** ** IEEE 754 binary64 *)

Definition prec : Z := 53.
Definition emax : Z := 1024.

Definition decode (z : Z) : spec_float :=
  let s := Z.testbit z 63 in
  let e := (z / 2 ^ 52) mod 2 ^ 11 in
  let m := z mod 2 ^ 52 in
  if e =? 2047 then (if m =? 0 then S754_infinity s else S754_nan)
  else if e =? 0 then (if m =? 0 then S754_zero s else S754_finite s (Z.to_pos m) (-1074))
  else S754_finite s (Z.to_pos (m + 2 ^ 52)) (e - 1075).

Definition sign_bit (s : bool) : Z := if s then 2 ^ 63 else 0.

(** A NaN that an operation makes is the quiet one. *)
Definition pattern (x : spec_float) : Z :=
  match x with
  | S754_zero s => sign_bit s
  | S754_infinity s => sign_bit s + 2047 * 2 ^ 52
  | S754_nan => 2047 * 2 ^ 52 + 2 ^ 51
  | S754_finite s m e =>
      if Z.pos m <? 2 ^ 52 then sign_bit s + Z.pos m
      else sign_bit s + (e + 1075) * 2 ^ 52 + (Z.pos m - 2 ^ 52)
  end.

Definition encode (x : spec_float) : Z := as_usize (pattern x).

(** The largest integer that is not above [x]. *)
Definition SFfloor (x : spec_float) : spec_float :=
  match x with
  | S754_finite s m e =>
      if 0 <=? e then x
      else binary_normalize prec emax (Z.shiftr (cond_Zopp s (Z.pos m)) (- e)) 0 s
  | _ => x
  end.

Definition of_Z (z : Z) : Z := encode (binary_normalize prec emax z 0 false).

#[export] Instance binary64 (pow : Z -> Z -> Z) : Arithmetic := {|
  num := Z;
  of_int := of_Z;
  one_half := encode (binary_normalize prec emax 1 (-1) false);
  fadd x y := encode (SFadd prec emax (decode x) (decode y));
  fsub x y := encode (SFsub prec emax (decode x) (decode y));
  fmul x y := encode (SFmul prec emax (decode x) (decode y));
  fdiv x y := encode (SFdiv prec emax (decode x) (decode y));
  fltb x y := SFltb (decode x) (decode y);
  fleb x y := SFleb (decode x) (decode y);
  feqb x y := SFeqb (decode x) (decode y);
  fabs x := encode (SFabs (decode x));
  flowest := encode (S754_finite true (2 ^ 53 - 1) 971);
  ffloor x := encode (SFfloor (decode x));
  fsqrt x := encode (SFsqrt prec emax (decode x));
  fpow := pow;
|}.

Example one_third : fdiv (Arithmetic := binary64 (fun x _ => x)) (of_Z 1) (of_Z 3) = 0x3fd5555555555555.
Proof. reflexivity. Qed.
Example floor_of_minus_half :
  ffloor (Arithmetic := binary64 (fun x _ => x)) 0xbfe0000000000000 = of_Z (-1).
Proof. reflexivity. Qed.
Example root_of_two : fsqrt (Arithmetic := binary64 (fun x _ => x)) (of_Z 2) = 0x3ff6a09e667f3bcd.
Proof. reflexivity. Qed.
Example zero_is_all_zeros : of_Z 0 = 0.
Proof. reflexivity. Qed.

(** ** Doubles and their bit patterns *)

Lemma digits2_pos_bounds (m : positive) :
  2 ^ (Z.pos (digits2_pos m) - 1) <= Z.pos m < 2 ^ Z.pos (digits2_pos m).
Proof.
  induction m as [m IH | m IH |]; simpl digits2_pos; [| | simpl; lia].
  all: rewrite Pos2Z.inj_succ; replace (Z.succ _ - 1) with (Z.succ (Z.pos (digits2_pos m) - 1)) by lia.
  all: rewrite !Z.pow_succ_r by lia; lia.
Qed.

(** A mantissa of a [double] either fills its 53 bits or has the least exponent. *)
Lemma bounded_mantissa (m : positive) (e : Z) :
  bounded prec emax m e = true ->
  Z.pos m < 2 ^ 52 /\ e = -1074 \/ 2 ^ 52 <= Z.pos m < 2 ^ 53 /\ -1074 <= e <= 971.
Proof.
  unfold bounded, canonical_mantissa, fexp, emin, prec, emax.
  intros [H1 H2]%andb_prop. apply Z.eqb_eq in H1. apply Z.leb_le in H2.
  pose proof (digits2_pos_bounds m) as [L U]. set (d := Z.pos (digits2_pos m)) in *.
  destruct (decide (d <= 52)) as [Hd | Hd].
  - left. pose proof (Z.pow_le_mono_r 2 d 52). lia.
  - assert (d <= 53) by lia. pose proof (Z.pow_le_mono_r 2 d 53).
    destruct (decide (d = 53)) as [-> |]; [|lia]. right. lia.
Qed.

Lemma sign_of_pattern (s : bool) (low : Z) :
  0 <= low < 2 ^ 63 -> Z.testbit (sign_bit s + low) 63 = s.
Proof.
  intros H. rewrite Z.testbit_eqb by lia. unfold sign_bit. destruct s.
  - replace ((2 ^ 63 + low) / 2 ^ 63) with 1; [done|].
    rewrite <- (Z.mul_1_l (2 ^ 63)) at 1. rewrite Z.div_add_l, Z.div_small; lia.
  - rewrite Z.add_0_l, Z.div_small; [done | lia].
Qed.

(** The three fields of a pattern. *)
Lemma fields_of_pattern (s : bool) (e m : Z) :
  0 <= e < 2 ^ 11 -> 0 <= m < 2 ^ 52 ->
  let z := sign_bit s + e * 2 ^ 52 + m in
  Z.testbit z 63 = s /\ (z / 2 ^ 52) mod 2 ^ 11 = e /\ z mod 2 ^ 52 = m.
Proof.
  intros He Hm z. subst z. repeat split.
  - rewrite <- Z.add_assoc. apply sign_of_pattern. lia.
  - replace (sign_bit s + e * 2 ^ 52 + m) with ((e + (if s then 1 else 0) * 2 ^ 11) * 2 ^ 52 + m)
      by (destruct s; unfold sign_bit; lia).
    rewrite Z.div_add_l by lia. rewrite (Z.div_small m), Z.add_0_r by lia.
    rewrite Z_mod_plus_full, Z.mod_small; lia.
  - replace (sign_bit s + e * 2 ^ 52 + m) with (m + (e + (if s then 1 else 0) * 2 ^ 11) * 2 ^ 52)
      by (destruct s; unfold sign_bit; lia).
    rewrite Z_mod_plus_full, Z.mod_small; lia.
Qed.

Lemma decode_pattern (s : bool) (e m : Z) :
  0 <= e < 2 ^ 11 -> 0 <= m < 2 ^ 52 ->
  decode (sign_bit s + e * 2 ^ 52 + m) =
  (if e =? 2047 then (if m =? 0 then S754_infinity s else S754_nan)
   else if e =? 0 then (if m =? 0 then S754_zero s else S754_finite s (Z.to_pos m) (-1074))
   else S754_finite s (Z.to_pos (m + 2 ^ 52)) (e - 1075)).
Proof.
  intros He Hm. pose proof (fields_of_pattern s e m He Hm) as (H1 & H2 & H3).
  unfold decode. by rewrite H1, H2, H3.
Qed.

Lemma pattern_is_word (x : spec_float) : valid_binary prec emax x = true -> is_usize (pattern x) = true.
Proof.
  destruct x as [s | s | | s m e]; [by destruct s | by destruct s | done |].
  intros H. destruct (bounded_mantissa m e H) as [[Hm ->] | [Hm He]]; unfold pattern, is_usize;
    destruct (Z.ltb_spec (Z.pos m) (2 ^ 52)); destruct s; simpl sign_bit; lia.
Qed.

Lemma encode_is_word (x : spec_float) : is_usize (encode x) = true.
Proof. unfold is_usize, encode, as_usize, wrap_unsigned. pose proof (Z.mod_pos_bound (pattern x) (2 ^ 64)). lia. Qed.

(** Every double has a bit pattern of its own. *)
Theorem decode_encode (x : spec_float) (H : valid_binary prec emax x = true) : decode (encode x) = x.
Proof.
  destruct x as [s | s | | s m e]; [by destruct s | by destruct s | done |].
  simpl in H. unfold encode. rewrite as_usize_id by (by apply pattern_is_word).
  destruct (bounded_mantissa m e H) as [[Hm ->] | [Hm He]]; unfold pattern.
  - destruct (Z.ltb_spec (Z.pos m) (2 ^ 52)); [|lia].
    rewrite <- (Z.add_0_r (sign_bit s)). rewrite <- (Z.mul_0_l (2 ^ 52)).
    rewrite decode_pattern by lia. done.
  - destruct (Z.ltb_spec (Z.pos m) (2 ^ 52)); [lia|].
    rewrite decode_pattern by lia.
    destruct (Z.eqb_spec (e + 1075) 2047); [lia|]. destruct (Z.eqb_spec (e + 1075) 0); [lia|].
    f_equal; [|lia]. by rewrite Z.sub_add.
Qed.

(** Every pattern is that of its double; all NaNs are one double. *)
Theorem encode_decode (z : Z) (Hz : 0 <= z < 2 ^ 64) (Hn : decode z <> S754_nan) :
  encode (decode z) = z.
Proof.
  assert (exists s e m, 0 <= e < 2 ^ 11 /\ 0 <= m < 2 ^ 52 /\ z = sign_bit s + e * 2 ^ 52 + m)
    as (s & e & m & He & Hm & ->).
  { exists (negb (z <? 2 ^ 63)), ((z / 2 ^ 52) mod 2 ^ 11), (z mod 2 ^ 52).
    pose proof (Z.mod_pos_bound (z / 2 ^ 52) (2 ^ 11)).
    pose proof (Z.mod_pos_bound z (2 ^ 52)).
    repeat split; try lia.
    pose proof (Z.div_mod z (2 ^ 52)) as E.
    pose proof (Z.div_mod (z / 2 ^ 52) (2 ^ 11)) as E'.
    destruct (Z.ltb_spec z (2 ^ 63)); simpl; lia. }
  unfold encode. enough (pattern (decode (sign_bit s + e * 2 ^ 52 + m)) = sign_bit s + e * 2 ^ 52 + m) as ->
    by (apply as_usize_id; unfold is_usize; lia).
  rewrite decode_pattern in Hn |- * by lia.
  destruct (Z.eqb_spec e 2047) as [-> |].
  - destruct (Z.eqb_spec m 0) as [E |]; [subst m; simpl; lia | done].
  - destruct (Z.eqb_spec e 0) as [-> |].
    + destruct (Z.eqb_spec m 0) as [E |]; [subst m; simpl; lia |].
      unfold pattern. rewrite Z2Pos.id by lia. destruct (Z.ltb_spec m (2 ^ 52)); lia.
    + unfold pattern. rewrite Z2Pos.id by lia. destruct (Z.ltb_spec (m + 2 ^ 52) (2 ^ 52)); lia.
Qed.
