(* ===== verification/LennardJones.v ===== *)
(** * LennardJones: the Lennard-Jones potential of src/CppCore

    LJPot.hpp and LJPot.cc over any arithmetic.  The arrays are lists read and written by
    index; [None] is undefined behaviour: an index outside its array, an [int] that overflows,
    or a read of a member that has no value.  The forces do not overlap the inputs. *)
From Stdlib Require Import ssreflect.
From S2P Require Import Prelude Machine FloatArith CxxCore.
Open Scope Z_scope.
#[local] Open Scope general_if_scope.

(** ** Arrays and loops *)

(** An index of type [int].  Where [3 * i + c] fits, so does [3 * i]. *)
Definition int_index (e : Z) : option nat :=
  if is_i32 e && (0 <=? e) then Some (Z.to_nat e) else None.
Definition element {A} (l : list A) (e : Z) : option A := k ← int_index e; l !! k.
(** [l[e] = f(l[e])]. *)
Definition update {A} (f : A -> A) (l : list A) (e : Z) : option (list A) :=
  k ← int_index e; x ← l !! k; Some (<[k := f x]> l).

(** [for (int k = i; k < i + n; k++) body]. *)
Fixpoint for_int {S} (n : nat) (i : Z) (body : Z -> S -> option S) (s : S) : option S :=
  match n with
  | O => Some s
  | S n => s ← body i s; for_int n (i + 1) body s
  end.

Section LJPot.
Context {arith : Arithmetic}.
#[local] Open Scope num_scope.

(** The constructor gives no value to [cuttOffU]. *)
Record LJPot := MkLJPot { u0 : num; cuttOffR : num; psi : num; cuttOffU : option num }.
Definition LJPot_new : LJPot := MkLJPot (of_int 1) (of_int 15) (of_int 1) None.

(** The forces and the energy while the loops run. *)
Record Sums := MkSums { sum_F : list num; sum_U : num }.

(** [F[3 * i] = 0; F[3 * i + 1] = 0; F[3 * i + 2] = 0;]. *)
Definition zero_atom (i : Z) (F : list num) : option (list num) :=
  let zero := fun _ => of_int 0 in
  F ← update zero F (3 * i); F ← update zero F (3 * i + 1); update zero F (3 * i + 2).

Definition difference (R : list num) (i j c : Z) : option num :=
  x ← element R (3 * i + c); y ← element R (3 * j + c); Some (x - y).

(** One direction of the minimum image convention. *)
Definition minimum_image (d L : num) : num := d - L * ffloor (d / L + one_half).

Definition length3 (x y z : num) : num := fsqrt (x * x + y * y + z * z).

(** The forces of one pair on one of its atoms. *)
Definition push (op : num -> num -> num) (F : list num) (i : Z) (dU diffR : num)
    (d : num * num * num) : option (list num) :=
  let '(x, y, z) := d in
  F ← update (fun f => op f (dU * x / diffR)) F (3 * i);
  F ← update (fun f => op f (dU * y / diffR)) F (3 * i + 1);
  update (fun f => op f (dU * z / diffR)) F (3 * i + 2).

(** The body of the inner loop. *)
Definition pair_step (self : LJPot) (R box : list num) (i j : Z) (s : Sums) : option Sums :=
  dx ← difference R i j 0; dy ← difference R i j 1; dz ← difference R i j 2;
  b0 ← element box 0; b4 ← element box 4; b8 ← element box 8;
  let diffRX := minimum_image dx b0 in
  let diffRY := minimum_image dy b4 in
  let diffRZ := minimum_image dz b8 in
  let diffR := length3 diffRX diffRY diffRZ in
  if diffR <? cuttOffR self then
    let a := fpow (psi self / diffR) (of_int 6) in
    let b := of_int 4 * u0 self * a in
    shift ← cuttOffU self;
    let U := sum_U s + b * (a - of_int 1) - shift in
    let dU := of_int (-6) * b / diffR * (of_int 2 * a - of_int 1) in
    F ← push fsub (sum_F s) i dU diffR (diffRX, diffRY, diffRZ);
    F ← push fadd F j dU diffR (diffRX, diffRY, diffRZ);
    Some (MkSums F U)
  else Some s.

Definition pair_loops (self : LJPot) (N : Z) (R box : list num) (s : Sums) : option Sums :=
  if is_i64 (N - 1) then
    for_int (Z.to_nat (N - 1)%Z) 0
      (fun i => for_int (Z.to_nat (N - (i + 1))%Z) (i + 1)%Z (pair_step self R box i)) s
  else None.

(** [LJPot::forceImpl] on the arrays of its arguments. *)
Definition LJ_force (self : LJPot) (nAtoms : Z) (R box F : list num) : option Sums :=
  let N := as_i64 nAtoms in
  F ← for_int (Z.to_nat N) 0 zero_atom F;
  pair_loops self N R box (MkSums F (of_int 0)).
End LJPot.

(** [LJPot::forceImpl] on doubles, with the [pow] of libm. *)
Definition LJPot_forceImpl (pow : f64 -> f64 -> f64) (self : @LJPot (binary64 pow)) : ForceImpl :=
  fun in_ out =>
    r ← @LJ_force (binary64 pow) self (nAtoms in_) (pos in_) (box in_) (out_F out);
    Some (Ok (MkOutputView (@sum_F (binary64 pow) r) (@sum_U (binary64 pow) r) (out_variance out))).
