(* ===== verification/LennardJonesTheorems.v ===== *)
(** * LennardJonesTheorems: what the loops of LJPot.cc compute

    Over any arithmetic: the reference [lj_reference] gives the force on one atom as the sum
    over the other atoms and the energy as the sum over the pairs, in the order of the loops,
    and the loops over flat arrays compute exactly that, rounding included.  Then what an
    [LJPot] without a value for [cuttOffU] does. *)
From Stdlib Require Import ssreflect.
From S2P Require Import Prelude Machine FloatArith CxxRegistry CxxCore CxxCoreTheorems LennardJones.
Open Scope Z_scope.
#[local] Open Scope general_if_scope.

(** ** Loops as folds *)

(** A loop whose body fails at some iterations, whatever the state, and else is a function. *)
Lemma for_int_fold {S} (P : S -> Prop) (bad : nat -> bool) (f : nat -> S -> S)
    (body : Z -> S -> option S) (n i : nat) (s : S) (Hs : P s)
    (Hbody : forall k s, (i <= k < i + n)%nat -> P s ->
      body (Z.of_nat k) s = (if bad k then None else Some (f k s)) /\ P (f k s)) :
  for_int n (Z.of_nat i) body s =
    (if existsb bad (seq i n) then None else Some (fold_left (fun s k => f k s) (seq i n) s)) /\
  P (fold_left (fun s k => f k s) (seq i n) s).
Proof.
  revert i s Hs Hbody; induction n as [|n IH]; intros i s Hs Hbody; [done|]. simpl.
  destruct (Hbody i s ltac:(lia) Hs) as [-> Hf].
  destruct (IH (Datatypes.S i) (f i s) Hf) as [E HP].
  { intros k s' Hk. apply Hbody. lia. }
  split; [|done]. destruct (bad i); simpl; [done|].
  by replace (Z.of_nat i + 1) with (Z.of_nat (Datatypes.S i)) by lia.
Qed.

Lemma existsb_false {A} (l : list A) : existsb (fun _ => false) l = false.
Proof. by induction l. Qed.

Lemma fold_left_id {A B} (g : B -> A -> B) (l : list A) (b : B) :
  (forall b a, a ∈ l -> g b a = b) -> fold_left g l b = b.
Proof.
  revert b; induction l as [|a l IH]; intros b H; [done|]. simpl.
  rewrite -> H by set_solver. apply IH. set_solver.
Qed.

Lemma fold_left_ext {A B} (g h : B -> A -> B) (l : list A) (b : B) :
  (forall b a, a ∈ l -> g b a = h b a) -> fold_left g l b = fold_left h l b.
Proof.
  revert b; induction l as [|a l IH]; intros b H; [done|]. simpl.
  rewrite -> H by set_solver. apply IH. set_solver.
Qed.

(** One interesting element in a range. *)
Lemma fold_left_single {B} (g : B -> nat -> B) (a n k : nat) (b : B) :
  (a <= k < a + n)%nat -> (forall b m, m <> k -> g b m = b) -> fold_left g (seq a n) b = g b k.
Proof.
  intros Hk H. replace n with ((k - a) + (1 + (a + n - k - 1)))%nat by lia.
  rewrite !seq_app !fold_left_app /=.
  rewrite -> (fold_left_id g (seq a (k - a))) by (intros ? ? ?%elem_of_seq; apply H; lia).
  replace (a + (k - a))%nat with k by lia.
  apply fold_left_id. intros ? ? ?%elem_of_seq. apply H. lia.
Qed.

Lemma existsb_ext_in {A} (p q : A -> bool) (l : list A) :
  (forall a, a ∈ l -> p a = q a) -> existsb p l = existsb q l.
Proof.
  induction l as [|a l IH]; intros H; [done|]. simpl. rewrite -> H, IH by set_solver. done.
Qed.

Lemma flat_map_ext_in {A B} (f g : A -> list B) (l : list A) :
  (forall a, a ∈ l -> f a = g a) -> flat_map f l = flat_map g l.
Proof.
  induction l as [|a l IH]; intros H; [done|]. simpl. rewrite -> H, IH by set_solver. done.
Qed.

(** ** Arrays *)

Lemma int_index_nat (k : nat) : Z.of_nat k < 2 ^ 31 -> int_index (Z.of_nat k) = Some k.
Proof.
  intros H. rewrite /int_index /is_i32.
  destruct (Z.leb_spec (- 2 ^ 31) (Z.of_nat k)), (Z.ltb_spec (Z.of_nat k) (2 ^ 31)),
    (Z.leb_spec 0 (Z.of_nat k)); simpl; try lia. by rewrite Nat2Z.id.
Qed.

Lemma element_nat {A} (d : A) (l : list A) (k : nat) :
  (k < length l)%nat -> Z.of_nat k < 2 ^ 31 -> element l (Z.of_nat k) = Some (nth k l d).
Proof.
  intros Hk Hi. rewrite /element int_index_nat //=.
  destruct (nth_lookup_or_length l k d); [done | lia].
Qed.

Lemma update_alter {A} (f : A -> A) (l : list A) (k : nat) :
  (k < length l)%nat -> Z.of_nat k < 2 ^ 31 -> update f l (Z.of_nat k) = Some (alter f k l).
Proof.
  intros Hk Hi. rewrite /update int_index_nat //=.
  destruct (lookup_lt_is_Some_2 l k Hk) as [x Hx]. rewrite Hx /=. f_equal.
  apply list_eq. intros j. rewrite list_lookup_alter. case_decide as E; [subst j|].
  - by rewrite list_lookup_insert_eq // Hx.
  - by rewrite list_lookup_insert_ne.
Qed.

(** The components of an atom are changed by three functions. *)
Definition alter3 {A} (f : nat -> A -> A) (i : nat) (l : list A) : list A :=
  alter (f 2%nat) (3 * i + 2)%nat (alter (f 1%nat) (3 * i + 1)%nat (alter (f 0%nat) (3 * i)%nat l)).

Lemma length_alter3 {A} (f : nat -> A -> A) i l : length (alter3 f i l) = length l.
Proof. by rewrite /alter3 !length_alter. Qed.

Lemma alter3_lookup {A} (f : nat -> A -> A) (i k c : nat) (l : list A) :
  (c < 3)%nat ->
  alter3 f i l !! (3 * k + c)%nat =
  if decide (k = i) then f c <$> l !! (3 * k + c)%nat else l !! (3 * k + c)%nat.
Proof.
  intros Hc. assert (c = 0 \/ c = 1 \/ c = 2)%nat as [-> | [-> | ->]] by lia;
    rewrite /alter3 !list_lookup_alter ?Nat.add_0_r; repeat case_decide; try lia; by subst.
Qed.

(** ** The reference *)

Section reference.
Context {arith : Arithmetic} (self : LJPot) (R box : list num).
#[local] Open Scope num_scope.

Definition coord (i c : nat) : num := nth (3 * i + c)%nat R (of_int 0).
Definition side (c : nat) : num := nth (4 * c)%nat box (of_int 0).
Definition image (i j c : nat) : num := minimum_image (coord i c - coord j c) (side c).
Definition pair_length (i j : nat) : num := length3 (image i j 0) (image i j 1) (image i j 2).
Definition interacting (i j : nat) : bool := pair_length i j <? cuttOffR self.
Definition pair_a (i j : nat) : num := fpow (psi self / pair_length i j) (of_int 6).
Definition pair_b (i j : nat) : num := of_int 4 * u0 self * pair_a i j.
Definition pair_energy (i j : nat) : num := pair_b i j * (pair_a i j - of_int 1).
Definition pair_slope (i j : nat) : num :=
  of_int (-6) * pair_b i j / pair_length i j * (of_int 2 * pair_a i j - of_int 1).
Definition pair_force (i j c : nat) : num := pair_slope i j * image i j c / pair_length i j.
Definition shift : num := default (of_int 0) (cuttOffU self).

(** The pairs of an atom with those after it. *)
Definition later (n i : nat) : list nat := seq (S i) (n - S i).

Definition force_on (n k c : nat) : num :=
  fold_left (fun f j => if interacting k j then f - pair_force k j c else f) (later n k)
    (fold_left (fun f i => if interacting i k then f + pair_force i k c else f) (seq 0 k) (of_int 0)).

Definition energy_of (n : nat) : num :=
  fold_left (fun U i =>
    fold_left (fun U j => if interacting i j then U + pair_energy i j - shift else U) (later n i) U)
    (seq 0 (n - 1)) (of_int 0).

Definition forces_of (n : nat) : list num :=
  flat_map (fun k => [force_on n k 0; force_on n k 1; force_on n k 2]) (seq 0 n).

Definition any_interacting (n : nat) : bool :=
  existsb (fun i => existsb (interacting i) (later n i)) (seq 0 (n - 1)).

Definition lj_reference (n : nat) : option Sums :=
  if any_interacting n && negb (bool_decide (is_Some (cuttOffU self))) then None
  else Some (MkSums (forces_of n) (energy_of n)).

(** ** One pair *)

Definition pair_fun (i j : nat) (s : Sums) : Sums :=
  if interacting i j then
    MkSums (alter3 (fun c f => f + pair_force i j c) j
             (alter3 (fun c f => f - pair_force i j c) i (sum_F s)))
      (sum_U s + pair_energy i j - shift)
  else s.

Definition missing (i j : nat) : bool :=
  interacting i j && negb (bool_decide (is_Some (cuttOffU self))).

Lemma push_eq (op : num -> num -> num) (F : list num) (i : nat) (x y z dU r : num) :
  (3 * i + 2 < length F)%nat -> Z.of_nat (3 * i + 2) < 2 ^ 31 ->
  push op F (Z.of_nat i) dU r (x, y, z) =
  Some (alter3 (fun c f => op f (dU * nth c [x; y; z] (of_int 0) / r)) i F).
Proof.
  intros Hl Hi. rewrite /push /alter3.
  replace (3 * Z.of_nat i)%Z with (Z.of_nat (3 * i)) by lia.
  rewrite -> update_alter by lia. cbn [mbind option_bind].
  replace (Z.of_nat (3 * i) + 1)%Z with (Z.of_nat (3 * i + 1)) by lia.
  rewrite -> update_alter by (rewrite ?length_alter; lia). cbn [mbind option_bind].
  replace (Z.of_nat (3 * i) + 2)%Z with (Z.of_nat (3 * i + 2)) by lia.
  by rewrite -> update_alter by (rewrite ?length_alter; lia).
Qed.

Lemma difference_eq (n i j c : nat) :
  length R = (3 * n)%nat -> Z.of_nat (3 * n) <= 2 ^ 31 -> (i < n)%nat -> (j < n)%nat -> (c < 3)%nat ->
  difference R (Z.of_nat i) (Z.of_nat j) (Z.of_nat c) = Some (coord i c - coord j c).
Proof.
  intros Hl Hn Hi Hj Hc. rewrite /difference.
  replace (3 * Z.of_nat i + Z.of_nat c)%Z with (Z.of_nat (3 * i + c)) by lia.
  replace (3 * Z.of_nat j + Z.of_nat c)%Z with (Z.of_nat (3 * j + c)) by lia.
  by do 2 (rewrite -> (element_nat (of_int 0)) by lia; cbn [mbind option_bind]).
Qed.

Section fits.
Context (n : nat).
Hypothesis (HR : length R = (3 * n)%nat) (Hbox : (9 <= length box)%nat) (Hn : Z.of_nat (3 * n) <= 2 ^ 31).

Lemma pair_step_eq (i j : nat) (s : Sums) :
  (i < j < n)%nat -> length (sum_F s) = (3 * n)%nat ->
  pair_step self R box (Z.of_nat i) (Z.of_nat j) s =
    (if missing i j then None else Some (pair_fun i j s)) /\
  length (sum_F (pair_fun i j s)) = (3 * n)%nat.
Proof.
  intros Hij HF. split; [|rewrite /pair_fun; case_match; by rewrite /= ?length_alter3].
  rewrite /pair_step.
  have HD c : (c < 3)%nat -> difference R (Z.of_nat i) (Z.of_nat j) (Z.of_nat c) = Some (coord i c - coord j c).
  { apply (difference_eq n); lia. }
  have HE c : (c < 3)%nat -> element box (Z.of_nat (4 * c)) = Some (side c).
  { intros. apply element_nat; lia. }
  have D0 := HD 0%nat ltac:(lia). have D1 := HD 1%nat ltac:(lia). have D2 := HD 2%nat ltac:(lia).
  have E0 := HE 0%nat ltac:(lia). have E1 := HE 1%nat ltac:(lia). have E2 := HE 2%nat ltac:(lia).
  cbn in D0, D1, D2, E0, E1, E2. rewrite D0 D1 D2 E0 E1 E2. cbn [mbind option_bind].
  rewrite /missing /pair_fun -/(image i j 0) -/(image i j 1) -/(image i j 2) -/(pair_length i j) -/(interacting i j).
  rewrite /pair_energy /pair_force /pair_slope /pair_b /pair_a /shift.
  destruct (interacting i j); [|done]. destruct (cuttOffU self) as [u|]; [|done].
  rewrite bool_decide_eq_true_2 //. cbn [mbind option_bind].
  rewrite -> push_eq by lia. cbn [mbind option_bind].
  by rewrite -> push_eq by (rewrite ?length_alter3; lia).
Qed.

Lemma inner_loop_eq (i : nat) (s : Sums) :
  (i < n)%nat -> length (sum_F s) = (3 * n)%nat ->
  for_int (n - S i) (Z.of_nat (S i)) (pair_step self R box (Z.of_nat i)) s =
    (if existsb (missing i) (later n i) then None
     else Some (fold_left (fun s j => pair_fun i j s) (later n i) s)) /\
  length (sum_F (fold_left (fun s j => pair_fun i j s) (later n i) s)) = (3 * n)%nat.
Proof.
  intros Hi HF.
  apply (for_int_fold (fun s => length (sum_F s) = (3 * n)%nat) (missing i) (pair_fun i)); [done|].
  intros j s' Hj HF'. apply pair_step_eq; [lia | done].
Qed.

Definition all_pairs (s : Sums) : Sums :=
  fold_left (fun s i => fold_left (fun s j => pair_fun i j s) (later n i) s) (seq 0 (n - 1)) s.

Lemma pair_loops_eq (s : Sums) :
  length (sum_F s) = (3 * n)%nat ->
  pair_loops self (Z.of_nat n) R box s =
  if existsb (fun i => existsb (missing i) (later n i)) (seq 0 (n - 1)) then None
  else Some (all_pairs s).
Proof.
  intros HF. rewrite /pair_loops. replace (is_i64 (Z.of_nat n - 1)) with true by (rewrite /is_i64; lia).
  replace (Z.to_nat (Z.of_nat n - 1)) with (n - 1)%nat by lia.
  eapply (for_int_fold (fun s => length (sum_F s) = (3 * n)%nat)
    (fun i => existsb (missing i) (later n i)) (fun i s => fold_left (fun s j => pair_fun i j s) (later n i) s)
    _ (n - 1) 0 s HF).
  intros i s' Hi HF'.
  replace (Z.to_nat (Z.of_nat n - (Z.of_nat i + 1))) with (n - S i)%nat by lia.
  replace (Z.of_nat i + 1)%Z with (Z.of_nat (S i)) by lia.
  apply inner_loop_eq; [lia | done].
Qed.

End fits.

(** ** All pairs, seen by one atom *)

Section felt.
Context (n : nat).

Definition feel (k c i j : nat) (f : num) : num :=
  if interacting i j then
    if decide (k = j) then f + pair_force i j c
    else if decide (k = i) then f - pair_force i j c else f
  else f.

Lemma pair_fun_lookup (k c i j : nat) (s : Sums) :
  (c < 3)%nat -> i <> j ->
  sum_F (pair_fun i j s) !! (3 * k + c)%nat = feel k c i j <$> sum_F s !! (3 * k + c)%nat.
Proof.
  intros Hc Hij. rewrite /pair_fun /feel.
  destruct (interacting i j); [|by rewrite option_fmap_id]. cbn [sum_F].
  rewrite -> !alter3_lookup by done. destruct (decide (k = j)) as [-> |].
  - by rewrite decide_False.
  - destruct (decide (k = i)); [done | by rewrite option_fmap_id].
Qed.

(** A family of steps that act on a cell one after the other. *)
Lemma fold_lookup {A} (step : A -> Sums -> Sums) (g : A -> num -> num) (x : nat) (l : list A) (s : Sums) :
  (forall a s, a ∈ l -> sum_F (step a s) !! x = g a <$> sum_F s !! x) ->
  sum_F (fold_left (fun s a => step a s) l s) !! x =
  (fun f => fold_left (fun f a => g a f) l f) <$> sum_F s !! x.
Proof.
  revert s; induction l as [|a l IH]; intros s H; simpl; [by rewrite option_fmap_id|].
  rewrite -> IH by (intros; apply H; set_solver). rewrite -> H by set_solver.
  by rewrite -option_fmap_compose.
Qed.

Lemma all_pairs_lookup (k c : nat) (s : Sums) :
  (c < 3)%nat ->
  sum_F (all_pairs n s) !! (3 * k + c)%nat =
  (fun f => fold_left (fun f i => fold_left (fun f j => feel k c i j f) (later n i) f) (seq 0 (n - 1)) f)
    <$> sum_F s !! (3 * k + c)%nat.
Proof.
  intros Hc. rewrite /all_pairs.
  apply (fold_lookup (fun i s => fold_left (fun s j => pair_fun i j s) (later n i) s)
    (fun i f => fold_left (fun f j => feel k c i j f) (later n i) f)).
  intros i s' _. apply (fold_lookup (pair_fun i) (feel k c i)).
  intros j s'' Hj%elem_of_seq. apply pair_fun_lookup; [done | lia].
Qed.

Lemma felt_force (k c : nat) :
  (k < n)%nat ->
  fold_left (fun f i => fold_left (fun f j => feel k c i j f) (later n i) f) (seq 0 (n - 1)) (of_int 0)
  = force_on n k c.
Proof.
  intros Hk. set (g := fun f i => fold_left (fun f j => feel k c i j f) (later n i) f).
  transitivity (fold_left g (seq 0 n) (of_int 0)).
  { replace n with (n - 1 + 1)%nat at 2 by lia. rewrite seq_app fold_left_app /=.
    rewrite {2}/g /later. by replace (n - S (n - 1))%nat with 0%nat by lia. }
  replace (seq 0 n) with (seq 0 k ++ k :: seq (S k) (n - S k))
    by (rewrite (_ : k :: _ = seq k (n - k)); [rewrite -seq_app; f_equal; lia |];
        replace (n - k)%nat with (S (n - S k)) by lia; done).
  rewrite fold_left_app /=. rewrite -> (fold_left_id g (seq (S k) _)).
  - rewrite {1}/g /force_on. rewrite -> (fold_left_ext g (fun f i => if interacting i k then f + pair_force i k c else f)).
    + apply fold_left_ext. intros f j Hj%elem_of_seq. rewrite /feel.
      destruct (interacting _ _); [|done]. by rewrite -> decide_False, decide_True by lia.
    + intros f i Hi%elem_of_seq. rewrite /g /later.
      have E := fold_left_single (fun f j => feel k c i j f) (S i) (n - S i) k f ltac:(lia).
      rewrite E; clear E.
      2: { intros f' m Hm. rewrite /feel. destruct (interacting _ _); [|done]. by rewrite -> !decide_False by lia. }
      rewrite /feel. destruct (interacting _ _); [|done]. by rewrite decide_True.
  - intros f i Hi%elem_of_seq. apply fold_left_id. intros f' j Hj%elem_of_seq.
    rewrite /feel. destruct (interacting _ _); [|done]. by rewrite -> !decide_False by lia.
Qed.

Lemma all_pairs_energy (s : Sums) : sum_U s = of_int 0 -> sum_U (all_pairs n s) = energy_of n.
Proof.
  intros Hs. rewrite /all_pairs /energy_of -Hs. clear Hs.
  generalize (seq 0 (n - 1)) as l => l. revert s; induction l as [|i l IH]; intros s; [done|]. simpl.
  rewrite IH. f_equal. generalize (later n i) as js => js. clear. revert s.
  induction js as [|j js IH]; intros s; [done|]. simpl. rewrite IH. f_equal.
  rewrite /pair_fun. by case_match.
Qed.
End felt.
End reference.

(** ** The whole function *)

Lemma triples {A} (a b c : nat -> A) (n s : nat) (l : list A) :
  length l = (3 * n)%nat ->
  (forall k, (k < n)%nat -> l !! (3 * k + 0)%nat = Some (a (s + k)%nat) /\
    l !! (3 * k + 1)%nat = Some (b (s + k)%nat) /\ l !! (3 * k + 2)%nat = Some (c (s + k)%nat)) ->
  l = flat_map (fun k => [a k; b k; c k]) (seq s n).
Proof.
  revert s l; induction n as [|n IH]; intros s l Hl H; [by destruct l|].
  destruct l as [|x [|y [|z l]]]; simpl in Hl; try lia.
  destruct (H 0%nat ltac:(lia)) as (Hx & Hy & Hz). simpl in Hx, Hy, Hz.
  simplify_eq. rewrite Nat.add_0_r /=. do 3 f_equal. apply IH; [lia|].
  intros k Hk. destruct (H (S k) ltac:(lia)) as (Hx & Hy & Hz).
  replace (3 * S k)%nat with (3 + 3 * k)%nat in Hx, Hy, Hz by lia.
  by replace (s + S k)%nat with (S s + k)%nat in Hx, Hy, Hz by lia.
Qed.

Lemma triples_lookup {A} (f : nat -> nat -> A) (n s k c : nat) :
  (k < n)%nat -> (c < 3)%nat ->
  flat_map (fun k => [f k 0; f k 1; f k 2])%nat (seq s n) !! (3 * k + c)%nat = Some (f (s + k) c)%nat.
Proof.
  revert s k; induction n as [|n IH]; intros s k Hk Hc; [lia|]. destruct k as [|k].
  - rewrite Nat.add_0_r. destruct c as [|[|[|c]]]; [done..|lia].
  - replace (3 * S k + c)%nat with (3 + (3 * k + c))%nat by lia.
    cbn [flat_map seq app Nat.add]. replace (s + S k)%nat with (S s + k)%nat by lia.
    apply (IH (S s) k); lia.
Qed.

Lemma zeroed_lookup {A} (x : A) (m k c : nat) (l : list A) :
  (c < 3)%nat -> (3 * k + c < length l)%nat ->
  fold_left (fun l i => alter3 (fun _ _ => x) i l) (seq 0 m) l !! (3 * k + c)%nat =
  if decide (k < m)%nat then Some x else l !! (3 * k + c)%nat.
Proof.
  intros Hc Hl. induction m as [|m IH]; [by case_decide; [lia|]|].
  rewrite seq_S fold_left_app. cbn [fold_left Nat.add]. rewrite -> alter3_lookup by done. rewrite IH.
  destruct (lookup_lt_is_Some_2 l _ Hl) as [y Hy]. rewrite Hy.
  repeat case_decide; try lia; done.
Qed.

Section whole.
Context {arith : Arithmetic} (self : LJPot) (R box F : list num) (n : nat).
Hypothesis (HR : length R = (3 * n)%nat) (Hbox : (9 <= length box)%nat)
  (HF : length F = (3 * n)%nat) (Hn : Z.of_nat (3 * n) <= 2 ^ 31).

Let zeroed := fold_left (fun l i => alter3 (fun _ _ => of_int 0) i l) (seq 0 n) F.

Lemma zero_loop : for_int n 0 zero_atom F = Some zeroed /\ length zeroed = (3 * n)%nat.
Proof.
  destruct (for_int_fold (fun l => length l = (3 * n)%nat) (fun _ => false)
    (fun i l => alter3 (fun _ _ => of_int 0) i l) zero_atom n 0 F HF) as [E Hl].
  - intros k l Hk Hl. split; [|by rewrite length_alter3]. rewrite /zero_atom /alter3.
    replace (3 * Z.of_nat k)%Z with (Z.of_nat (3 * k)) by lia.
    rewrite -> update_alter by lia. cbn [mbind option_bind].
    replace (Z.of_nat (3 * k) + 1)%Z with (Z.of_nat (3 * k + 1)) by lia.
    rewrite -> update_alter by (rewrite ?length_alter; lia). cbn [mbind option_bind].
    replace (Z.of_nat (3 * k) + 2)%Z with (Z.of_nat (3 * k + 2)) by lia.
    by rewrite -> update_alter by (rewrite ?length_alter; lia).
  - by rewrite existsb_false in E.
Qed.

Lemma existsb_andb {A} (p : A -> bool) (b : bool) (l : list A) :
  existsb (fun x => p x && b) l = existsb p l && b.
Proof. induction l as [|x l IH]; [done|]. simpl. rewrite IH. by destruct (p x), b, (existsb p l). Qed.

Lemma missing_anywhere :
  existsb (fun i => existsb (missing self R box i) (later n i)) (seq 0 (n - 1)) =
  any_interacting self R box n && negb (bool_decide (is_Some (cuttOffU self))).
Proof.
  rewrite /any_interacting -existsb_andb. apply existsb_ext_in. intros i _. apply existsb_andb.
Qed.

Lemma all_pairs_length (s : Sums) :
  length (sum_F (all_pairs self R box n s)) = length (sum_F s).
Proof.
  rewrite /all_pairs. generalize (seq 0 (n - 1)) as l => l. revert s.
  induction l as [|i l IH]; intros s; [done|]. simpl. rewrite IH. clear IH.
  generalize (later n i) as js => js. revert s.
  induction js as [|j js IH]; intros s; [done|]. simpl. rewrite IH /pair_fun.
  case_match; by rewrite /= ?length_alter3.
Qed.

Theorem lj_force_eq : LJ_force self (Z.of_nat n) R box F = lj_reference self R box n.
Proof.
  rewrite /LJ_force. replace (as_i64 (Z.of_nat n)) with (Z.of_nat n)
    by (symmetry; apply as_i64_id; rewrite /is_i64; lia).
  rewrite Nat2Z.id. destruct zero_loop as [-> Hz]. cbn [mbind option_bind].
  rewrite -> (pair_loops_eq self R box n HR Hbox Hn) by done.
  rewrite missing_anywhere /lj_reference. case_match; [done|]. f_equal.
  have HU := all_pairs_energy self R box n (MkSums zeroed (of_int 0)) eq_refl.
  have HL := all_pairs_length (MkSums zeroed (of_int 0)). simpl in HL. rewrite Hz in HL.
  destruct (all_pairs self R box n (MkSums zeroed (of_int 0))) as [G U] eqn:E. cbn [sum_F sum_U] in *.
  rewrite HU. f_equal. apply triples; [done|]. intros k Hk.
  have HG c : (c < 3)%nat -> G !! (3 * k + c)%nat = Some (force_on self R box n k c).
  { intros Hc. have := all_pairs_lookup self R box n k c (MkSums zeroed (of_int 0)) Hc.
    rewrite E. cbn [sum_F] => ->. rewrite /zeroed. rewrite -> zeroed_lookup by lia. rewrite decide_True //=.
    f_equal. by apply felt_force. }
  rewrite !HG; [done | lia..].
Qed.
End whole.

(** ** What the result depends on *)

Section images.
Context {arith : Arithmetic} (self : LJPot) (R R' box : list num) (n : nat).
Hypothesis H : forall i j c, (i < j < n)%nat -> (c < 3)%nat -> image R' box i j c = image R box i j c.

Lemma same_length i j : (i < j < n)%nat -> pair_length R' box i j = pair_length R box i j.
Proof. intros Hij. rewrite /pair_length. by rewrite -> !H by lia. Qed.
Lemma same_interacting i j : (i < j < n)%nat -> interacting self R' box i j = interacting self R box i j.
Proof. intros Hij. by rewrite /interacting same_length. Qed.
Lemma same_energy i j : (i < j < n)%nat -> pair_energy self R' box i j = pair_energy self R box i j.
Proof. intros Hij. by rewrite /pair_energy /pair_b /pair_a !same_length. Qed.
Lemma same_force i j c : (i < j < n)%nat -> (c < 3)%nat ->
  pair_force self R' box i j c = pair_force self R box i j c.
Proof. intros Hij Hc. rewrite /pair_force /pair_slope /pair_b /pair_a !same_length //. by rewrite -> H by lia. Qed.

Lemma same_force_on k c : (k < n)%nat -> (c < 3)%nat -> force_on self R' box n k c = force_on self R box n k c.
Proof.
  intros Hk Hc. rewrite /force_on. erewrite fold_left_ext; [f_equal|].
  - apply fold_left_ext. intros f i Hi%elem_of_seq.
    by rewrite -> same_interacting, same_force by lia.
  - intros f j Hj%elem_of_seq. by rewrite -> same_interacting, same_force by lia.
Qed.

(** Only the images of the pairs matter. *)
Lemma reference_images : lj_reference self R' box n = lj_reference self R box n.
Proof.
  rewrite /lj_reference.
  replace (any_interacting self R' box n) with (any_interacting self R box n).
  - case_match; [done|]. do 2 f_equal.
    + apply flat_map_ext_in. intros k Hk%elem_of_seq. by rewrite -> !same_force_on by lia.
    + apply fold_left_ext. intros U i Hi%elem_of_seq. apply fold_left_ext. intros U' j Hj%elem_of_seq.
      by rewrite -> same_interacting, same_energy by lia.
  - apply existsb_ext_in. intros i Hi%elem_of_seq. apply existsb_ext_in. intros j Hj%elem_of_seq.
    symmetry. apply same_interacting. lia.
Qed.
End images.

(** ** Without a pair inside the cutoff *)

Lemma flat_map_zeros {A} (x : A) (m s : nat) :
  flat_map (fun _ => replicate 3 x) (seq s m) = replicate (3 * m) x.
Proof.
  revert s; induction m as [|m IH]; intros s; [done|].
  replace (3 * S m)%nat with (3 + 3 * m)%nat by lia. by rewrite replicate_add -(IH (S s)).
Qed.

Section quiet.
Context {arith : Arithmetic} (self : LJPot) (R box : list num) (n : nat).
Hypothesis H : any_interacting self R box n = false.

Lemma quiet_pair (i j : nat) : (i < j < n)%nat -> interacting self R box i j = false.
Proof.
  intros Hij. destruct (interacting self R box i j) eqn:E; [exfalso|done].
  have T : any_interacting self R box n = true; [|by rewrite H in T].
  rewrite /any_interacting. apply existsb_exists. exists i. split; [apply in_seq; lia|].
  apply existsb_exists. exists j. split; [apply in_seq; lia | done].
Qed.

Lemma quiet_reference :
  lj_reference self R box n = Some (MkSums (replicate (3 * n) (of_int 0)) (of_int 0)).
Proof.
  rewrite /lj_reference H /=. do 2 f_equal.
  - rewrite /forces_of (flat_map_ext_in _ (fun _ => replicate 3 (of_int 0))).
    + apply flat_map_zeros.
    + intros k Hk%elem_of_seq.
      have E c : force_on self R box n k c = of_int 0; [|by rewrite !E].
      rewrite /force_on. rewrite fold_left_id.
      * apply fold_left_id. intros f i Hi%elem_of_seq. by rewrite -> quiet_pair by lia.
      * intros f j Hj%elem_of_seq. by rewrite -> quiet_pair by lia.
  - apply fold_left_id. intros U i Hi%elem_of_seq. apply fold_left_id. intros U' j Hj%elem_of_seq.
    by rewrite -> quiet_pair by lia.
Qed.
End quiet.

(** ** On doubles *)

Section doubles.
Context (pow : f64 -> f64 -> f64) (self : @LJPot (binary64 pow)) (fi : InputView) (fo : OutputView) (n : nat).
Hypothesis (HN : nAtoms fi = Z.of_nat n) (HR : length (pos fi) = (3 * n)%nat) (Hbox : (9 <= length (box fi))%nat)
  (HF : length (out_F fo) = (3 * n)%nat) (Hn : Z.of_nat (3 * n) <= 2 ^ 31).

Lemma forceImpl_eq :
  LJPot_forceImpl pow self fi fo =
  r ← lj_reference (arith := binary64 pow) self (pos fi) (box fi) n;
  Some (Ok (MkOutputView (@sum_F (binary64 pow) r) (@sum_U (binary64 pow) r) (out_variance fo))).
Proof.
  rewrite /LJPot_forceImpl HN.
  have E := lj_force_eq (arith := binary64 pow) self (pos fi) (box fi) (out_F fo) n HR Hbox HF Hn.
  by rewrite E.
Qed.

(** As the constructor leaves it. *)
Lemma default_forceImpl_eq :
  LJPot_forceImpl pow (@LJPot_new (binary64 pow)) fi fo =
  if any_interacting (arith := binary64 pow) (@LJPot_new (binary64 pow)) (pos fi) (box fi) n then None
  else Some (Ok (MkOutputView (replicate (3 * n) f64_zero) f64_zero (out_variance fo))).
Proof.
  rewrite /LJPot_forceImpl HN.
  have E := lj_force_eq (arith := binary64 pow) (@LJPot_new (binary64 pow)) (pos fi) (box fi) (out_F fo) n HR Hbox HF Hn.
  rewrite E. destruct (any_interacting _ _ _ n) eqn:Hany.
  - by rewrite /lj_reference Hany.
  - by rewrite quiet_reference.
Qed.
End doubles.

Lemma length_forces_of {arith : Arithmetic} (self : LJPot) (R box : list num) (n : nat) :
  length (forces_of self R box n) = (3 * n)%nat.
Proof.
  rewrite /forces_of. rewrite -> (flat_map_constant_length (c := 3)) by done. rewrite length_seq. lia.
Qed.

(** C11: [LJPot::forceImpl] computes the pairwise sums.  On doubles, rounding included, and
    whatever the output held before: the force on an atom is the sum of the forces of the
    atoms before it, minus those of the atoms after it, in that order, and the energy is the
    sum over the pairs inside the cutoff of the pair's energy and minus the shift.  Indices
    stay inside the arrays.  Without a value for the shift the call is undefined exactly when
    some pair is inside the cutoff.  The variance is untouched. *)
Theorem lj_force_is_pairwise_sum (pow : f64 -> f64 -> f64) (self : @LJPot (binary64 pow))
    (fi : InputView) (fo : OutputView) (n : nat)
    (HN : nAtoms fi = Z.of_nat n) (HR : length (pos fi) = (3 * n)%nat) (Hbox : (9 <= length (box fi))%nat)
    (HF : length (out_F fo) = (3 * n)%nat) (Hn : Z.of_nat (3 * n) <= 2 ^ 31) :
  if any_interacting (arith := binary64 pow) self (pos fi) (box fi) n && negb (bool_decide (is_Some (cuttOffU self)))
  then LJPot_forceImpl pow self fi fo = None
  else exists fo', LJPot_forceImpl pow self fi fo = Some (Ok fo') /\
    length (out_F fo') = (3 * n)%nat /\
    (forall k c, (k < n)%nat -> (c < 3)%nat ->
      out_F fo' !! (3 * k + c)%nat = Some (force_on (arith := binary64 pow) self (pos fi) (box fi) n k c)) /\
    out_energy fo' = energy_of (arith := binary64 pow) self (pos fi) (box fi) n /\
    out_variance fo' = out_variance fo.
Proof.
  rewrite (forceImpl_eq pow self fi fo n HN HR Hbox HF Hn) /lj_reference.
  destruct (_ && _); [done|]. cbn [mbind option_bind]. eexists. split; [done|].
  cbn [out_F out_energy out_variance sum_F sum_U]. split_and!; [| | done | done].
  - exact (length_forces_of (arith := binary64 pow) self (pos fi) (box fi) n).
  - intros k c Hk Hc. by apply (triples_lookup (fun k c => force_on (arith := binary64 pow) self _ _ n k c) n 0).
Qed.

(** ** The contract of a potential *)

Lemma fold_left_word {A} (g : Z -> A -> Z) (l : list A) (x : Z) :
  f64_ok x = true -> (forall x a, f64_ok x = true -> f64_ok (g x a) = true) -> f64_ok (fold_left g l x) = true.
Proof. intros Hx H. revert x Hx; induction l as [|a l IH]; intros x Hx; [done|]. simpl. auto. Qed.

(** With a value for the shift, [LJPot] is a potential as cache, server and bridge expect it. *)
Theorem lj_meets_contract (pow : f64 -> f64 -> f64) (self : @LJPot (binary64 pow)) (u : f64)
    (Hu : cuttOffU self = Some u) : impl_ok (fun _ => LJPot_forceImpl pow self).
Proof.
  intros t rq Hrq. destruct (request_ok_spec rq Hrq) as (Hn & Hl & _). rewrite /impl_answer.
  have H1 : nAtoms (rq_view rq) = Z.of_nat (Z.to_nat (rq_n rq)) by (cbn; unfold rq_n in *; lia).
  have H2 : length (pos (rq_view rq)) = (3 * Z.to_nat (rq_n rq))%nat.
  { cbn [pos rq_view input_view]. unfold f64 in *. lia. }
  have H3 : (9 <= length (box (rq_view rq)))%nat.
  { cbn [box rq_view input_view]. pose proof (flatBox_three (rq_box rq)). unfold f64 in *. lia. }
  have H4 : length (m_data (AtomMatrix_Zero (rq_n rq) 3)) = (3 * Z.to_nat (rq_n rq))%nat.
  { rewrite length_Zero // length_replicate. unfold f64 in *. lia. }
  rewrite (forceImpl_eq pow self (rq_view rq) (MkOutputView _ _ _) _ H1 H2 H3 H4 ltac:(lia)).
  rewrite /lj_reference Hu bool_decide_eq_true_2 // andb_false_r. cbn [mbind option_bind out_energy out_F sum_F sum_U].
  split_and!.
  - apply fold_left_word; [done|]. intros x i Hx. apply fold_left_word; [done|]. intros y j Hy.
    cbn beta; destruct (interacting _ _ _ _ _); [apply encode_is_word | done].
  - rewrite /forces_of. apply forallb_forall. intros x (k & _ & Hx)%in_flat_map.
    assert (exists c, x = force_on (arith := binary64 pow) self (pos (rq_view rq)) (box (rq_view rq))
      (Z.to_nat (rq_n rq)) k c) as [c ->] by (destruct Hx as [<- | [<- | [<- | []]]]; by eexists).
    rewrite /force_on. apply fold_left_word.
    + apply fold_left_word; [done|]. intros y i Hy. cbn beta; destruct (interacting _ _ _ _ _); [apply encode_is_word | done].
    + intros y j Hy. cbn beta; destruct (interacting _ _ _ _ _); [apply encode_is_word | done].
  - have E := length_forces_of (arith := binary64 pow) self (pos (rq_view rq)) (box (rq_view rq)) (Z.to_nat (rq_n rq)).
    unfold f64 in *. cbn [num binary64] in E. lia.
Qed.

(** ** Two atoms, 1.5 apart, in a box of edge 10 *)

Section demo.
Let pow6 (x y : f64) : f64 :=
  let times := fmul (Arithmetic := binary64 (fun x _ => x)) in
  let square := times x x in times (times square square) square.
Definition shifted64 : @LJPot (binary64 pow6) := @MkLJPot (binary64 pow6) (of_Z 1) (of_Z 15) (of_Z 1) (Some 0).
Definition dimer64 : InputView :=
  MkInputView 2 [0; 0; 0; 0x3ff8000000000000; 0; 0] [1; 1] (flatBox (rows (of_Z 10))).

(** The energy is about -0.3203, the forces about 1.1580. *)
Example dimer64_forces :
  LJPot_forceImpl pow6 shifted64 dimer64 (MkOutputView [7; 7; 7; 7; 7; 7] 7 0) =
  Some (Ok (MkOutputView [4607894117384630669; 0; 0; 13831266154239406477; 0; 0] 13822814327839186218 0)).
Proof. vm_compute. reflexivity. Qed.

Lemma lj_force_is_pairwise_sum_witness :
  exists fo', LJPot_forceImpl pow6 shifted64 dimer64 (MkOutputView [7; 7; 7; 7; 7; 7] 7 0) = Some (Ok fo') /\
    length (out_F fo') = 6%nat /\
    (forall k c, (k < 2)%nat -> (c < 3)%nat ->
      out_F fo' !! (3 * k + c)%nat =
      Some (force_on (arith := binary64 pow6) shifted64 (pos dimer64) (box dimer64) 2 k c)) /\
    out_energy fo' = energy_of (arith := binary64 pow6) shifted64 (pos dimer64) (box dimer64) 2 /\
    out_variance fo' = 0.
Proof.
  exact (lj_force_is_pairwise_sum pow6 shifted64 dimer64 (MkOutputView [7; 7; 7; 7; 7; 7] 7 0) 2
    eq_refl eq_refl ltac:(cbn; lia) eq_refl ltac:(lia)).
Defined.

Lemma lj_meets_contract_witness : impl_ok (fun _ => LJPot_forceImpl pow6 shifted64).
Proof. exact (lj_meets_contract pow6 shifted64 0 eq_refl). Defined.
End demo.
