(* ===== verification/LennardJonesReals.v ===== *)
(** * LennardJonesReals: the Lennard-Jones potential in exact arithmetic

    The loops of LJPot.cc over the real numbers.  The forces of a configuration add up to
    zero, energy and forces do not change when the system or single atoms are moved across
    the periodic box, and the force on every atom is minus the gradient of the energy. *)
From Stdlib Require Import ssreflect Reals Lra.
From S2P Require Import Prelude Machine FloatArith CxxCore LennardJones LennardJonesTheorems.
Open Scope R_scope.
#[local] Open Scope general_if_scope.

#[export] Instance reals : Arithmetic := {|
  num := R;
  of_int := IZR;
  one_half := / 2;
  fadd := Rplus;
  fsub := Rminus;
  fmul := Rmult;
  fdiv := Rdiv;
  fltb x y := if Rlt_dec x y then true else false;
  fleb x y := if Rle_dec x y then true else false;
  feqb x y := if Req_dec_T x y then true else false;
  fabs := Rabs;
  flowest := IZR (- ((2 ^ 53 - 1) * 2 ^ 971));
  ffloor x := IZR (Int_part x);
  fsqrt := sqrt;
  fpow := Rpower;
|}.

(** ** Sums over the atoms *)

Fixpoint sum_atoms (n : nat) (x : nat -> R) : R :=
  match n with O => 0 | S n => sum_atoms n x + x n end.

Lemma sum_atoms_ext (n : nat) (x y : nat -> R) :
  (forall k, (k < n)%nat -> x k = y k) -> sum_atoms n x = sum_atoms n y.
Proof. induction n as [|n IH]; intros H; [done|]. simpl. rewrite -> IH, H by (intros; try apply H; lia). done. Qed.

Lemma sum_atoms_zero (n : nat) : sum_atoms n (fun _ => 0) = 0.
Proof. induction n as [|n IH]; [done|]. simpl. rewrite IH. lra. Qed.

Lemma sum_atoms_at (n j : nat) (t : R) (x : nat -> R) :
  sum_atoms n (fun k => x k + (if decide (k = j) then t else 0)) =
  sum_atoms n x + (if decide (j < n)%nat then t else 0).
Proof.
  induction n as [|n IH]; simpl; [lra|]. rewrite IH.
  repeat case_decide; subst; try lia; lra.
Qed.

(** Steps that keep the sum of a family keep it together. *)
Lemma sum_atoms_fold {A} (n : nat) (g : nat -> A -> R -> R) (l : list A) (x : nat -> R) :
  (forall a x, a ∈ l -> sum_atoms n (fun k => g k a (x k)) = sum_atoms n x) ->
  sum_atoms n (fun k => fold_left (fun f a => g k a f) l (x k)) = sum_atoms n x.
Proof.
  revert x; induction l as [|a l IH]; intros x H; [done|]. simpl.
  rewrite -> (IH (fun k => g k a (x k))) by (intros; apply H; set_solver). apply H. set_solver.
Qed.

Section reals.
Context (self : @LJPot reals) (X box : list R) (n : nat).

Lemma feel_real (k c i j : nat) (f : R) :
  i <> j ->
  feel self X box k c i j f =
  f + (if decide (k = j) then (if interacting self X box i j then pair_force self X box i j c else 0) else 0)
    + (if decide (k = i) then - (if interacting self X box i j then pair_force self X box i j c else 0) else 0).
Proof.
  intros Hij. rewrite /feel. destruct (interacting self X box i j); repeat case_decide; subst;
    try done; cbn; lra.
Qed.

(** Newton's third law. *)
Lemma forces_sum (c : nat) : sum_atoms n (fun k => force_on self X box n k c) = 0.
Proof.
  rewrite -> (sum_atoms_ext n _ (fun k =>
    fold_left (fun f i => fold_left (fun f j => feel self X box k c i j f) (later n i) f) (seq 0 (n - 1)) 0))
    by (intros k Hk; symmetry; exact (felt_force self X box n k c Hk)).
  transitivity (sum_atoms n (fun _ => 0)); [|apply sum_atoms_zero].
  apply (sum_atoms_fold n (fun k i f => fold_left (fun f j => feel self X box k c i j f) (later n i) f)
    (seq 0 (n - 1)) (fun _ => 0)).
  intros i x Hi%elem_of_seq.
  apply (sum_atoms_fold n (fun k j f => feel self X box k c i j f)). intros j y Hj%elem_of_seq.
  rewrite -> (sum_atoms_ext n _ _ (fun k _ => feel_real k c i j (y k) ltac:(lia))).
  rewrite (sum_atoms_at n i _ (fun k => y k + (if decide (k = j) then _ else 0))) sum_atoms_at.
  rewrite -> !decide_True by lia. lra.
Qed.

(** ** Images *)

Lemma Int_part_shift (x : R) (m : Z) : Int_part (x + IZR m) = (Int_part x + m)%Z.
Proof.
  symmetry. apply Int_part_spec. rewrite plus_IZR. destruct (base_Int_part x). lra.
Qed.

Lemma minimum_image_periodic (d L : R) (m : Z) :
  L <> 0 -> minimum_image (arith := reals) (d + IZR m * L) L = minimum_image (arith := reals) d L.
Proof.
  intros HL. rewrite /minimum_image /=.
  replace ((d + IZR m * L) / L + / 2) with (d / L + / 2 + IZR m) by (field; done).
  rewrite Int_part_shift plus_IZR. ring.
Qed.
End reals.

(** ** Derivatives *)

(** Functions that agree around a point have the same derivative. *)
Lemma derivative_near (f g : R -> R) (x l d : R) :
  0 < d -> (forall y, Rabs (y - x) < d -> f y = g y) ->
  derivable_pt_lim f x l -> derivable_pt_lim g x l.
Proof.
  intros Hd H. apply (derivable_pt_lim_locally_ext f g x (x - d) (x + d)); [lra|].
  intros z Hz. apply H. apply Rabs_def1; lra.
Qed.

(** Equal functions, equal derivatives. *)
Lemma derivative_eq (f g : R -> R) (x l l' : R) :
  derivable_pt_lim f x l -> (forall y, f y = g y) -> l = l' -> derivable_pt_lim g x l'.
Proof. intros H E <-. apply (derivative_near f g x l 1); [lra | done | done]. Qed.

(** A continuous function stays on its side of a bound. *)
Lemma stays_below (f : R -> R) (x l b : R) :
  derivable_pt_lim f x l -> f x <> b ->
  exists d, 0 < d /\ forall y, Rabs (y - x) < d -> (f y < b <-> f x < b).
Proof.
  intros Hf Hb. have Hc : continuity_pt f x.
  { apply derivable_continuous_pt. by exists l. }
  destruct (Hc (Rabs (f x - b))) as (d & Hd & H).
  { apply Rabs_pos_lt. lra. }
  exists d. split; [done|]. intros y Hy.
  destruct (Req_dec y x) as [-> | Hne]; [done|].
  have := H y (conj (conj I (not_eq_sym Hne)) Hy). rewrite /= /R_dist.
  split_Rabs; lra.
Qed.

Lemma floor_near (u : R) (v : R) :
  IZR (Int_part u) < v < IZR (Int_part u) + 1 -> Int_part v = Int_part u.
Proof. intros H. symmetry. apply Int_part_spec. lra. Qed.

(** Between the jumps of the convention the image moves with the difference. *)
Lemma minimum_image_derivative (d L : R) :
  L <> 0 -> frac_part (d / L + / 2) <> 0 ->
  derivable_pt_lim (fun d => minimum_image (arith := reals) d L) d 1.
Proof.
  intros HL Hf. set (u := d / L + / 2) in *. set (k := Int_part u).
  have Hu : IZR k < u < IZR k + 1.
  { subst k. destruct (base_Int_part u). rewrite /frac_part in Hf. lra. }
  set (r := Rmin (u - IZR k) (IZR k + 1 - u)).
  have Hr : 0 < r by (apply Rmin_pos; lra).
  apply (derivative_near (fun d => d - L * IZR k) _ d 1 (Rabs L * r)).
  - apply Rmult_lt_0_compat; [by apply Rabs_pos_lt | done].
  - intros y Hy. rewrite /minimum_image /=. do 3 f_equal. symmetry. apply floor_near. fold k.
    have Hy' : Rabs (y / L + / 2 - u) < r.
    { subst u. replace (y / L + / 2 - (d / L + / 2)) with ((y - d) * / L) by (field; done).
      rewrite Rabs_mult Rabs_inv. apply (Rmult_lt_reg_r (Rabs L)); [by apply Rabs_pos_lt|].
      rewrite Rmult_assoc Rinv_l ?Rmult_1_r; [|by apply Rabs_no_R0]. by rewrite (Rmult_comm r). }
    have := Rmin_l (u - IZR k) (IZR k + 1 - u). have := Rmin_r (u - IZR k) (IZR k + 1 - u).
    fold r. move: Hy'. split_Rabs; lra.
  - eapply derivative_eq; [apply derivable_pt_lim_minus;
      [apply derivable_pt_lim_id | apply (derivable_pt_lim_const (L * IZR k))] | done | lra].
Qed.

Lemma d_const (a x : R) : derivable_pt_lim (fun _ => a) x 0.
Proof. exact (derivable_pt_lim_const a x). Qed.
Lemma d_plus (f g : R -> R) (x a b : R) :
  derivable_pt_lim f x a -> derivable_pt_lim g x b -> derivable_pt_lim (fun y => f y + g y) x (a + b).
Proof. exact (derivable_pt_lim_plus f g x a b). Qed.
Lemma d_minus (f g : R -> R) (x a b : R) :
  derivable_pt_lim f x a -> derivable_pt_lim g x b -> derivable_pt_lim (fun y => f y - g y) x (a - b).
Proof. exact (derivable_pt_lim_minus f g x a b). Qed.
Lemma d_mult (f g : R -> R) (x a b : R) :
  derivable_pt_lim f x a -> derivable_pt_lim g x b ->
  derivable_pt_lim (fun y => f y * g y) x (a * g x + f x * b).
Proof. exact (derivable_pt_lim_mult f g x a b). Qed.
Lemma d_comp (g f : R -> R) (x a b : R) :
  derivable_pt_lim f x a -> derivable_pt_lim g (f x) b -> derivable_pt_lim (fun y => g (f y)) x (b * a).
Proof. exact (derivable_pt_lim_comp f g x a b). Qed.

(** The distance of a pair and the components of the vector between its atoms. *)
Lemma d_length3 (f g h : R -> R) (x a b c : R) :
  derivable_pt_lim f x a -> derivable_pt_lim g x b -> derivable_pt_lim h x c ->
  let r := length3 (arith := reals) (f x) (g x) (h x) in
  r <> 0 ->
  derivable_pt_lim (fun y => length3 (arith := reals) (f y) (g y) (h y)) x
    ((f x * a + g x * b + h x * c) / r).
Proof.
  intros Hf Hg Hh r. rewrite /r /length3 /=. clear r. intros Hr.
  have Hs : 0 < f x * f x + g x * g x + h x * h x.
  { destruct (Rle_lt_or_eq_dec 0 (f x * f x + g x * g x + h x * h x)) as [|E]; [nra | done |].
    exfalso. apply Hr. by rewrite -E sqrt_0. }
  eapply derivative_eq.
  - apply (d_comp sqrt (fun y => f y * f y + g y * g y + h y * h y)).
    + apply d_plus; [apply d_plus |]; apply d_mult; eassumption.
    + by apply derivable_pt_lim_sqrt.
  - done.
  - field. by apply Rgt_not_eq, sqrt_lt_R0.
Qed.

(** The energy of a pair and the slope that the loop computes from it. *)
Lemma d_energy (u p r : R) :
  0 < p -> 0 < r ->
  let a := fun r => Rpower (p / r) 6 in
  derivable_pt_lim (fun r => 4 * u * a r * (a r - 1)) r (-6 * (4 * u * a r) / r * (2 * a r - 1)).
Proof.
  intros Hp Hr a.
  have Hpos : 0 < p / r by (apply Rdiv_lt_0_compat).
  have Ha : derivable_pt_lim a r (-6 * a r / r).
  { eapply derivative_eq.
    - apply (d_comp (fun t => Rpower t 6) (fun r => p / r)).
      + apply (derivable_pt_lim_div (fun _ => p) id r 0 1); [apply d_const | apply derivable_pt_lim_id |].
        rewrite /id. lra.
      + apply (derivable_pt_lim_power (p / r) 6). done.
    - done.
    - have E : Rpower (p / r) 6 = p / r * Rpower (p / r) (6 - 1).
      { rewrite -{2}(Rpower_1 (p / r)) // -Rpower_plus. f_equal. lra. }
      rewrite /a /id /Rsqr E. field. lra. }
  eapply derivative_eq.
  - apply (d_mult (fun r => 4 * u * a r) (fun r => a r - 1)).
    + apply (d_mult (fun _ => 4 * u)); [apply d_const | apply Ha].
    + apply d_minus; [apply Ha | apply d_const].
  - done.
  - field. lra.
Qed.

(** ** The energy as a function of one coordinate *)

Section gradient.
Context (self : @LJPot reals) (X box : list R) (n k c : nat).
Hypothesis (HX : length X = (3 * n)%nat) (Hk : (k < n)%nat) (Hc : (c < 3)%nat) (Hpsi : 0 < psi self).

Local Notation coord := (coord (arith := reals)).
Local Notation image := (image (arith := reals)).
Local Notation pair_length := (pair_length (arith := reals)).
Local Notation side := (side (arith := reals)).

Definition moved (x : R) : list R := <[(3 * k + c)%nat := x]> X.
Let x0 : R := coord X k c.

(** Away from the cutoff, from the jumps of the convention and from each other. *)
Definition smooth_pair (i j : nat) : Prop :=
  pair_length X box i j <> 0 /\ pair_length X box i j <> cuttOffR self /\
  forall c', (c' < 3)%nat -> side box c' <> 0 /\
    frac_part ((coord X i c' - coord X j c') / side box c' + / 2) <> 0.

Lemma coord_moved (x : R) (i c' : nat) :
  (c' < 3)%nat -> coord (moved x) i c' = if decide (i = k /\ c' = c) then x else coord X i c'.
Proof.
  intros Hc'. rewrite /coord /moved !nth_lookup. case_decide as E.
  - destruct E as [-> ->]. rewrite list_lookup_insert_eq //. cbn [num reals]. lia.
  - rewrite -> list_lookup_insert_ne by lia. done.
Qed.

Lemma moved_back : moved x0 = X.
Proof.
  apply list_insert_id. rewrite /x0 /LennardJonesTheorems.coord.
  destruct (nth_lookup_or_length X (3 * k + c) 0) as [E|]; [exact E | lia].
Qed.

(** How the difference of a pair depends on the coordinate. *)
Definition sign (i j : nat) : R := if decide (k = i) then 1 else if decide (k = j) then -1 else 0.

Lemma d_coord (i c' : nat) : (c' < 3)%nat ->
  derivable_pt_lim (fun x => coord (moved x) i c') x0 (if decide (i = k /\ c' = c) then 1 else 0).
Proof.
  intros Hc'. case_decide as E.
  - eapply derivative_eq; [apply derivable_pt_lim_id | | done].
    intros y. by rewrite coord_moved // decide_True.
  - eapply derivative_eq; [apply (d_const (coord X i c')) | | done].
    intros y. by rewrite coord_moved // decide_False.
Qed.

Lemma d_image (i j c' : nat) : i <> j -> (c' < 3)%nat -> smooth_pair i j ->
  derivable_pt_lim (fun x => image (moved x) box i j c') x0 (if decide (c' = c) then sign i j else 0).
Proof.
  intros Hij Hc' (_ & _ & Hs). destruct (Hs c' Hc') as [HL Hf].
  eapply derivative_eq.
  - apply (d_comp (fun d => minimum_image (arith := reals) d (side box c'))
      (fun x => coord (moved x) i c' - coord (moved x) j c')).
    + apply d_minus; by apply d_coord.
    + rewrite moved_back. by apply minimum_image_derivative.
  - done.
  - rewrite /sign. repeat case_decide; subst; try lra; exfalso; intuition congruence.
Qed.

Lemma d_pair_length (i j : nat) : i <> j -> smooth_pair i j ->
  derivable_pt_lim (fun x => pair_length (moved x) box i j) x0
    (sign i j * image X box i j c / pair_length X box i j).
Proof.
  intros Hij Hs. eapply derivative_eq.
  - apply d_length3; [apply (d_image i j 0) | apply (d_image i j 1) | apply (d_image i j 2) |];
      try done; try lia. change (pair_length (moved x0) box i j <> 0). rewrite moved_back. apply Hs.
  - done.
  - cbn beta. rewrite !moved_back -/(pair_length X box i j).
    assert (c = 0 \/ c = 1 \/ c = 2)%nat as [-> | [-> | ->]] by lia; simpl decide;
      repeat case_decide; try lia; field; apply Hs.
Qed.

Lemma pair_length_pos (i j : nat) : smooth_pair i j -> 0 < pair_length X box i j.
Proof.
  intros (H & _). rewrite /LennardJonesTheorems.pair_length /length3 /= in H |- *.
  match goal with |- 0 < sqrt ?e => destruct (sqrt_pos e) as [|E]; [done | by rewrite -E in H] end.
Qed.

(** The energy of a pair falls against its force on the moved atom. *)
Lemma d_pair_energy (i j : nat) : i <> j -> smooth_pair i j ->
  derivable_pt_lim (fun x => pair_energy self (moved x) box i j) x0
    (sign i j * pair_force self X box i j c).
Proof.
  intros Hij Hs. have Hpos := pair_length_pos i j Hs. eapply derivative_eq.
  - apply (d_comp (fun r => 4 * u0 self * Rpower (psi self / r) 6 * (Rpower (psi self / r) 6 - 1))
      (fun x => pair_length (moved x) box i j)).
    + by apply d_pair_length.
    + rewrite moved_back. by apply d_energy.
  - done.
  - rewrite /pair_force /pair_slope /pair_b /pair_a. cbn [fmul fdiv fsub fpow of_int reals num]. field. lra.
Qed.

(** One pair of the loops: what it adds to the energy, and what the moved atom feels. *)
Lemma d_pair_step (i j : nat) (U : R -> R) (D : R) : i <> j -> smooth_pair i j ->
  derivable_pt_lim U x0 D ->
  derivable_pt_lim (fun x => if interacting self (moved x) box i j
      then U x + pair_energy self (moved x) box i j - shift self else U x) x0
    (- feel self X box k c i j (- D)).
Proof.
  intros Hij Hs HU.
  destruct (stays_below _ x0 _ (cuttOffR self) (d_pair_length i j Hij Hs)) as (d & Hd & Hside).
  { rewrite moved_back. apply Hs. }
  rewrite moved_back in Hside.
  have Hsame y : Rabs (y - x0) < d -> interacting self (moved y) box i j = interacting self X box i j.
  { intros Hy. have := Hside y Hy. rewrite /interacting /=.
    destruct (Rlt_dec _ _), (Rlt_dec _ _); tauto. }
  rewrite feel_real //. destruct (interacting self X box i j) eqn:E.
  - apply (derivative_near (fun x => U x + pair_energy self (moved x) box i j - shift self) _ _ _ d Hd).
    + intros y Hy. by rewrite Hsame.
    + eapply derivative_eq.
      * apply d_minus; [apply d_plus; [exact HU | by apply d_pair_energy] | apply (d_const (shift self))].
      * done.
      * rewrite /sign. repeat case_decide; subst; try done; lra.
  - apply (derivative_near U _ _ _ d Hd).
    + intros y Hy. by rewrite Hsame.
    + eapply derivative_eq; [exact HU | done |]. repeat case_decide; lra.
Qed.

(** A loop that adds terms, and the loop that subtracts their derivatives. *)
Lemma d_fold {A} (step : A -> R -> R -> R) (g : A -> R -> R) (l : list A) (U : R -> R) (f : R) :
  (forall a U f, a ∈ l -> derivable_pt_lim U x0 (- f) ->
    derivable_pt_lim (fun x => step a x (U x)) x0 (- g a f)) ->
  derivable_pt_lim U x0 (- f) ->
  derivable_pt_lim (fun x => fold_left (fun U a => step a x U) l (U x)) x0
    (- fold_left (fun f a => g a f) l f).
Proof.
  revert U f; induction l as [|a l IH]; intros U f H HU; [done|]. simpl.
  apply (IH (fun x => step a x (U x))); [intros; apply H; set_solver |]. apply H; [set_solver | done].
Qed.

Lemma d_energy_of : (forall i j, (i < j < n)%nat -> smooth_pair i j) ->
  derivable_pt_lim (fun x => energy_of self (moved x) box n) x0 (- force_on self X box n k c).
Proof.
  intros Hs.
  have E : _ = force_on self X box n k c := felt_force self X box n k c Hk. rewrite -E.
  apply (d_fold (fun i x U => fold_left (fun U j => if interacting self (moved x) box i j
      then U + pair_energy self (moved x) box i j - shift self else U) (later n i) U)
    (fun i f => fold_left (fun f j => feel self X box k c i j f) (later n i) f) (seq 0 (n - 1)) (fun _ => 0)).
  - intros i U f Hi%elem_of_seq HU.
    apply (d_fold (fun j x U => if interacting self (moved x) box i j
      then U + pair_energy self (moved x) box i j - shift self else U) (feel self X box k c i)); [|done].
    intros j V f' Hj%elem_of_seq HV. rewrite -(Ropp_involutive f').
    apply d_pair_step; [lia | apply Hs; lia | done].
  - simpl. rewrite Ropp_0. apply (d_const 0).
Qed.
End gradient.

(** ** The properties *)

Section properties.
Context (self : @LJPot reals) (X box F : list R) (n : nat).
Hypothesis (HX : length X = (3 * n)%nat) (Hbox : (9 <= length box)%nat)
  (HF : length F = (3 * n)%nat) (Hn : (Z.of_nat (3 * n) <= 2 ^ 31)%Z).

(** With a value for the shift the loops always finish, with the reference's sums. *)
Lemma lj_total (X' : list R) (u : R) : length X' = (3 * n)%nat -> cuttOffU self = Some u ->
  LJ_force self (Z.of_nat n) X' box F = Some (MkSums (forces_of self X' box n) (energy_of self X' box n)).
Proof.
  intros HX' Hu. rewrite (lj_force_eq self X' box F n HX' Hbox HF Hn) /lj_reference Hu.
  by rewrite bool_decide_eq_true_2 // andb_false_r.
Qed.

Lemma forces_lookup (X' : list R) (k c : nat) : (k < n)%nat -> (c < 3)%nat ->
  forces_of self X' box n !! (3 * k + c)%nat = Some (force_on self X' box n k c).
Proof. apply (triples_lookup (fun k c => force_on self X' box n k c) n 0). Qed.

(** C18: The forces of a configuration balance.  With a value for the shift, [forceImpl]
    finishes, and the sum over the atoms of every component of the forces that it writes is
    zero, whatever the box, the positions and the old contents of the output. *)
Theorem lj_forces_balance (u : R) (c : nat) (Hu : cuttOffU self = Some u) (Hc : (c < 3)%nat) :
  exists s, LJ_force self (Z.of_nat n) X box F = Some s /\
    sum_atoms n (fun k => nth (3 * k + c) (sum_F s) 0) = 0.
Proof.
  eexists. split; [exact (lj_total X u HX Hu)|].
  rewrite -(forces_sum self X box n c). apply sum_atoms_ext. intros k Hk.
  cbn [sum_F]. apply nth_lookup_Some. by apply forces_lookup.
Qed.

(** C17: Energy and forces do not change when the whole system is translated and single atoms
    are moved by multiples of the box, whose diagonal sides are not zero: the two calls of [forceImpl] give the same result, the
    undefined ones included. *)
Theorem lj_periodic (X' : list R) (t : nat -> R) (m : nat -> nat -> Z) (HX' : length X' = (3 * n)%nat)
    (Hside : forall c, (c < 3)%nat -> nth (4 * c) box 0 <> 0)
    (Hmove : forall k c, (k < n)%nat -> (c < 3)%nat ->
      nth (3 * k + c) X' 0 = nth (3 * k + c) X 0 + t c + IZR (m k c) * nth (4 * c) box 0) :
  LJ_force self (Z.of_nat n) X' box F = LJ_force self (Z.of_nat n) X box F.
Proof.
  rewrite (lj_force_eq self X' box F n HX' Hbox HF Hn) (lj_force_eq self X box F n HX Hbox HF Hn).
  apply reference_images. intros i j c Hij Hc. 
  have E : nth (3 * i + c) X' 0 - nth (3 * j + c) X' 0 =
    nth (3 * i + c) X 0 - nth (3 * j + c) X 0 + IZR (m i c - m j c) * nth (4 * c) box 0.
  { rewrite -> !Hmove by lia. rewrite minus_IZR. ring. }
  exact (eq_trans (f_equal (fun d => minimum_image (arith := reals) d (nth (4 * c) box 0)) E)
    (minimum_image_periodic _ _ _ (Hside c Hc))).
Qed.

(** C10: The force on every atom is minus the gradient of the energy.  For an object whose shift
    has a value (the constructor gives it none), with positive [psi] and nonzero sides of the
    box, and where no pair sits at the cutoff, on a jump of the minimum image convention or
    on one point, the energy that
    [forceImpl] returns, as a function of one coordinate of one atom, has the derivative
    minus the force that [forceImpl] writes for it. *)
Theorem lj_force_is_minus_gradient (u : R) (k c : nat) (Hu : cuttOffU self = Some u)
    (Hpsi : 0 < psi self) (Hk : (k < n)%nat) (Hc : (c < 3)%nat)
    (Hsmooth : forall i j, (i < j < n)%nat -> smooth_pair self X box i j) :
  exists s f, LJ_force self (Z.of_nat n) X box F = Some s /\ sum_F s !! (3 * k + c)%nat = Some f /\
    derivable_pt_lim (fun x =>
        match LJ_force self (Z.of_nat n) (<[(3 * k + c)%nat := x]> X) box F with
        | Some s => sum_U s
        | None => 0
        end) (nth (3 * k + c) X 0) (- f).
Proof.
  eexists _, _. split_and!; [exact (lj_total X u HX Hu) | by apply forces_lookup |].
  eapply derivative_eq; [apply (d_energy_of self X box n k c HX Hk Hc Hpsi Hsmooth) | | done].
  intros x. rewrite (lj_total (<[(3 * k + c)%nat := x]> X) u) //. by rewrite length_insert.
Qed.
End properties.

(** ** Two atoms in a box *)

Definition dimer : list R := [0; 0; 0; 2; 0; 0].
Definition box10 : list R := [10; 0; 0; 0; 10; 0; 0; 0; 10].
Definition shifted : @LJPot reals := @MkLJPot reals 1 15 1 (Some 0).

Lemma lj_forces_balance_witness :
  exists s, LJ_force shifted 2 dimer box10 [7; 7; 7; 7; 7; 7] = Some s /\
    sum_atoms 2 (fun k => nth (3 * k + 0) (sum_F s) 0) = 0.
Proof.
  exact (lj_forces_balance shifted dimer box10 [7; 7; 7; 7; 7; 7] 2 eq_refl ltac:(cbn; lia) eq_refl
    ltac:(lia) 0 0 eq_refl ltac:(lia)).
Defined.

(** The second atom leaves the box. *)
Lemma lj_periodic_witness :
  LJ_force shifted 2 [1; 0; 0; 13; 0; 0] box10 [7; 7; 7; 7; 7; 7] =
  LJ_force shifted 2 dimer box10 [7; 7; 7; 7; 7; 7].
Proof.
  apply (lj_periodic shifted dimer box10 [7; 7; 7; 7; 7; 7] 2 eq_refl ltac:(cbn; lia) eq_refl ltac:(lia)
    [1; 0; 0; 13; 0; 0] (fun c => nth c [1; 0; 0] 0) (fun k c => nth (3 * k + c) [0; 0; 0; 1; 0; 0]%Z 0%Z) eq_refl).
  - intros [|[|[|c]]] Hc; cbn; lra || lia.
  - intros [|[|k]] [|[|[|c]]] Hk Hc; cbn; lra || lia.
Defined.

Lemma frac_part_between (x : R) : 0 < x < 1 -> frac_part x <> 0.
Proof.
  intros H. rewrite /frac_part. replace (Int_part x) with 0%Z; [lra|].
  apply Int_part_spec. lra.
Qed.

Lemma dimer_smooth (i j : nat) : (i < j < 2)%nat -> smooth_pair shifted dimer box10 i j.
Proof.
  intros H. assert (i = 0 /\ j = 1)%nat as [-> ->] by lia.
  have E : pair_length (arith := reals) dimer box10 0 1 = 2.
  { rewrite /pair_length /length3 /image /minimum_image. cbn.
    rewrite -(Int_part_spec _ 0%Z); [|lra]. rewrite -(Int_part_spec _ 0%Z); [|lra].
    replace ((0 - 2 - 10 * 0) * (0 - 2 - 10 * 0) + (0 - 0 - 10 * 0) * (0 - 0 - 10 * 0) +
      (0 - 0 - 10 * 0) * (0 - 0 - 10 * 0)) with (2 * 2) by ring.
    apply sqrt_square. lra. }
  rewrite /smooth_pair E. split_and!; [lra | cbn; lra |].
  intros [|[|[|c]]] Hc; [.. | lia]; (split; [cbn; lra | apply frac_part_between; cbn; lra]).
Qed.

Lemma lj_force_is_minus_gradient_witness :
  exists s f, LJ_force shifted 2 dimer box10 [7; 7; 7; 7; 7; 7] = Some s /\ sum_F s !! 3%nat = Some f /\
    derivable_pt_lim (fun x =>
        match LJ_force shifted 2 (<[3%nat := x]> dimer) box10 [7; 7; 7; 7; 7; 7] with
        | Some s => sum_U s
        | None => 0
        end) 2 (- f).
Proof.
  exact (lj_force_is_minus_gradient shifted dimer box10 [7; 7; 7; 7; 7; 7] 2 eq_refl ltac:(cbn; lia) eq_refl
    ltac:(lia) 0 1 0 eq_refl ltac:(cbn; lra) ltac:(lia) ltac:(lia) dimer_smooth).
Defined.
