(* ===== verification/Cuh2Utils.v ===== *)
(** * Cuh2Utils: placing a hydrogen molecule above a copper slab

    cuh2Utils.hpp and cuh2Utils.cc over any arithmetic.  A matrix of positions is the list of
    its rows, of three columns; a row that is not there is read out of bounds ([None]).  An
    xtensor expression bound by [auto] holds views of its operands and is evaluated where it
    is used, so [hMidpoint] is a function of the matrix.  [xt::linalg::norm] is a parameter. *)
From Stdlib Require Import ssreflect.
From S2P Require Import Prelude Machine FloatArith.
Open Scope Z_scope.
#[local] Open Scope general_if_scope.

Section cuh2_utils.
Context {arith : Arithmetic}.
#[local] Open Scope num_scope.

(** A row of the matrix. *)
Definition Row : Type := num * num * num.
Definition row_z (r : Row) : num := r.2.
Definition set_z (z : num) (r : Row) : Row := (r.1, z).
Definition zip_rows (f : num -> num -> num) (u v : Row) : Row :=
  (f u.1.1 v.1.1, f u.1.2 v.1.2, f u.2 v.2).
Definition map_row (f : num -> num) (u : Row) : Row := (f u.1.1, f u.1.2, f u.2).

Context (norm : Row -> num).

(** The result of a function that may throw a [std::runtime_error], by its text. *)
Definition Throws (A : Type) : Type := Result A string.

(** The indices of the hydrogen and of the copper atoms. *)
Fixpoint species (atmNumVec : list Z) (i : nat) (hIndices cuIndices : list nat) :
    Throws (list nat * list nat) :=
  match atmNumVec with
  | [] => Ok (hIndices, cuIndices)
  | z :: atmNumVec =>
      if (z =? 1)%Z then species atmNumVec (S i) (hIndices ++ [i]) cuIndices
      else if (z =? 29)%Z then species atmNumVec (S i) hIndices (cuIndices ++ [i])
      else Err "Unexpected atomic number"%string
  end.

(** Both functions begin with this. *)
Definition two_hydrogens (atmNumVec : list Z) : Throws (nat * nat * list nat) :=
  match species atmNumVec 0 [] [] with
  | Ok ([h0; h1], cuIndices) => Ok (h0, h1, cuIndices)
  | Ok _ => Err "Expected exactly two hydrogen atoms"%string
  | Err e => Err e
  end.

Definition tolerance : num := of_int 1 / of_int 1000000.

Definition ensure_normalized (vector : Row) : Throws Row :=
  let n := norm vector in
  if n =? of_int 0 then
    Err "Cannot normalize a vector whose norm is smaller than tol"%string
  else if tolerance <=? fabs (n - of_int 1) then Ok (map_row (fun x => x / n) vector)
  else Ok vector.

(** [hMidpoint], evaluated on the matrix as it is. *)
Definition hMidpoint (positions : list Row) (h0 h1 : nat) : option Row :=
  p ← positions !! h0; q ← positions !! h1;
  Some (map_row (fun x => x / of_int 2) (zip_rows fadd p q)).

Definition set_row (i : nat) (r : Row) (positions : list Row) : option (list Row) :=
  _ ← positions !! i; Some (<[i := r]> positions).

(** [std::max]. *)
Definition std_max (a b : num) : num := if a <? b then b else a.

Fixpoint max_z (positions : list Row) (cuIndices : list nat) (maxCuZ : num) : option num :=
  match cuIndices with
  | [] => Some maxCuZ
  | i :: cuIndices => r ← positions !! i; max_z positions cuIndices (std_max maxCuZ (row_z r))
  end.

(** The two hydrogen atoms, the one with the smaller x first, and the direction between them. *)
Definition hh_direction (positions : list Row) (h0 h1 : nat) : option (Throws (Row * nat * nat)) :=
  p ← positions !! h0; q ← positions !! h1;
  let '(d, h1_idx, h2_idx) :=
    if p.1.1 <? q.1.1 then (zip_rows fsub q p, h0, h1) else (zip_rows fsub p q, h1, h0) in
  Some (match ensure_normalized d with Ok d => Ok (d, h1_idx, h2_idx) | Err e => Err e end).

Definition perturb_positions (base_positions : list Row) (atmNumVec : list Z) (hcu_dist hh_dist : num) :
    option (Throws (list Row)) :=
  match two_hydrogens atmNumVec with
  | Err e => Some (Err e)
  | Ok (h0, h1, cuIndices) =>
      let positions := base_positions in
      dir ← hh_direction positions h0 h1;
      match dir with
      | Err e => Some (Err e)
      | Ok (d, h1_idx, h2_idx) =>
          let offset := map_row (fun x => one_half * hh_dist * x) d in
          m ← hMidpoint positions h0 h1;
          positions ← set_row h1_idx (zip_rows fsub m offset) positions;
          m ← hMidpoint positions h0 h1;
          positions ← set_row h2_idx (zip_rows fadd m offset) positions;
          maxCuZ ← max_z positions cuIndices flowest;
          let new_z := maxCuZ + hcu_dist in
          r ← positions !! h0;
          positions ← set_row h0 (set_z new_z r) positions;
          r ← positions !! h1;
          positions ← set_row h1 (set_z new_z r) positions;
          Some (Ok positions)
      end
  end.

Definition calculateDistances (positions : list Row) (atmNumVec : list Z) : option (Throws (num * num)) :=
  match two_hydrogens atmNumVec with
  | Err e => Some (Err e)
  | Ok (h0, h1, cuIndices) =>
      p ← positions !! h0; q ← positions !! h1;
      let hDistance := norm (zip_rows fsub p q) in
      maxCuZ ← max_z positions cuIndices flowest;
      Some (Ok (hDistance, row_z p - maxCuZ))
  end.
End cuh2_utils.
