(* ===== verification/Cuh2UtilsTheorems.v ===== *)
(** * Cuh2UtilsTheorems: what the utilities of cuh2Utils.cc do

    Their verdict on every list of atomic numbers, what [perturb_positions] leaves alone, and
    the distance between the hydrogen atoms that it makes, over the real numbers. *)
From Stdlib Require Import ssreflect Reals Lra.
From S2P Require Import Prelude Machine FloatArith LennardJonesReals Cuh2Utils.
Open Scope Z_scope.
#[local] Open Scope general_if_scope.

(** ** The indices *)

Definition indices (z : Z) (atmNumVec : list Z) : list nat :=
  filter (fun k => atmNumVec !! k = Some z) (seq 0 (length atmNumVec)).

Definition known (z : Z) : bool := (z =? 1) || (z =? 29).

Lemma filter_lookup_app (z y : Z) (pre l : list Z) :
  filter (fun k => (pre ++ y :: l) !! k = Some z) (seq (length pre) (S (length l))) =
  (if z =? y then [length pre] else []) ++
  filter (fun k => ((pre ++ [y]) ++ l) !! k = Some z) (seq (S (length pre)) (length l)).
Proof.
  rewrite -app_assoc /=. destruct (Z.eqb_spec z y) as [-> | Hne].
  - rewrite filter_cons_True //. by rewrite list_lookup_middle.
  - rewrite filter_cons_False //. rewrite list_lookup_middle //. by intros [= ->].
Qed.

Lemma species_from (pre l : list Z) (h cu : list nat) :
  species l (length pre) h cu =
  if forallb known l then
    Ok (h ++ filter (fun k => (pre ++ l) !! k = Some 1) (seq (length pre) (length l)),
        cu ++ filter (fun k => (pre ++ l) !! k = Some 29) (seq (length pre) (length l)))
  else Err "Unexpected atomic number"%string.
Proof.
  revert pre h cu; induction l as [|y l IH]; intros pre h cu; [by rewrite /= !app_nil_r|].
  cbn [species forallb length]. rewrite !filter_lookup_app.
  have IH' := IH (pre ++ [y]). rewrite length_app Nat.add_1_r in IH'.
  rewrite /known. destruct (Z.eqb_spec y 1) as [-> |]; [|destruct (Z.eqb_spec y 29) as [-> |]]; simpl orb; simpl andb.
  - rewrite IH' /=. by rewrite -!app_assoc.
  - rewrite IH' /=. by rewrite -!app_assoc.
  - done.
Qed.

Lemma species_eq (l : list Z) :
  species l 0 [] [] =
  if forallb known l then Ok (indices 1 l, indices 29 l) else Err "Unexpected atomic number"%string.
Proof. exact (species_from [] l [] []). Qed.

Lemma indices_spec (z : Z) (l : list Z) (k : nat) : k ∈ indices z l <-> l !! k = Some z.
Proof.
  rewrite /indices list_elem_of_filter elem_of_seq. split; [by intros []|].
  intros H. split; [done|]. apply lookup_lt_Some in H. lia.
Qed.

Lemma indices_nodup (z : Z) (l : list Z) : NoDup (indices z l).
Proof. apply NoDup_filter, NoDup_seq. Qed.

(** What a list with two hydrogen atoms is. *)
Lemma two_hydrogens_ok (l : list Z) (h0 h1 : nat) (cu : list nat) :
  two_hydrogens l = Ok (h0, h1, cu) ->
  h0 <> h1 /\ l !! h0 = Some 1 /\ l !! h1 = Some 1 /\ (forall k, k ∈ cu <-> l !! k = Some 29).
Proof.
  rewrite /two_hydrogens species_eq. destruct (forallb known l); [|done].
  destruct (indices 1 l) as [|a [|b [|]]] eqn:E; try done. intros [= -> -> <-].
  have H := indices_spec 1 l. have Hn := indices_nodup 1 l. rewrite E in H, Hn.
  split_and!.
  - apply NoDup_cons in Hn as [Hn _]. set_solver.
  - apply H. set_solver.
  - apply H. set_solver.
  - apply indices_spec.
Qed.

Lemma two_hydrogens_verdict (l : list Z) :
  two_hydrogens l =
  if negb (forallb known l) then Err "Unexpected atomic number"%string
  else match indices 1 l with
       | [h0; h1] => Ok (h0, h1, indices 29 l)
       | _ => Err "Expected exactly two hydrogen atoms"%string
       end.
Proof. rewrite /two_hydrogens species_eq. by destruct (forallb known l). Qed.

(** ** The rows after a perturbation *)

Section rows.
Context {arith : Arithmetic}.
#[local] Open Scope num_scope.

Lemma max_z_ext (positions positions' : list Row) (cu : list nat) (m : num) :
  (forall i, i ∈ cu -> positions' !! i = positions !! i) -> max_z positions' cu m = max_z positions cu m.
Proof.
  revert m; induction cu as [|i cu IH]; intros m H; [done|]. cbn [max_z].
  rewrite -> H by set_solver. destruct (positions !! i); [|done]. apply IH. set_solver.
Qed.

Lemma max_z_total (positions : list Row) (cu : list nat) (m : num) :
  (forall i, i ∈ cu -> is_Some (positions !! i)) -> is_Some (max_z positions cu m).
Proof.
  revert m; induction cu as [|i cu IH]; intros m H; [done|]. cbn [max_z].
  destruct (H i ltac:(set_solver)) as [r ->]. apply IH. set_solver.
Qed.

Definition midpoint (p q : Row) : Row := map_row (fun x => x / of_int 2) (zip_rows fadd p q).

(** The rows of the hydrogen atoms before their height is set: the second one is placed from
    a midpoint that already contains the first one. *)
Definition placed (p q offset : Row) : Row * Row :=
  if p.1.1 <? q.1.1 then
    let a := zip_rows fsub (midpoint p q) offset in (a, zip_rows fadd (midpoint a q) offset)
  else
    let b := zip_rows fsub (midpoint p q) offset in (zip_rows fadd (midpoint p b) offset, b).

Definition direction (p q : Row) : Row :=
  if p.1.1 <? q.1.1 then zip_rows fsub q p else zip_rows fsub p q.

Lemma set_row_eq (i : nat) (r r' : Row) (positions : list Row) :
  positions !! i = Some r' -> set_row i r positions = Some (<[i := r]> positions).
Proof. by rewrite /set_row => ->. Qed.

Lemma midpoint_eq (positions : list Row) (i j : nat) (p q : Row) :
  positions !! i = Some p -> positions !! j = Some q -> hMidpoint positions i j = Some (midpoint p q).
Proof. by rewrite /hMidpoint => -> ->. Qed.

Context (norm : Row -> num) (base : list Row) (l : list Z) (h0 h1 : nat) (cu : list nat) (p q : Row).
Hypothesis (Hl : two_hydrogens l = Ok (h0, h1, cu)) (Hp : base !! h0 = Some p) (Hq : base !! h1 = Some q).

Lemma differ : h0 <> h1 /\ h0 ∉ cu /\ h1 ∉ cu.
Proof.
  destruct (two_hydrogens_ok l h0 h1 cu Hl) as (Hne & H0 & H1 & Hcu). split_and!; [done|..].
  - intros H%Hcu. congruence.
  - intros H%Hcu. congruence.
Qed.

Lemma insert_both (a b a' b' : Row) (i j : nat) :
  (i = h0 /\ j = h1 \/ i = h1 /\ j = h0) ->
  <[h1 := b']> (<[h0 := a']> (<[j := b]> (<[i := a]> base))) = <[h1 := b']> (<[h0 := a']> base).
Proof.
  intros Hij. apply list_eq. intros k.
  destruct (decide (k = h1)) as [-> | H1].
  - rewrite !list_lookup_insert_eq ?length_insert //; by eapply lookup_lt_Some.
  - rewrite (list_lookup_insert_ne (<[h0 := a']> base)) //. rewrite (list_lookup_insert_ne (<[h0 := a']> _)) //.
    destruct (decide (k = h0)) as [-> | H0].
    + rewrite !list_lookup_insert_eq ?length_insert //; by eapply lookup_lt_Some.
    + rewrite !list_lookup_insert_ne //; intuition congruence.
Qed.

Lemma perturb_eq (hcu hh : num) :
  perturb_positions norm base l hcu hh =
  match ensure_normalized norm (direction p q) with
  | Err e => Some (Err e)
  | Ok d =>
      let ab := placed p q (map_row (fun x => one_half * hh * x) d) in
      m ← max_z base cu flowest;
      Some (Ok (<[h1 := set_z (m + hcu) ab.2]> (<[h0 := set_z (m + hcu) ab.1]> base)))
  end.
Proof.
  destruct differ as (Hne & Hcu0 & Hcu1).
  have L0 := lookup_lt_Some _ _ _ Hp. have L1 := lookup_lt_Some _ _ _ Hq.
  rewrite /perturb_positions Hl /hh_direction Hp Hq. cbn [mbind option_bind].
  rewrite /direction /placed. destruct (p.1.1 <? q.1.1); cbn [mbind option_bind].
  all: destruct (ensure_normalized norm _) as [d|e]; [|done]; cbn [mbind option_bind].
  all: rewrite (midpoint_eq base h0 h1 p q) //; cbn [mbind option_bind].
  - rewrite (set_row_eq h0 _ p) //. cbn [mbind option_bind].
    erewrite (midpoint_eq _ h0 h1 _ q); [|by rewrite list_lookup_insert_eq | by rewrite list_lookup_insert_ne].
    cbn [mbind option_bind].
    rewrite (set_row_eq h1 _ q); [|by rewrite list_lookup_insert_ne]. cbn [mbind option_bind].
    rewrite (max_z_ext base); [|intros i Hi; rewrite !list_lookup_insert_ne //; congruence].
    destruct (max_z base cu flowest) as [m|]; [|done]. cbn [mbind option_bind].
    rewrite (list_lookup_insert_ne _ h1 h0) // list_lookup_insert_eq //. cbn [mbind option_bind].
    erewrite set_row_eq; [|rewrite list_lookup_insert_ne // list_lookup_insert_eq //]. cbn [mbind option_bind].
    rewrite (list_lookup_insert_ne _ h0 h1) // list_lookup_insert_eq ?length_insert //. cbn [mbind option_bind].
    erewrite set_row_eq; [|rewrite list_lookup_insert_ne // list_lookup_insert_eq ?length_insert //].
    cbn [fst snd mbind option_bind]. do 2 f_equal. apply insert_both. by left.
  - rewrite (set_row_eq h1 _ q) //. cbn [mbind option_bind].
    erewrite (midpoint_eq _ h0 h1 p _); [|by rewrite list_lookup_insert_ne | by rewrite list_lookup_insert_eq].
    cbn [mbind option_bind].
    rewrite (set_row_eq h0 _ p); [|by rewrite list_lookup_insert_ne]. cbn [mbind option_bind].
    rewrite (max_z_ext base); [|intros i Hi; rewrite !list_lookup_insert_ne //; congruence].
    destruct (max_z base cu flowest) as [m|]; [|done]. cbn [mbind option_bind].
    rewrite list_lookup_insert_eq ?length_insert //. cbn [mbind option_bind].
    erewrite set_row_eq; [|rewrite list_lookup_insert_eq ?length_insert //]. cbn [mbind option_bind].
    rewrite (list_lookup_insert_ne _ h0 h1) // list_lookup_insert_ne // list_lookup_insert_eq //. cbn [mbind option_bind].
    erewrite set_row_eq; [|rewrite list_lookup_insert_ne // list_lookup_insert_ne // list_lookup_insert_eq //].
    cbn [fst snd mbind option_bind]. do 2 f_equal. apply insert_both. by right.
Qed.
End rows.

(** ** The properties *)

(** C26: The verdict of the utilities on every list of atomic numbers.  Another number than 1
    and 29 is an exception of both, then a number of hydrogen atoms other than two.  Any
    other system with enough rows gives distances, the first of which is the norm of the
    difference of the two hydrogen atoms' rows; and [perturb_positions] throws exactly when
    the norm of the direction from the one with the smaller x to the other is zero, and
    gives otherwise a matrix of the same size in which only the rows of the hydrogen atoms
    differ.  No row is read out of bounds. *)
Theorem cuh2_utils_verdict {arith : Arithmetic} (norm : Row -> num) (positions : list Row)
    (atmNumVec : list Z) (hcu_dist hh_dist : num) (Hlen : (length atmNumVec <= length positions)%nat) :
  let perturbed := perturb_positions norm positions atmNumVec hcu_dist hh_dist in
  let distances := calculateDistances norm positions atmNumVec in
  if negb (forallb known atmNumVec) then
    perturbed = Some (Err "Unexpected atomic number"%string) /\
    distances = Some (Err "Unexpected atomic number"%string)
  else match indices 1 atmNumVec with
       | [h0; h1] =>
           exists p q, positions !! h0 = Some p /\ positions !! h1 = Some q /\
           (exists height, distances = Some (Ok (norm (zip_rows fsub p q), height))) /\
           if feqb (norm (direction p q)) (of_int 0) then
             perturbed = Some (Err "Cannot normalize a vector whose norm is smaller than tol"%string)
           else exists rows, perturbed = Some (Ok rows) /\ length rows = length positions /\
             forall k, k <> h0 -> k <> h1 -> rows !! k = positions !! k
       | _ =>
           perturbed = Some (Err "Expected exactly two hydrogen atoms"%string) /\
           distances = Some (Err "Expected exactly two hydrogen atoms"%string)
       end.
Proof.
  intros perturbed distances. have E := two_hydrogens_verdict atmNumVec.
  destruct (negb (forallb known atmNumVec)).
  { by rewrite /perturbed /distances /perturb_positions /calculateDistances E. }
  destruct (indices 1 atmNumVec) as [|h0 [|h1 [|h2 more]]];
    try by rewrite /perturbed /distances /perturb_positions /calculateDistances E.
  destruct (two_hydrogens_ok _ _ _ _ E) as (_ & L0 & L1 & Hcu).
  have Hrow k z : atmNumVec !! k = Some z -> is_Some (positions !! k).
  { intros Hk%lookup_lt_Some. apply lookup_lt_is_Some. lia. }
  destruct (Hrow h0 1 L0) as [p Hp]. destruct (Hrow h1 1 L1) as [q Hq].
  destruct (max_z_total positions (indices 29 atmNumVec) flowest) as [m Hm].
  { intros i Hi%Hcu. by eapply Hrow. }
  rewrite /perturbed (perturb_eq norm positions atmNumVec h0 h1 _ p q E Hp Hq) /distances /calculateDistances E Hp Hq.
  cbn [mbind option_bind]. rewrite Hm. cbn [mbind option_bind].
  exists p, q. split_and!; [done | done | by eexists |].
  rewrite /ensure_normalized. destruct (feqb _ _); [done|].
  destruct (fleb _ _); (eexists; split_and!; [done | by rewrite !length_insert |]);
    intros k Hk0 Hk1; by rewrite !list_lookup_insert_ne.
Qed.

#[local] Open Scope R_scope.

(** The Euclidean norm of a row. *)
Definition norm2 (r : Row (arith := reals)) : R := sqrt (r.1.1 * r.1.1 + r.1.2 * r.1.2 + r.2 * r.2).

(** A planar vector, stretched. *)
Lemma norm2_scaled (x y k D : R) : 0 <= k -> D = norm2 (x, y, 0) -> norm2 (k * x, k * y, 0) = k * D.
Proof.
  intros Hk ->. rewrite /norm2 /=. transitivity (sqrt (k * k * (x * x + y * y + 0 * 0))); [f_equal; ring|].
  rewrite sqrt_mult_alt; [|nra]. by rewrite sqrt_square.
Qed.

(** C19: The distance that [perturb_positions] makes is not the one it is asked for, over the
    reals.  For two hydrogen atoms at one height and at distance [D], not within the tolerance of 1, the atoms
    of the result are [(D + 3 * hh_dist) / 4] apart: the lazy midpoint is evaluated a second
    time when the first atom has been moved.  Their height above the copper is [hcu_dist]. *)
Theorem perturb_misses_distance (positions : list (Row (arith := reals))) (atmNumVec : list Z)
    (h0 h1 : nat) (cu : list nat) (x0 y0 x1 y1 z D hcu_dist hh_dist : R)
    (Hlen : (length atmNumVec <= length positions)%nat)
    (Hatm : two_hydrogens atmNumVec = Ok (h0, h1, cu))
    (H0 : positions !! h0 = Some (x0, y0, z)) (H1 : positions !! h1 = Some (x1, y1, z))
    (HD : D = norm2 (x1 - x0, y1 - y0, 0)) (Hpos : 0 < D) (Htol : 1 / 1000000 <= Rabs (D - 1))
    (Hhh : 0 <= hh_dist) :
  exists rows, perturb_positions (arith := reals) norm2 positions atmNumVec hcu_dist hh_dist = Some (Ok rows) /\
    calculateDistances (arith := reals) norm2 rows atmNumVec = Some (Ok ((D + 3 * hh_dist) / 4, hcu_dist)).
Proof.
  destruct (differ atmNumVec h0 h1 cu Hatm) as (Hne & Hcu0 & Hcu1).
  destruct (max_z_total (arith := reals) positions cu flowest) as [m Hm].
  { intros i Hi. destruct (two_hydrogens_ok _ _ _ _ Hatm) as (_ & _ & _ & Hcu).
    apply Hcu, lookup_lt_Some in Hi. apply lookup_lt_is_Some. lia. }
  have Hn : norm2 (direction (arith := reals) (x0, y0, z) (x1, y1, z)) = D.
  { rewrite HD /direction /norm2 /zip_rows /=. destruct (Rlt_dec x0 x1); cbn; f_equal; ring. }
  rewrite (perturb_eq (arith := reals) norm2 positions atmNumVec h0 h1 cu _ _ Hatm H0 H1).
  rewrite /ensure_normalized Hn /tolerance. cbn [feqb fleb fabs fsub fdiv of_int reals].
  destruct (Req_dec_T D 0); [lra|]. destruct (Rle_dec _ _); [|lra].
  rewrite Hm. cbn [mbind option_bind]. eexists. split; [done|].
  have L0 := lookup_lt_Some _ _ _ H0. have L1 := lookup_lt_Some _ _ _ H1.
  rewrite /calculateDistances Hatm.
  rewrite -> (list_lookup_insert_ne _ h1 h0) by done.
  rewrite -> !list_lookup_insert_eq by (rewrite ?length_insert; done). cbn [mbind option_bind].
  rewrite (max_z_ext (arith := reals) positions); [|intros i Hi; rewrite !list_lookup_insert_ne //; congruence].
  rewrite Hm. cbn [mbind option_bind]. do 3 f_equal; [|cbn; ring].
  set (k := (D + 3 * hh_dist) / (4 * D)).
  have Hk : 0 <= k.
  { apply Rle_mult_inv_pos; lra. }
  transitivity (norm2 (k * (x1 - x0), k * (y1 - y0), 0)).
  - rewrite /norm2 /placed /direction /midpoint /k. cbn.
    destruct (Rlt_dec x0 x1); cbn; apply (f_equal sqrt); field; lra.
  - have E : k * D = (D + 3 * hh_dist) / 4 by (rewrite /k; field; lra).
    exact (eq_trans (norm2_scaled _ _ _ _ Hk HD) E).
Qed.

(** ** Two hydrogen atoms two apart, above one copper atom *)

Definition molecule : list (Row (arith := reals)) := [(0, 0, 4); (2, 0, 4); (1, 1, 3)].

Lemma perturb_misses_distance_witness :
  exists rows, perturb_positions (arith := reals) norm2 molecule [1; 1; 29]%Z 5 1 = Some (Ok rows) /\
    calculateDistances (arith := reals) norm2 rows [1; 1; 29]%Z = Some (Ok ((2 + 3 * 1) / 4, 5)).
Proof.
  apply (perturb_misses_distance molecule [1; 1; 29]%Z 0 1 [2%nat] 0 0 2 0 4 2 5 1 ltac:(cbn; lia) eq_refl eq_refl eq_refl).
  - rewrite /norm2 /=. replace ((2 - 0) * (2 - 0) + (0 - 0) * (0 - 0) + 0 * 0) with (2 * 2) by ring.
    rewrite sqrt_square; lra.
  - lra.
  - rewrite Rabs_right; lra.
  - lra.
Defined.

(** The Euclidean norm in double precision. *)
Definition demo_arith : Arithmetic := binary64 (fun x _ => x).
Definition norm64 (r : Row (arith := demo_arith)) : num (Arithmetic := demo_arith) :=
  fsqrt (fadd (fadd (fmul r.1.1 r.1.1) (fmul r.1.2 r.1.2)) (fmul r.2 r.2)).
Definition row64 (x y z : Z) : Row (arith := demo_arith) := (of_Z x, of_Z y, of_Z z).

(** In double precision as well: atoms two apart, asked for one, end up 5/4 apart. *)
Example perturbed_molecule :
  match perturb_positions (arith := demo_arith) norm64 [row64 0 0 4; row64 2 0 4; row64 1 1 3]
          [1; 1; 29]%Z (of_Z 5) (of_Z 1) with
  | Some (Ok rows) => calculateDistances (arith := demo_arith) norm64 rows [1; 1; 29]%Z
  | _ => None
  end = Some (Ok (0x3ff4000000000000, of_Z 5))%Z.
Proof. vm_compute. reflexivity. Qed.

Lemma cuh2_utils_verdict_witness :
  perturb_positions (arith := demo_arith) norm64 [row64 0 0 4; row64 2 0 4] [1; 29]%Z (of_Z 5) (of_Z 1) =
    Some (Err "Expected exactly two hydrogen atoms"%string) /\
  calculateDistances (arith := demo_arith) norm64 [row64 0 0 4; row64 2 0 4] [1; 29]%Z =
    Some (Err "Expected exactly two hydrogen atoms"%string).
Proof.
  exact (cuh2_utils_verdict (arith := demo_arith) norm64 [row64 0 0 4; row64 2 0 4] [1; 29]%Z (of_Z 5) (of_Z 1)
    ltac:(cbn; lia)).
Defined.
