(* ===== verification/CxxMain.v ===== *)
(** * CxxMain: the potserv executable

    [main] of server.cpp with the [std::stoi] it reads its port with, and the potentials it
    makes.  A [string] is the text of an argument, without NULs; the allocator gives the
    potential a place of its own. *)
From Stdlib Require Import ssreflect Ascii.
From S2P Require Import Prelude Machine FloatArith CxxRegistry CxxCore CxxServer LennardJones.
Open Scope Z_scope.
#[local] Open Scope general_if_scope.

(** ** [std::stoi] *)

Definition is_space (c : ascii) : bool :=
  let n := nat_of_ascii c in Nat.eqb n 32 || (Nat.leb 9 n && Nat.leb n 13).
Definition digit (c : ascii) : option Z :=
  let n := nat_of_ascii c in
  if Nat.leb 48 n && Nat.leb n 57 then Some (Z.of_nat n - 48) else None.

Fixpoint skip_spaces (s : string) : string :=
  match s with
  | String c rest => if is_space c then skip_spaces rest else s
  | EmptyString => s
  end.

(** The digits at the front of a text, after those already read. *)
Fixpoint read_digits (s : string) (acc : option Z) : option Z :=
  match s with
  | EmptyString => acc
  | String c s =>
      match digit c with
      | Some d => read_digits s (Some (10 * default 0 acc + d))
      | None => acc
      end
  end.

(** Nothing that looks like a number, and a number that is no [int], throw.  What follows the
    number is ignored. *)
Definition stoi (s : string) : option Z :=
  let s := skip_spaces s in
  let '(negative, s) :=
    match s with
    | String c rest =>
        if Ascii.eqb c "-" then (true, rest) else if Ascii.eqb c "+" then (false, rest) else (false, s)
    | EmptyString => (false, s)
    end in
  n ← read_digits s None;
  let n := if negative then - n else n in
  if is_i32 n then Some n else None.

(** ** The potentials of the server *)

Section main.
  Context {rocksdb : RocksDB} (XXH3_64bits : list Z -> Z) (pow : f64 -> f64 -> f64)
    (c_force_eam : Z * Z -> Z -> f64 * f64 * f64 -> list f64 -> list f64 * f64 -> option (list f64 * f64)).

(** [forceImpl] of an object that the default constructor of its class made. *)
Definition default_forceImpl (t : PotType) : ForceImpl :=
  match t with
  | LJ => LJPot_forceImpl pow (@LJPot_new (binary64 pow))
  | CuH2 => CuH2Pot_forceImpl c_force_eam
  | UNKNOWN => fun _ _ => None
  end.

(** [std::make_unique<...>()]: the object enters the registry of its class; it has no cache. *)
Definition make_potential (t : PotType) (this : ptr) (w : World) : option (Potential * World) :=
  r ← registry_new this (registries w t);
  Some (MkPotential t null,
        MkWorld (engine w) (cache_objects w) (fun u => if decide (u = t) then r else registries w u)).

(** The virtual [operator()] of a potential without a cache, in a build with the cache. *)
Definition virtual_call (self : Potential) : AtomMatrix -> list Z -> Box3 -> World -> option (Evaluation * World) :=
  evaluate_cached XXH3_64bits default_forceImpl self.

(** ** [main] *)

(** The process ends with a code, or serves: with a port for the RPC system, which takes an
    [unsigned int], and the handler of its requests. *)
Inductive Process :=
| Exits (code : Z)
| Serves (port : Z) (calculate : Fip -> World -> option (Reply * World)).

(** Lines on standard output and on standard error. *)
Inductive Line := Cout (text : string) | Cerr (text : string).

Definition usage (program : string) : list Line :=
  [Cerr ("Usage: " +:+ program +:+ " <port> <PotentialType>");
   Cerr "  Available PotentialTypes: CuH2, LJ"].

Definition pot_type (name : string) : option PotType :=
  if bool_decide (name = "CuH2"%string) then Some CuH2
  else if bool_decide (name = "LJ"%string) then Some LJ
  else None.

(** A program that is started without even its name prints a null pointer. *)
Definition main (argv : list string) (this : ptr) (w : World) : option (list Line * Process * World) :=
  match argv with
  | [] => None
  | program :: port_text :: name :: _ =>
      let '(port, log) :=
        match stoi port_text with
        | Some port => (port, [])
        | None => (12345, [Cerr ("Invalid port argument '" +:+ port_text +:+ "'. Using default 12345.")])
        end in
      match pot_type name with
      | None => Some (log ++ [Cerr ("Error: Unknown potential type '" +:+ name +:+ "'")], Exits 1, w)
      | Some t =>
          p ← make_potential t this w;
          Some (log ++ [Cout ("Loading " +:+ name +:+ " potential...");
                        Cout ("Server running on port " +:+ pretty port +:+ " with " +:+ name +:+ " potential.")],
                Serves (as_u32 port) (GenericPotImpl_calculate (virtual_call p.1)), p.2)
      end
  | program :: _ => Some (usage program, Exits 1, w)
  end.
End main.

Example stoi_reads_a_prefix : stoi "  +80 http"%string = Some 80.
Proof. reflexivity. Qed.
Example stoi_refuses : map stoi [""; "-"; "x80"; "2147483648"]%string = [None; None; None; None].
Proof. reflexivity. Qed.
Example stoi_negative : stoi "-2147483648"%string = Some (-2147483648).
Proof. reflexivity. Qed.
