(* ===== verification/CxxMainTheorems.v ===== *)
(** * CxxMainTheorems: what potserv does

    When the executable serves, on which port and with which potential, and what the server
    of a Lennard-Jones potential answers. *)
From Stdlib Require Import ssreflect Ascii.
From S2P Require Import Prelude Machine FloatArith CxxRegistry CxxCore CxxCoreTheorems CxxServer.
From S2P Require Import CxxServerTheorems LennardJones LennardJonesTheorems CxxMain.
Open Scope Z_scope.
#[local] Open Scope general_if_scope.

(** ** Reading a number that was printed *)

Lemma digit_char (x : N) : (x < 10)%N -> digit (pretty_N_char x) = Some (Z.of_N x).
Proof.
  intros H. assert (x = 0 \/ x = 1 \/ x = 2 \/ x = 3 \/ x = 4 \/ x = 5 \/ x = 6 \/ x = 7 \/ x = 8 \/ x = 9)%N
    as Hx by lia.
  by repeat (destruct Hx as [-> | Hx]; [done|]); subst.
Qed.

Lemma read_digits_go (x : N) (s : string) :
  (0 < x)%N -> read_digits (pretty_N_go x s) None = read_digits s (Some (Z.of_N x)).
Proof.
  revert s. induction (N.lt_wf_0 x) as [x _ IH]. intros s Hx.
  have Hm : (x `mod` 10 < 10)%N by (apply N.mod_lt; lia).
  have Hd := N.div_mod x 10 ltac:(lia).
  rewrite pretty_N_go_step //. destruct (decide (0 < x `div` 10)%N) as [Hq | Hq].
  - rewrite IH; [|by apply N.div_lt; lia | done]. cbn [read_digits default].
    rewrite digit_char //. do 2 f_equal. simpl. lia.
  - replace (x `div` 10)%N with 0%N in * by lia. rewrite pretty_N_go_0. cbn [read_digits].
    rewrite digit_char //. do 2 f_equal. simpl. lia.
Qed.

(** A text that begins with a digit has neither spaces nor a sign. *)
Lemma stoi_digits (s : string) (n : Z) :
  read_digits s None = Some n -> stoi s = if is_i32 n then Some n else None.
Proof.
  intros H. rewrite /stoi. destruct s as [|c s]; [done|]. cbn [read_digits] in H.
  destruct (digit c) as [d|] eqn:Hd; [|done].
  have Hc : is_space c = false /\ Ascii.eqb c "-" = false /\ Ascii.eqb c "+" = false.
  { rewrite /digit in Hd. rewrite /is_space. destruct c as [[] [] [] [] [] [] [] []]; done. }
  destruct Hc as (Hs & Hm & Hp). cbn [skip_spaces]. rewrite Hs Hm Hp. cbn [read_digits].
  by rewrite Hd H.
Qed.

Lemma read_digits_pos (p : positive) : read_digits (pretty (N.pos p)) None = Some (Z.pos p).
Proof. change (pretty (N.pos p)) with (pretty_N_go (N.pos p) ""). by rewrite read_digits_go. Qed.

Lemma stoi_pretty (z : Z) : is_i32 z = true -> stoi (pretty z) = Some z.
Proof.
  intros Hz. destruct z as [|p|p]; [done | |].
  - rewrite (stoi_digits _ (Z.pos p)); [by rewrite Hz | apply read_digits_pos].
  - transitivity (n ← read_digits (pretty (N.pos p)) None; if is_i32 (- n) then Some (- n) else None); [done|].
    rewrite read_digits_pos. cbn [mbind option_bind]. by rewrite Hz.
Qed.

(** ** The executable *)

Section main.
  Context {rocksdb : RocksDB} (XXH3_64bits : list Z -> Z) (pow : f64 -> f64 -> f64)
    (c_force_eam : Z * Z -> Z -> f64 * f64 * f64 -> list f64 -> list f64 * f64 -> option (list f64 * f64)).

Notation run := (main XXH3_64bits pow c_force_eam).

Lemma pot_type_name (name : string) (t : PotType) :
  pot_type name = Some t <-> (name = "CuH2"%string /\ t = CuH2) \/ (name = "LJ"%string /\ t = LJ).
Proof.
  rewrite /pot_type. repeat case_bool_decide; naive_solver.
Qed.

Lemma make_potential_total (t : PotType) (this : ptr) (w : World) (live : list ptr) :
  registers live (registries w t) -> this <> null -> this ∉ live ->
  exists w', make_potential t this w = Some (MkPotential t null, w') /\
    registers (this :: live) (registries w' t) /\ engine w' = engine w /\ cache_objects w' = cache_objects w.
Proof.
  intros Hr Hn Hl. destruct (registry_new_registers this live _ Hr Hn Hl) as (r & Er & Hr' & _).
  rewrite /make_potential Er. cbn [mbind option_bind]. eexists. split_and!; [done | | done | done].
  cbn [registries]. by rewrite decide_True.
Qed.

(** C20: What potserv does with its arguments.  Without two arguments it prints its usage and
    exits with 1; with an unknown name of a potential it exits with 1; in both cases nothing
    else has happened.  With a known one it serves: on the port that was asked for, when the
    argument is the text of an [int], as an [unsigned int], and on 12345 when it is no number;
    the new potential is the first of its registry, and no cache is involved. *)
Theorem potserv_verdict (program port_text name : string) (more : list string) (this : ptr) (w : World)
    (live : PotType -> list ptr) (Hreg : forall t, registers (live t) (registries w t))
    (Hthis : this <> null) (Hfresh : forall t, this ∉ live t) :
  run [program] this w = Some (usage program, Exits 1, w) /\
  run [program; port_text] this w = Some (usage program, Exits 1, w) /\
  match pot_type name with
  | None => exists log, run (program :: port_text :: name :: more) this w = Some (log, Exits 1, w)
  | Some t => exists port log w',
      run (program :: port_text :: name :: more) this w =
        Some (log, Serves (as_u32 port)
          (GenericPotImpl_calculate (virtual_call XXH3_64bits pow c_force_eam (MkPotential t null))), w') /\
      registers (this :: live t) (registries w' t) /\ engine w' = engine w /\
      cache_objects w' = cache_objects w /\
      (stoi port_text = None -> port = 12345) /\
      (forall p, is_i32 p = true -> port_text = pretty p -> port = p)
  end.
Proof.
  split_and!; [done | done |].
  destruct (stoi port_text) as [p|] eqn:Ep; rewrite /main Ep.
  all: destruct (pot_type name) as [t|]; [|by eexists].
  all: destruct (make_potential_total t this w (live t) (Hreg t) Hthis (Hfresh t)) as (w' & -> & Hr & He & Hc).
  all: cbn [mbind option_bind fst snd]; eexists _, _, w'; split_and!; [reflexivity | done | done | done | |].
  - done.
  - intros q Hq ->. rewrite stoi_pretty // in Ep. by injection Ep as ->.
  - done.
  - intros q Hq ->. by rewrite stoi_pretty // in Ep.
Qed.

(** The handler of a process that serves. *)
Lemma served (program port_text name : string) (t : PotType) (more : list string) (this : ptr)
    (w w1 : World) (log : list Line) (port : Z) (calculate : Fip -> World -> option (Reply * World)) :
  pot_type name = Some t ->
  run (program :: port_text :: name :: more) this w = Some (log, Serves port calculate, w1) ->
  calculate = GenericPotImpl_calculate (virtual_call XXH3_64bits pow c_force_eam (MkPotential t null)).
Proof.
  intros Ht. rewrite /main Ht. destruct (stoi port_text); rewrite /make_potential;
    destruct (registry_new this (registries w t)); cbn [mbind option_bind]; intros E; by simplify_eq.
Qed.

(** ** The server of a Lennard-Jones potential *)

Definition closer_than_cutoff (positions : list f64) (b : list f64) (n : nat) : bool :=
  any_interacting (arith := binary64 pow) (@LJPot_new (binary64 pow)) positions b n.

Definition lj_call := virtual_call XXH3_64bits pow c_force_eam (MkPotential LJ null).

Lemma lj_call_eq (rq : Request) (w : World) (Hrq : request_ok rq = true) :
  lj_call (rq_positions rq) (rq_types rq) (rq_box rq) w =
  if closer_than_cutoff (m_data (rq_positions rq)) (flatBox (rq_box rq)) (Z.to_nat (rq_n rq)) then None
  else Some (Ok (f64_zero, with_data (AtomMatrix_Zero (rq_n rq) 3)
               (replicate (3 * Z.to_nat (rq_n rq)) f64_zero)), count_force_call LJ w).
Proof.
  destruct (request_ok_spec rq Hrq) as (Hn & Hl & _).
  destruct (hash_total XXH3_64bits LJ rq Hrq) as [h Hh]. unfold hash_of in Hh.
  rewrite /lj_call /virtual_call /evaluate_cached. cbn [m_type _cache].
  change (input_view (rq_positions rq) (rq_types rq) (rq_box rq)) with (rq_view rq).
  rewrite Hh. cbn [mbind option_bind is_null]. rewrite /compute.
  change (default_forceImpl pow c_force_eam LJ) with (LJPot_forceImpl pow (@LJPot_new (binary64 pow))).
  have H1 : nAtoms (rq_view rq) = Z.of_nat (Z.to_nat (rq_n rq)) by (cbn; unfold rq_n in *; word_lia).
  have H2 : length (pos (rq_view rq)) = (3 * Z.to_nat (rq_n rq))%nat by (cbn [pos rq_view input_view]; word_lia).
  have H3 : (9 <= length (box (rq_view rq)))%nat.
  { cbn [box rq_view input_view]. pose proof (flatBox_three (rq_box rq)). word_lia. }
  have H4 : length (m_data (AtomMatrix_Zero (rq_n rq) 3)) = (3 * Z.to_nat (rq_n rq))%nat.
  { rewrite length_Zero // length_replicate. word_lia. }
  rewrite (default_forceImpl_eq pow (rq_view rq) (MkOutputView _ _ _) _ H1 H2 H3 H4 ltac:(word_lia)).
  rewrite /closer_than_cutoff. cbn [pos box rq_view input_view].
  by destruct (any_interacting _ _ _ _).
Qed.

Lemma lj_call_shapes : shapes_ok lj_call.
Proof.
  intros n positions types b w e F w' Hn Hr Hc Hl Ht E.
  have Hrq : request_ok (MkRequest positions types b) = true by (unfold request_ok, rq_n; cbn; word_lia).
  change positions with (rq_positions (MkRequest positions types b)) in E.
  change types with (rq_types (MkRequest positions types b)) in E.
  change b with (rq_box (MkRequest positions types b)) in E.
  rewrite lj_call_eq // in E. destruct (closer_than_cutoff _ _ _); [done|]. injection E as _ <- _.
  unfold rq_n in *. cbn [m_rows m_cols m_data with_data AtomMatrix_Zero AtomMatrix_new rq_positions].
  rewrite length_replicate. split_and!; [done | done | word_lia].
Qed.

(** C13: A server of the Lennard-Jones potential has no defined answer for interacting atoms.
    The object that potserv makes for "LJ" has no value for the energy at the cutoff.  For a
    request of [n] atoms and a box, if some pair is closer than the cutoff, the energy is
    computed from that value, which is undefined behaviour; if no pair is, the reply is a
    zero energy and zero forces, and one force call is counted. *)
Theorem lj_server_verdict (program port_text : string) (more : list string) (this : ptr) (w w1 w2 : World)
    (log : list Line) (port : Z) (calculate : Fip -> World -> option (Reply * World))
    (Hmain : run (program :: port_text :: "LJ"%string :: more) this w = Some (log, Serves port calculate, w1))
    (n : nat) (fip : Fip) (b : Box3)
    (Hpos : length (fip_pos fip) = (3 * n)%nat) (Hatm : length (fip_atmnrs fip) = n)
    (Hbox : fip_box fip = flatBox b) (Hn : Z.of_nat (3 * n) < 2 ^ 29) :
  calculate fip w2 =
  if closer_than_cutoff (fip_pos fip) (fip_box fip) n then None
  else Some (Ok (f64_zero, replicate (3 * n) f64_zero), count_force_call LJ w2).
Proof.
  have -> : calculate = GenericPotImpl_calculate lj_call by (eapply served; [|exact Hmain]; done).
  have Hdiv : Z.div (Z.of_nat (length (fip_pos fip))) 3 = Z.of_nat n.
  { rewrite Hpos. replace (Z.of_nat (3 * n)) with (Z.of_nat n * 3) by lia. by rewrite Z.div_mul. }
  rewrite (server_evaluates lj_call fip b [] w2 lj_call_shapes); rewrite ?app_nil_r ?Hdiv //; try word_lia.
  set (rq := MkRequest (MkAtomMatrix (Z.of_nat n) 3 (take (Z.to_nat (3 * Z.of_nat n)) (fip_pos fip)))
    (fip_atmnrs fip) b).
  have Hfull : take (Z.to_nat (3 * Z.of_nat n)) (fip_pos fip) = fip_pos fip by (apply take_ge; word_lia).
  have Hrq : request_ok rq = true.
  { unfold request_ok, rq_n, rq. cbn [rq_positions rq_types m_rows m_cols m_data]. rewrite Hfull. word_lia. }
  have E := lj_call_eq rq w2 Hrq. cbn [rq rq_positions rq_types rq_box] in E. rewrite E. clear E.
  unfold rq_n. cbn [rq rq_positions m_rows m_data]. rewrite Hfull Nat2Z.id Hbox.
  by destruct (closer_than_cutoff _ _ _).
Qed.
End main.

(** ** Runs *)

Section demo.
#[local] Existing Instance map_db.

Definition demo_pow (x y : f64) : f64 :=
  let times := fmul (Arithmetic := binary64 (fun x _ => x)) in
  let square := times x x in times (times square square) square.
Definition no_fortran (natms : Z * Z) (ndim : Z) (b : f64 * f64 * f64) (R : list f64) (out : list f64 * f64) :
    option (list f64 * f64) := None.
Definition blank_world : World := MkWorld (MkMapEngine ∅ ∅) ∅ (fun _ => no_objects).

Lemma no_objects_registers : registers [] no_objects.
Proof. split; [done..|apply NoDup_nil_2|set_solver]. Qed.

Lemma potserv_verdict_witness :
  exists port log w', main demo_hash demo_pow no_fortran ["potserv"; "8080"; "LJ"]%string 7%N blank_world =
      Some (log, Serves (as_u32 port)
        (GenericPotImpl_calculate (virtual_call demo_hash demo_pow no_fortran (MkPotential LJ null))), w') /\
    registers [7%N] (registries w' LJ) /\ engine w' = engine blank_world /\
    cache_objects w' = cache_objects blank_world /\
    (stoi "8080" = None -> port = 12345) /\
    (forall p, is_i32 p = true -> "8080"%string = pretty p -> port = p).
Proof.
  exact (proj2 (proj2 (potserv_verdict demo_hash demo_pow no_fortran "potserv" "8080" "LJ" [] 7%N blank_world
    (fun _ => []) (fun _ => no_objects_registers) ltac:(done) (fun _ => not_elem_of_nil 7%N)))).
Defined.

Definition lj_server : Fip -> World -> option (Reply * World) :=
  GenericPotImpl_calculate (virtual_call demo_hash demo_pow no_fortran (MkPotential LJ null)).
Definition wide_box : Box3 := rows (of_Z 100).
(** Two atoms at a distance, along x. *)
Definition two_atoms (x : Z) : Fip := MkFip [0; 0; 0; of_Z x; 0; 0] [1; 1] (flatBox wide_box).

Lemma lj_server_verdict_witness :
  lj_server (two_atoms 2) blank_world = None /\
  lj_server (two_atoms 20) blank_world =
    Some (Ok (f64_zero, replicate 6 f64_zero), count_force_call LJ blank_world).
Proof.
  pose proof (fun x => lj_server_verdict demo_hash demo_pow no_fortran "potserv" "8080" [] 7%N blank_world
    _ blank_world _ _ _ eq_refl 2 (two_atoms x) wide_box eq_refl eq_refl eq_refl ltac:(done)) as H.
  split; [exact (H 2) | exact (H 20)].
Defined.
End demo.
