(* ===== verification/CxxSession.v ===== *)
(** * CxxSession: C programs, the bridge and potserv together

    The whole of the C++ core at work: the executable with its copper-hydrogen potential, the
    server it runs, a network that may fail at any call, and a C program that opens any
    number of bridge clients, for this server or for addresses where nobody answers,
    calculates, asks for errors and frees the clients, in any order.  The program cannot tell
    this from a table of addresses and messages and the force field itself. *)
From Stdlib Require Import ssreflect Ascii.
From S2P Require Import Prelude Machine FloatArith CxxEffects CxxRegistry CxxCore CxxCoreTheorems.
From S2P Require Import CxxServer CxxServerTheorems LennardJones CxxMain CxxMainTheorems.
Open Scope Z_scope.
#[local] Open Scope general_if_scope.

(** ** Addresses *)

Definition colon : ascii := ":"%char.

Fixpoint no_colon (s : string) : bool :=
  match s with
  | EmptyString => true
  | String c s => negb (Ascii.eqb c colon) && no_colon s
  end.

Lemma no_colon_app (h d : string) : no_colon (h +:+ String colon d) = false.
Proof. induction h as [|c h IH]; [done|]. simpl. by rewrite IH andb_false_r. Qed.

Lemma last_colon (h h' d d' : string) :
  no_colon d = true -> no_colon d' = true -> h +:+ String colon d = h' +:+ String colon d' -> h = h' /\ d = d'.
Proof.
  intros Hd Hd'. revert h'. induction h as [|c h IH]; intros [|c' h'] E; simpl in E; injection E.
  - by intros ->.
  - intros ->. by rewrite no_colon_app in Hd.
  - intros <-. by rewrite no_colon_app in Hd'.
  - intros E' ->. by destruct (IH h' E') as [-> ->].
Qed.

Lemma digit_no_colon (x : N) : (x < 10)%N -> Ascii.eqb (pretty_N_char x) colon = false.
Proof.
  intros Hx%digit_char. apply Ascii.eqb_neq. intros E. by rewrite E in Hx.
Qed.

Lemma pretty_N_go_no_colon (x : N) (s : string) : no_colon s = true -> no_colon (pretty_N_go x s) = true.
Proof.
  revert s. induction (N.lt_wf_0 x) as [x _ IH]; intros s Hs.
  destruct (decide (x = 0)%N) as [->|Hx]; [by rewrite pretty_N_go_0|].
  rewrite pretty_N_go_step; [|lia]. apply IH; [apply N.div_lt; lia|].
  cbn [no_colon]. by rewrite -> digit_no_colon by (apply N.mod_lt; lia).
Qed.

Lemma pretty_no_colon (z : Z) : no_colon (pretty z) = true.
Proof. destruct z as [|p|p]; [done | | cbn]; by apply (pretty_N_go_no_colon (N.pos p) ""). Qed.

(** The address tells host and port apart, whatever the host. *)
Lemma server_address_inj (h h' : string) (p p' : Z) :
  server_address h p = server_address h' p' <-> h = h' /\ p = p'.
Proof.
  split; [|by intros [-> ->]]. unfold server_address. intros E.
  destruct (last_colon h h' _ _ (pretty_no_colon p) (pretty_no_colon p') E) as [-> Hp].
  split; [done|]. by apply (inj pretty).
Qed.

(** ** What a C program does with the bridge

    What the network does to a call: it delivers request and reply, it fails before the
    request has reached the server, or it loses the reply. *)
Inductive Delivery := Delivered | Unreachable (e : KjException) | ReplyLost (e : KjException).

(** [Init] is given the address at which the allocator would put a new client, and
    [Calculate] what becomes of the call. *)
Inductive Action :=
| Init (handle : ptr) (host : option string) (port : Z)
| Calculate (client : ptr) (natoms : Z) (pos atmnrs box : list Z) (out : Outputs) (net : Delivery)
| GetLastError (client : ptr)
| Free (client : ptr).

Inductive Answer :=
| Handle (client : ptr)
| Status (status : Z) (out : Outputs)
| Text (text : string)
| Freed.

(** A pointer of the program: NULL, or a client that is alive. *)
Definition at_handle (clients : gmap ptr PotClient) (p : ptr) : option (option PotClient) :=
  if is_null p then Some None else Some <$> clients !! p.

Section session.
Context {rocksdb : RocksDB} (XXH3_64bits : list Z -> Z) (pow : f64 -> f64 -> f64)
  (c_force_eam : Z * Z -> Z -> f64 * f64 * f64 -> list f64 -> list f64 * f64 -> option (list f64 * f64))
  (connect : string -> bool) (text : CxxException -> KjException) (nobody : string -> KjException)
  (hosts : list string) (served_port : Z).

(** The addresses of the server: the port that it serves, on the names of its machine. *)
Definition reaches (address : string) : bool :=
  bool_decide (address ∈ (fun host => server_address host served_port) <$> hosts).

(** A call through the capability of an address.  The server is called when it is at that
    address and the request arrives; at other addresses [nobody] answers.  Requests and
    replies arrive unchanged, or not at all; an exception of the server arrives with some
    text.  That a broken connection stays broken is one of the allowed behaviours:
    [Unreachable] at every later call of the client. *)
Definition transport (calculate : Fip -> World -> option (Reply * World)) (net : Delivery)
    (address : string) (fip : Fip) (w : World) :
    option (Result (f64 * list f64) KjException * World) :=
  match net with
  | Unreachable e => Some (Err e, w)
  | Delivered | ReplyLost _ =>
      if negb (reaches address) then Some (Err (nobody address), w)
      else
        r ← calculate fip w;
        Some (match net, r.1 with
              | ReplyLost e, _ => Err e
              | _, Ok x => Ok x
              | _, Err e => Err (text e)
              end, r.2)
  end.

Definition act (calculate : Fip -> World -> option (Reply * World)) (a : Action)
    (s : gmap ptr PotClient * World) : option (Answer * (gmap ptr PotClient * World)) :=
  let '(clients, w) := s in
  match a with
  | Init handle host port =>
      Some (match pot_client_init connect host port with
            | Some c => (Handle handle, (<[handle := c]> clients, w))
            | None => (Handle null, s)
            end)
  | Calculate client natoms pos atmnrs box out net =>
      c ← at_handle clients client;
      r ← pot_calculate (transport calculate net) c natoms pos atmnrs box out w;
      let '(status, c, out, w) := r in
      Some (Status status out, (match c with Some c => <[client := c]> clients | None => clients end, w))
  | GetLastError client => c ← at_handle clients client; Some (Text (pot_get_last_error c), s)
  | Free client => clients ← pot_client_free client clients; Some (Freed, (clients, w))
  end.

Fixpoint session (calculate : Fip -> World -> option (Reply * World)) (l : list Action)
    (s : gmap ptr PotClient * World) : option (list Answer * (gmap ptr PotClient * World)) :=
  match l with
  | [] => Some ([], s)
  | a :: l => r ← act calculate a s; rs ← session calculate l r.2; Some (r.1 :: rs.1, rs.2)
  end.

(** ** What it sees: a table of its clients, and the force field *)

Context (eam : Z * Z -> Z -> f64 * f64 * f64 -> list f64 -> list f64 * f64).

(** A client: where it was opened for, and its message. *)
Record Entry := MkEntry { en_host : string; en_port : Z; en_message : string }.

(** The number of evaluations is counted as well. *)
Definition Seen : Type := gmap ptr Entry * Z.

Definition field (natoms : Z) (pos atmnrs box : list Z) : list f64 * f64 :=
  let species := take (Z.to_nat natoms) atmnrs in
  eam (multiset_count 29 species, natoms - multiset_count 29 species) (3 * natoms)
    (nth 0 box 0, nth 4 box 0, nth 8 box 0) (take (Z.to_nat (natoms * 3)) pos).

(** What comes of a call: the forces and the energy, or a message; and the evaluations. *)
Definition outcome (en : Entry) (natoms : Z) (pos atmnrs box : list Z) (net : Delivery) :
    Result (list f64 * f64) string * Z :=
  let species := take (Z.to_nat natoms) atmnrs in
  let evaluations := if copper_hydrogen species then 1 else 0 in
  match net with
  | Unreachable e => (Err (exception_text e), 0)
  | Delivered | ReplyLost _ =>
      if negb (bool_decide (en_host en ∈ hosts) && (en_port en =? served_port)) then
        (Err (exception_text (nobody (server_address (en_host en) (en_port en)))), 0)
      else
        (match net with
         | ReplyLost e => Err (exception_text e)
         | _ => if copper_hydrogen species then Ok (field natoms pos atmnrs box)
                else Err (exception_text (text (RuntimeError (cuh2_refusal species))))
         end, evaluations)
  end.

Definition with_message (m : string) (en : Entry) : Entry := MkEntry (en_host en) (en_port en) m.

Definition see (a : Action) (s : Seen) : Answer * Seen :=
  let '(table, k) := s in
  match a with
  | Init handle (Some host) port =>
      if connect (server_address host port) then
        (Handle handle, (<[handle := MkEntry host port ""]> table, k))
      else (Handle null, s)
  | Init _ None _ => (Handle null, s)
  | Calculate client natoms pos atmnrs box out net =>
      match table !! client with
      | None => (Status (-1) out, s)
      | Some en =>
          let '(r, evaluations) := outcome en natoms pos atmnrs box net in
          match r with
          | Ok F => (Status 0 (MkOutputs F.2 (F.1 ++ drop (Z.to_nat (natoms * 3)) (out_forces_ out))),
                     (<[client := with_message "" en]> table, k + evaluations))
          | Err m => (Status (-1) out, (<[client := with_message m en]> table, k + evaluations))
          end
      end
  | GetLastError client => (Text (default ""%string (en_message <$> table !! client)), s)
  | Free client => (Freed, (delete client table, k))
  end.

(** The rules of C: handles are NULL or alive, and arrays are as large as they are said to be. *)
Definition handle_ok (table : gmap ptr Entry) (p : ptr) : bool :=
  is_null p || bool_decide (is_Some (table !! p)).

Definition allowed (a : Action) (s : Seen) : bool :=
  match a with
  | Init handle _ _ => negb (is_null handle) && bool_decide (s.1 !! handle = None)
  | Calculate client natoms pos atmnrs box out _ =>
      is_null client || bool_decide (is_Some (s.1 !! client)) &&
      (0 <=? natoms) && (natoms * 3 <? 2 ^ 29) &&
      (natoms * 3 <=? Z.of_nat (length pos)) && (natoms <=? Z.of_nat (length atmnrs)) &&
      (9 <=? Z.of_nat (length box)) && (natoms * 3 <=? Z.of_nat (length (out_forces_ out)))
  | GetLastError client | Free client => handle_ok s.1 client
  end.

Fixpoint see_all (l : list Action) (s : Seen) : list Answer * Seen :=
  match l with
  | [] => ([], s)
  | a :: l => let r := see a s in let rs := see_all l r.2 in (r.1 :: rs.1, rs.2)
  end.

Fixpoint all_allowed (l : list Action) (s : Seen) : bool :=
  match l with
  | [] => true
  | a :: l => allowed a s && all_allowed l (see a s).2
  end.

(** ** One evaluation at the server *)

(** What the Fortran routine is relied on for: for any system it ends, and fills energy and
    forces with values that depend on the system alone. *)
Definition fills : Prop := forall natms n b R, 0 <= n -> Z.of_nat (length R) = 3 * n ->
  c_force_eam natms (3 * n) b R (replicate (Z.to_nat (3 * n)) f64_zero, f64_zero) = Some (eam natms (3 * n) b R) /\
  Z.of_nat (length (eam natms (3 * n) b R).1) = 3 * n.

Context (Heam : fills).

Definition cuh2_call := virtual_call XXH3_64bits pow c_force_eam (MkPotential CuH2 null).

Lemma cuh2_call_eq (n : Z) (R : list f64) (types : list Z) (b : Box3) (w : World) :
  0 <= n < 2 ^ 29 -> Z.of_nat (length R) = 3 * n -> n <= Z.of_nat (length types) ->
  let species := take (Z.to_nat n) types in
  cuh2_call (MkAtomMatrix n 3 R) types b w =
  if copper_hydrogen species then
    let r := eam (multiset_count 29 species, n - multiset_count 29 species) (3 * n)
               (b.1.1.1.1, b.1.2.1.2, b.2.2) R in
    Some (Ok (r.2, with_data (AtomMatrix_Zero n 3) r.1), count_force_call CuH2 w)
  else Some (Err (RuntimeError (cuh2_refusal species)), w).
Proof.
  intros Hn HR Ht species. set (rq := MkRequest (MkAtomMatrix n 3 R) types b).
  have Hrq : request_ok rq = true by (unfold request_ok, rq_n; cbn; word_lia).
  destruct (hash_total XXH3_64bits CuH2 rq Hrq) as [h Hh]. unfold hash_of in Hh.
  rewrite /cuh2_call /virtual_call /evaluate_cached. cbn [m_type _cache].
  change (input_view (MkAtomMatrix n 3 R) types b) with (rq_view rq).
  rewrite Hh. cbn [mbind option_bind is_null]. rewrite /compute.
  change (default_forceImpl pow c_force_eam CuH2) with (CuH2Pot_forceImpl c_force_eam).
  have E := cuh2_verdict c_force_eam (rq_view rq)
    (MkOutputView (m_data (AtomMatrix_Zero n 3)) f64_zero f64_zero) b eq_refl.
  cbn [nAtoms atmnrs pos rq_view input_view rq rq_positions rq_types rq_box m_rows m_data] in E.
  fold species in E.
  change (m_rows (MkAtomMatrix n 3 R)) with n.
  rewrite E; [|word_lia|word_lia]. clear E. destruct (copper_hydrogen species); [|done].
  rewrite -> length_Zero by lia. cbn [out_F out_energy].
  rewrite (proj1 (Heam _ n _ R ltac:(lia) ltac:(word_lia))).
  by destruct (eam _ _ _ _).
Qed.

Lemma cuh2_call_shapes : shapes_ok cuh2_call.
Proof.
  intros n positions types b w e F w' Hn Hr Hc Hl Ht E.
  destruct positions as [r c R]. cbn [m_rows m_cols m_data] in *. subst r c.
  rewrite -> cuh2_call_eq in E by word_lia. destruct (copper_hydrogen _); [|done].
  injection E as <- <- <-. cbn [m_rows m_cols m_data with_data AtomMatrix_Zero AtomMatrix_new].
  split_and!; [done | done |]. apply Heam; word_lia.
Qed.

(** One call of the server's handler, for a request that a bridge client sends. *)
Lemma handler_eq (n : Z) (xs zs bs : list Z) (w : World) :
  0 <= n -> n * 3 < 2 ^ 29 -> n * 3 <= Z.of_nat (length xs) -> n <= Z.of_nat (length zs) ->
  9 <= Z.of_nat (length bs) ->
  let species := take (Z.to_nat n) zs in
  GenericPotImpl_calculate cuh2_call (MkFip (take (Z.to_nat (n * 3)) xs) species (take 9 bs)) w =
  Some (if copper_hydrogen species then
          let r := field n xs zs bs in (Ok (r.2, r.1), count_force_call CuH2 w)
        else (Err (RuntimeError (cuh2_refusal species)), w)).
Proof.
  intros Hn H3 Hx Hz Hb species.
  destruct (split_box bs ltac:(word_lia)) as (b & rest & ->).
  have Hb9 : length (flatBox b) = 9%nat by (pose proof (flatBox_three b); word_lia).
  rewrite -> take_app_length' by done.
  have Lx : Z.of_nat (length (take (Z.to_nat (n * 3)) xs)) = n * 3 by (rewrite length_take; lia).
  have Lz : Z.of_nat (length species) = n by (rewrite /species length_take; lia).
  have E := server_evaluates cuh2_call (MkFip (take (Z.to_nat (n * 3)) xs) species (flatBox b))
    b [] w cuh2_call_shapes.
  cbn [fip_pos fip_atmnrs fip_box] in E. rewrite app_nil_r in E. unfold f64 in E.
  rewrite Lx Z.div_mul // in E. rewrite -> E by (done || lia). clear E.
  rewrite -> (take_ge (take _ xs)) by lia. rewrite -> cuh2_call_eq by word_lia.
  rewrite -> (take_ge species) by lia.
  destruct (copper_hydrogen _); [|done]. cbn [mbind option_bind fst snd m_data with_data].
  have -> : field n xs zs (flatBox b ++ rest) =
    eam (multiset_count 29 species, n - multiset_count 29 species) (3 * n)
      (b.1.1.1.1, b.1.2.1.2, b.2.2) (take (Z.to_nat (n * 3)) xs); [|done].
  rewrite /field. by destruct b as [[[[??]?] [[??]?]] [[??]?]].
Qed.

(** There are three coordinates of the force for each atom. *)
Lemma field_length (n : Z) (xs zs bs : list Z) :
  0 <= n -> n * 3 <= Z.of_nat (length xs) -> Z.of_nat (length (field n xs zs bs).1) = n * 3.
Proof.
  intros Hn Hx. rewrite (Z.mul_comm n 3). apply Heam; [done|]. rewrite length_take. word_lia.
Qed.

Definition client_of (en : Entry) : PotClient :=
  MkPotClient (server_address (en_host en) (en_port en)) (en_message en).

Lemma reaches_entry (en : Entry) :
  reaches (server_address (en_host en) (en_port en)) =
  bool_decide (en_host en ∈ hosts) && (en_port en =? served_port).
Proof.
  apply eq_bool_prop_intro. rewrite /reaches bool_decide_spec andb_True bool_decide_spec.
  rewrite list_elem_of_fmap. setoid_rewrite server_address_inj.
  rewrite Is_true_true Z.eqb_eq. naive_solver.
Qed.

(** The registry's counter after some evaluations. *)
Definition counted (k : Z) (w : World) : World := if k =? 0 then w else count_force_call CuH2 w.

(** A calculation of an open client, whatever the network does. *)
Lemma calculation_eq (en : Entry) (n : Z) (xs zs bs : list Z) (out : Outputs) (net : Delivery) (w : World) :
  0 <= n -> n * 3 < 2 ^ 29 -> n * 3 <= Z.of_nat (length xs) -> n <= Z.of_nat (length zs) ->
  9 <= Z.of_nat (length bs) -> n * 3 <= Z.of_nat (length (out_forces_ out)) ->
  let oc := outcome en n xs zs bs net in
  pot_calculate (transport (GenericPotImpl_calculate cuh2_call) net) (Some (client_of en)) n xs zs bs out w =
  Some (match oc.1 with
        | Ok F => (0, Some (client_of (with_message "" en)),
                   MkOutputs F.2 (F.1 ++ drop (Z.to_nat (n * 3)) (out_forces_ out)), counted oc.2 w)
        | Err m => (-1, Some (client_of (with_message m en)), out, counted oc.2 w)
        end).
Proof.
  intros Hn H3 Hx Hz Hb Ho. rewrite -> pot_calculate_reply by word_lia.
  rewrite /transport /outcome. cbn [capability client_of].
  have L := field_length n xs zs bs Hn Hx.
  destruct net as [|e|e]; [| done |]; rewrite reaches_entry; (destruct (_ && _); [|done]); cbn [negb].
  all: rewrite -> handler_eq by done; destruct (copper_hydrogen _); [|done]; try done.
  cbn [mbind option_bind fst snd counted]. rewrite -> (proj2 (Z.eqb_eq _ _)) by exact L.
  by replace (length (field n xs zs bs).1) with (Z.to_nat (n * 3)) by word_lia.
Qed.

(** ** The simulation *)

(** The program's clients are those of the table, and [k] evaluations have been counted since
    the world [w0]. *)
Record same (w0 : World) (s : gmap ptr PotClient * World) (v : Seen) : Prop := {
  same_clients : s.1 = client_of <$> v.1;
  same_null : v.1 !! null = None;
  same_count : forceCalls (registries s.2 CuH2) = as_usize (forceCalls (registries w0 CuH2) + v.2);
  same_engine : engine s.2 = engine w0 /\ cache_objects s.2 = cache_objects w0;
  same_others : registries s.2 LJ = registries w0 LJ;
}.

Lemma at_handle_seen table p :
  handle_ok table p = true ->
  at_handle (client_of <$> table) p =
    Some (if is_null p then None else client_of <$> table !! p) /\
  (is_null p = false -> is_Some (table !! p)).
Proof.
  rewrite /handle_ok /at_handle lookup_fmap. destruct (is_null p); [done|]. cbn [orb].
  intros [m Hm]%bool_decide_eq_true. rewrite Hm. by split.
Qed.

Lemma same_message w0 clients w table k p en :
  p <> null -> same w0 (clients, w) (table, k) ->
  same w0 (<[p := client_of en]> clients, w) (<[p := en]> table, k).
Proof.
  intros Hp [H1 H2 H3 H4 H5]. cbn [fst snd] in *. subst clients.
  split; cbn [fst snd]; [by rewrite fmap_insert | by rewrite lookup_insert_ne | done | done | done].
Qed.

Lemma same_counted w0 s table k d :
  d = 0 \/ d = 1 -> same w0 s (table, k) -> same w0 (s.1, counted d s.2) (table, k + d).
Proof.
  intros Hd [H1 H2 H3 H4 H5]. destruct Hd as [->| ->].
  - rewrite Z.add_0_r. by split.
  - split; cbn [fst snd] in *; [done | done | | done | done].
    change (as_usize (forceCalls (registries s.2 CuH2) + 1) = as_usize (forceCalls (registries w0 CuH2) + (k + 1))).
    rewrite H3 /as_usize /wrap_unsigned Zplus_mod_idemp_l. f_equal. lia.
Qed.

Lemma outcome_evaluations en n xs zs bs net :
  (outcome en n xs zs bs net).2 = 0 \/ (outcome en n xs zs bs net).2 = 1.
Proof. unfold outcome. destruct net; [| by left |]; destruct (_ && _), (copper_hydrogen _); auto. Qed.

Lemma act_seen (w0 : World) (a : Action) (s : gmap ptr PotClient * World) (v : Seen) :
  same w0 s v -> allowed a v = true ->
  exists s', act (GenericPotImpl_calculate cuh2_call) a s = Some ((see a v).1, s') /\ same w0 s' (see a v).2.
Proof.
  destruct s as [clients w], v as [table k]. intros Hs Ha.
  have Hc : clients = client_of <$> table := same_clients _ _ _ Hs.
  have H0 : table !! null = None := same_null _ _ _ Hs.
  destruct a as [p host port | p n xs zs bs out net | p | p]; cbn [act see allowed fst snd] in *.
  - apply andb_prop in Ha as [Hp _]. apply negb_true_iff, N.eqb_neq in Hp.
    destruct host as [host|]; cbn [pot_client_init]; [|by eexists].
    destruct (connect _); [|by eexists]. eexists. split; [done|].
    by apply (same_message w0 clients w table k p (MkEntry host port "")).
  - destruct (is_null p) eqn:Hp; cbn [orb] in Ha.
    { rewrite /at_handle Hp. apply N.eqb_eq in Hp as ->. rewrite H0. cbn [mbind option_bind]. by eexists. }
    repeat (apply andb_prop in Ha as [Ha ?]). apply bool_decide_eq_true in Ha as [en Hm].
    have -> : at_handle clients p = Some (Some (client_of en)) by rewrite /at_handle Hp Hc lookup_fmap Hm.
    cbn [mbind option_bind]. rewrite -> calculation_eq by lia. apply N.eqb_neq in Hp. rewrite Hm.
    have Hk := same_counted _ _ _ _ _ (outcome_evaluations en n xs zs bs net) Hs.
    destruct (outcome _ _ _ _ _ _) as [[F|m] d]; cbn [mbind option_bind fst snd] in *;
      (eexists; split; [done|]); by apply same_message.
  - destruct (at_handle_seen _ _ Ha) as [E Hm]. subst clients. rewrite E. cbn [mbind option_bind].
    eexists. split; [|done]. destruct (is_null p) eqn:Hp.
    + apply N.eqb_eq in Hp as ->. by rewrite H0.
    + destruct (Hm eq_refl) as [en ->]. cbn. case_bool_decide as E'; [by rewrite E'|done].
  - rewrite /pot_client_free. destruct (is_null p) eqn:Hp.
    + cbn [mbind option_bind]. eexists. split; [done|]. apply N.eqb_eq in Hp as ->.
      by rewrite (delete_id table null H0).
    + destruct (at_handle_seen _ _ Ha) as [_ [m Hm]]; [done|]. subst clients. rewrite lookup_fmap Hm.
      cbn [mbind option_bind]. eexists. split; [done|]. destruct Hs as [H1 H2 H3 H4 H5].
      split; cbn [fst snd] in *; [by rewrite fmap_delete | by rewrite lookup_delete_None; right | done..].
Qed.

Lemma session_seen (w0 : World) (l : list Action) (s : gmap ptr PotClient * World) (v : Seen) :
  same w0 s v -> all_allowed l v = true ->
  exists s', session (GenericPotImpl_calculate cuh2_call) l s = Some ((see_all l v).1, s') /\
    same w0 s' (see_all l v).2.
Proof.
  revert s v; induction l as [|a l IH]; intros s v Hs Hl; [by eexists|].
  cbn [all_allowed see_all session] in *. apply andb_prop in Hl as [Ha Hl].
  destruct (act_seen w0 a s v Hs Ha) as (s1 & E & Hs1). rewrite E. cbn [mbind option_bind fst snd].
  destruct (IH s1 _ Hs1 Hl) as (s2 & E2 & Hs2). rewrite E2. cbn [mbind option_bind fst snd].
  eexists. by split.
Qed.
End session.

(** C15: The C++ core refines its force field, over a network that may fail.  For the handler
    of the executable that serves the copper-hydrogen potential on the port it was started
    for, any sequence of openings, calculations, error queries and releases by which a C
    program uses any number of clients of the bridge, and any outcome of the network at any
    call: every answer is that of a table, which knows of each client only the host and port
    it was opened for and its last message, and of the Fortran routine applied to the
    arguments of the call alone.  A client for another port or another machine is opened
    like any other and fails at its first calculation; a call that fails, by the network, by
    a refusal of the potential (which says whether a species is missing or another one is
    there) or for want of a server, answers -1, keeps the outputs and leaves its text as the
    message.  No call depends on earlier ones, none is undefined, the clients that are left
    are those of the table, and the registry has counted the evaluations, those with a lost
    reply included. *)
Theorem potserv_refines_force_field {rocksdb : RocksDB} (XXH3_64bits : list Z -> Z)
    (pow : f64 -> f64 -> f64)
    (c_force_eam : Z * Z -> Z -> f64 * f64 * f64 -> list f64 -> list f64 * f64 -> option (list f64 * f64))
    (eam : Z * Z -> Z -> f64 * f64 * f64 -> list f64 -> list f64 * f64)
    (connect : string -> bool) (text : CxxException -> KjException) (nobody : string -> KjException)
    (hosts : list string) (program port_text : string) (more : list string) (this : ptr)
    (w w1 : World) (log : list Line) (port : Z)
    (calculate : Fip -> World -> option (Reply * World)) (l : list Action)
    (Heam : fills c_force_eam eam)
    (Hmain : main XXH3_64bits pow c_force_eam (program :: port_text :: "CuH2"%string :: more) this w =
      Some (log, Serves port calculate, w1))
    (Hcount : is_usize (forceCalls (registries w1 CuH2)) = true) :
  let sees := see_all connect text nobody hosts port eam l (∅, 0) in
  all_allowed connect text nobody hosts port eam l (∅, 0) = true ->
  exists w2, session connect text nobody hosts port calculate l (∅, w1) =
      Some (sees.1, (client_of <$> sees.2.1, w2)) /\
    forceCalls (registries w2 CuH2) = as_usize (forceCalls (registries w1 CuH2) + sees.2.2) /\
    engine w2 = engine w1 /\ cache_objects w2 = cache_objects w1.
Proof.
  intros sees Hl.
  have -> : calculate = GenericPotImpl_calculate (cuh2_call XXH3_64bits pow c_force_eam)
    by (eapply served; [|exact Hmain]; done).
  destruct (session_seen XXH3_64bits pow c_force_eam connect text nobody hosts port eam Heam w1 l
    (∅, w1) (∅, 0)) as ([clients w2] & E & [H1 _ H3 [H4 H5] _]); [|done|].
  { split; cbn [fst snd]; [by rewrite fmap_empty | done | | done | done].
    by rewrite Z.add_0_r as_usize_id. }
  cbn [fst snd] in *. subst clients. exists w2. by split_and!.
Qed.

(** ** A session *)

Section demo.
#[local] Existing Instance map_db.

(** Forces like positions, and the number of copper atoms as the energy. *)
Definition demo_eam (natms : Z * Z) (ndim : Z) (b : f64 * f64 * f64) (R : list f64) : list f64 * f64 :=
  (R, of_Z natms.1).
Definition demo_fortran (natms : Z * Z) (ndim : Z) (b : f64 * f64 * f64) (R : list f64) (out : list f64 * f64) :
    option (list f64 * f64) := Some (demo_eam natms ndim b R).

Lemma demo_fills : fills demo_fortran demo_eam.
Proof. by intros natms n b R Hn HR. Qed.

Definition remote_text (e : CxxException) : KjException :=
  match e with
  | RgpotError what | RuntimeError what => StdException ("remote exception: std::exception: " +:+ what)
  | OtherException => NoStdException
  end.
Definition nobody_there (address : string) : KjException := StdException ("connect " +:+ address).

(** A client of the server, one without a host and one of an unreachable host, whose first
    calculation fails; calculations, one of them with a lost reply, two refusals, errors. *)
Definition box7 : list Z := flatBox (rows 7).
Definition demo_actions : list Action :=
  [Init 5%N (Some "localhost"%string) 12345; Init 6%N None 1;
   Init 8%N (Some "invalid_host_xyz"%string) 9999;
   Calculate 8%N 1 [0; 0; 0] [1] box7 (MkOutputs 0 [0; 0; 0]) Delivered; GetLastError 8%N;
   Calculate 5%N 2 [1; 2; 3; 4; 5; 6] [29; 1] box7 (MkOutputs 0 [0; 0; 0; 0; 0; 0; 9]) Delivered;
   GetLastError 5%N;
   Calculate 5%N 2 [1; 2; 3; 4; 5; 6] [29; 1] box7 (MkOutputs 0 [0; 0; 0; 0; 0; 0])
     (ReplyLost (StdException "disconnected"));
   GetLastError 5%N;
   Calculate 5%N 1 [1; 2; 3] [8] box7 (MkOutputs 0 [0; 0; 0]) Delivered; GetLastError 5%N;
   Calculate 5%N 3 [1; 2; 3; 4; 5; 6; 7; 8; 9] [29; 8; 1] box7
     (MkOutputs 0 [0; 0; 0; 0; 0; 0; 0; 0; 0]) Delivered;
   GetLastError 5%N;
   Calculate null 1 [] [] [] (MkOutputs 0 []) Delivered;
   Free 5%N; Free null; Free 8%N].

Definition demo_answers : list Answer :=
  [Handle 5%N; Handle null; Handle 8%N;
   Status (-1) (MkOutputs 0 [0; 0; 0]); Text "connect invalid_host_xyz:9999";
   Status 0 (MkOutputs (of_Z 1) [1; 2; 3; 4; 5; 6; 9]); Text "";
   Status (-1) (MkOutputs 0 [0; 0; 0; 0; 0; 0]); Text "disconnected";
   Status (-1) (MkOutputs 0 [0; 0; 0]);
   Text ("remote exception: std::exception: The system does not have Copper or Hydrogen, "
         +:+ "but the CuH2 potential was requested");
   Status (-1) (MkOutputs 0 [0; 0; 0; 0; 0; 0; 0; 0; 0]);
   Text ("remote exception: std::exception: The system has other atom types, "
         +:+ "but the CuH2 potential was requested");
   Status (-1) (MkOutputs 0 []); Freed; Freed; Freed].

Definition machine_names : list string := ["localhost"; "127.0.0.1"]%string.

Example demo_sees :
  see_all (fun _ => true) remote_text nobody_there machine_names 12345 demo_eam demo_actions (∅, 0) =
  (demo_answers, (∅, 2)).
Proof. vm_compute. reflexivity. Qed.

Definition cuh2_server : Fip -> World -> option (Reply * World) :=
  GenericPotImpl_calculate (virtual_call demo_hash demo_pow demo_fortran (MkPotential CuH2 null)).
Definition serving_world : World :=
  match main demo_hash demo_pow demo_fortran ["potserv"; "12345"; "CuH2"]%string 7%N blank_world with
  | Some (_, _, w) => w
  | None => blank_world
  end.

Lemma potserv_refines_force_field_witness :
  exists w2, session (fun _ => true) remote_text nobody_there machine_names 12345 cuh2_server
      demo_actions (∅, serving_world) = Some (demo_answers, (∅, w2)) /\
    forceCalls (registries w2 CuH2) = 2 /\
    engine w2 = engine serving_world /\ cache_objects w2 = cache_objects serving_world.
Proof.
  exact (potserv_refines_force_field demo_hash demo_pow demo_fortran demo_eam (fun _ => true) remote_text
    nobody_there machine_names "potserv" "12345" [] 7%N blank_world serving_world _ 12345 cuh2_server
    demo_actions demo_fills eq_refl eq_refl eq_refl).
Defined.
End demo.
