(* ===== verification/CxxOwnership.v ===== *)
(** * CxxOwnership: which databases the caches own

    A user opens and closes databases, makes caches in storage of their own, gives them
    databases and uses them, in any order.  The rules are those of C++: an object is made in
    free storage and destroyed once, a database is given to a cache while it is open, and a
    cache whose database the user has closed is not used.  Under these rules no database is
    closed twice or used after it is closed, and in the end none is left open. *)
From Stdlib Require Import ssreflect.
From S2P Require Import Prelude Machine CxxEffects CxxRegistry CxxCore CxxCoreTheorems.
Open Scope Z_scope.
#[local] Open Scope general_if_scope.

(** ** Users *)

Inductive CacheAction :=
| UserOpens (path : string) (create : bool)
| UserCloses (db : ptr)
| MakeWithPath (this : ptr) (path : string) (create : bool)
| MakeEmpty (this : ptr)
| SetDb (this db : ptr)
| Look (this : ptr) (key : string)
| Add (this : ptr) (key : string) (energy : f64) (forces : AtomMatrix)
| DropCache (this : ptr).

Section ownership.
Context {rocksdb : RocksDB}.

(** The world, and the databases that the user has open. *)
Record State := MkState { world : World; users : gset ptr }.

(** A cache may be used: it has no database, its own, or one that the user has open. *)
Definition usable (s : State) (this : ptr) : bool :=
  match cache_objects (world s) !! this with
  | Some c => is_null (db_ c) || own_db_ c || bool_decide (db_ c ∈ users s)
  | None => false
  end.

Definition alive (s : State) (this : ptr) : bool := bool_decide (is_Some (cache_objects (world s) !! this)).

Definition forces_ok (forces : AtomMatrix) : bool :=
  (0 <=? m_rows forces) && (m_rows forces <? 2 ^ 29) && matrix_ok (m_rows forces) forces.

Definition permitted (a : CacheAction) (s : State) : bool :=
  match a with
  | UserOpens _ _ => true
  | UserCloses db => bool_decide (db ∈ users s)
  | MakeWithPath this _ _ | MakeEmpty this => negb (alive s this)
  | SetDb this db => alive s this && (is_null db || bool_decide (db ∈ users s))
  | Look this _ => usable s this
  | Add this _ _ forces => usable s this && forces_ok forces
  | DropCache this => alive s this
  end.

Definition in_world (f : World -> option World) (s : State) : option State :=
  w ← f (world s); Some (MkState w (users s)).

(** What an action does; [None] is undefined behaviour. *)
Definition perform (a : CacheAction) (s : State) : option State :=
  match a with
  | UserOpens path create =>
      let r := db_open (engine (world s)) path create in
      Some (MkState (set_engine r.1 (world s))
        (match r.2 with Some h => {[ h ]} ∪ users s | None => users s end))
  | UserCloses db =>
      _ ← handles (engine (world s)) !! db;
      Some (MkState (set_engine (db_close (engine (world s)) db) (world s)) (users s ∖ {[ db ]}))
  | MakeWithPath this path create => in_world (PotentialCache_open this path create) s
  | MakeEmpty this => in_world (PotentialCache_default this) s
  | SetDb this db => in_world (PotentialCache_set_db this db) s
  | Look this key => in_world (fun w => snd <$> find this key w) s
  | Add this key energy forces => in_world (add_serialized this key energy forces) s
  | DropCache this => in_world (PotentialCache_drop this) s
  end.

Inductive Played := NotPermitted | Undefined | Reached (s : State).

Fixpoint play (l : list CacheAction) (s : State) : Played :=
  match l with
  | [] => Reached s
  | a :: l =>
      if permitted a s then match perform a s with Some s => play l s | None => Undefined end
      else NotPermitted
  end.

(** ** The invariant *)

Definition owns (caches : gmap ptr PotentialCache) (this h : ptr) : Prop :=
  exists c, caches !! this = Some c /\ own_db_ c = true /\ db_ c = h.

(** Every open database has exactly one owner: the user, or one cache. *)
Record accounts (caches : gmap ptr PotentialCache) (open : gmap ptr string) (us : gset ptr) : Prop := {
  acc_open : forall this h, owns caches this h -> h <> null /\ is_Some (open !! h) /\ h ∉ us;
  acc_one : forall this this' h, owns caches this h -> owns caches this' h -> this = this';
  acc_users : forall h, h ∈ us -> h <> null /\ is_Some (open !! h);
  acc_all : forall h, is_Some (open !! h) -> h ∈ us \/ exists this, owns caches this h;
}.

Definition owned_once (s : State) : Prop :=
  accounts (cache_objects (world s)) (handles (engine (world s))) (users s).

Lemma owns_delete caches this this' h : owns (delete this caches) this' h <-> this' <> this /\ owns caches this' h.
Proof.
  rewrite /owns. split.
  - intros (c & Hc & Ho & Hd). apply lookup_delete_Some in Hc as [Hne Hc]. eauto 10.
  - intros (Hne & c & Hc & Ho & Hd). exists c. by rewrite lookup_delete_ne.
Qed.

Lemma owns_insert caches this c this' h :
  owns (<[this := c]> caches) this' h <->
  (this' = this /\ own_db_ c = true /\ db_ c = h) \/ (this' <> this /\ owns caches this' h).
Proof.
  rewrite /owns. split.
  - intros (c' & Hc & Ho & Hd). apply lookup_insert_Some in Hc as [[-> ->] | [Hne Hc]]; naive_solver.
  - intros [(-> & Ho & Hd) | (Hne & c' & Hc & Ho & Hd)]; eexists;
      [rewrite lookup_insert_eq | rewrite lookup_insert_ne //]; eauto.
Qed.

(** A cache that does not own is made, in free storage or in place of one that owns nothing. *)
Lemma accounts_insert_borrower caches open us this c :
  own_db_ c = false -> (forall h, ~ owns caches this h) ->
  accounts caches open us -> accounts (<[this := c]> caches) open us.
Proof.
  intros Hc Hno [H1 H2 H3 H4].
  have Hi this' h : owns (<[this := c]> caches) this' h <-> owns caches this' h.
  { rewrite owns_insert Hc. split; [naive_solver|]. intros H. right. split; [|done].
    intros ->. by apply (Hno h). }
  split.
  - intros this' h H%Hi. by eapply H1.
  - intros t1 t2 h Ht1%Hi Ht2%Hi. by eapply H2.
  - done.
  - intros h Hh. destruct (H4 h Hh) as [|[t Ht]]; [by left | right; exists t; by apply Hi].
Qed.

(** A cache that owns a database just opened. *)
Lemma accounts_insert_owner caches open us this h path :
  h <> null -> open !! h = None -> caches !! this = None ->
  accounts caches open us -> accounts (<[this := MkPotentialCache h true]> caches) (<[h := path]> open) us.
Proof.
  intros Hn Hh Hthis [H1 H2 H3 H4].
  have Hfresh t : ~ owns caches t h.
  { intros (_ & [x Hx] & _)%H1. congruence. }
  split.
  - intros t h' [(-> & _ & E) | (Hne & Ho)]%owns_insert.
    + simpl in E. subst h'. split_and!; [done | by rewrite lookup_insert_eq |]. intros (_ & [x Hx])%H3. congruence.
    + destruct (H1 t h' Ho) as (? & ? & ?). split_and!; [done | | done].
      rewrite lookup_insert_is_Some. destruct (decide (h = h')); [by left | by right].
  - intros t1 t2 h' [(-> & _ & E) | (Hne1 & Ho1)]%owns_insert [(-> & _ & E') | (Hne2 & Ho2)]%owns_insert; try done.
    + simpl in E. subst h'. by apply Hfresh in Ho2.
    + simpl in E'. subst h'. by apply Hfresh in Ho1.
    + by eapply H2.
  - intros h' (? & ?)%H3. split; [done|]. rewrite lookup_insert_is_Some.
    destruct (decide (h = h')); [by left | by right].
  - intros h' [-> | [Hne Ho]]%lookup_insert_is_Some.
    + right. exists this. apply owns_insert. by left.
    + destruct (H4 h' Ho) as [|[t Ht]]; [by left|]. right. exists t. apply owns_insert. right. split; [|done].
      intros ->. destruct Ht as (c & Hc & _). congruence.
Qed.

(** What a destructor or [set_db] releases. *)
Lemma accounts_release caches open us this c :
  caches !! this = Some c -> accounts caches open us ->
  if own_db_ c && negb (is_null (db_ c)) then
    is_Some (open !! db_ c) /\ accounts (delete this caches) (delete (db_ c) open) us
  else accounts (delete this caches) open us.
Proof.
  intros Hc [H1 H2 H3 H4].
  have Howns : own_db_ c = true -> owns caches this (db_ c) by (intros; exists c; eauto).
  destruct (own_db_ c) eqn:Ho; cbn [andb].
  - destruct (H1 this (db_ c) (Howns eq_refl)) as (Hn & Hopen & Hu).
    have -> : is_null (db_ c) = false by (apply N.eqb_neq).
    cbn [negb]. split; [done|]. split.
    + intros t h [Hne Ht]%owns_delete. destruct (H1 t h Ht) as (? & ? & ?). split_and!; [done | | done].
      rewrite lookup_delete_ne //. intros <-. apply Hne. by eapply H2; [|apply Howns].
    + intros t1 t2 h [_ Ht1]%owns_delete [_ Ht2]%owns_delete. by eapply H2.
    + intros h Hh. destruct (H3 h Hh). split; [done|]. rewrite lookup_delete_ne //. by intros <-.
    + intros h [Hne Hh]%lookup_delete_is_Some. destruct (H4 h Hh) as [|[t Ht]]; [by left|].
      right. exists t. apply owns_delete. split; [|done]. intros ->.
      destruct Ht as (c' & Hc' & _ & Hd). congruence.
  - have Hi t h : owns (delete this caches) t h <-> owns caches t h.
    { rewrite owns_delete. split; [by intros []|]. intros Ht. split; [|done]. intros ->.
      destruct Ht as (c' & Hc' & Ho' & _). congruence. }
    split.
    + intros t h Ht%Hi. by eapply H1.
    + intros t1 t2 h Ht1%Hi Ht2%Hi. by eapply H2.
    + done.
    + intros h Hh. destruct (H4 h Hh) as [|[t Ht]]; [by left | right; exists t; by apply Hi].
Qed.

(** ** Every permitted action *)

Lemma delete_owned_accounts (this : ptr) (c : PotentialCache) (w : World) (us : gset ptr) :
  cache_objects w !! this = Some c -> accounts (cache_objects w) (handles (engine w)) us ->
  exists w', delete_owned c w = Some w' /\ cache_objects w' = cache_objects w /\
    accounts (delete this (cache_objects w)) (handles (engine w')) us.
Proof.
  intros Hc Ha. have H := accounts_release _ _ us this c Hc Ha. rewrite /delete_owned.
  destruct (own_db_ c && negb (is_null (db_ c))).
  - destruct H as [[q Hq] H]. rewrite Hq. cbn [mbind option_bind]. eexists. split_and!; [done | done |].
    cbn [engine set_engine]. by rewrite (proj1 (db_close_spec _ _)).
  - by exists w.
Qed.

Lemma no_owner_deleted caches this h : ~ owns (delete this caches) this h.
Proof. by intros [? _]%owns_delete. Qed.

Lemma no_owner_absent caches this h : caches !! this = None -> ~ owns caches this h.
Proof. intros Hn (c & Hc & _). congruence. Qed.

(** Actions that leave the caches and the set of open databases. *)
Lemma owned_once_same (s : State) (w : World) :
  owned_once s -> cache_objects w = cache_objects (world s) -> handles (engine w) = handles (engine (world s)) ->
  owned_once (MkState w (users s)).
Proof. rewrite /owned_once /=. by intros H -> ->. Qed.

(** A cache that may be used has no database, or one that is open. *)
Lemma usable_open (s : State) (this : ptr) :
  owned_once s -> usable s this = true ->
  exists c, cache_objects (world s) !! this = Some c /\
    (is_null (db_ c) = true \/ is_null (db_ c) = false /\ exists path, handles (engine (world s)) !! db_ c = Some path).
Proof.
  intros [H1 _ H3 _]. rewrite /usable. destruct (cache_objects (world s) !! this) as [c|] eqn:Hc; [|done].
  intros Hu. exists c. split; [done|]. destruct (is_null (db_ c)); [by left|]. right. split; [done|].
  apply orb_prop in Hu as [Ho | Hu].
  - apply (H1 this). exists c. eauto.
  - apply bool_decide_eq_true in Hu. by apply H3.
Qed.

Lemma user_opens (path : string) (create : bool) (s : State) :
  owned_once s -> exists s', perform (UserOpens path create) s = Some s' /\ owned_once s'.
Proof.
  intros [H1 H2 H3 H4]. eexists. split; [done|]. destruct (db_open_spec (engine (world s)) path create) as [_ H].
  rewrite /owned_once /=. destruct (db_open (engine (world s)) path create).2 as [h|]; [|by rewrite H].
  destruct H as (Hn & Hh & ->). split.
  - intros t h' Ht. destruct (H1 t h' Ht) as (? & [x Hx] & ?). split_and!; [done | |].
    + rewrite lookup_insert_ne //. congruence.
    + rewrite not_elem_of_union not_elem_of_singleton. split; [congruence | done].
  - done.
  - intros h' [->%elem_of_singleton | Hu]%elem_of_union.
    + by rewrite lookup_insert_eq.
    + destruct (H3 h' Hu). split; [done|]. rewrite lookup_insert_is_Some. destruct (decide (h = h')); [by left | by right].
  - intros h' [-> | [Hne Hh']]%lookup_insert_is_Some; [left; set_solver|].
    destruct (H4 h' Hh'); [left; set_solver | by right].
Qed.

Lemma user_closes (db : ptr) (s : State) :
  owned_once s -> db ∈ users s -> exists s', perform (UserCloses db) s = Some s' /\ owned_once s'.
Proof.
  intros [H1 H2 H3 H4] Hdb. destruct (H3 db Hdb) as [_ [path Hp]]. rewrite /perform Hp. cbn [mbind option_bind].
  eexists. split; [done|]. rewrite /owned_once /= (proj1 (db_close_spec _ _)). split.
  - intros t h Ht. destruct (H1 t h Ht) as (? & ? & ?). split_and!; [done | | set_solver].
    rewrite lookup_delete_ne //. by intros ->.
  - done.
  - intros h [Hh Hne]%elem_of_difference. destruct (H3 h Hh). split; [done|]. rewrite lookup_delete_ne //. set_solver.
  - intros h [Hne Hh]%lookup_delete_is_Some. destruct (H4 h Hh); [left; set_solver | by right].
Qed.

Lemma drop_cache (this : ptr) (s : State) :
  owned_once s -> alive s this = true -> exists s', perform (DropCache this) s = Some s' /\ owned_once s'.
Proof.
  rewrite /alive => Hs /bool_decide_eq_true [c Hc].
  destruct (delete_owned_accounts this c (world s) (users s) Hc Hs) as (w & Hw & Hcw & Ha).
  rewrite /perform /in_world /PotentialCache_drop Hc. cbn [mbind option_bind]. rewrite Hw. cbn [mbind option_bind].
  eexists. split; [done|]. by rewrite /owned_once /= Hcw.
Qed.

Lemma set_db_cache (this db : ptr) (s : State) :
  owned_once s -> alive s this = true -> exists s', perform (SetDb this db) s = Some s' /\ owned_once s'.
Proof.
  rewrite /alive => Hs /bool_decide_eq_true [c Hc].
  destruct (delete_owned_accounts this c (world s) (users s) Hc Hs) as (w & Hw & Hcw & Ha).
  rewrite /perform /in_world /PotentialCache_set_db Hc. cbn [mbind option_bind]. rewrite Hw. cbn [mbind option_bind].
  eexists. split; [done|]. rewrite /owned_once /= Hcw -insert_delete_eq.
  apply accounts_insert_borrower; [done | apply no_owner_deleted | done].
Qed.

Lemma make_cache (this : ptr) (s : State) :
  owned_once s -> alive s this = false ->
  (exists s', perform (MakeEmpty this) s = Some s' /\ owned_once s') /\
  forall path create, exists s', perform (MakeWithPath this path create) s = Some s' /\ owned_once s'.
Proof.
  rewrite /alive => Hs /bool_decide_eq_false Hn. apply eq_None_not_Some in Hn. split.
  - eexists. split; [done|]. apply accounts_insert_borrower; [done | intros h; by apply no_owner_absent | done].
  - intros path create. eexists. split; [done|]. rewrite /owned_once /=.
    destruct (db_open_spec (engine (world s)) path create) as [_ H].
    destruct (db_open (engine (world s)) path create).2 as [h|].
    + destruct H as (Hnull & Hh & ->). by apply accounts_insert_owner.
    + rewrite H. apply accounts_insert_borrower; [done | intros h; by apply no_owner_absent | done].
Qed.

Lemma use_cache (this : ptr) (s : State) :
  owned_once s -> usable s this = true ->
  (forall key, exists s', perform (Look this key) s = Some s' /\ owned_once s') /\
  forall key e F, forces_ok F = true -> exists s', perform (Add this key e F) s = Some s' /\ owned_once s'.
Proof.
  intros Hs Hu. destruct (usable_open s this Hs Hu) as (c & Hc & Hdb). split.
  - intros key. rewrite /perform /in_world /find Hc. cbn [mbind option_bind].
    destruct Hdb as [-> | [-> [path Hp]]].
    + eexists. split; [done|]. by apply owned_once_same.
    + rewrite Hp. eexists. split; [done|].
      apply owned_once_same; [done | done | apply (db_get_spec _ _ _ key Hp)].
  - intros key e F HF. rewrite /perform /in_world /add_serialized Hc. cbn [mbind option_bind].
    destruct Hdb as [-> | [-> [path Hp]]].
    + eexists. split; [done|]. by apply owned_once_same.
    + rewrite /forces_ok in HF. apply andb_prop in HF as [HF1 HF2].
      have -> : serialize e F = Some (entry e (m_data F)) by (apply (serialize_entry (m_rows F)); [lia | done]).
      cbn [mbind option_bind]. rewrite Hp.
      eexists. split; [done|]. apply owned_once_same; [done | done | apply (db_put_spec _ _ _ key (entry e (m_data F)) Hp)].
Qed.

Lemma perform_total (a : CacheAction) (s : State) :
  owned_once s -> permitted a s = true -> exists s', perform a s = Some s' /\ owned_once s'.
Proof.
  intros Hs Hp. destruct a; cbn [permitted] in Hp.
  - by apply user_opens.
  - apply user_closes; [done | by apply bool_decide_eq_true in Hp].
  - apply (make_cache this s Hs). by apply negb_true_iff.
  - apply (make_cache this s Hs). by apply negb_true_iff.
  - apply set_db_cache; [done|]. by apply andb_prop in Hp as [].
  - by apply (use_cache this s Hs).
  - apply andb_prop in Hp as [Hu HF]. by apply (use_cache this s Hs Hu).
  - by apply drop_cache.
Qed.

Lemma play_total (l : list CacheAction) (s : State) :
  owned_once s -> match play l s with Reached s' => owned_once s' | Undefined => False | NotPermitted => True end.
Proof.
  revert s; induction l as [|a l IH]; intros s Hs; [done|]. cbn [play].
  destruct (permitted a s) eqn:Hp; [|done].
  destruct (perform_total a s Hs Hp) as (s' & -> & Hs'). by apply IH.
Qed.

(** ** The properties *)

(** C12: The caches own their databases.  From a process without caches and databases, any
    sequence of permitted actions has defined behaviour: no database is closed twice and none
    is read or written after it is closed.  Whatever state it reaches, every open database
    belongs to the user or to exactly one cache, so none is open when all caches are
    destroyed and the user has closed its own. *)
Theorem caches_close_once (l : list CacheAction) (w : World)
    (Hcaches : cache_objects w = ∅) (Hopen : handles (engine w) = ∅) :
  match play l (MkState w ∅) with
  | Undefined => False
  | NotPermitted => True
  | Reached s =>
      (forall h, is_Some (handles (engine (world s)) !! h) -> h ∈ users s \/ exists this, owns (cache_objects (world s)) this h) /\
      (forall this this' h, owns (cache_objects (world s)) this h -> owns (cache_objects (world s)) this' h -> this = this') /\
      (cache_objects (world s) = ∅ -> users s = ∅ -> handles (engine (world s)) = ∅)
  end.
Proof.
  have Hs : owned_once (MkState w ∅).
  { rewrite /owned_once /= Hcaches Hopen. split.
    - by intros t h (c & Hc & _).
    - by intros t t' h (c & Hc & _).
    - set_solver.
    - by intros h [x Hx]. }
  have := play_total l _ Hs. destruct (play l (MkState w ∅)) as [| |s]; [done | done |].
  intros [H1 H2 H3 H4]. split_and!; [done | done |].
  intros Hc Hu. apply map_eq. intros h. rewrite lookup_empty. apply eq_None_not_Some. intros Hh.
  destruct (H4 h Hh) as [Hin | (t & c & Hin & _)]; [rewrite Hu in Hin; set_solver | by rewrite Hc in Hin].
Qed.

(** C25: A copy of a cache closes the database a second time.  Wherever a cache owns its
    database, and whatever else the process holds, copying it and destroying copy and
    original, in either order, is undefined behaviour, though either destruction alone is
    not. *)
Theorem cache_copy_closes_twice (s : State) (this copy h : ptr) (w : World)
    (Hs : owned_once s) (Howns : owns (cache_objects (world s)) this h)
    (Hfree : cache_objects (world s) !! copy = None)
    (Hcopy : PotentialCache_copy copy this (world s) = Some w) :
  is_Some (PotentialCache_drop copy w) /\ is_Some (PotentialCache_drop this w) /\
  (w ← PotentialCache_drop copy w; PotentialCache_drop this w) = None /\
  (w ← PotentialCache_drop this w; PotentialCache_drop copy w) = None.
Proof.
  destruct Hs as [H1 _ _ _]. destruct (H1 this h Howns) as (Hn & [path Hp] & _).
  destruct Howns as (c & Hc & Ho & Hd). rewrite /PotentialCache_copy Hc in Hcopy. injection Hcopy as <-.
  have Hne : copy <> this by (intros ->; congruence).
  have Hnull : is_null (db_ c) = false by (rewrite Hd; apply N.eqb_neq).
  have Hgone : forall q w', cache_objects w' !! q = Some c -> handles (engine w') !! h = None ->
    PotentialCache_drop q w' = None.
  { intros q w' Hq Hh. rewrite /PotentialCache_drop Hq. cbn [mbind option_bind].
    by rewrite /delete_owned Ho Hnull Hd Hh. }
  have Hdrop : forall q w', cache_objects w' !! q = Some c -> handles (engine w') !! h = Some path ->
    PotentialCache_drop q w' =
      Some (set_caches (delete q (cache_objects w')) (set_engine (db_close (engine w') h) w')).
  { intros q w' Hq Hh. rewrite /PotentialCache_drop Hq. cbn [mbind option_bind].
    by rewrite /delete_owned Ho Hnull Hd Hh. }
  set (w := set_caches _ _).
  have Hq : cache_objects w !! copy = Some c by rewrite /= lookup_insert_eq.
  have Ht : cache_objects w !! this = Some c by rewrite /= lookup_insert_ne.
  rewrite (Hdrop copy w Hq Hp) (Hdrop this w Ht Hp). cbn [mbind option_bind]. split_and!; [done | done | |].
  all: apply Hgone; cbn [cache_objects engine set_caches set_engine];
    [rewrite lookup_delete_ne // | rewrite (proj1 (db_close_spec _ _)) lookup_delete_eq //].
Qed.
End ownership.

(** ** A user with one database and two caches *)

Section demo.
#[local] Existing Instance map_db.

Definition empty_process : World := MkWorld (MkMapEngine ∅ ∅) ∅ (fun _ => no_objects).
Definition user_db : ptr := default null (db_open (engine empty_process) "mine" true).2.

(** The second cache first owns a database and then borrows the user's. *)
Definition cache_session : list CacheAction :=
  [UserOpens "mine" true; MakeEmpty 1%N; SetDb 1%N user_db; MakeWithPath 2%N "other" true;
   Add 2%N "key" 7 (MkAtomMatrix 1 3 [1; 2; 3]); SetDb 2%N user_db; Look 2%N "key"; DropCache 1%N;
   UserCloses user_db; SetDb 2%N null; DropCache 2%N].

Lemma caches_close_once_witness :
  match play cache_session (MkState empty_process ∅) with
  | Undefined => False
  | NotPermitted => True
  | Reached s =>
      (forall h, is_Some (handles (engine (world s)) !! h) -> h ∈ users s \/ exists this, owns (cache_objects (world s)) this h) /\
      (forall this this' h, owns (cache_objects (world s)) this h -> owns (cache_objects (world s)) this' h -> this = this') /\
      (cache_objects (world s) = ∅ -> users s = ∅ -> handles (engine (world s)) = ∅)
  end.
Proof. exact (caches_close_once cache_session empty_process eq_refl eq_refl). Defined.

(** The session is permitted to its end, which leaves nothing open. *)
Example cache_session_ends :
  match play cache_session (MkState empty_process ∅) with
  | Reached s => bool_decide (handles (engine (world s)) = ∅) && bool_decide (cache_objects (world s) = ∅)
  | _ => false
  end = true.
Proof. vm_compute. reflexivity. Qed.

Definition owner_state : State :=
  match play [MakeWithPath 2%N "other" true] (MkState empty_process ∅) with
  | Reached s => s
  | _ => MkState empty_process ∅
  end.
Definition with_copy : World := default empty_process (PotentialCache_copy 3%N 2%N (world owner_state)).

Lemma cache_copy_closes_twice_witness :
  (w ← PotentialCache_drop 3%N with_copy; PotentialCache_drop 2%N w) = None /\
  (w ← PotentialCache_drop 2%N with_copy; PotentialCache_drop 3%N w) = None.
Proof.
  refine (proj2 (proj2 (cache_copy_closes_twice owner_state 2%N 3%N user_db with_copy _ _ _ _))).
  - refine (play_total [MakeWithPath 2%N "other" true] (MkState empty_process ∅) _).
    split; [by intros t h (c & Hc & _) | by intros t t' h (c & Hc & _) | set_solver | by intros h [x Hx]].
  - exists (MkPotentialCache user_db true). split_and!; vm_compute; reflexivity.
  - vm_compute. reflexivity.
  - reflexivity.
Defined.
End demo.
