(* ===== verification/CxxAdapters.v ===== *)
(** * CxxAdapters: matrices of other libraries

    eigen.hpp and xtensor.hpp convert between [AtomMatrix] and the matrices of Eigen and
    xtensor, which are an interface here: a matrix has its dimensions and its elements, row by
    row.  The conversions are loops over rows and columns, with [int] counters for Eigen and
    [size_t] counters for xtensor; [None] is an element out of range or a counter that
    overflows.  Converting forth and back gives the same matrix. *)
From Stdlib Require Import ssreflect.
From S2P Require Import Prelude Machine CxxCore LennardJones.
Open Scope Z_scope.
#[local] Open Scope general_if_scope.

(** ** The interface *)

Class MatrixLibrary := {
  Mat : Type;
  mat_rows : Mat -> Z;
  mat_cols : Mat -> Z;
  (* the elements, row by row *)
  cells : Mat -> list f64;
  (* a matrix over a row-major array, copied, as from [Eigen::Map] *)
  from_row_major : list f64 -> Z -> Z -> Mat;
  (* [xt::zeros] *)
  zeros : Z -> Z -> Mat;
  (* [m(i, j) = x] for an element that is there *)
  set_cell : Mat -> Z -> Z -> f64 -> Mat;
  from_row_major_spec data r c :
    mat_rows (from_row_major data r c) = r /\ mat_cols (from_row_major data r c) = c /\
    cells (from_row_major data r c) = take (Z.to_nat (r * c)) data;
  zeros_spec r c :
    mat_rows (zeros r c) = r /\ mat_cols (zeros r c) = c /\
    cells (zeros r c) = replicate (Z.to_nat (r * c)) f64_zero;
  set_cell_spec m i j x : 0 <= i < mat_rows m -> 0 <= j < mat_cols m ->
    mat_rows (set_cell m i j x) = mat_rows m /\ mat_cols (set_cell m i j x) = mat_cols m /\
    cells (set_cell m i j x) = <[Z.to_nat (i * mat_cols m + j) := x]> (cells m);
}.

Section adapters.
Context {library : MatrixLibrary}.

Definition cell (m : Mat) (i j : Z) : option f64 :=
  if (0 <=? i) && (i <? mat_rows m) && (0 <=? j) && (j <? mat_cols m)
  then cells m !! Z.to_nat (i * mat_cols m + j) else None.

(** [for (int i = 0; i < n; ++i) body]: the counter must be able to reach [n]. *)
Definition with_int_counter {S} (body : Z -> S -> option S) (i : Z) (s : S) : option S :=
  if is_i32 (i + 1) then body i s else None.

(** ** eigen.hpp *)

Definition eigen_convertToAtomMatrix (matrix : Mat) : option AtomMatrix :=
  for_int (Z.to_nat (mat_rows matrix)) 0 (with_int_counter (fun i =>
    for_int (Z.to_nat (mat_cols matrix)) 0 (with_int_counter (fun j result =>
      x ← cell matrix i j; AtomMatrix_set result i j x))))
    (AtomMatrix_new (as_usize (mat_rows matrix)) (as_usize (mat_cols matrix))).

(** The map reads [rows * cols] elements behind [data()]. *)
Definition convertToEigen (atomMatrix : AtomMatrix) : option Mat :=
  if m_rows atomMatrix * m_cols atomMatrix <=? Z.of_nat (length (m_data atomMatrix)) then
    Some (from_row_major (m_data atomMatrix) (m_rows atomMatrix) (m_cols atomMatrix))
  else None.

Definition convertToEigen3d (matrix : Mat) : option Box3 :=
  x1 ← cell matrix 0 0; y1 ← cell matrix 0 1; z1 ← cell matrix 0 2;
  x2 ← cell matrix 1 0; y2 ← cell matrix 1 1; z2 ← cell matrix 1 2;
  x3 ← cell matrix 2 0; y3 ← cell matrix 2 1; z3 ← cell matrix 2 2;
  Some ((x1, y1, z1), (x2, y2, z2), (x3, y3, z3)).

(** ** xtensor.hpp *)

Definition xtensor_convertToAtomMatrix (matrix : Mat) : option AtomMatrix :=
  for_int (Z.to_nat (mat_rows matrix)) 0 (fun i =>
    for_int (Z.to_nat (mat_cols matrix)) 0 (fun j result =>
      x ← cell matrix i j; AtomMatrix_set result i j x))
    (AtomMatrix_new (mat_rows matrix) (mat_cols matrix)).

Definition convertToXtensor (atomMatrix : AtomMatrix) : option Mat :=
  for_int (Z.to_nat (m_rows atomMatrix)) 0 (fun i =>
    for_int (Z.to_nat (m_cols atomMatrix)) 0 (fun j result =>
      x ← AtomMatrix_at atomMatrix i j; Some (set_cell result i j x)))
    (zeros (m_rows atomMatrix) (m_cols atomMatrix)).

(** [convertToArray3x3] is the code of [convertToEigen3d]. *)
Definition convertToArray3x3 (matrix : Mat) : option Box3 := convertToEigen3d matrix.
End adapters.

(** ** Loops through states *)

Lemma for_int_states {S} (st : nat -> S) (body : Z -> S -> option S) (n i : nat) :
  (forall k, (i <= k < i + n)%nat -> body (Z.of_nat k) (st k) = Some (st (Datatypes.S k))) ->
  for_int n (Z.of_nat i) body (st i) = Some (st (i + n)%nat).
Proof.
  revert i; induction n as [|n IH]; intros i H; [by rewrite Nat.add_0_r|]. cbn [for_int].
  rewrite H; [|lia]. cbn [mbind option_bind].
  replace (Z.of_nat i + 1) with (Z.of_nat (Datatypes.S i)) by lia.
  rewrite IH; [|intros; apply H; lia]. f_equal. f_equal. lia.
Qed.

Lemma for_int_ext {S} (body body' : Z -> S -> option S) (n : nat) (i : Z) (s : S) :
  (forall k s, i <= k < i + Z.of_nat n -> body k s = body' k s) -> for_int n i body s = for_int n i body' s.
Proof.
  revert i s; induction n as [|n IH]; intros i s H; [done|]. cbn [for_int].
  rewrite H; [|lia]. destruct (body' i s) as [s'|]; [|done]. cbn [mbind option_bind].
  apply IH. intros k s'' Hk. apply H. lia.
Qed.

(** Rows and columns, when the cell at row [i] and column [j] leads from one state to the next. *)
Lemma nested_loops {S} (st : nat -> S) (cell_body : Z -> Z -> S -> option S) (rows cols : nat) :
  (forall i j, (i < rows)%nat -> (j < cols)%nat ->
    cell_body (Z.of_nat i) (Z.of_nat j) (st (i * cols + j)%nat) = Some (st (Datatypes.S (i * cols + j))%nat)) ->
  for_int rows 0 (fun i => for_int cols 0 (cell_body i)) (st 0%nat) = Some (st (rows * cols)%nat).
Proof.
  intros H. apply (for_int_states (fun i => st (i * cols)%nat) _ rows 0). intros i Hi.
  replace (Datatypes.S i * cols)%nat with (i * cols + (0 + cols))%nat by lia.
  rewrite -{1}(Nat.add_0_r (i * cols)).
  apply (for_int_states (fun j => st (i * cols + j)%nat) _ cols 0). intros j Hj.
  rewrite -> H by lia. by rewrite Nat.add_succ_r.
Qed.

(** The first [k] elements are there, the others are old. *)
Definition filled {A} (target old : list A) (k : nat) : list A := take k target ++ drop k old.

Lemma filled_step {A} (target old : list A) (k : nat) (x : A) :
  length target = length old -> target !! k = Some x ->
  is_Some (filled target old k !! k) /\ <[k := x]> (filled target old k) = filled target old (S k).
Proof.
  intros Hl Hx. have Hk := lookup_lt_Some _ _ _ Hx. rewrite /filled.
  have Ht : length (take k target) = k by (rewrite length_take; lia).
  split.
  - apply lookup_lt_is_Some. rewrite length_app length_take length_drop. lia.
  - destruct (lookup_lt_is_Some_2 old k ltac:(lia)) as [y Hy].
    rewrite (take_S_r _ _ x) // (drop_S old y k) // -app_assoc.
    rewrite insert_app_r_alt; [|lia]. by rewrite Ht Nat.sub_diag.
Qed.

Lemma filled_all {A} (target old : list A) (k : nat) :
  length target = length old -> k = length target -> filled target old k = target.
Proof. intros Hl ->. rewrite /filled firstn_all drop_ge ?app_nil_r //. lia. Qed.

(** ** The conversions *)

Section conversions.
Context {library : MatrixLibrary} (rows cols : nat).
Hypothesis (Hr : Z.of_nat rows < 2 ^ 31) (Hc : Z.of_nat cols < 2 ^ 31).

Lemma cell_index (i j : nat) : (i < rows)%nat -> (j < cols)%nat -> (i * cols + j < rows * cols)%nat.
Proof. nia. Qed.

Lemma index_nat (i j : nat) (data : list f64) : (i < rows)%nat -> (j < cols)%nat ->
  Z.to_nat (AtomMatrix_index (MkAtomMatrix (Z.of_nat rows) (Z.of_nat cols) data) (Z.of_nat i) (Z.of_nat j)) =
  (i * cols + j)%nat.
Proof. intros Hi Hj. rewrite /AtomMatrix_index /=. rewrite as_usize_id /is_usize; nia. Qed.

Context (m : Mat) (data : list f64).
Hypothesis (Hmr : mat_rows m = Z.of_nat rows) (Hmc : mat_cols m = Z.of_nat cols)
  (Hm : cells m = data) (Hdata : length data = (rows * cols)%nat).

Let result (k : nat) : AtomMatrix :=
  MkAtomMatrix (Z.of_nat rows) (Z.of_nat cols) (filled data (replicate (rows * cols) f64_zero) k).

Lemma cell_nat (i j : nat) : (i < rows)%nat -> (j < cols)%nat ->
  cell m (Z.of_nat i) (Z.of_nat j) = data !! (i * cols + j)%nat.
Proof.
  intros Hi Hj. rewrite /cell Hmr Hmc Hm.
  destruct (_ && _) eqn:E; [f_equal; lia | lia].
Qed.

Lemma assign_cell (i j : nat) : (i < rows)%nat -> (j < cols)%nat ->
  (x ← cell m (Z.of_nat i) (Z.of_nat j); AtomMatrix_set (result (i * cols + j)) (Z.of_nat i) (Z.of_nat j) x) =
  Some (result (S (i * cols + j))).
Proof.
  intros Hi Hj. have Hk := cell_index i j Hi Hj. rewrite cell_nat //.
  destruct (lookup_lt_is_Some_2 data (i * cols + j) ltac:(lia)) as [x Hx]. rewrite Hx. cbn [mbind option_bind].
  rewrite /AtomMatrix_set /result index_nat //. cbn [m_data m_rows m_cols].
  destruct (filled_step data (replicate (rows * cols) f64_zero) _ x ltac:(by rewrite length_replicate) Hx)
    as [[y ->] ->]. done.
Qed.

Lemma result_all : result (rows * cols) = MkAtomMatrix (Z.of_nat rows) (Z.of_nat cols) data.
Proof. rewrite /result filled_all ?length_replicate //. Qed.

Lemma xtensor_converts : xtensor_convertToAtomMatrix m = Some (MkAtomMatrix (Z.of_nat rows) (Z.of_nat cols) data).
Proof.
  rewrite /xtensor_convertToAtomMatrix Hmr Hmc !Nat2Z.id -result_all.
  replace (AtomMatrix_new _ _) with (result 0).
  - apply (nested_loops result (fun i j r => x ← cell m i j; AtomMatrix_set r i j x)). apply assign_cell.
  - have E : as_usize (Z.of_nat rows * Z.of_nat cols) = Z.of_nat (rows * cols).
    { rewrite as_usize_id /is_usize; nia. }
    by rewrite /result /AtomMatrix_new /filled E Nat2Z.id.
Qed.

Lemma eigen_converts : eigen_convertToAtomMatrix m = Some (MkAtomMatrix (Z.of_nat rows) (Z.of_nat cols) data).
Proof.
  rewrite -xtensor_converts /eigen_convertToAtomMatrix /xtensor_convertToAtomMatrix Hmr Hmc !Nat2Z.id.
  rewrite -> !as_usize_id by (rewrite /is_usize; lia).
  apply for_int_ext. intros i r Hi. rewrite /with_int_counter.
  replace (is_i32 (i + 1)) with true by (rewrite /is_i32; lia).
  apply for_int_ext. intros j r' Hj. by replace (is_i32 (j + 1)) with true by (rewrite /is_i32; lia).
Qed.
End conversions.

(** The xtensor that [convertToXtensor] has after [k] elements. *)
Section to_xtensor.
Context {library : MatrixLibrary} (rows cols : nat) (data : list f64).
Hypothesis (Hr : Z.of_nat rows < 2 ^ 31) (Hc : Z.of_nat cols < 2 ^ 31) (Hdata : length data = (rows * cols)%nat).

Fixpoint xtensor_after (k : nat) : Mat :=
  match k with
  | O => zeros (Z.of_nat rows) (Z.of_nat cols)
  | S k => set_cell (xtensor_after k) (Z.of_nat (k / cols)) (Z.of_nat (k mod cols)) (nth k data f64_zero)
  end.

Lemma xtensor_after_cells (k : nat) : (k <= rows * cols)%nat ->
  mat_rows (xtensor_after k) = Z.of_nat rows /\ mat_cols (xtensor_after k) = Z.of_nat cols /\
  cells (xtensor_after k) = filled data (replicate (rows * cols) f64_zero) k.
Proof.
  induction k as [|k IH]; intros Hk.
  - destruct (zeros_spec (Z.of_nat rows) (Z.of_nat cols)) as (E1 & E2 & E3). split_and!; [done | done |].
    cbn [xtensor_after]. by rewrite E3 /filled take_0 drop_0 -Nat2Z.inj_mul Nat2Z.id.
  - destruct (IH ltac:(lia)) as (E1 & E2 & E3).
    have Hcols : (0 < cols)%nat by nia.
    have Hq : (k / cols < rows)%nat by (apply Nat.Div0.div_lt_upper_bound; lia).
    have Hm := Nat.mod_upper_bound k cols ltac:(lia).
    have Hdm := Nat.div_mod_eq k cols.
    destruct (set_cell_spec (xtensor_after k) (Z.of_nat (k / cols)) (Z.of_nat (k mod cols)) (nth k data f64_zero))
      as (F1 & F2 & F3); [lia | lia |].
    cbn [xtensor_after]. rewrite F1 F2 F3 E1 E2 E3. split_and!; [done | done |].
    replace (Z.to_nat _) with k by nia.
    apply filled_step; [by rewrite length_replicate|].
    destruct (nth_lookup_or_length data k f64_zero) as [|]; [done | lia].
Qed.

Lemma convertToXtensor_eq :
  convertToXtensor (MkAtomMatrix (Z.of_nat rows) (Z.of_nat cols) data) = Some (xtensor_after (rows * cols)).
Proof.
  rewrite /convertToXtensor. cbn [m_rows m_cols]. rewrite !Nat2Z.id.
  apply (nested_loops xtensor_after (fun i j r =>
    x ← AtomMatrix_at (MkAtomMatrix (Z.of_nat rows) (Z.of_nat cols) data) i j; Some (set_cell r i j x))).
  intros i j Hi Hj. have Hk := cell_index rows cols i j Hi Hj.
  rewrite /AtomMatrix_at (index_nat rows cols Hr Hc i j data Hi Hj). cbn [m_data].
  destruct (nth_lookup_or_length data (i * cols + j) f64_zero) as [-> |]; [|lia].
  cbn [mbind option_bind xtensor_after].
  rewrite (Nat.add_comm (i * cols) j) Nat.div_add; [|lia]. rewrite (Nat.div_small j) // Nat.Div0.mod_add.
  by rewrite (Nat.mod_small j).
Qed.
End to_xtensor.

Section round_trip.
Context {library : MatrixLibrary} (m : AtomMatrix).

(** The dimensions belong to the data, and an [int] can count them. *)
Definition fits : bool :=
  (0 <=? m_rows m) && (m_rows m <? 2 ^ 31) && (0 <=? m_cols m) && (m_cols m <? 2 ^ 31) &&
  (Z.of_nat (length (m_data m)) =? m_rows m * m_cols m).

(** To Eigen or xtensor and back. *)
Theorem matrices_round_trip (Hm : fits = true) :
  (e ← convertToEigen m; eigen_convertToAtomMatrix e) = Some m /\
  (x ← convertToXtensor m; xtensor_convertToAtomMatrix x) = Some m.
Proof.
  rewrite /fits in Hm.
  destruct m as [r c data]. cbn [m_rows m_cols m_data] in *.
  have Hr : r = Z.of_nat (Z.to_nat r) by lia. have Hc : c = Z.of_nat (Z.to_nat c) by lia.
  set (rows := Z.to_nat r) in *. set (cols := Z.to_nat c) in *.
  have Hd : length data = (rows * cols)%nat by lia.
  split.
  - rewrite /convertToEigen. cbn [m_rows m_cols m_data].
    replace (r * c <=? Z.of_nat (length data)) with true by lia. cbn [mbind option_bind].
    destruct (from_row_major_spec data r c) as (E1 & E2 & E3). rewrite Hr Hc in E1 E2.
    rewrite Hr Hc. rewrite (eigen_converts rows cols _ _ _ data E1 E2); try lia; [done|].
    rewrite -Hr -Hc E3. apply take_ge. lia.
  - rewrite Hr Hc. rewrite convertToXtensor_eq; try lia. cbn [mbind option_bind].
    destruct (xtensor_after_cells rows cols data Hd (rows * cols) (le_n _)) as (E1 & E2 & E3).
    rewrite filled_all in E3; [|by rewrite length_replicate | done].
    rewrite (xtensor_converts rows cols _ _ _ data E1 E2 E3); try lia. by rewrite -Hr -Hc.
Qed.
End round_trip.

(** A library whose matrices are their dimensions and elements. *)
Program Definition plain_matrices : MatrixLibrary := {|
  Mat := Z * Z * list f64;
  mat_rows m := m.1.1;
  mat_cols m := m.1.2;
  cells m := m.2;
  from_row_major data r c := ((r, c), take (Z.to_nat (r * c)) data);
  zeros r c := ((r, c), replicate (Z.to_nat (r * c)) f64_zero);
  set_cell m i j x := (m.1, <[Z.to_nat (i * m.1.2 + j) := x]> m.2);
|}.
Next Obligation. done. Qed.
Next Obligation. done. Qed.
Next Obligation. done. Qed.

Lemma matrices_round_trip_witness :
  (e ← convertToEigen (library := plain_matrices) (MkAtomMatrix 2 3 [1; 2; 3; 4; 5; 6]);
   eigen_convertToAtomMatrix (library := plain_matrices) e) = Some (MkAtomMatrix 2 3 [1; 2; 3; 4; 5; 6]) /\
  (x ← convertToXtensor (library := plain_matrices) (MkAtomMatrix 2 3 [1; 2; 3; 4; 5; 6]);
   xtensor_convertToAtomMatrix (library := plain_matrices) x) = Some (MkAtomMatrix 2 3 [1; 2; 3; 4; 5; 6]).
Proof.
  exact (matrices_round_trip (library := plain_matrices) (MkAtomMatrix 2 3 [1; 2; 3; 4; 5; 6]) eq_refl).
Defined.
