(* ===== verification/CxxUnitTests.v ===== *)
(** * CxxUnitTests: the tests of the C++ core as programs of the model

    Those test cases of src/CppCore/tests that need neither a network nor random numbers, line
    by line.  [Some true] is a test that passes, [None] is undefined behaviour.  The matchers
    are those of Catch2; a comparison by [Approx] is an equality here, which is stricter. *)
From Stdlib Require Import ssreflect.
From S2P Require Import Prelude Machine FloatArith CxxEffects CxxRegistry CxxCore CxxCoreTheorems CxxServer.
From S2P Require Import LennardJones Cuh2Utils Cuh2UtilsTheorems.
Open Scope Z_scope.
#[local] Open Scope general_if_scope.

Section tests.
(** [x] to the sixth power; the tests use no other. *)
Definition pow6 (x _ : f64) : f64 :=
  let times := fmul (Arithmetic := binary64 (fun x _ => x)) in
  let square := times x x in times (times square square) square.
#[local] Instance doubles : Arithmetic := binary64 pow6.

(** [WithinAbs(target, margin)]. *)
Definition within_abs (x target margin : f64) : bool :=
  fleb target (fadd x margin) && fleb x (fadd target margin).

Definition ratio (a b : Z) : f64 := fdiv (of_Z a) (of_Z b).
Definition margin_4 : f64 := ratio 1 10000.
Definition margin_12 : f64 := ratio 1 (10 ^ 12).

(** [REQUIRE_THROWS_AS(..., std::runtime_error)]. *)
Definition throws_runtime_error {A} (x : option (Throws A)) : option bool :=
  (fun r => match r with Ok _ => false | Err _ => true end) <$> x.

(** ** cuh2UtilsTest.cc *)

Definition matrix_row (x y z : f64) : Row := (x, y, z).
Definition row_of (x y z : Z) : Row := matrix_row (of_Z x) (of_Z y) (of_Z z).
Definition norm : Row -> f64 := norm64.

Definition perturb_positions_correctly_perturbs : option bool :=
  let base_positions := [row_of 0 0 0; row_of 1 0 0; matrix_row (ratio 1 2) (ratio 1 2) (of_Z 2)] in
  let hcu_dist := ratio 3 2 in
  let hh_dist := of_Z 1 in
  r ← perturb_positions norm base_positions [1; 1; 29] hcu_dist hh_dist;
  match r with
  | Err _ => Some false
  | Ok perturbed_positions =>
      p ← perturbed_positions !! 0%nat; q ← perturbed_positions !! 1%nat;
      Some (within_abs (row_z p) (fadd (of_Z 2) hcu_dist) margin_4 &&
            within_abs (row_z q) (fadd (of_Z 2) hcu_dist) margin_4 &&
            within_abs (norm (zip_rows fsub p q)) hh_dist margin_4)
  end.
Example perturb_positions_test : perturb_positions_correctly_perturbs = Some true.
Proof. vm_compute. reflexivity. Qed.

Definition calculateDistances_correctly : option bool :=
  let positions := [row_of 0 0 3; row_of 1 0 3; matrix_row (ratio 1 2) (ratio 1 2) (of_Z 2)] in
  r ← calculateDistances norm positions [1; 1; 29];
  match r with
  | Err _ => Some false
  | Ok (first, second) => Some (within_abs first (of_Z 1) margin_4 && within_abs second (of_Z 1) margin_4)
  end.
Example calculateDistances_test : calculateDistances_correctly = Some true.
Proof. vm_compute. reflexivity. Qed.

Definition perturb_positions_throws : option bool :=
  throws_runtime_error (perturb_positions norm [row_of 0 0 0; row_of 1 0 0] [1; 30] (ratio 3 2) (of_Z 1)).
Example perturb_positions_throws_test : perturb_positions_throws = Some true.
Proof. reflexivity. Qed.

Definition calculateDistances_throws : option bool :=
  throws_runtime_error
    (calculateDistances norm [row_of 0 0 3; matrix_row (ratio 1 2) (ratio 1 2) (of_Z 2)] [1; 29]).
Example calculateDistances_throws_test : calculateDistances_throws = Some true.
Proof. reflexivity. Qed.

(** ** CapnpAdapterTest.cc *)

(** [pos(i, j) = x] for several elements. *)
Fixpoint set_cells (cells : list (Z * Z * f64)) (m : AtomMatrix) : option AtomMatrix :=
  match cells with
  | [] => Some m
  | (i, j, x) :: cells => m ← AtomMatrix_set m i j x; set_cells cells m
  end.
Fixpoint cells_are (cells : list (Z * Z * f64)) (m : AtomMatrix) : bool :=
  match cells with
  | [] => true
  | (i, j, x) :: cells => bool_decide (AtomMatrix_at m i j = Some x) && cells_are cells m
  end.

Definition position_conversion : option bool :=
  let cells := [(0, 0, of_Z 1); (0, 1, of_Z 2); (0, 2, of_Z 3);
                (1, 0, of_Z 4); (1, 1, of_Z 5); (1, 2, of_Z 6)] in
  nativePos ← set_cells cells (AtomMatrix_new 2 3);
  builder ← populatePositionsToCapnp (init_elements 6) nativePos;
  convertedPos ← convertPositionsFromCapnp builder 2;
  Some ((m_rows convertedPos =? 2) && cells_are cells convertedPos).
Example position_conversion_test : position_conversion = Some true.
Proof. vm_compute. reflexivity. Qed.

Definition box_matrix_conversion : option bool :=
  let nativeBox := ((of_Z 10, of_Z 0, of_Z 0), (of_Z 0, of_Z 20, of_Z 0), (of_Z 0, of_Z 0, of_Z 30)) in
  builder ← populateBoxMatrixToCapnp (init_elements 9) nativeBox;
  convertedBox ← convertBoxMatrixFromCapnp builder;
  Some (bool_decide (convertedBox = nativeBox)).
Example box_matrix_conversion_test : box_matrix_conversion = Some true.
Proof. vm_compute. reflexivity. Qed.

Definition atom_types_conversion : option bool :=
  builder ← populateAtomNumbersToCapnp (init_elements 2) [29; 1];
  converted ← convertAtomNumbersFromCapnp builder;
  Some (bool_decide (converted = [29; 1])).
Example atom_types_conversion_test : atom_types_conversion = Some true.
Proof. vm_compute. reflexivity. Qed.

(** ** BridgeStressTest.cc, the sections "Handle NULL gracefully" and "Lazy Connection Failure" *)

Definition handle_null_gracefully : option bool :=
  let client := pot_client_init (fun _ => true) None 9999 in
  _ ← pot_client_free null ∅;
  r ← pot_calculate (fun (_ : string) (_ : Fip) (w : unit) => None) None 1 [0; 0; 0] [1]
        (flatBox (rows (of_Z 1))) (MkOutputs 0 [0; 0; 0]) tt;
  Some (bool_decide (client = None) && negb (r.1.1.1 =? 0)).
Example handle_null_test : handle_null_gracefully = Some true.
Proof. reflexivity. Qed.

(** The host is unknown: the client is made, and its calls throw. *)
Definition lazy_connection_failure : option bool :=
  match pot_client_init (fun _ => true) (Some "invalid_host_xyz"%string) 9999 with
  | None => Some false
  | Some client =>
      r ← pot_calculate (fun (address : string) (_ : Fip) (w : unit) =>
              Some (Err (StdException ("DNS lookup failed: " +:+ address)), w))
            (Some client) 1 [0; 0; 0] [1] (flatBox (rows (of_Z 1))) (MkOutputs 0 [0; 0; 0]) tt;
      clients ← pot_client_free 1%N {[ 1%N := client ]};
      Some (negb (r.1.1.1 =? 0) && bool_decide (clients = ∅))
  end.
Example lazy_connection_test : lazy_connection_failure = Some true.
Proof. vm_compute. reflexivity. Qed.

(** ** InvarianceTest.cc

    The test case with [RGPOT_HAS_CACHE], for an object [pot] of the potential; [c] and [s]
    are the cosine and the sine of the angle in libm. *)
#[local] Existing Instance map_db.

Definition rotate_z (pos : AtomMatrix) (c s : f64) : option AtomMatrix :=
  for_int (Z.to_nat (m_rows pos)) 0 (fun i pos =>
    x ← AtomMatrix_at pos i 0; y ← AtomMatrix_at pos i 1;
    pos ← AtomMatrix_set pos i 0 (fsub (fmul x c) (fmul y s));
    AtomMatrix_set pos i 1 (fadd (fmul x s) (fmul y c))) pos.

Definition translate (pos : AtomMatrix) (d : f64) : option AtomMatrix :=
  for_int (Z.to_nat (m_rows pos)) 0 (fun i pos =>
    for_int 3 0 (fun j pos => x ← AtomMatrix_at pos i j; AtomMatrix_set pos i j (fadd x d)) pos) pos.

(** The baseline, a change of the positions, and the second evaluation. *)
Definition invariance (pot : LJPot) (move : AtomMatrix -> option AtomMatrix) : option bool :=
  w ← PotentialCache_open 1%N "/tmp/rgpot_test_invariance" true
        (MkWorld (MkMapEngine ∅ ∅) ∅ (fun _ => no_objects));
  let call := evaluate_cached demo_hash (fun _ => LJPot_forceImpl pow6 pot) (MkPotential LJ 1%N) in
  pos ← set_cells [(0, 0, of_Z 0); (0, 1, of_Z 0); (0, 2, of_Z 0);
                   (1, 0, ratio 3 2); (1, 1, of_Z 0); (1, 2, of_Z 0)] (AtomMatrix_new 2 3);
  let box := rows (of_Z 10) in
  r_base ← call pos [1; 1] box w;
  pos ← move pos;
  r_moved ← call pos [1; 1] box r_base.2;
  Some (match r_base.1, r_moved.1 with
        | Ok (e_base, _), Ok (e_moved, _) =>
            (forceCalls (registries r_base.2 LJ) =? 1) && within_abs e_moved e_base margin_12 &&
            (forceCalls (registries r_moved.2 LJ) =? 2)
        | _, _ => false
        end).

(** The object of the test has no value for its shift: the test has undefined behaviour. *)
Example invariance_test_is_undefined : invariance LJPot_new (fun pos => translate pos (of_Z 5)) = None.
Proof. vm_compute. reflexivity. Qed.

(** With a value it passes, for the translation and for the rotation. *)
Definition initialised : LJPot := MkLJPot (of_Z 1) (of_Z 15) (of_Z 1) (Some 0).
Definition cos_half_pi : f64 := 0x3c91a62633145c07.

Example global_translation : invariance initialised (fun pos => translate pos (of_Z 5)) = Some true.
Proof. vm_compute. reflexivity. Qed.
Example global_rotation : invariance initialised (fun pos => rotate_z pos cos_half_pi (of_Z 1)) = Some true.
Proof. vm_compute. reflexivity. Qed.
End tests.
